(** * Streaming hash engines of Chocobo1/Hash: a shallow embedding

    The seven header files of the library (md5.h, md2.h, has_160.h,
    ripemd_160.h, blake1_224.h, blake2.h, whirlpool.h) share one structure:
    a byte accumulator [m_buffer], a block processor [addDataImpl], a
    finalizer [finalize] and a digest extractor [toVector]/[toString].

    Conventions of the embedding:
    - a [uint8_t], [uint32_t] or [uint64_t] is a [Z] in its range; every
      operation that can leave the range is followed by its wrap-around;
    - a [std::vector<Byte>] or [gsl::span<const Byte>] is a [list Z];
    - a C array is a [list Z] read with [nth] and written with [upd];
    - [size_t] quantities that are lengths are [nat]. *)

From Stdlib Require Import String Ascii ZArith Arith Bool List Lia.
Import ListNotations.
Local Open Scope Z_scope.

(** ** Machine words *)

Definition wrap (bits : Z) (x : Z) : Z := x mod 2 ^ bits.

Definition add32 (x y : Z) : Z := wrap 32 (x + y).
Definition add64 (x y : Z) : Z := wrap 64 (x + y).
Definition not32 (x : Z) : Z := wrap 32 (Z.lnot x).
Definition not64 (x : Z) : Z := wrap 64 (Z.lnot x).
Definition shl32 (x s : Z) : Z := wrap 32 (Z.shiftl x s).
Definition shl64 (x s : Z) : Z := wrap 64 (Z.shiftl x s).

(** [template <typename R, typename T> R ror(const T x, const unsigned s)]:
    [(x >> s) & mask] where [mask] is the all-ones value of [R]. *)
Definition ror (Rbits : Z) (x s : Z) : Z := Z.land (Z.shiftr x s) (Z.ones Rbits).

(** [rotl] and [rotr] on 32-bit and 64-bit words, with the [s == 0] guard
    of the source. *)
Definition rotl32 (x s : Z) : Z :=
  if s =? 0 then x else Z.lor (shl32 x s) (Z.shiftr x (32 - s)).
Definition rotr32 (x s : Z) : Z :=
  if s =? 0 then x else Z.lor (Z.shiftr x s) (shl32 x (32 - s)).
Definition rotr64 (x s : Z) : Z :=
  if s =? 0 then x else Z.lor (Z.shiftr x s) (shl64 x (64 - s)).

(** ** Arrays and spans *)

Fixpoint upd {A : Type} (i : nat) (v : A) (l : list A) : list A :=
  match l, i with
  | [], _ => []
  | _ :: t, O => v :: t
  | h :: t, S j => h :: upd j v t
  end.

Definition at_ (l : list Z) (i : nat) : Z := nth i l 0.

(** [data.data() + (i * BLOCK_SIZE)] viewed as one block of [B] bytes. *)
Definition block (B : nat) (i : nat) (data : list Z) : list Z :=
  firstn B (skipn (i * B) data).

(** The loop [for (i = 0; i < data.size() / BLOCK_SIZE; ++i)] that every
    [addDataImpl] runs over the blocks of its argument. *)
Definition process_blocks {H : Type} (B : nat) (compress : H -> list Z -> H)
    (h : H) (data : list Z) : H :=
  fold_left (fun h i => compress h (block B i data))
            (seq 0 (length data / B)) h.

(** [Loader<uint32_t>] of md5.h, has_160.h and ripemd_160.h (little endian). *)
Definition load32le (p : list Z) (idx : nat) : Z :=
  Z.lor (Z.lor (Z.lor (Z.shiftl (at_ p (4 * idx + 0)) 0)
                      (Z.shiftl (at_ p (4 * idx + 1)) 8))
               (Z.shiftl (at_ p (4 * idx + 2)) 16))
        (Z.shiftl (at_ p (4 * idx + 3)) 24).

(** [Loader<uint32_t>] of blake1_224.h (big endian). *)
Definition load32be (p : list Z) (idx : nat) : Z :=
  Z.lor (Z.lor (Z.lor (Z.shiftl (at_ p (4 * idx + 0)) 24)
                      (Z.shiftl (at_ p (4 * idx + 1)) 16))
               (Z.shiftl (at_ p (4 * idx + 2)) 8))
        (Z.shiftl (at_ p (4 * idx + 3)) 0).

(** [Loader<uint64_t>] of blake2.h (little endian). *)
Definition load64le (p : list Z) (idx : nat) : Z :=
  fold_left (fun acc j => Z.lor acc (Z.shiftl (at_ p (8 * idx + j)) (8 * Z.of_nat j)))
            (seq 0 8) 0.

(** [Loader<uint64_t>] of whirlpool.h (big endian). *)
Definition load64be (p : list Z) (idx : nat) : Z :=
  fold_left (fun acc j => Z.lor acc (Z.shiftl (at_ p (8 * idx + j)) (56 - 8 * Z.of_nat j)))
            (seq 0 8) 0.

(** ** Digest serialisation *)

(** The inner loop of [toVector]: [for (j = 0; j < dataSize; ++j)
    ret.emplace_back(ror<Byte>(i, j * 8))]. *)
Definition bytes_le (dataSize : nat) (w : Z) : list Z :=
  map (fun j => ror 8 w (Z.of_nat j * 8)) (seq 0 dataSize).

(** The inner loop [for (j = dataSize - 1; j >= 0; --j)] of blake1_224.h and
    whirlpool.h. *)
Definition bytes_be (dataSize : nat) (w : Z) : list Z :=
  map (fun j => ror 8 w (Z.of_nat j * 8)) (rev (seq 0 dataSize)).

(** The number a byte string encodes, least significant byte first and
    most significant byte first. *)
Definition le_value (bytes : list Z) : Z :=
  fold_right (fun b acc => b + 256 * acc) 0 bytes.
Definition be_value (bytes : list Z) : Z :=
  fold_left (fun acc b => acc * 256 + b) bytes 0.

(** The last [k] elements of a list. *)
Definition lastn {A} (k : nat) (l : list A) : list A := skipn (length l - k) l.

Definition hex_digit (n : Z) : ascii :=
  nth (Z.to_nat n)
      ["0"; "1"; "2"; "3"; "4"; "5"; "6"; "7"; "8"; "9"; "a"; "b"; "c"; "d"; "e"; "f"]%char
      "?"%char.

(** [snprintf(buf, sizeof(buf), "%02x", i)] on one byte. *)
Definition hex2 (b : Z) : string :=
  String (hex_digit (b / 16)) (String (hex_digit (b mod 16)) EmptyString).

(** The body shared by every [toString]. *)
Definition hex_of_bytes (v : list Z) : string :=
  fold_left (fun ret i => String.append ret (hex2 i)) v EmptyString.

(** Bytes of a string literal, for test messages. *)
Fixpoint bytes_of_string (s : string) : list Z :=
  match s with
  | EmptyString => []
  | String c r => Z.of_nat (nat_of_ascii c) :: bytes_of_string r
  end.

(** ** The accumulating byte sink

    An instance is its accumulator together with the algorithm-specific
    members (size counter and state words). *)

Record sink (C : Type) : Type := Sink { m_buffer : list Z; m_core : C }.
Arguments Sink {C} _ _.
Arguments m_buffer {C} _.
Arguments m_core {C} _.

Definition clear {C} (st : sink C) : sink C := Sink [] (m_core st).

Module Accumulator.
Section Def.
Context {C : Type}.
Variable BLOCK_SIZE : nat.
Variable addDataImpl : C -> list Z -> C.

(** [addData(const Span<const Byte> inData)] as written, word for word the
    same, in md5.h:198, md2.h:124, has_160.h:193, ripemd_160.h:193,
    blake1_224.h:195 and whirlpool.h:383.  [m_buffer.size()] never
    exceeds [BLOCK_SIZE] on an instance built from a fresh one, so the
    [size_t] subtraction does not wrap.

    [bulk] is the second half of the function, from
    [const size_t dataSize = data.size();] on. *)
Definition bulk (st : sink C) (data : list Z) : sink C :=
  let dataSize := length data in
  if (dataSize <? BLOCK_SIZE)%nat then Sink data (m_core st)
  else
    let len := (dataSize - dataSize mod BLOCK_SIZE)%nat in
    let st := Sink (m_buffer st) (addDataImpl (m_core st) (firstn len data)) in
    if (len <? dataSize)%nat then Sink (skipn len data) (m_core st) else st.

Definition addData (st : sink C) (inData : list Z) : sink C :=
  let data := inData in
  match m_buffer st with
  | [] => bulk st data
  | _ :: _ =>
      let len := Nat.min (BLOCK_SIZE - length (m_buffer st)) (length data) in
      let st := Sink (m_buffer st ++ firstn len data) (m_core st) in
      if (length (m_buffer st) <? BLOCK_SIZE)%nat then st
      else
        let st := Sink (m_buffer st) (addDataImpl (m_core st) (m_buffer st)) in
        let st := clear st in
        bulk st (skipn len data)
  end.

(** What an instance holds once it has consumed the message [msg]: the
    complete blocks of [msg] have gone through the block processor
    ([processed] gives the members that result), the trailing
    [length msg mod BLOCK_SIZE] bytes wait in the accumulator. *)
Definition whole (msg : list Z) : nat := (length msg / BLOCK_SIZE * BLOCK_SIZE)%nat.

Definition absorbed (processed : list Z -> C) (msg : list Z) : sink C :=
  Sink (skipn (whole msg) msg) (processed (firstn (whole msg) msg)).
End Def.
End Accumulator.

(** Two ways an accumulator can stand after the message [msg]:
    - [keeps_partial_block]: it holds the [length msg mod B] trailing bytes,
      every complete block has been processed;
    - [keeps_last_block]: it holds the last one to [B] bytes -- a whole
      block when [length msg] is a multiple of [B] -- and only the blocks
      before them have been processed. *)
Definition keeps_partial_block {C} (B : nat) (processed : list Z -> C)
    (st : sink C) (msg : list Z) : Prop :=
  let r := (length msg mod B)%nat in
  m_buffer st = lastn r msg /\ m_core st = processed (firstn (length msg - r) msg).

Definition keeps_last_block {C} (B : nat) (processed : list Z -> C)
    (st : sink C) (msg : list Z) : Prop :=
  let r := if (length msg mod B =? 0)%nat then B else (length msg mod B)%nat in
  m_buffer st = lastn r msg /\ m_core st = processed (firstn (length msg - r) msg).

(** Feeding a message in several [addData] calls. *)
Definition feed {T : Type} (addData : T -> list Z -> T) (fresh : T)
    (chunks : list (list Z)) : T :=
  fold_left addData chunks fresh.

(** The instances an API user can obtain: a constructed instance, and any
    instance after [addData], [finalize] or [reset]. *)
Inductive reachable {T : Type} (fresh : T) (addData : T -> list Z -> T)
    (finalize reset : T -> T) : T -> Prop :=
| reach_fresh : reachable fresh addData finalize reset fresh
| reach_addData st d :
    reachable fresh addData finalize reset st ->
    reachable fresh addData finalize reset (addData st d)
| reach_finalize st :
    reachable fresh addData finalize reset st ->
    reachable fresh addData finalize reset (finalize st)
| reach_reset st :
    reachable fresh addData finalize reset st ->
    reachable fresh addData finalize reset (reset st).

(** ** MD5 (md5.h) *)

Module MD5.
Definition BLOCK_SIZE : nat := 64.

Record members : Type := Members { m_sizeCounter : Z; m_state : list Z }.
Definition t : Type := sink members.

Definition f (x y z : Z) : Z := Z.lxor (Z.land x (Z.lxor y z)) z.
Definition g (x y z : Z) : Z := Z.lxor y (Z.land (Z.lxor x y) z).
Definition h (x y z : Z) : Z := Z.lxor (Z.lxor x y) z.
Definition ii (x y z : Z) : Z := Z.lxor y (Z.lor x (not32 z)).

(** The locals [a], [b], [c], [d] of [addDataImpl]. *)
Record regs : Type := Regs { a : Z; b : Z; c : Z; d : Z }.
Inductive reg : Type := Ra | Rb | Rc | Rd.
Definition get (r : reg) (v : regs) : Z :=
  match r with Ra => a v | Rb => b v | Rc => c v | Rd => d v end.
Definition set (r : reg) (x : Z) (v : regs) : regs :=
  match r with
  | Ra => Regs x (b v) (c v) (d v)
  | Rb => Regs (a v) x (c v) (d v)
  | Rc => Regs (a v) (b v) x (d v)
  | Rd => Regs (a v) (b v) (c v) x
  end.

(** One call [round(a, b, c, d, func, k, s, t)]; the four registers are
    passed by reference and only the first is written:
    [a = b + rotl((a + func(b, c, d) + x[k] + t), s)]. *)
Inductive call : Type :=
  Round (ra rb rc rd : reg) (func : Z -> Z -> Z -> Z) (k : nat) (s t : Z).

Definition round (x : nat -> Z) (v : regs) (cl : call) : regs :=
  let '(Round ra rb rc rd func k s t) := cl in
  set ra (add32 (get rb v)
                (rotl32 (add32 (add32 (add32 (get ra v)
                                             (func (get rb v) (get rc v) (get rd v)))
                                      (x k)) t) s)) v.

(** The 64 calls of md5.h:275-341, in program order. *)
Definition calls : list call := [
  Round Ra Rb Rc Rd f 0 7 0xd76aa478;
  Round Rd Ra Rb Rc f 1 12 0xe8c7b756;
  Round Rc Rd Ra Rb f 2 17 0x242070db;
  Round Rb Rc Rd Ra f 3 22 0xc1bdceee;
  Round Ra Rb Rc Rd f 4 7 0xf57c0faf;
  Round Rd Ra Rb Rc f 5 12 0x4787c62a;
  Round Rc Rd Ra Rb f 6 17 0xa8304613;
  Round Rb Rc Rd Ra f 7 22 0xfd469501;
  Round Ra Rb Rc Rd f 8 7 0x698098d8;
  Round Rd Ra Rb Rc f 9 12 0x8b44f7af;
  Round Rc Rd Ra Rb f 10 17 0xffff5bb1;
  Round Rb Rc Rd Ra f 11 22 0x895cd7be;
  Round Ra Rb Rc Rd f 12 7 0x6b901122;
  Round Rd Ra Rb Rc f 13 12 0xfd987193;
  Round Rc Rd Ra Rb f 14 17 0xa679438e;
  Round Rb Rc Rd Ra f 15 22 0x49b40821;
  Round Ra Rb Rc Rd g 1 5 0xf61e2562;
  Round Rd Ra Rb Rc g 6 9 0xc040b340;
  Round Rc Rd Ra Rb g 11 14 0x265e5a51;
  Round Rb Rc Rd Ra g 0 20 0xe9b6c7aa;
  Round Ra Rb Rc Rd g 5 5 0xd62f105d;
  Round Rd Ra Rb Rc g 10 9 0x02441453;
  Round Rc Rd Ra Rb g 15 14 0xd8a1e681;
  Round Rb Rc Rd Ra g 4 20 0xe7d3fbc8;
  Round Ra Rb Rc Rd g 9 5 0x21e1cde6;
  Round Rd Ra Rb Rc g 14 9 0xc33707d6;
  Round Rc Rd Ra Rb g 3 14 0xf4d50d87;
  Round Rb Rc Rd Ra g 8 20 0x455a14ed;
  Round Ra Rb Rc Rd g 13 5 0xa9e3e905;
  Round Rd Ra Rb Rc g 2 9 0xfcefa3f8;
  Round Rc Rd Ra Rb g 7 14 0x676f02d9;
  Round Rb Rc Rd Ra g 12 20 0x8d2a4c8a;
  Round Ra Rb Rc Rd h 5 4 0xfffa3942;
  Round Rd Ra Rb Rc h 8 11 0x8771f681;
  Round Rc Rd Ra Rb h 11 16 0x6d9d6122;
  Round Rb Rc Rd Ra h 14 23 0xfde5380c;
  Round Ra Rb Rc Rd h 1 4 0xa4beea44;
  Round Rd Ra Rb Rc h 4 11 0x4bdecfa9;
  Round Rc Rd Ra Rb h 7 16 0xf6bb4b60;
  Round Rb Rc Rd Ra h 10 23 0xbebfbc70;
  Round Ra Rb Rc Rd h 13 4 0x289b7ec6;
  Round Rd Ra Rb Rc h 0 11 0xeaa127fa;
  Round Rc Rd Ra Rb h 3 16 0xd4ef3085;
  Round Rb Rc Rd Ra h 6 23 0x04881d05;
  Round Ra Rb Rc Rd h 9 4 0xd9d4d039;
  Round Rd Ra Rb Rc h 12 11 0xe6db99e5;
  Round Rc Rd Ra Rb h 15 16 0x1fa27cf8;
  Round Rb Rc Rd Ra h 2 23 0xc4ac5665;
  Round Ra Rb Rc Rd ii 0 6 0xf4292244;
  Round Rd Ra Rb Rc ii 7 10 0x432aff97;
  Round Rc Rd Ra Rb ii 14 15 0xab9423a7;
  Round Rb Rc Rd Ra ii 5 21 0xfc93a039;
  Round Ra Rb Rc Rd ii 12 6 0x655b59c3;
  Round Rd Ra Rb Rc ii 3 10 0x8f0ccc92;
  Round Rc Rd Ra Rb ii 10 15 0xffeff47d;
  Round Rb Rc Rd Ra ii 1 21 0x85845dd1;
  Round Ra Rb Rc Rd ii 8 6 0x6fa87e4f;
  Round Rd Ra Rb Rc ii 15 10 0xfe2ce6e0;
  Round Rc Rd Ra Rb ii 6 15 0xa3014314;
  Round Rb Rc Rd Ra ii 13 21 0x4e0811a1;
  Round Ra Rb Rc Rd ii 4 6 0xf7537e82;
  Round Rd Ra Rb Rc ii 11 10 0xbd3af235;
  Round Rc Rd Ra Rb ii 2 15 0x2ad7d2bb;
  Round Rb Rc Rd Ra ii 9 21 0xeb86d391
].

(** One iteration of the block loop of [addDataImpl]. *)
Definition compress (st : list Z) (blk : list Z) : list Z :=
  let x := load32le blk in
  let v := Regs (at_ st 0) (at_ st 1) (at_ st 2) (at_ st 3) in
  let v := fold_left (round x) calls v in
  [ add32 (at_ st 0) (a v); add32 (at_ st 1) (b v);
    add32 (at_ st 2) (c v); add32 (at_ st 3) (d v) ].

Definition addDataImpl (m : members) (data : list Z) : members :=
  Members (wrap 64 (m_sizeCounter m + Z.of_nat (length data)))
          (process_blocks BLOCK_SIZE compress (m_state m) data).

Definition reset (st : t) : t :=
  Sink [] (Members 0 [0x67452301; 0xefcdab89; 0x98badcfe; 0x10325476]).

(** The constructor reserves the buffer and calls [reset()]. *)
Definition fresh : t := reset (Sink [] (Members 0 [])).

Definition addData : t -> list Z -> t :=
  Accumulator.addData BLOCK_SIZE addDataImpl.

(** [finalize] up to, and excluding, the call [addDataImpl(m_buffer)]:
    the counter update, the [0x80] byte, the zero padding and the length
    field written over the last eight bytes. *)
Definition pad (st : t) : t :=
  let sizeCounter := wrap 64 (m_sizeCounter (m_core st) + Z.of_nat (length (m_buffer st))) in
  let buffer := m_buffer st ++ [Z.shiftl 1 7] in
  let len := (BLOCK_SIZE - ((length buffer + 8) mod BLOCK_SIZE))%nat in
  let buffer := buffer ++ repeat 0 (len + 8) in
  let sizeCounterBits := wrap 64 (sizeCounter * 8) in
  let sizeCounterBitsL := ror 32 sizeCounterBits 0 in
  let sizeCounterBitsH := ror 32 sizeCounterBits 32 in
  let buffer :=
    fold_left (fun buffer i =>
                 let buffer := upd (length buffer - 8 + i)
                                   (ror 8 sizeCounterBitsL (8 * Z.of_nat i)) buffer in
                 upd (length buffer - 4 + i)
                     (ror 8 sizeCounterBitsH (8 * Z.of_nat i)) buffer)
              (seq 0 4) buffer in
  Sink buffer (Members sizeCounter (m_state (m_core st))).

Definition finalize (st : t) : t :=
  let st := pad st in
  clear (Sink (m_buffer st) (addDataImpl (m_core st) (m_buffer st))).

Definition toVector (st : t) : list Z :=
  flat_map (bytes_le 4) (m_state (m_core st)).

Definition toString (st : t) : string := hex_of_bytes (toVector st).

(** The members of a fresh instance, and the members once the complete
    blocks [p] have been processed. *)
Definition init : members := m_core fresh.
Definition processed (p : list Z) : members := addDataImpl init p.
Definition absorbed : list Z -> t := Accumulator.absorbed BLOCK_SIZE processed.

(** The arrays have their declared sizes: [m_state] has its four words. *)
Definition sized (st : t) : Prop := length (m_state (m_core st)) = 4%nat.
End MD5.

(** ** MD2 (md2.h) *)

Module MD2.
Definition BLOCK_SIZE : nat := 16.

Record members : Type :=
  Members { m_x : list Z; m_checksum : list Z; m_checksumL : Z }.
Definition t : Type := sink members.

Definition piSubst : list Z := [
  41; 46; 67; 201; 162; 216; 124; 1; 61; 54; 84; 161; 236; 240; 6; 19;
  98; 167; 5; 243; 192; 199; 115; 140; 152; 147; 43; 217; 188; 76; 130; 202;
  30; 155; 87; 60; 253; 212; 224; 22; 103; 66; 111; 24; 138; 23; 229; 18;
  190; 78; 196; 214; 218; 158; 222; 73; 160; 251; 245; 142; 187; 47; 238; 122;
  169; 104; 121; 145; 21; 178; 7; 63; 148; 194; 16; 137; 11; 34; 95; 33;
  128; 127; 93; 154; 90; 144; 50; 39; 53; 62; 204; 231; 191; 247; 151; 3;
  255; 25; 48; 179; 72; 165; 181; 209; 215; 94; 146; 42; 172; 86; 170; 198;
  79; 184; 56; 210; 150; 164; 125; 182; 118; 252; 107; 226; 156; 116; 4; 241;
  69; 157; 112; 89; 100; 113; 135; 32; 134; 91; 207; 101; 230; 45; 168; 2;
  27; 96; 37; 173; 174; 176; 185; 246; 28; 70; 97; 105; 52; 64; 126; 15;
  85; 71; 163; 35; 221; 81; 175; 58; 195; 92; 249; 206; 186; 197; 234; 38;
  44; 83; 13; 110; 133; 40; 132; 9; 211; 223; 205; 244; 65; 129; 77; 82;
  106; 220; 55; 200; 108; 193; 171; 250; 36; 225; 123; 8; 12; 189; 177; 74;
  120; 136; 149; 139; 227; 99; 232; 109; 233; 203; 213; 254; 59; 0; 29; 57;
  242; 239; 183; 14; 102; 88; 208; 228; 166; 119; 114; 248; 235; 117; 75; 10;
  49; 68; 80; 180; 143; 237; 31; 26; 219; 153; 141; 51; 159; 17; 131; 20
].

(** [for (j = 0; j < 16; ++j) { m_checksum[j] ^= piSubst[m[j] ^ m_checksumL];
    m_checksumL = m_checksum[j]; }] *)
Definition checksum_step (m : list Z) (cs : list Z * Z) (j : nat) : list Z * Z :=
  let '(m_checksum, m_checksumL) := cs in
  let m_checksum :=
    upd j (Z.lxor (at_ m_checksum j)
                  (at_ piSubst (Z.to_nat (Z.lxor (at_ m j) m_checksumL))))
        m_checksum in
  (m_checksum, at_ m_checksum j).

(** [for (j = 0; j < 16; ++j) { m_x[j + 16] = m[j];
    m_x[j + 32] = m_x[j + 16] ^ m_x[j]; }] *)
Definition load_step (m : list Z) (m_x : list Z) (j : nat) : list Z :=
  let m_x := upd (j + 16) (at_ m j) m_x in
  upd (j + 32) (Z.lxor (at_ m_x (j + 16)) (at_ m_x j)) m_x.

(** [for (k = 0; k < 48; ++k) { m_x[k] ^= piSubst[t]; t = m_x[k]; }] *)
Definition subst_step (xt : list Z * Z) (k : nat) : list Z * Z :=
  let '(m_x, t) := xt in
  let m_x := upd k (Z.lxor (at_ m_x k) (at_ piSubst (Z.to_nat t))) m_x in
  (m_x, at_ m_x k).

(** One of the 18 rounds; [t] is a [Byte], so [t += j] wraps at 256. *)
Definition round_step (xt : list Z * Z) (j : nat) : list Z * Z :=
  let '(m_x, t) := fold_left subst_step (seq 0 48) xt in
  (m_x, wrap 8 (t + Z.of_nat j)).

(** One iteration of the block loop of [addDataImpl]. *)
Definition compress (s : members) (m : list Z) : members :=
  let '(m_checksum, m_checksumL) :=
    fold_left (checksum_step m) (seq 0 16) (m_checksum s, m_checksumL s) in
  let m_x := fold_left (load_step m) (seq 0 16) (m_x s) in
  let '(m_x, _) := fold_left round_step (seq 0 18) (m_x, 0) in
  Members m_x m_checksum m_checksumL.

Definition addDataImpl (s : members) (data : list Z) : members :=
  process_blocks BLOCK_SIZE compress s data.

Definition reset (st : t) : t :=
  Sink [] (Members (repeat 0 48) (repeat 0 16) 0).

Definition fresh : t := reset (Sink [] (Members [] [] 0)).

Definition addData : t -> list Z -> t :=
  Accumulator.addData BLOCK_SIZE addDataImpl.

(** [finalize] up to the first [addDataImpl(m_buffer)]: [len] padding
    bytes, each of value [len]. *)
Definition pad (st : t) : t :=
  let len := (BLOCK_SIZE - (length (m_buffer st) mod BLOCK_SIZE))%nat in
  Sink (m_buffer st ++ repeat (wrap 8 (Z.of_nat len)) len) (m_core st).

Definition finalize (st : t) : t :=
  let st := pad st in
  let st := Sink (m_buffer st) (addDataImpl (m_core st) (m_buffer st)) in
  let st := clear st in
  let currentChecksum := m_checksum (m_core st) in
  Sink (m_buffer st) (addDataImpl (m_core st) currentChecksum).

Definition toVector (st : t) : list Z := firstn 16 (m_x (m_core st)).

Definition toString (st : t) : string := hex_of_bytes (toVector st).

(** The checksum rule in the words of RFC 1319 and of the specification:
    byte by byte, [C[j] = C[j] xor S[m[j] xor L]] and then [L = C[j]]. *)
Fixpoint checksum_spec (C : list Z) (L : Z) (m : list Z) : list Z * Z :=
  match C, m with
  | c :: C', b :: m' =>
      let c' := Z.lxor c (at_ piSubst (Z.to_nat (Z.lxor b L))) in
      let '(rest, L') := checksum_spec C' c' m' in
      (c' :: rest, L')
  | _, _ => (C, L)
  end.

(** The members of a fresh instance, and the members once the complete
    blocks [p] have been processed. *)
Definition init : members := m_core fresh.
Definition processed (p : list Z) : members := addDataImpl init p.
Definition absorbed : list Z -> t := Accumulator.absorbed BLOCK_SIZE processed.

(** The arrays have their declared sizes: [m_x] has 48 bytes and
    [m_checksum] has 16. *)
Definition sized_members (c : members) : Prop :=
  length (m_x c) = 48%nat /\ length (m_checksum c) = 16%nat.
Definition sized (st : t) : Prop := sized_members (m_core st).
End MD2.

(** ** HAS-160 (has_160.h) *)

Module HAS_160.
Definition BLOCK_SIZE : nat := 64.

Record members : Type := Members { m_sizeCounter : Z; m_h : list Z }.
Definition t : Type := sink members.

Definition lTable : list nat := [
  18;  0; 1;  2;  3; 19;  4;  5; 6;  7; 16;  8;  9; 10; 11; 17; 12; 13; 14; 15;
  18;  3; 6;  9; 12; 19; 15;  2; 5;  8; 16; 11; 14;  1;  4; 17;  7; 10; 13;  0;
  18; 12; 5; 14;  7; 19;  0;  9; 2; 11; 16;  4; 13;  6; 15; 17;  8;  1; 10;  3;
  18;  7; 2; 13;  8; 19;  3; 14; 9;  4; 16; 15; 10;  5;  0; 17; 11;  6;  1; 12
]%nat.

Definition l (i : nat) : nat := nth i lTable 0%nat.

Definition extendXTable (xTable : list Z) (round : nat) : list Z :=
  let x4 (xTable : list Z) (i : nat) :=
    Z.lxor (Z.lxor (Z.lxor (at_ xTable (l (round + i)))
                           (at_ xTable (l (round + i + 1))))
                   (at_ xTable (l (round + i + 2))))
           (at_ xTable (l (round + i + 3))) in
  let xTable := upd 16 (x4 xTable 1%nat) xTable in
  let xTable := upd 17 (x4 xTable 6%nat) xTable in
  let xTable := upd 18 (x4 xTable 11%nat) xTable in
  upd 19 (x4 xTable 16%nat) xTable.

Record regs : Type := Regs { a : Z; b : Z; c : Z; d : Z; e : Z }.
Inductive reg : Type := Ra | Rb | Rc | Rd | Re.
Definition get (r : reg) (v : regs) : Z :=
  match r with Ra => a v | Rb => b v | Rc => c v | Rd => d v | Re => e v end.
Definition set (r : reg) (x : Z) (v : regs) : regs :=
  match r with
  | Ra => Regs x (b v) (c v) (d v) (e v)
  | Rb => Regs (a v) x (c v) (d v) (e v)
  | Rc => Regs (a v) (b v) x (d v) (e v)
  | Rd => Regs (a v) (b v) (c v) x (e v)
  | Re => Regs (a v) (b v) (c v) (d v) x
  end.

(** One call [roundN(a, b, c, d, e, s1, t)]. *)
Inductive call : Type := Step (ra rb rc rd re : reg) (s1 : Z) (t : nat).

(** The body shared by the four round lambdas: [f] is the boolean
    function of the round, [K] its constant and [s2] the rotation of [b]:
    [e = rotl(a, s1) + f + e + xTable[lTable[t]] + K; b = rotl(b, s2)]. *)
Definition roundN (f : Z -> Z -> Z -> Z) (K s2 : Z) (xTable : list Z)
    (v : regs) (cl : call) : regs :=
  let '(Step ra rb rc rd re s1 t) := cl in
  let fv := f (get rb v) (get rc v) (get rd v) in
  let v := set re (add32 (add32 (add32 (add32 (rotl32 (get ra v) s1) fv) (get re v))
                                (at_ xTable (l t))) K) v in
  set rb (rotl32 (get rb v) s2) v.

Definition round1 := roundN (fun b c d => Z.lxor (Z.land b (Z.lxor c d)) d) 0x00000000 10.
Definition round2 := roundN (fun b c d => Z.lxor (Z.lxor b c) d) 0x5A827999 17.
Definition round3 := roundN (fun b c d => Z.lxor c (Z.lor b (not32 d))) 0x6ED9EBA1 25.
Definition round4 := roundN (fun b c d => Z.lxor (Z.lxor b c) d) 0x8F1BBCDC 30.

Definition calls1 : list call := [
  Step Ra Rb Rc Rd Re 5 0;
  Step Re Ra Rb Rc Rd 11 1;
  Step Rd Re Ra Rb Rc 7 2;
  Step Rc Rd Re Ra Rb 15 3;
  Step Rb Rc Rd Re Ra 6 4;
  Step Ra Rb Rc Rd Re 13 5;
  Step Re Ra Rb Rc Rd 8 6;
  Step Rd Re Ra Rb Rc 14 7;
  Step Rc Rd Re Ra Rb 7 8;
  Step Rb Rc Rd Re Ra 12 9;
  Step Ra Rb Rc Rd Re 9 10;
  Step Re Ra Rb Rc Rd 11 11;
  Step Rd Re Ra Rb Rc 8 12;
  Step Rc Rd Re Ra Rb 15 13;
  Step Rb Rc Rd Re Ra 6 14;
  Step Ra Rb Rc Rd Re 12 15;
  Step Re Ra Rb Rc Rd 9 16;
  Step Rd Re Ra Rb Rc 14 17;
  Step Rc Rd Re Ra Rb 5 18;
  Step Rb Rc Rd Re Ra 13 19
].
Definition calls2 : list call := [
  Step Ra Rb Rc Rd Re 5 20;
  Step Re Ra Rb Rc Rd 11 21;
  Step Rd Re Ra Rb Rc 7 22;
  Step Rc Rd Re Ra Rb 15 23;
  Step Rb Rc Rd Re Ra 6 24;
  Step Ra Rb Rc Rd Re 13 25;
  Step Re Ra Rb Rc Rd 8 26;
  Step Rd Re Ra Rb Rc 14 27;
  Step Rc Rd Re Ra Rb 7 28;
  Step Rb Rc Rd Re Ra 12 29;
  Step Ra Rb Rc Rd Re 9 30;
  Step Re Ra Rb Rc Rd 11 31;
  Step Rd Re Ra Rb Rc 8 32;
  Step Rc Rd Re Ra Rb 15 33;
  Step Rb Rc Rd Re Ra 6 34;
  Step Ra Rb Rc Rd Re 12 35;
  Step Re Ra Rb Rc Rd 9 36;
  Step Rd Re Ra Rb Rc 14 37;
  Step Rc Rd Re Ra Rb 5 38;
  Step Rb Rc Rd Re Ra 13 39
].
Definition calls3 : list call := [
  Step Ra Rb Rc Rd Re 5 40;
  Step Re Ra Rb Rc Rd 11 41;
  Step Rd Re Ra Rb Rc 7 42;
  Step Rc Rd Re Ra Rb 15 43;
  Step Rb Rc Rd Re Ra 6 44;
  Step Ra Rb Rc Rd Re 13 45;
  Step Re Ra Rb Rc Rd 8 46;
  Step Rd Re Ra Rb Rc 14 47;
  Step Rc Rd Re Ra Rb 7 48;
  Step Rb Rc Rd Re Ra 12 49;
  Step Ra Rb Rc Rd Re 9 50;
  Step Re Ra Rb Rc Rd 11 51;
  Step Rd Re Ra Rb Rc 8 52;
  Step Rc Rd Re Ra Rb 15 53;
  Step Rb Rc Rd Re Ra 6 54;
  Step Ra Rb Rc Rd Re 12 55;
  Step Re Ra Rb Rc Rd 9 56;
  Step Rd Re Ra Rb Rc 14 57;
  Step Rc Rd Re Ra Rb 5 58;
  Step Rb Rc Rd Re Ra 13 59
].
Definition calls4 : list call := [
  Step Ra Rb Rc Rd Re 5 60;
  Step Re Ra Rb Rc Rd 11 61;
  Step Rd Re Ra Rb Rc 7 62;
  Step Rc Rd Re Ra Rb 15 63;
  Step Rb Rc Rd Re Ra 6 64;
  Step Ra Rb Rc Rd Re 13 65;
  Step Re Ra Rb Rc Rd 8 66;
  Step Rd Re Ra Rb Rc 14 67;
  Step Rc Rd Re Ra Rb 7 68;
  Step Rb Rc Rd Re Ra 12 69;
  Step Ra Rb Rc Rd Re 9 70;
  Step Re Ra Rb Rc Rd 11 71;
  Step Rd Re Ra Rb Rc 8 72;
  Step Rc Rd Re Ra Rb 15 73;
  Step Rb Rc Rd Re Ra 6 74;
  Step Ra Rb Rc Rd Re 12 75;
  Step Re Ra Rb Rc Rd 9 76;
  Step Rd Re Ra Rb Rc 14 77;
  Step Rc Rd Re Ra Rb 5 78;
  Step Rb Rc Rd Re Ra 13 79
].

(** One iteration of the block loop of [addDataImpl]. *)
Definition compress (m_h : list Z) (blk : list Z) : list Z :=
  let x := load32le blk in
  let xTable := map x (seq 0 16) ++ [0; 0; 0; 0] in
  let v := Regs (at_ m_h 0) (at_ m_h 1) (at_ m_h 2) (at_ m_h 3) (at_ m_h 4) in
  let xTable := extendXTable xTable 0 in
  let v := fold_left (round1 xTable) calls1 v in
  let xTable := extendXTable xTable 20 in
  let v := fold_left (round2 xTable) calls2 v in
  let xTable := extendXTable xTable 40 in
  let v := fold_left (round3 xTable) calls3 v in
  let xTable := extendXTable xTable 60 in
  let v := fold_left (round4 xTable) calls4 v in
  [ add32 (at_ m_h 0) (a v); add32 (at_ m_h 1) (b v); add32 (at_ m_h 2) (c v);
    add32 (at_ m_h 3) (d v); add32 (at_ m_h 4) (e v) ].

Definition addDataImpl (m : members) (data : list Z) : members :=
  Members (wrap 64 (m_sizeCounter m + Z.of_nat (length data)))
          (process_blocks BLOCK_SIZE compress (m_h m) data).

Definition reset (st : t) : t :=
  Sink [] (Members 0 [0x67452301; 0xEFCDAB89; 0x98BADCFE; 0x10325476; 0xC3D2E1F0]).

Definition fresh : t := reset (Sink [] (Members 0 [])).

Definition addData : t -> list Z -> t :=
  Accumulator.addData BLOCK_SIZE addDataImpl.

Definition pad (st : t) : t :=
  let sizeCounter := wrap 64 (m_sizeCounter (m_core st) + Z.of_nat (length (m_buffer st))) in
  let buffer := m_buffer st ++ [Z.shiftl 1 7] in
  let len := (BLOCK_SIZE - ((length buffer + 8) mod BLOCK_SIZE))%nat in
  let buffer := buffer ++ repeat 0 (len + 8) in
  let sizeCounterBits := wrap 64 (sizeCounter * 8) in
  let sizeCounterBitsL := ror 32 sizeCounterBits 0 in
  let sizeCounterBitsH := ror 32 sizeCounterBits 32 in
  let buffer :=
    fold_left (fun buffer i =>
                 let buffer := upd (length buffer - 8 + i)
                                   (ror 8 sizeCounterBitsL (8 * Z.of_nat i)) buffer in
                 upd (length buffer - 4 + i)
                     (ror 8 sizeCounterBitsH (8 * Z.of_nat i)) buffer)
              (seq 0 4) buffer in
  Sink buffer (Members sizeCounter (m_h (m_core st))).

Definition finalize (st : t) : t :=
  let st := pad st in
  clear (Sink (m_buffer st) (addDataImpl (m_core st) (m_buffer st))).

Definition toVector (st : t) : list Z :=
  flat_map (bytes_le 4) (m_h (m_core st)).

Definition toString (st : t) : string := hex_of_bytes (toVector st).

(** The members of a fresh instance, and the members once the complete
    blocks [p] have been processed. *)
Definition init : members := m_core fresh.
Definition processed (p : list Z) : members := addDataImpl init p.
Definition absorbed : list Z -> t := Accumulator.absorbed BLOCK_SIZE processed.

(** The arrays have their declared sizes: [m_h] has its five words. *)
Definition sized (st : t) : Prop := length (m_h (m_core st)) = 5%nat.
End HAS_160.

(** ** RIPEMD-160 (ripemd_160.h) *)

Module RIPEMD_160.
Definition BLOCK_SIZE : nat := 64.

Record members : Type := Members { m_sizeCounter : Z; m_h : list Z }.
Definition t : Type := sink members.

Definition f1 (x y z : Z) : Z := Z.lxor (Z.lxor x y) z.
Definition f2 (x y z : Z) : Z := Z.lxor (Z.land x (Z.lxor y z)) z.
Definition f3 (x y z : Z) : Z := Z.lxor (Z.lor x (not32 y)) z.
Definition f4 (x y z : Z) : Z := Z.lxor (Z.land (Z.lxor x y) z) y.
Definition f5 (x y z : Z) : Z := Z.lxor x (Z.lor y (not32 z)).

(** The locals [a..e] of the left line and [aa..ee] of the right line. *)
Record regs : Type :=
  Regs { a : Z; b : Z; c : Z; d : Z; e : Z; aa : Z; bb : Z; cc : Z; dd : Z; ee : Z }.
Inductive reg : Type := Ra | Rb | Rc | Rd | Re | Raa | Rbb | Rcc | Rdd | Ree.
Definition get (r : reg) (v : regs) : Z :=
  match r with
  | Ra => a v | Rb => b v | Rc => c v | Rd => d v | Re => e v
  | Raa => aa v | Rbb => bb v | Rcc => cc v | Rdd => dd v | Ree => ee v
  end.
Definition set (r : reg) (x : Z) (v : regs) : regs :=
  match r with
  | Ra => Regs x (b v) (c v) (d v) (e v) (aa v) (bb v) (cc v) (dd v) (ee v)
  | Rb => Regs (a v) x (c v) (d v) (e v) (aa v) (bb v) (cc v) (dd v) (ee v)
  | Rc => Regs (a v) (b v) x (d v) (e v) (aa v) (bb v) (cc v) (dd v) (ee v)
  | Rd => Regs (a v) (b v) (c v) x (e v) (aa v) (bb v) (cc v) (dd v) (ee v)
  | Re => Regs (a v) (b v) (c v) (d v) x (aa v) (bb v) (cc v) (dd v) (ee v)
  | Raa => Regs (a v) (b v) (c v) (d v) (e v) x (bb v) (cc v) (dd v) (ee v)
  | Rbb => Regs (a v) (b v) (c v) (d v) (e v) (aa v) x (cc v) (dd v) (ee v)
  | Rcc => Regs (a v) (b v) (c v) (d v) (e v) (aa v) (bb v) x (dd v) (ee v)
  | Rdd => Regs (a v) (b v) (c v) (d v) (e v) (aa v) (bb v) (cc v) x (ee v)
  | Ree => Regs (a v) (b v) (c v) (d v) (e v) (aa v) (bb v) (cc v) (dd v) x
  end.

(** One call [lineLeft(a, b, c, d, e, f, k, r, s)]:
    [a = rotl((a + f(b, c, d) + x[r] + k), s) + e; c = rotl(c, 10)]. *)
Inductive call : Type :=
  lineLeft (ra rb rc rd re : reg) (f : Z -> Z -> Z -> Z) (k : Z) (r : nat) (s : Z).

(** [const auto &lineRight = lineLeft;] *)
Definition lineRight := lineLeft.

Definition line (x : nat -> Z) (v : regs) (cl : call) : regs :=
  let '(lineLeft ra rb rc rd re f k r s) := cl in
  let v := set ra (add32 (rotl32 (add32 (add32 (add32 (get ra v)
                                                      (f (get rb v) (get rc v) (get rd v)))
                                               (x r)) k) s)
                         (get re v)) v in
  set rc (rotl32 (get rc v) 10) v.

(** The 160 calls of ripemd_160.h:282-441, in program order. *)
Definition calls : list call := [
  lineLeft Ra Rb Rc Rd Re f1 0x00000000 0 11;
  lineLeft Re Ra Rb Rc Rd f1 0x00000000 1 14;
  lineRight Raa Rbb Rcc Rdd Ree f5 0x50A28BE6 5 8;
  lineRight Ree Raa Rbb Rcc Rdd f5 0x50A28BE6 14 9;
  lineLeft Rd Re Ra Rb Rc f1 0x00000000 2 15;
  lineLeft Rc Rd Re Ra Rb f1 0x00000000 3 12;
  lineRight Rdd Ree Raa Rbb Rcc f5 0x50A28BE6 7 9;
  lineRight Rcc Rdd Ree Raa Rbb f5 0x50A28BE6 0 11;
  lineLeft Rb Rc Rd Re Ra f1 0x00000000 4 5;
  lineLeft Ra Rb Rc Rd Re f1 0x00000000 5 8;
  lineRight Rbb Rcc Rdd Ree Raa f5 0x50A28BE6 9 13;
  lineRight Raa Rbb Rcc Rdd Ree f5 0x50A28BE6 2 15;
  lineLeft Re Ra Rb Rc Rd f1 0x00000000 6 7;
  lineLeft Rd Re Ra Rb Rc f1 0x00000000 7 9;
  lineRight Ree Raa Rbb Rcc Rdd f5 0x50A28BE6 11 15;
  lineRight Rdd Ree Raa Rbb Rcc f5 0x50A28BE6 4 5;
  lineLeft Rc Rd Re Ra Rb f1 0x00000000 8 11;
  lineLeft Rb Rc Rd Re Ra f1 0x00000000 9 13;
  lineRight Rcc Rdd Ree Raa Rbb f5 0x50A28BE6 13 7;
  lineRight Rbb Rcc Rdd Ree Raa f5 0x50A28BE6 6 7;
  lineLeft Ra Rb Rc Rd Re f1 0x00000000 10 14;
  lineLeft Re Ra Rb Rc Rd f1 0x00000000 11 15;
  lineRight Raa Rbb Rcc Rdd Ree f5 0x50A28BE6 15 8;
  lineRight Ree Raa Rbb Rcc Rdd f5 0x50A28BE6 8 11;
  lineLeft Rd Re Ra Rb Rc f1 0x00000000 12 6;
  lineLeft Rc Rd Re Ra Rb f1 0x00000000 13 7;
  lineRight Rdd Ree Raa Rbb Rcc f5 0x50A28BE6 1 14;
  lineRight Rcc Rdd Ree Raa Rbb f5 0x50A28BE6 10 14;
  lineLeft Rb Rc Rd Re Ra f1 0x00000000 14 9;
  lineLeft Ra Rb Rc Rd Re f1 0x00000000 15 8;
  lineRight Rbb Rcc Rdd Ree Raa f5 0x50A28BE6 3 12;
  lineRight Raa Rbb Rcc Rdd Ree f5 0x50A28BE6 12 6;
  lineLeft Re Ra Rb Rc Rd f2 0x5A827999 7 7;
  lineLeft Rd Re Ra Rb Rc f2 0x5A827999 4 6;
  lineRight Ree Raa Rbb Rcc Rdd f4 0x5C4DD124 6 9;
  lineRight Rdd Ree Raa Rbb Rcc f4 0x5C4DD124 11 13;
  lineLeft Rc Rd Re Ra Rb f2 0x5A827999 13 8;
  lineLeft Rb Rc Rd Re Ra f2 0x5A827999 1 13;
  lineRight Rcc Rdd Ree Raa Rbb f4 0x5C4DD124 3 15;
  lineRight Rbb Rcc Rdd Ree Raa f4 0x5C4DD124 7 7;
  lineLeft Ra Rb Rc Rd Re f2 0x5A827999 10 11;
  lineLeft Re Ra Rb Rc Rd f2 0x5A827999 6 9;
  lineRight Raa Rbb Rcc Rdd Ree f4 0x5C4DD124 0 12;
  lineRight Ree Raa Rbb Rcc Rdd f4 0x5C4DD124 13 8;
  lineLeft Rd Re Ra Rb Rc f2 0x5A827999 15 7;
  lineLeft Rc Rd Re Ra Rb f2 0x5A827999 3 15;
  lineRight Rdd Ree Raa Rbb Rcc f4 0x5C4DD124 5 9;
  lineRight Rcc Rdd Ree Raa Rbb f4 0x5C4DD124 10 11;
  lineLeft Rb Rc Rd Re Ra f2 0x5A827999 12 7;
  lineLeft Ra Rb Rc Rd Re f2 0x5A827999 0 12;
  lineRight Rbb Rcc Rdd Ree Raa f4 0x5C4DD124 14 7;
  lineRight Raa Rbb Rcc Rdd Ree f4 0x5C4DD124 15 7;
  lineLeft Re Ra Rb Rc Rd f2 0x5A827999 9 15;
  lineLeft Rd Re Ra Rb Rc f2 0x5A827999 5 9;
  lineRight Ree Raa Rbb Rcc Rdd f4 0x5C4DD124 8 12;
  lineRight Rdd Ree Raa Rbb Rcc f4 0x5C4DD124 12 7;
  lineLeft Rc Rd Re Ra Rb f2 0x5A827999 2 11;
  lineLeft Rb Rc Rd Re Ra f2 0x5A827999 14 7;
  lineRight Rcc Rdd Ree Raa Rbb f4 0x5C4DD124 4 6;
  lineRight Rbb Rcc Rdd Ree Raa f4 0x5C4DD124 9 15;
  lineLeft Ra Rb Rc Rd Re f2 0x5A827999 11 13;
  lineLeft Re Ra Rb Rc Rd f2 0x5A827999 8 12;
  lineRight Raa Rbb Rcc Rdd Ree f4 0x5C4DD124 1 13;
  lineRight Ree Raa Rbb Rcc Rdd f4 0x5C4DD124 2 11;
  lineLeft Rd Re Ra Rb Rc f3 0x6ED9EBA1 3 11;
  lineLeft Rc Rd Re Ra Rb f3 0x6ED9EBA1 10 13;
  lineRight Rdd Ree Raa Rbb Rcc f3 0x6D703EF3 15 9;
  lineRight Rcc Rdd Ree Raa Rbb f3 0x6D703EF3 5 7;
  lineLeft Rb Rc Rd Re Ra f3 0x6ED9EBA1 14 6;
  lineLeft Ra Rb Rc Rd Re f3 0x6ED9EBA1 4 7;
  lineRight Rbb Rcc Rdd Ree Raa f3 0x6D703EF3 1 15;
  lineRight Raa Rbb Rcc Rdd Ree f3 0x6D703EF3 3 11;
  lineLeft Re Ra Rb Rc Rd f3 0x6ED9EBA1 9 14;
  lineLeft Rd Re Ra Rb Rc f3 0x6ED9EBA1 15 9;
  lineRight Ree Raa Rbb Rcc Rdd f3 0x6D703EF3 7 8;
  lineRight Rdd Ree Raa Rbb Rcc f3 0x6D703EF3 14 6;
  lineLeft Rc Rd Re Ra Rb f3 0x6ED9EBA1 8 13;
  lineLeft Rb Rc Rd Re Ra f3 0x6ED9EBA1 1 15;
  lineRight Rcc Rdd Ree Raa Rbb f3 0x6D703EF3 6 6;
  lineRight Rbb Rcc Rdd Ree Raa f3 0x6D703EF3 9 14;
  lineLeft Ra Rb Rc Rd Re f3 0x6ED9EBA1 2 14;
  lineLeft Re Ra Rb Rc Rd f3 0x6ED9EBA1 7 8;
  lineRight Raa Rbb Rcc Rdd Ree f3 0x6D703EF3 11 12;
  lineRight Ree Raa Rbb Rcc Rdd f3 0x6D703EF3 8 13;
  lineLeft Rd Re Ra Rb Rc f3 0x6ED9EBA1 0 13;
  lineLeft Rc Rd Re Ra Rb f3 0x6ED9EBA1 6 6;
  lineRight Rdd Ree Raa Rbb Rcc f3 0x6D703EF3 12 5;
  lineRight Rcc Rdd Ree Raa Rbb f3 0x6D703EF3 2 14;
  lineLeft Rb Rc Rd Re Ra f3 0x6ED9EBA1 13 5;
  lineLeft Ra Rb Rc Rd Re f3 0x6ED9EBA1 11 12;
  lineRight Rbb Rcc Rdd Ree Raa f3 0x6D703EF3 10 13;
  lineRight Raa Rbb Rcc Rdd Ree f3 0x6D703EF3 0 13;
  lineLeft Re Ra Rb Rc Rd f3 0x6ED9EBA1 5 7;
  lineLeft Rd Re Ra Rb Rc f3 0x6ED9EBA1 12 5;
  lineRight Ree Raa Rbb Rcc Rdd f3 0x6D703EF3 4 7;
  lineRight Rdd Ree Raa Rbb Rcc f3 0x6D703EF3 13 5;
  lineLeft Rc Rd Re Ra Rb f4 0x8F1BBCDC 1 11;
  lineLeft Rb Rc Rd Re Ra f4 0x8F1BBCDC 9 12;
  lineRight Rcc Rdd Ree Raa Rbb f2 0x7A6D76E9 8 15;
  lineRight Rbb Rcc Rdd Ree Raa f2 0x7A6D76E9 6 5;
  lineLeft Ra Rb Rc Rd Re f4 0x8F1BBCDC 11 14;
  lineLeft Re Ra Rb Rc Rd f4 0x8F1BBCDC 10 15;
  lineRight Raa Rbb Rcc Rdd Ree f2 0x7A6D76E9 4 8;
  lineRight Ree Raa Rbb Rcc Rdd f2 0x7A6D76E9 1 11;
  lineLeft Rd Re Ra Rb Rc f4 0x8F1BBCDC 0 14;
  lineLeft Rc Rd Re Ra Rb f4 0x8F1BBCDC 8 15;
  lineRight Rdd Ree Raa Rbb Rcc f2 0x7A6D76E9 3 14;
  lineRight Rcc Rdd Ree Raa Rbb f2 0x7A6D76E9 11 14;
  lineLeft Rb Rc Rd Re Ra f4 0x8F1BBCDC 12 9;
  lineLeft Ra Rb Rc Rd Re f4 0x8F1BBCDC 4 8;
  lineRight Rbb Rcc Rdd Ree Raa f2 0x7A6D76E9 15 6;
  lineRight Raa Rbb Rcc Rdd Ree f2 0x7A6D76E9 0 14;
  lineLeft Re Ra Rb Rc Rd f4 0x8F1BBCDC 13 9;
  lineLeft Rd Re Ra Rb Rc f4 0x8F1BBCDC 3 14;
  lineRight Ree Raa Rbb Rcc Rdd f2 0x7A6D76E9 5 6;
  lineRight Rdd Ree Raa Rbb Rcc f2 0x7A6D76E9 12 9;
  lineLeft Rc Rd Re Ra Rb f4 0x8F1BBCDC 7 5;
  lineLeft Rb Rc Rd Re Ra f4 0x8F1BBCDC 15 6;
  lineRight Rcc Rdd Ree Raa Rbb f2 0x7A6D76E9 2 12;
  lineRight Rbb Rcc Rdd Ree Raa f2 0x7A6D76E9 13 9;
  lineLeft Ra Rb Rc Rd Re f4 0x8F1BBCDC 14 8;
  lineLeft Re Ra Rb Rc Rd f4 0x8F1BBCDC 5 6;
  lineRight Raa Rbb Rcc Rdd Ree f2 0x7A6D76E9 9 12;
  lineRight Ree Raa Rbb Rcc Rdd f2 0x7A6D76E9 7 5;
  lineLeft Rd Re Ra Rb Rc f4 0x8F1BBCDC 6 5;
  lineLeft Rc Rd Re Ra Rb f4 0x8F1BBCDC 2 12;
  lineRight Rdd Ree Raa Rbb Rcc f2 0x7A6D76E9 10 15;
  lineRight Rcc Rdd Ree Raa Rbb f2 0x7A6D76E9 14 8;
  lineLeft Rb Rc Rd Re Ra f5 0xA953FD4E 4 9;
  lineLeft Ra Rb Rc Rd Re f5 0xA953FD4E 0 15;
  lineRight Rbb Rcc Rdd Ree Raa f1 0x00000000 12 8;
  lineRight Raa Rbb Rcc Rdd Ree f1 0x00000000 15 5;
  lineLeft Re Ra Rb Rc Rd f5 0xA953FD4E 5 5;
  lineLeft Rd Re Ra Rb Rc f5 0xA953FD4E 9 11;
  lineRight Ree Raa Rbb Rcc Rdd f1 0x00000000 10 12;
  lineRight Rdd Ree Raa Rbb Rcc f1 0x00000000 4 9;
  lineLeft Rc Rd Re Ra Rb f5 0xA953FD4E 7 6;
  lineLeft Rb Rc Rd Re Ra f5 0xA953FD4E 12 8;
  lineRight Rcc Rdd Ree Raa Rbb f1 0x00000000 1 12;
  lineRight Rbb Rcc Rdd Ree Raa f1 0x00000000 5 5;
  lineLeft Ra Rb Rc Rd Re f5 0xA953FD4E 2 13;
  lineLeft Re Ra Rb Rc Rd f5 0xA953FD4E 10 12;
  lineRight Raa Rbb Rcc Rdd Ree f1 0x00000000 8 14;
  lineRight Ree Raa Rbb Rcc Rdd f1 0x00000000 7 6;
  lineLeft Rd Re Ra Rb Rc f5 0xA953FD4E 14 5;
  lineLeft Rc Rd Re Ra Rb f5 0xA953FD4E 1 12;
  lineRight Rdd Ree Raa Rbb Rcc f1 0x00000000 6 8;
  lineRight Rcc Rdd Ree Raa Rbb f1 0x00000000 2 13;
  lineLeft Rb Rc Rd Re Ra f5 0xA953FD4E 3 13;
  lineLeft Ra Rb Rc Rd Re f5 0xA953FD4E 8 14;
  lineRight Rbb Rcc Rdd Ree Raa f1 0x00000000 13 6;
  lineRight Raa Rbb Rcc Rdd Ree f1 0x00000000 14 5;
  lineLeft Re Ra Rb Rc Rd f5 0xA953FD4E 11 11;
  lineLeft Rd Re Ra Rb Rc f5 0xA953FD4E 6 8;
  lineRight Ree Raa Rbb Rcc Rdd f1 0x00000000 0 15;
  lineRight Rdd Ree Raa Rbb Rcc f1 0x00000000 3 13;
  lineLeft Rc Rd Re Ra Rb f5 0xA953FD4E 15 5;
  lineLeft Rb Rc Rd Re Ra f5 0xA953FD4E 13 6;
  lineRight Rcc Rdd Ree Raa Rbb f1 0x00000000 9 11;
  lineRight Rbb Rcc Rdd Ree Raa f1 0x00000000 11 11
].

(** One iteration of the block loop of [addDataImpl]. *)
Definition compress (m_h : list Z) (blk : list Z) : list Z :=
  let x := load32le blk in
  let v := Regs (at_ m_h 0) (at_ m_h 1) (at_ m_h 2) (at_ m_h 3) (at_ m_h 4)
                (at_ m_h 0) (at_ m_h 1) (at_ m_h 2) (at_ m_h 3) (at_ m_h 4) in
  let v := fold_left (line x) calls v in
  let t := add32 (add32 (at_ m_h 1) (c v)) (dd v) in
  let h1 := add32 (add32 (at_ m_h 2) (d v)) (ee v) in
  let h2 := add32 (add32 (at_ m_h 3) (e v)) (aa v) in
  let h3 := add32 (add32 (at_ m_h 4) (a v)) (bb v) in
  let h4 := add32 (add32 (at_ m_h 0) (b v)) (cc v) in
  [ t; h1; h2; h3; h4 ].

Definition addDataImpl (m : members) (data : list Z) : members :=
  Members (wrap 64 (m_sizeCounter m + Z.of_nat (length data)))
          (process_blocks BLOCK_SIZE compress (m_h m) data).

Definition reset (st : t) : t :=
  Sink [] (Members 0 [0x67452301; 0xEFCDAB89; 0x98BADCFE; 0x10325476; 0xC3D2E1F0]).

Definition fresh : t := reset (Sink [] (Members 0 [])).

Definition addData : t -> list Z -> t :=
  Accumulator.addData BLOCK_SIZE addDataImpl.

Definition pad (st : t) : t :=
  let sizeCounter := wrap 64 (m_sizeCounter (m_core st) + Z.of_nat (length (m_buffer st))) in
  let buffer := m_buffer st ++ [Z.shiftl 1 7] in
  let len := (BLOCK_SIZE - ((length buffer + 8) mod BLOCK_SIZE))%nat in
  let buffer := buffer ++ repeat 0 (len + 8) in
  let sizeCounterBits := wrap 64 (sizeCounter * 8) in
  let sizeCounterBitsL := ror 32 sizeCounterBits 0 in
  let sizeCounterBitsH := ror 32 sizeCounterBits 32 in
  let buffer :=
    fold_left (fun buffer i =>
                 let buffer := upd (length buffer - 8 + i)
                                   (ror 8 sizeCounterBitsL (8 * Z.of_nat i)) buffer in
                 upd (length buffer - 4 + i)
                     (ror 8 sizeCounterBitsH (8 * Z.of_nat i)) buffer)
              (seq 0 4) buffer in
  Sink buffer (Members sizeCounter (m_h (m_core st))).

Definition finalize (st : t) : t :=
  let st := pad st in
  clear (Sink (m_buffer st) (addDataImpl (m_core st) (m_buffer st))).

Definition toVector (st : t) : list Z :=
  flat_map (bytes_le 4) (m_h (m_core st)).

Definition toString (st : t) : string := hex_of_bytes (toVector st).

(** The members of a fresh instance, and the members once the complete
    blocks [p] have been processed. *)
Definition init : members := m_core fresh.
Definition processed (p : list Z) : members := addDataImpl init p.
Definition absorbed : list Z -> t := Accumulator.absorbed BLOCK_SIZE processed.

(** The arrays have their declared sizes: [m_h] has its five words. *)
Definition sized (st : t) : Prop := length (m_h (m_core st)) = 5%nat.
End RIPEMD_160.

(** ** BLAKE-224 (blake1_224.h) *)

Module Blake1_224.
Definition BLOCK_SIZE : nat := 64.

(** [m_sizeCounter] counts bits here. *)
Record members : Type := Members { m_sizeCounter : Z; m_h : list Z }.
Definition t : Type := sink members.

Definition cTable : list Z := [
  0x243f6a88; 0x85a308d3; 0x13198a2e; 0x03707344; 0xa4093822; 0x299f31d0; 0x082efa98; 0xec4e6c89;
  0x452821e6; 0x38d01377; 0xbe5466cf; 0x34e90c6c; 0xc0ac29b7; 0xc97c50dd; 0x3f84d5b5; 0xb5470917
].

(** One expansion [blakeMix(v[a], v[b], v[c], v[d], m[x], m[y],
    cTable[c1], cTable[c2])] of the macro. *)
Inductive call : Type := Mix (a b c d x y constant1 constant2 : nat).

Definition blakeMix (m : nat -> Z) (v : list Z) (cl : call) : list Z :=
  let '(Mix ia ib ic id x y constant1 constant2) := cl in
  let a := at_ v ia in let b := at_ v ib in
  let c := at_ v ic in let d := at_ v id in
  let a := add32 (add32 a b) (Z.lxor (m x) (at_ cTable constant1)) in
  let d := rotr32 (Z.lxor d a) 16 in
  let c := add32 c d in
  let b := rotr32 (Z.lxor b c) 12 in
  let a := add32 (add32 a b) (Z.lxor (m y) (at_ cTable constant2)) in
  let d := rotr32 (Z.lxor d a) 8 in
  let c := add32 c d in
  let b := rotr32 (Z.lxor b c) 7 in
  upd id d (upd ic c (upd ib b (upd ia a v))).

(** The macro expansions of blake1_224.h:281-405, in program order; the
    blank lines of the source separate the rounds. *)
Definition calls : list call := [
  Mix 0 4 8 12 0 1 1 0;
  Mix 1 5 9 13 2 3 3 2;
  Mix 2 6 10 14 4 5 5 4;
  Mix 3 7 11 15 6 7 7 6;
  Mix 0 5 10 15 8 9 9 8;
  Mix 1 6 11 12 10 11 11 10;
  Mix 2 7 8 13 12 13 13 12;
  Mix 3 4 9 14 14 15 15 14;

  Mix 0 4 8 12 14 10 10 14;
  Mix 1 5 9 13 4 8 8 4;
  Mix 2 6 10 14 9 15 15 9;
  Mix 3 7 11 15 13 6 6 13;
  Mix 0 5 10 15 1 12 12 1;
  Mix 1 6 11 12 0 2 2 0;
  Mix 2 7 8 13 11 7 7 11;
  Mix 3 4 9 14 5 3 3 5;

  Mix 0 4 8 12 11 8 8 11;
  Mix 1 5 9 13 12 0 0 12;
  Mix 2 6 10 14 5 2 2 5;
  Mix 3 7 11 15 15 13 13 15;
  Mix 0 5 10 15 10 14 14 10;
  Mix 1 6 11 12 3 6 6 3;
  Mix 2 7 8 13 7 1 1 7;
  Mix 3 4 9 14 9 4 4 9;

  Mix 0 4 8 12 7 9 9 7;
  Mix 1 5 9 13 3 1 1 3;
  Mix 2 6 10 14 13 12 12 13;
  Mix 3 7 11 15 11 14 14 11;
  Mix 0 5 10 15 2 6 6 2;
  Mix 1 6 11 12 5 10 10 5;
  Mix 2 7 8 13 4 0 0 4;
  Mix 3 4 9 14 15 8 8 15;

  Mix 0 4 8 12 9 0 0 9;
  Mix 1 5 9 13 5 7 7 5;
  Mix 2 6 10 14 2 4 4 2;
  Mix 3 7 11 15 10 15 15 10;
  Mix 0 5 10 15 14 1 1 14;
  Mix 1 6 11 12 11 12 12 11;
  Mix 2 7 8 13 6 8 8 6;
  Mix 3 4 9 14 3 13 13 3;

  Mix 0 4 8 12 2 12 12 2;
  Mix 1 5 9 13 6 10 10 6;
  Mix 2 6 10 14 0 11 11 0;
  Mix 3 7 11 15 8 3 3 8;
  Mix 0 5 10 15 4 13 13 4;
  Mix 1 6 11 12 7 5 5 7;
  Mix 2 7 8 13 15 14 14 15;
  Mix 3 4 9 14 1 9 9 1;

  Mix 0 4 8 12 12 5 5 12;
  Mix 1 5 9 13 1 15 15 1;
  Mix 2 6 10 14 14 13 13 14;
  Mix 3 7 11 15 4 10 10 4;
  Mix 0 5 10 15 0 7 7 0;
  Mix 1 6 11 12 6 3 3 6;
  Mix 2 7 8 13 9 2 2 9;
  Mix 3 4 9 14 8 11 11 8;

  Mix 0 4 8 12 13 11 11 13;
  Mix 1 5 9 13 7 14 14 7;
  Mix 2 6 10 14 12 1 1 12;
  Mix 3 7 11 15 3 9 9 3;
  Mix 0 5 10 15 5 0 0 5;
  Mix 1 6 11 12 15 4 4 15;
  Mix 2 7 8 13 8 6 6 8;
  Mix 3 4 9 14 2 10 10 2;

  Mix 0 4 8 12 6 15 15 6;
  Mix 1 5 9 13 14 9 9 14;
  Mix 2 6 10 14 11 3 3 11;
  Mix 3 7 11 15 0 8 8 0;
  Mix 0 5 10 15 12 2 2 12;
  Mix 1 6 11 12 13 7 7 13;
  Mix 2 7 8 13 1 4 4 1;
  Mix 3 4 9 14 10 5 5 10;

  Mix 0 4 8 12 10 2 2 10;
  Mix 1 5 9 13 8 4 4 8;
  Mix 2 6 10 14 7 6 6 7;
  Mix 3 7 11 15 1 5 5 1;
  Mix 0 5 10 15 15 11 11 15;
  Mix 1 6 11 12 9 14 14 9;
  Mix 2 7 8 13 3 12 12 3;
  Mix 3 4 9 14 13 0 0 13;

  Mix 0 4 8 12 0 1 1 0;
  Mix 1 5 9 13 2 3 3 2;
  Mix 2 6 10 14 4 5 5 4;
  Mix 3 7 11 15 6 7 7 6;
  Mix 0 5 10 15 8 9 9 8;
  Mix 1 6 11 12 10 11 11 10;
  Mix 2 7 8 13 12 13 13 12;
  Mix 3 4 9 14 14 15 15 14;

  Mix 0 4 8 12 14 10 10 14;
  Mix 1 5 9 13 4 8 8 4;
  Mix 2 6 10 14 9 15 15 9;
  Mix 3 7 11 15 13 6 6 13;
  Mix 0 5 10 15 1 12 12 1;
  Mix 1 6 11 12 0 2 2 0;
  Mix 2 7 8 13 11 7 7 11;
  Mix 3 4 9 14 5 3 3 5;

  Mix 0 4 8 12 11 8 8 11;
  Mix 1 5 9 13 12 0 0 12;
  Mix 2 6 10 14 5 2 2 5;
  Mix 3 7 11 15 15 13 13 15;
  Mix 0 5 10 15 10 14 14 10;
  Mix 1 6 11 12 3 6 6 3;
  Mix 2 7 8 13 7 1 1 7;
  Mix 3 4 9 14 9 4 4 9;

  Mix 0 4 8 12 7 9 9 7;
  Mix 1 5 9 13 3 1 1 3;
  Mix 2 6 10 14 13 12 12 13;
  Mix 3 7 11 15 11 14 14 11;
  Mix 0 5 10 15 2 6 6 2;
  Mix 1 6 11 12 5 10 10 5;
  Mix 2 7 8 13 4 0 0 4;
  Mix 3 4 9 14 15 8 8 15
].

(** The calls of round [r], eight to a round, and the message words a
    round reads, in the order it reads them. *)
Definition round_calls (r : nat) : list call := firstn 8 (skipn (8 * r) calls).

Definition msg_words (r : nat) : list nat :=
  flat_map (fun cl => let '(Mix _ _ _ _ x y _ _) := cl in [x; y]) (round_calls r).

(** A list of sixteen indices in which each of 0..15 occurs. *)
Definition is_permutation16 (l : list nat) : bool :=
  (length l =? 16)%nat && forallb (fun i => existsb (Nat.eqb i) l) (seq 0 16).

(** One iteration of the block loop of [addDataImpl]; [paddingLen] is a
    [uint32_t] and so is [(BLOCK_SIZE - paddingLen) * 8]. *)
Definition compress (paddingLen : Z) (s : members) (blk : list Z) : members :=
  let m := load32be blk in
  let m_h := m_h s in
  let v := map (at_ m_h) (seq 0 8) ++ map (at_ cTable) (seq 0 8) in
  let nonPaddingBits := wrap 32 ((Z.of_nat BLOCK_SIZE - paddingLen) * 8) in
  let m_sizeCounter := wrap 64 (m_sizeCounter s + nonPaddingBits) in
  let v :=
    if 0 <? nonPaddingBits then
      let t0 := ror 32 m_sizeCounter 0 in
      let t1 := ror 32 m_sizeCounter 32 in
      let v := upd 12 (Z.lxor (at_ v 12) t0) v in
      let v := upd 13 (Z.lxor (at_ v 13) t0) v in
      let v := upd 14 (Z.lxor (at_ v 14) t1) v in
      upd 15 (Z.lxor (at_ v 15) t1) v
    else v in
  let v := fold_left (blakeMix m) calls v in
  Members m_sizeCounter
          (map (fun i => Z.lxor (at_ m_h i) (Z.lxor (at_ v i) (at_ v (i + 8)))) (seq 0 8)).

Definition addDataImpl (paddingLen : Z) (s : members) (data : list Z) : members :=
  process_blocks BLOCK_SIZE (compress paddingLen) s data.

Definition reset (st : t) : t :=
  Sink [] (Members 0 [0xc1059ed8; 0x367cd507; 0x3070dd17; 0xf70e5939;
                      0xffc00b31; 0x68581511; 0x64f98fa7; 0xbefa4fa4]).

Definition fresh : t := reset (Sink [] (Members 0 [])).

(** [addData] calls [addDataImpl] with the default [paddingLen = 0]. *)
Definition addData : t -> list Z -> t :=
  Accumulator.addData BLOCK_SIZE (addDataImpl 0).

(** [finalize] up to the call [addDataImpl(m_buffer, len + 9)]; the
    second component is that [paddingLen] argument. *)
Definition pad (st : t) : t * Z :=
  let sizeCounterBits :=
    wrap 64 (m_sizeCounter (m_core st) + wrap 64 (Z.of_nat (length (m_buffer st)) * 8)) in
  let sizeCounterBitsL := ror 32 sizeCounterBits 0 in
  let sizeCounterBitsH := ror 32 sizeCounterBits 32 in
  let buffer := m_buffer st ++ [Z.shiftl 1 7] in
  let len := (BLOCK_SIZE - ((length buffer + 8) mod BLOCK_SIZE))%nat in
  let buffer := buffer ++ repeat 0 (len + 8) in
  let buffer :=
    fold_left (fun buffer i =>
                 let buffer := upd (length buffer - 8 + i)
                                   (ror 8 sizeCounterBitsH (8 * (3 - Z.of_nat i))) buffer in
                 upd (length buffer - 4 + i)
                     (ror 8 sizeCounterBitsL (8 * (3 - Z.of_nat i))) buffer)
              (seq 0 4) buffer in
  (Sink buffer (m_core st), wrap 32 (Z.of_nat (len + 9))).

Definition finalize (st : t) : t :=
  let '(st, paddingLen) := pad st in
  clear (Sink (m_buffer st) (addDataImpl paddingLen (m_core st) (m_buffer st))).

(** [Span<const uint32_t> state(std::begin(m_h), (std::end(m_h) - 1))]:
    all words but the last. *)
Definition toVector (st : t) : list Z :=
  flat_map (bytes_be 4) (removelast (m_h (m_core st))).

Definition toString (st : t) : string := hex_of_bytes (toVector st).

(** The members of a fresh instance, and the members once the complete
    blocks [p] have been processed. *)
Definition init : members := m_core fresh.
Definition processed (p : list Z) : members := addDataImpl 0 init p.
Definition absorbed : list Z -> t := Accumulator.absorbed BLOCK_SIZE processed.

(** The arrays have their declared sizes: [m_h] has its eight words. *)
Definition sized (st : t) : Prop := length (m_h (m_core st)) = 8%nat.
End Blake1_224.

(** ** BLAKE2b (blake2.h) *)

Module Blake2.
Definition BLOCK_SIZE : nat := 128.

(** [class Uint128] of blake2.h:60-110. *)
Module Uint128.
Record t : Type := Make { m_lo : Z; m_hi : Z }.

(** [operator= (const uint64_t n)] *)
Definition assign (n : Z) : t := Make n 0.

(** [operator* (const unsigned int n)], which handles [n == 8] only. *)
Definition times8 (v : t) : t :=
  let msb := wrap 8 (Z.land (Z.shiftr (m_lo v) 61) 0xff) in
  Make (shl64 (m_lo v) 3) (Z.lor (shl64 (m_hi v) 3) msb).

(** [operator+= (const uint64_t n)] *)
Definition add_assign (v : t) (n : Z) : t :=
  let newLo := add64 (m_lo v) n in
  let m_hi := if newLo <? m_lo v then add64 (m_hi v) 1 else m_hi v in
  Make newLo m_hi.

Definition low (v : t) : Z := m_lo v.
Definition high (v : t) : Z := m_hi v.

(** The number a [Uint128] stands for. *)
Definition value (v : t) : Z := m_hi v * 2 ^ 64 + m_lo v.

(** Both members are [uint64_t]. *)
Definition in_range (v : t) : Prop :=
  (0 <= m_lo v < 2 ^ 64) /\ (0 <= m_hi v < 2 ^ 64).
End Uint128.

Record members : Type := Members { m_sizeCounter : Uint128.t; m_h : list Z }.
Definition t : Type := sink members.

Definition m_initializationVector : list Z := [
  0x6a09e667f3bcc908; 0xbb67ae8584caa73b; 0x3c6ef372fe94f82b; 0xa54ff53a5f1d36f1;
  0x510e527fade682d1; 0x9b05688c2b3e6c1f; 0x1f83d9abfb41bd6b; 0x5be0cd19137e2179
].

(** One expansion [blakeMix(v[a], v[b], v[c], v[d], m[x], m[y])]. *)
Inductive call : Type := Mix (a b c d x y : nat).

Definition blakeMix (m : nat -> Z) (v : list Z) (cl : call) : list Z :=
  let '(Mix ia ib ic id x y) := cl in
  let a := at_ v ia in let b := at_ v ib in
  let c := at_ v ic in let d := at_ v id in
  let a := add64 (add64 a b) (m x) in
  let d := rotr64 (Z.lxor d a) 32 in
  let c := add64 c d in
  let b := rotr64 (Z.lxor b c) 24 in
  let a := add64 (add64 a b) (m y) in
  let d := rotr64 (Z.lxor d a) 16 in
  let c := add64 c d in
  let b := rotr64 (Z.lxor b c) 63 in
  upd id d (upd ic c (upd ib b (upd ia a v))).

(** The macro expansions of blake2.h:313-408, in program order. *)
Definition calls : list call := [
  Mix 0 4 8 12 0 1;
  Mix 1 5 9 13 2 3;
  Mix 2 6 10 14 4 5;
  Mix 3 7 11 15 6 7;
  Mix 0 5 10 15 8 9;
  Mix 1 6 11 12 10 11;
  Mix 2 7 8 13 12 13;
  Mix 3 4 9 14 14 15;

  Mix 0 4 8 12 14 10;
  Mix 1 5 9 13 4 8;
  Mix 2 6 10 14 9 15;
  Mix 3 7 11 15 13 6;
  Mix 0 5 10 15 1 12;
  Mix 1 6 11 12 0 2;
  Mix 2 7 8 13 11 7;
  Mix 3 4 9 14 5 3;

  Mix 0 4 8 12 11 8;
  Mix 1 5 9 13 12 0;
  Mix 2 6 10 14 5 2;
  Mix 3 7 11 15 15 13;
  Mix 0 5 10 15 10 14;
  Mix 1 6 11 12 3 6;
  Mix 2 7 8 13 7 1;
  Mix 3 4 9 14 9 4;

  Mix 0 4 8 12 7 9;
  Mix 1 5 9 13 3 1;
  Mix 2 6 10 14 13 12;
  Mix 3 7 11 15 11 14;
  Mix 0 5 10 15 2 6;
  Mix 1 6 11 12 5 10;
  Mix 2 7 8 13 4 0;
  Mix 3 4 9 14 15 8;

  Mix 0 4 8 12 9 0;
  Mix 1 5 9 13 5 7;
  Mix 2 6 10 14 2 4;
  Mix 3 7 11 15 10 15;
  Mix 0 5 10 15 14 1;
  Mix 1 6 11 12 11 12;
  Mix 2 7 8 13 6 8;
  Mix 3 4 9 14 3 13;

  Mix 0 4 8 12 2 12;
  Mix 1 5 9 13 6 10;
  Mix 2 6 10 14 0 11;
  Mix 3 7 11 15 8 3;
  Mix 0 5 10 15 4 13;
  Mix 1 6 11 12 7 5;
  Mix 2 7 8 13 15 14;
  Mix 3 4 9 14 1 9;

  Mix 0 4 8 12 12 5;
  Mix 1 5 9 13 1 15;
  Mix 2 6 10 14 14 13;
  Mix 3 7 11 15 4 10;
  Mix 0 5 10 15 0 7;
  Mix 1 6 11 12 6 3;
  Mix 2 7 8 13 9 2;
  Mix 3 4 9 14 8 11;

  Mix 0 4 8 12 13 11;
  Mix 1 5 9 13 7 14;
  Mix 2 6 10 14 12 1;
  Mix 3 7 11 15 3 9;
  Mix 0 5 10 15 5 0;
  Mix 1 6 11 12 15 4;
  Mix 2 7 8 13 8 6;
  Mix 3 4 9 14 2 10;

  Mix 0 4 8 12 6 15;
  Mix 1 5 9 13 14 9;
  Mix 2 6 10 14 11 3;
  Mix 3 7 11 15 0 8;
  Mix 0 5 10 15 12 2;
  Mix 1 6 11 12 13 7;
  Mix 2 7 8 13 1 4;
  Mix 3 4 9 14 10 5;

  Mix 0 4 8 12 10 2;
  Mix 1 5 9 13 8 4;
  Mix 2 6 10 14 7 6;
  Mix 3 7 11 15 1 5;
  Mix 0 5 10 15 15 11;
  Mix 1 6 11 12 9 14;
  Mix 2 7 8 13 3 12;
  Mix 3 4 9 14 13 0;

  Mix 0 4 8 12 0 1;
  Mix 1 5 9 13 2 3;
  Mix 2 6 10 14 4 5;
  Mix 3 7 11 15 6 7;
  Mix 0 5 10 15 8 9;
  Mix 1 6 11 12 10 11;
  Mix 2 7 8 13 12 13;
  Mix 3 4 9 14 14 15;

  Mix 0 4 8 12 14 10;
  Mix 1 5 9 13 4 8;
  Mix 2 6 10 14 9 15;
  Mix 3 7 11 15 13 6;
  Mix 0 5 10 15 1 12;
  Mix 1 6 11 12 0 2;
  Mix 2 7 8 13 11 7;
  Mix 3 4 9 14 5 3
].

(** The initial value of the local [v[16]] of one block iteration. *)
Definition init_v (m_h : list Z) (m_sizeCounter : Uint128.t) (isFinal : bool) : list Z :=
  let iv := at_ m_initializationVector in
  [ at_ m_h 0; at_ m_h 1; at_ m_h 2; at_ m_h 3; at_ m_h 4; at_ m_h 5; at_ m_h 6; at_ m_h 7;
    iv 0%nat; iv 1%nat; iv 2%nat; iv 3%nat;
    Z.lxor (iv 4%nat) (Uint128.low m_sizeCounter);
    Z.lxor (iv 5%nat) (Uint128.high m_sizeCounter);
    if isFinal then not64 (iv 6%nat) else iv 6%nat;
    iv 7%nat ].

(** One iteration of the block loop of [addDataImpl]; [BLOCK_SIZE -
    paddingLen] is computed in [uint64_t]. *)
Definition compress (isFinal : bool) (paddingLen : Z) (s : members) (blk : list Z)
    : members :=
  let m := load64le blk in
  let m_sizeCounter :=
    Uint128.add_assign (m_sizeCounter s) (wrap 64 (Z.of_nat BLOCK_SIZE - paddingLen)) in
  let m_h := m_h s in
  let v := init_v m_h m_sizeCounter isFinal in
  let v := fold_left (blakeMix m) calls v in
  Members m_sizeCounter
          (map (fun i => Z.lxor (at_ m_h i) (Z.lxor (at_ v i) (at_ v (i + 8)))) (seq 0 8)).

Definition addDataImpl (isFinal : bool) (paddingLen : Z) (s : members) (data : list Z)
    : members :=
  process_blocks BLOCK_SIZE (compress isFinal paddingLen) s data.

Definition reset (st : t) : t :=
  let m_h := map (at_ m_initializationVector) (seq 0 8) in
  let m_h := upd 0 (Z.lxor (at_ m_h 0)
                           (Z.lxor (Z.lxor 0x01010000 (Z.shiftl 0 8)) 64)) m_h in
  Sink [] (Members (Uint128.assign 0) m_h).

Definition fresh : t := reset (Sink [] (Members (Uint128.Make 0 0) [])).

(** The part of [addData] after the buffer has been dealt with: split
    off the last one to [BLOCK_SIZE] bytes, process the rest in bulk. *)
Definition bulk (st : t) (data : list Z) : t :=
  let dataSize := length data in
  let remainder :=
    if negb (dataSize mod BLOCK_SIZE =? 0)%nat then (dataSize mod BLOCK_SIZE)%nat
    else BLOCK_SIZE in
  let len := (dataSize - remainder)%nat in
  let core := addDataImpl false 0 (m_core st) (firstn len data) in
  Sink (skipn (dataSize - remainder) data) core.

(** [addData] calls itself once the buffer has been topped up; [fuel]
    bounds the depth of that recursion. *)
Fixpoint addData_rec (fuel : nat) (st : t) (inData : list Z) : option t :=
  match fuel with
  | O => None
  | S fuel =>
      match inData with
      | [] => Some st
      | _ :: _ =>
          let data := inData in
          if (length (m_buffer st) =? BLOCK_SIZE)%nat then
            let st := Sink (m_buffer st) (addDataImpl false 0 (m_core st) (m_buffer st)) in
            let st := clear st in
            Some (bulk st data)
          else
            match m_buffer st with
            | _ :: _ =>
                let len := Nat.min (BLOCK_SIZE - length (m_buffer st)) (length data) in
                let st := Sink (m_buffer st ++ firstn len data) (m_core st) in
                addData_rec fuel st (skipn len data)
            | [] => Some (bulk st data)
            end
      end
  end.

(** Each recursive call receives a strictly shorter span, so
    [S (length inData)] levels are enough ([blake2_addData_rec_total]). *)
Definition addData (st : t) (inData : list Z) : t :=
  match addData_rec (S (length inData)) st inData with
  | Some st' => st'
  | None => st
  end.

(** [finalize] up to the call [addDataImpl(m_buffer, true, len)]; the
    second component is that [paddingLen] argument. *)
Definition pad (st : t) : t * Z :=
  let len := (BLOCK_SIZE - length (m_buffer st))%nat in
  (Sink (m_buffer st ++ repeat 0 len) (m_core st), Z.of_nat len).

Definition finalize (st : t) : t :=
  let '(st, len) := pad st in
  clear (Sink (m_buffer st) (addDataImpl true len (m_core st) (m_buffer st))).

Definition toVector (st : t) : list Z :=
  flat_map (bytes_le 8) (m_h (m_core st)).

Definition toString (st : t) : string := hex_of_bytes (toVector st).

(** The members of a fresh instance, and what an instance holds once it
    has consumed [msg]: the last [held msg] bytes (one to [BLOCK_SIZE] of
    them when [msg] is not empty) wait in the accumulator, the blocks
    before them have been processed, none of them as the final one. *)
Definition init : members := m_core fresh.
Definition processed (p : list Z) : members := addDataImpl false 0 init p.
Definition held (msg : list Z) : nat :=
  match length msg with
  | O => O
  | S n => S (n mod BLOCK_SIZE)
  end.
Definition absorbed (msg : list Z) : t :=
  Sink (lastn (held msg) msg) (processed (firstn (length msg - held msg) msg)).

(** The arrays have their declared sizes: [m_h] has its eight words. *)
Definition sized (st : t) : Prop := length (m_h (m_core st)) = 8%nat.
End Blake2.

(** ** Whirlpool (whirlpool.h) *)

(** [class Uint128] of whirlpool.h:164-221. *)
Module Uint128.
Record t : Type := Make { m_lo : Z; m_hi : Z }.

(** [operator= (const uint64_t n)] *)
Definition assign (n : Z) : t := Make n 0.

(** [operator* (const unsigned int n)], which handles [n == 8] only. *)
Definition times8 (v : t) : t :=
  let msb := wrap 8 (Z.land (Z.shiftr (m_lo v) 61) 0xff) in
  Make (shl64 (m_lo v) 3) (Z.lor (shl64 (m_hi v) 3) msb).

(** [operator+= (const uint64_t n)] *)
Definition add_assign (v : t) (n : Z) : t :=
  let newLo := add64 (m_lo v) n in
  let m_hi := if newLo <? m_lo v then add64 (m_hi v) 1 else m_hi v in
  Make newLo m_hi.

(** [operator+ (const uint64_t n)] *)
Definition add (v : t) (n : Z) : t := add_assign v n.

Definition low (v : t) : Z := m_lo v.
Definition high (v : t) : Z := m_hi v.

(** The number a [Uint128] stands for. *)
Definition value (v : t) : Z := m_hi v * 2 ^ 64 + m_lo v.

(** Both members are [uint64_t]. *)
Definition in_range (v : t) : Prop :=
  (0 <= m_lo v < 2 ^ 64) /\ (0 <= m_hi v < 2 ^ 64).
End Uint128.

Module Whirlpool.
Definition BLOCK_SIZE : nat := 64.
Definition ROUND : nat := 10.

(** [m_buffer] is a [Buffer<Byte, 128>]: a fixed array with an end index,
    which the embedding reads as the list of its first [size()] bytes. *)
Record members : Type := Members { m_sizeCounter : Uint128.t; m_h : list Z }.
Definition t : Type := sink members.

Definition cTable : list (list Z) := [
  [
    0x18186018c07830d8; 0x23238c2305af4626; 0xc6c63fc67ef991b8; 0xe8e887e8136fcdfb;
    0x878726874ca113cb; 0xb8b8dab8a9626d11; 0x0101040108050209; 0x4f4f214f426e9e0d;
    0x3636d836adee6c9b; 0xa6a6a2a6590451ff; 0xd2d26fd2debdb90c; 0xf5f5f3f5fb06f70e;
    0x7979f979ef80f296; 0x6f6fa16f5fcede30; 0x91917e91fcef3f6d; 0x52525552aa07a4f8;
    0x60609d6027fdc047; 0xbcbccabc89766535; 0x9b9b569baccd2b37; 0x8e8e028e048c018a;
    0xa3a3b6a371155bd2; 0x0c0c300c603c186c; 0x7b7bf17bff8af684; 0x3535d435b5e16a80;
    0x1d1d741de8693af5; 0xe0e0a7e05347ddb3; 0xd7d77bd7f6acb321; 0xc2c22fc25eed999c;
    0x2e2eb82e6d965c43; 0x4b4b314b627a9629; 0xfefedffea321e15d; 0x575741578216aed5;
    0x15155415a8412abd; 0x7777c1779fb6eee8; 0x3737dc37a5eb6e92; 0xe5e5b3e57b56d79e;
    0x9f9f469f8cd92313; 0xf0f0e7f0d317fd23; 0x4a4a354a6a7f9420; 0xdada4fda9e95a944;
    0x58587d58fa25b0a2; 0xc9c903c906ca8fcf; 0x2929a429558d527c; 0x0a0a280a5022145a;
    0xb1b1feb1e14f7f50; 0xa0a0baa0691a5dc9; 0x6b6bb16b7fdad614; 0x85852e855cab17d9;
    0xbdbdcebd8173673c; 0x5d5d695dd234ba8f; 0x1010401080502090; 0xf4f4f7f4f303f507;
    0xcbcb0bcb16c08bdd; 0x3e3ef83eedc67cd3; 0x0505140528110a2d; 0x676781671fe6ce78;
    0xe4e4b7e47353d597; 0x27279c2725bb4e02; 0x4141194132588273; 0x8b8b168b2c9d0ba7;
    0xa7a7a6a7510153f6; 0x7d7de97dcf94fab2; 0x95956e95dcfb3749; 0xd8d847d88e9fad56;
    0xfbfbcbfb8b30eb70; 0xeeee9fee2371c1cd; 0x7c7ced7cc791f8bb; 0x6666856617e3cc71;
    0xdddd53dda68ea77b; 0x17175c17b84b2eaf; 0x4747014702468e45; 0x9e9e429e84dc211a;
    0xcaca0fca1ec589d4; 0x2d2db42d75995a58; 0xbfbfc6bf9179632e; 0x07071c07381b0e3f;
    0xadad8ead012347ac; 0x5a5a755aea2fb4b0; 0x838336836cb51bef; 0x3333cc3385ff66b6;
    0x636391633ff2c65c; 0x02020802100a0412; 0xaaaa92aa39384993; 0x7171d971afa8e2de;
    0xc8c807c80ecf8dc6; 0x19196419c87d32d1; 0x494939497270923b; 0xd9d943d9869aaf5f;
    0xf2f2eff2c31df931; 0xe3e3abe34b48dba8; 0x5b5b715be22ab6b9; 0x88881a8834920dbc;
    0x9a9a529aa4c8293e; 0x262698262dbe4c0b; 0x3232c8328dfa64bf; 0xb0b0fab0e94a7d59;
    0xe9e983e91b6acff2; 0x0f0f3c0f78331e77; 0xd5d573d5e6a6b733; 0x80803a8074ba1df4;
    0xbebec2be997c6127; 0xcdcd13cd26de87eb; 0x3434d034bde46889; 0x48483d487a759032;
    0xffffdbffab24e354; 0x7a7af57af78ff48d; 0x90907a90f4ea3d64; 0x5f5f615fc23ebe9d;
    0x202080201da0403d; 0x6868bd6867d5d00f; 0x1a1a681ad07234ca; 0xaeae82ae192c41b7;
    0xb4b4eab4c95e757d; 0x54544d549a19a8ce; 0x93937693ece53b7f; 0x222288220daa442f;
    0x64648d6407e9c863; 0xf1f1e3f1db12ff2a; 0x7373d173bfa2e6cc; 0x12124812905a2482;
    0x40401d403a5d807a; 0x0808200840281048; 0xc3c32bc356e89b95; 0xecec97ec337bc5df;
    0xdbdb4bdb9690ab4d; 0xa1a1bea1611f5fc0; 0x8d8d0e8d1c830791; 0x3d3df43df5c97ac8;
    0x97976697ccf1335b; 0x0000000000000000; 0xcfcf1bcf36d483f9; 0x2b2bac2b4587566e;
    0x7676c57697b3ece1; 0x8282328264b019e6; 0xd6d67fd6fea9b128; 0x1b1b6c1bd87736c3;
    0xb5b5eeb5c15b7774; 0xafaf86af112943be; 0x6a6ab56a77dfd41d; 0x50505d50ba0da0ea;
    0x45450945124c8a57; 0xf3f3ebf3cb18fb38; 0x3030c0309df060ad; 0xefef9bef2b74c3c4;
    0x3f3ffc3fe5c37eda; 0x55554955921caac7; 0xa2a2b2a2791059db; 0xeaea8fea0365c9e9;
    0x656589650fecca6a; 0xbabad2bab9686903; 0x2f2fbc2f65935e4a; 0xc0c027c04ee79d8e;
    0xdede5fdebe81a160; 0x1c1c701ce06c38fc; 0xfdfdd3fdbb2ee746; 0x4d4d294d52649a1f;
    0x92927292e4e03976; 0x7575c9758fbceafa; 0x06061806301e0c36; 0x8a8a128a249809ae;
    0xb2b2f2b2f940794b; 0xe6e6bfe66359d185; 0x0e0e380e70361c7e; 0x1f1f7c1ff8633ee7;
    0x6262956237f7c455; 0xd4d477d4eea3b53a; 0xa8a89aa829324d81; 0x96966296c4f43152;
    0xf9f9c3f99b3aef62; 0xc5c533c566f697a3; 0x2525942535b14a10; 0x59597959f220b2ab;
    0x84842a8454ae15d0; 0x7272d572b7a7e4c5; 0x3939e439d5dd72ec; 0x4c4c2d4c5a619816;
    0x5e5e655eca3bbc94; 0x7878fd78e785f09f; 0x3838e038ddd870e5; 0x8c8c0a8c14860598;
    0xd1d163d1c6b2bf17; 0xa5a5aea5410b57e4; 0xe2e2afe2434dd9a1; 0x616199612ff8c24e;
    0xb3b3f6b3f1457b42; 0x2121842115a54234; 0x9c9c4a9c94d62508; 0x1e1e781ef0663cee;
    0x4343114322528661; 0xc7c73bc776fc93b1; 0xfcfcd7fcb32be54f; 0x0404100420140824;
    0x51515951b208a2e3; 0x99995e99bcc72f25; 0x6d6da96d4fc4da22; 0x0d0d340d68391a65;
    0xfafacffa8335e979; 0xdfdf5bdfb684a369; 0x7e7ee57ed79bfca9; 0x242490243db44819;
    0x3b3bec3bc5d776fe; 0xabab96ab313d4b9a; 0xcece1fce3ed181f0; 0x1111441188552299;
    0x8f8f068f0c890383; 0x4e4e254e4a6b9c04; 0xb7b7e6b7d1517366; 0xebeb8beb0b60cbe0;
    0x3c3cf03cfdcc78c1; 0x81813e817cbf1ffd; 0x94946a94d4fe3540; 0xf7f7fbf7eb0cf31c;
    0xb9b9deb9a1676f18; 0x13134c13985f268b; 0x2c2cb02c7d9c5851; 0xd3d36bd3d6b8bb05;
    0xe7e7bbe76b5cd38c; 0x6e6ea56e57cbdc39; 0xc4c437c46ef395aa; 0x03030c03180f061b;
    0x565645568a13acdc; 0x44440d441a49885e; 0x7f7fe17fdf9efea0; 0xa9a99ea921374f88;
    0x2a2aa82a4d825467; 0xbbbbd6bbb16d6b0a; 0xc1c123c146e29f87; 0x53535153a202a6f1;
    0xdcdc57dcae8ba572; 0x0b0b2c0b58271653; 0x9d9d4e9d9cd32701; 0x6c6cad6c47c1d82b;
    0x3131c43195f562a4; 0x7474cd7487b9e8f3; 0xf6f6fff6e309f115; 0x464605460a438c4c;
    0xacac8aac092645a5; 0x89891e893c970fb5; 0x14145014a04428b4; 0xe1e1a3e15b42dfba;
    0x16165816b04e2ca6; 0x3a3ae83acdd274f7; 0x6969b9696fd0d206; 0x09092409482d1241;
    0x7070dd70a7ade0d7; 0xb6b6e2b6d954716f; 0xd0d067d0ceb7bd1e; 0xeded93ed3b7ec7d6;
    0xcccc17cc2edb85e2; 0x424215422a578468; 0x98985a98b4c22d2c; 0xa4a4aaa4490e55ed;
    0x2828a0285d885075; 0x5c5c6d5cda31b886; 0xf8f8c7f8933fed6b; 0x8686228644a411c2
  ];
  [
    0xd818186018c07830; 0x2623238c2305af46; 0xb8c6c63fc67ef991; 0xfbe8e887e8136fcd;
    0xcb878726874ca113; 0x11b8b8dab8a9626d; 0x0901010401080502; 0x0d4f4f214f426e9e;
    0x9b3636d836adee6c; 0xffa6a6a2a6590451; 0x0cd2d26fd2debdb9; 0x0ef5f5f3f5fb06f7;
    0x967979f979ef80f2; 0x306f6fa16f5fcede; 0x6d91917e91fcef3f; 0xf852525552aa07a4;
    0x4760609d6027fdc0; 0x35bcbccabc897665; 0x379b9b569baccd2b; 0x8a8e8e028e048c01;
    0xd2a3a3b6a371155b; 0x6c0c0c300c603c18; 0x847b7bf17bff8af6; 0x803535d435b5e16a;
    0xf51d1d741de8693a; 0xb3e0e0a7e05347dd; 0x21d7d77bd7f6acb3; 0x9cc2c22fc25eed99;
    0x432e2eb82e6d965c; 0x294b4b314b627a96; 0x5dfefedffea321e1; 0xd5575741578216ae;
    0xbd15155415a8412a; 0xe87777c1779fb6ee; 0x923737dc37a5eb6e; 0x9ee5e5b3e57b56d7;
    0x139f9f469f8cd923; 0x23f0f0e7f0d317fd; 0x204a4a354a6a7f94; 0x44dada4fda9e95a9;
    0xa258587d58fa25b0; 0xcfc9c903c906ca8f; 0x7c2929a429558d52; 0x5a0a0a280a502214;
    0x50b1b1feb1e14f7f; 0xc9a0a0baa0691a5d; 0x146b6bb16b7fdad6; 0xd985852e855cab17;
    0x3cbdbdcebd817367; 0x8f5d5d695dd234ba; 0x9010104010805020; 0x07f4f4f7f4f303f5;
    0xddcbcb0bcb16c08b; 0xd33e3ef83eedc67c; 0x2d0505140528110a; 0x78676781671fe6ce;
    0x97e4e4b7e47353d5; 0x0227279c2725bb4e; 0x7341411941325882; 0xa78b8b168b2c9d0b;
    0xf6a7a7a6a7510153; 0xb27d7de97dcf94fa; 0x4995956e95dcfb37; 0x56d8d847d88e9fad;
    0x70fbfbcbfb8b30eb; 0xcdeeee9fee2371c1; 0xbb7c7ced7cc791f8; 0x716666856617e3cc;
    0x7bdddd53dda68ea7; 0xaf17175c17b84b2e; 0x454747014702468e; 0x1a9e9e429e84dc21;
    0xd4caca0fca1ec589; 0x582d2db42d75995a; 0x2ebfbfc6bf917963; 0x3f07071c07381b0e;
    0xacadad8ead012347; 0xb05a5a755aea2fb4; 0xef838336836cb51b; 0xb63333cc3385ff66;
    0x5c636391633ff2c6; 0x1202020802100a04; 0x93aaaa92aa393849; 0xde7171d971afa8e2;
    0xc6c8c807c80ecf8d; 0xd119196419c87d32; 0x3b49493949727092; 0x5fd9d943d9869aaf;
    0x31f2f2eff2c31df9; 0xa8e3e3abe34b48db; 0xb95b5b715be22ab6; 0xbc88881a8834920d;
    0x3e9a9a529aa4c829; 0x0b262698262dbe4c; 0xbf3232c8328dfa64; 0x59b0b0fab0e94a7d;
    0xf2e9e983e91b6acf; 0x770f0f3c0f78331e; 0x33d5d573d5e6a6b7; 0xf480803a8074ba1d;
    0x27bebec2be997c61; 0xebcdcd13cd26de87; 0x893434d034bde468; 0x3248483d487a7590;
    0x54ffffdbffab24e3; 0x8d7a7af57af78ff4; 0x6490907a90f4ea3d; 0x9d5f5f615fc23ebe;
    0x3d202080201da040; 0x0f6868bd6867d5d0; 0xca1a1a681ad07234; 0xb7aeae82ae192c41;
    0x7db4b4eab4c95e75; 0xce54544d549a19a8; 0x7f93937693ece53b; 0x2f222288220daa44;
    0x6364648d6407e9c8; 0x2af1f1e3f1db12ff; 0xcc7373d173bfa2e6; 0x8212124812905a24;
    0x7a40401d403a5d80; 0x4808082008402810; 0x95c3c32bc356e89b; 0xdfecec97ec337bc5;
    0x4ddbdb4bdb9690ab; 0xc0a1a1bea1611f5f; 0x918d8d0e8d1c8307; 0xc83d3df43df5c97a;
    0x5b97976697ccf133; 0x0000000000000000; 0xf9cfcf1bcf36d483; 0x6e2b2bac2b458756;
    0xe17676c57697b3ec; 0xe68282328264b019; 0x28d6d67fd6fea9b1; 0xc31b1b6c1bd87736;
    0x74b5b5eeb5c15b77; 0xbeafaf86af112943; 0x1d6a6ab56a77dfd4; 0xea50505d50ba0da0;
    0x5745450945124c8a; 0x38f3f3ebf3cb18fb; 0xad3030c0309df060; 0xc4efef9bef2b74c3;
    0xda3f3ffc3fe5c37e; 0xc755554955921caa; 0xdba2a2b2a2791059; 0xe9eaea8fea0365c9;
    0x6a656589650fecca; 0x03babad2bab96869; 0x4a2f2fbc2f65935e; 0x8ec0c027c04ee79d;
    0x60dede5fdebe81a1; 0xfc1c1c701ce06c38; 0x46fdfdd3fdbb2ee7; 0x1f4d4d294d52649a;
    0x7692927292e4e039; 0xfa7575c9758fbcea; 0x3606061806301e0c; 0xae8a8a128a249809;
    0x4bb2b2f2b2f94079; 0x85e6e6bfe66359d1; 0x7e0e0e380e70361c; 0xe71f1f7c1ff8633e;
    0x556262956237f7c4; 0x3ad4d477d4eea3b5; 0x81a8a89aa829324d; 0x5296966296c4f431;
    0x62f9f9c3f99b3aef; 0xa3c5c533c566f697; 0x102525942535b14a; 0xab59597959f220b2;
    0xd084842a8454ae15; 0xc57272d572b7a7e4; 0xec3939e439d5dd72; 0x164c4c2d4c5a6198;
    0x945e5e655eca3bbc; 0x9f7878fd78e785f0; 0xe53838e038ddd870; 0x988c8c0a8c148605;
    0x17d1d163d1c6b2bf; 0xe4a5a5aea5410b57; 0xa1e2e2afe2434dd9; 0x4e616199612ff8c2;
    0x42b3b3f6b3f1457b; 0x342121842115a542; 0x089c9c4a9c94d625; 0xee1e1e781ef0663c;
    0x6143431143225286; 0xb1c7c73bc776fc93; 0x4ffcfcd7fcb32be5; 0x2404041004201408;
    0xe351515951b208a2; 0x2599995e99bcc72f; 0x226d6da96d4fc4da; 0x650d0d340d68391a;
    0x79fafacffa8335e9; 0x69dfdf5bdfb684a3; 0xa97e7ee57ed79bfc; 0x19242490243db448;
    0xfe3b3bec3bc5d776; 0x9aabab96ab313d4b; 0xf0cece1fce3ed181; 0x9911114411885522;
    0x838f8f068f0c8903; 0x044e4e254e4a6b9c; 0x66b7b7e6b7d15173; 0xe0ebeb8beb0b60cb;
    0xc13c3cf03cfdcc78; 0xfd81813e817cbf1f; 0x4094946a94d4fe35; 0x1cf7f7fbf7eb0cf3;
    0x18b9b9deb9a1676f; 0x8b13134c13985f26; 0x512c2cb02c7d9c58; 0x05d3d36bd3d6b8bb;
    0x8ce7e7bbe76b5cd3; 0x396e6ea56e57cbdc; 0xaac4c437c46ef395; 0x1b03030c03180f06;
    0xdc565645568a13ac; 0x5e44440d441a4988; 0xa07f7fe17fdf9efe; 0x88a9a99ea921374f;
    0x672a2aa82a4d8254; 0x0abbbbd6bbb16d6b; 0x87c1c123c146e29f; 0xf153535153a202a6;
    0x72dcdc57dcae8ba5; 0x530b0b2c0b582716; 0x019d9d4e9d9cd327; 0x2b6c6cad6c47c1d8;
    0xa43131c43195f562; 0xf37474cd7487b9e8; 0x15f6f6fff6e309f1; 0x4c464605460a438c;
    0xa5acac8aac092645; 0xb589891e893c970f; 0xb414145014a04428; 0xbae1e1a3e15b42df;
    0xa616165816b04e2c; 0xf73a3ae83acdd274; 0x066969b9696fd0d2; 0x4109092409482d12;
    0xd77070dd70a7ade0; 0x6fb6b6e2b6d95471; 0x1ed0d067d0ceb7bd; 0xd6eded93ed3b7ec7;
    0xe2cccc17cc2edb85; 0x68424215422a5784; 0x2c98985a98b4c22d; 0xeda4a4aaa4490e55;
    0x752828a0285d8850; 0x865c5c6d5cda31b8; 0x6bf8f8c7f8933fed; 0xc28686228644a411
  ];
  [
    0x30d818186018c078; 0x462623238c2305af; 0x91b8c6c63fc67ef9; 0xcdfbe8e887e8136f;
    0x13cb878726874ca1; 0x6d11b8b8dab8a962; 0x0209010104010805; 0x9e0d4f4f214f426e;
    0x6c9b3636d836adee; 0x51ffa6a6a2a65904; 0xb90cd2d26fd2debd; 0xf70ef5f5f3f5fb06;
    0xf2967979f979ef80; 0xde306f6fa16f5fce; 0x3f6d91917e91fcef; 0xa4f852525552aa07;
    0xc04760609d6027fd; 0x6535bcbccabc8976; 0x2b379b9b569baccd; 0x018a8e8e028e048c;
    0x5bd2a3a3b6a37115; 0x186c0c0c300c603c; 0xf6847b7bf17bff8a; 0x6a803535d435b5e1;
    0x3af51d1d741de869; 0xddb3e0e0a7e05347; 0xb321d7d77bd7f6ac; 0x999cc2c22fc25eed;
    0x5c432e2eb82e6d96; 0x96294b4b314b627a; 0xe15dfefedffea321; 0xaed5575741578216;
    0x2abd15155415a841; 0xeee87777c1779fb6; 0x6e923737dc37a5eb; 0xd79ee5e5b3e57b56;
    0x23139f9f469f8cd9; 0xfd23f0f0e7f0d317; 0x94204a4a354a6a7f; 0xa944dada4fda9e95;
    0xb0a258587d58fa25; 0x8fcfc9c903c906ca; 0x527c2929a429558d; 0x145a0a0a280a5022;
    0x7f50b1b1feb1e14f; 0x5dc9a0a0baa0691a; 0xd6146b6bb16b7fda; 0x17d985852e855cab;
    0x673cbdbdcebd8173; 0xba8f5d5d695dd234; 0x2090101040108050; 0xf507f4f4f7f4f303;
    0x8bddcbcb0bcb16c0; 0x7cd33e3ef83eedc6; 0x0a2d050514052811; 0xce78676781671fe6;
    0xd597e4e4b7e47353; 0x4e0227279c2725bb; 0x8273414119413258; 0x0ba78b8b168b2c9d;
    0x53f6a7a7a6a75101; 0xfab27d7de97dcf94; 0x374995956e95dcfb; 0xad56d8d847d88e9f;
    0xeb70fbfbcbfb8b30; 0xc1cdeeee9fee2371; 0xf8bb7c7ced7cc791; 0xcc716666856617e3;
    0xa77bdddd53dda68e; 0x2eaf17175c17b84b; 0x8e45474701470246; 0x211a9e9e429e84dc;
    0x89d4caca0fca1ec5; 0x5a582d2db42d7599; 0x632ebfbfc6bf9179; 0x0e3f07071c07381b;
    0x47acadad8ead0123; 0xb4b05a5a755aea2f; 0x1bef838336836cb5; 0x66b63333cc3385ff;
    0xc65c636391633ff2; 0x041202020802100a; 0x4993aaaa92aa3938; 0xe2de7171d971afa8;
    0x8dc6c8c807c80ecf; 0x32d119196419c87d; 0x923b494939497270; 0xaf5fd9d943d9869a;
    0xf931f2f2eff2c31d; 0xdba8e3e3abe34b48; 0xb6b95b5b715be22a; 0x0dbc88881a883492;
    0x293e9a9a529aa4c8; 0x4c0b262698262dbe; 0x64bf3232c8328dfa; 0x7d59b0b0fab0e94a;
    0xcff2e9e983e91b6a; 0x1e770f0f3c0f7833; 0xb733d5d573d5e6a6; 0x1df480803a8074ba;
    0x6127bebec2be997c; 0x87ebcdcd13cd26de; 0x68893434d034bde4; 0x903248483d487a75;
    0xe354ffffdbffab24; 0xf48d7a7af57af78f; 0x3d6490907a90f4ea; 0xbe9d5f5f615fc23e;
    0x403d202080201da0; 0xd00f6868bd6867d5; 0x34ca1a1a681ad072; 0x41b7aeae82ae192c;
    0x757db4b4eab4c95e; 0xa8ce54544d549a19; 0x3b7f93937693ece5; 0x442f222288220daa;
    0xc86364648d6407e9; 0xff2af1f1e3f1db12; 0xe6cc7373d173bfa2; 0x248212124812905a;
    0x807a40401d403a5d; 0x1048080820084028; 0x9b95c3c32bc356e8; 0xc5dfecec97ec337b;
    0xab4ddbdb4bdb9690; 0x5fc0a1a1bea1611f; 0x07918d8d0e8d1c83; 0x7ac83d3df43df5c9;
    0x335b97976697ccf1; 0x0000000000000000; 0x83f9cfcf1bcf36d4; 0x566e2b2bac2b4587;
    0xece17676c57697b3; 0x19e68282328264b0; 0xb128d6d67fd6fea9; 0x36c31b1b6c1bd877;
    0x7774b5b5eeb5c15b; 0x43beafaf86af1129; 0xd41d6a6ab56a77df; 0xa0ea50505d50ba0d;
    0x8a5745450945124c; 0xfb38f3f3ebf3cb18; 0x60ad3030c0309df0; 0xc3c4efef9bef2b74;
    0x7eda3f3ffc3fe5c3; 0xaac755554955921c; 0x59dba2a2b2a27910; 0xc9e9eaea8fea0365;
    0xca6a656589650fec; 0x6903babad2bab968; 0x5e4a2f2fbc2f6593; 0x9d8ec0c027c04ee7;
    0xa160dede5fdebe81; 0x38fc1c1c701ce06c; 0xe746fdfdd3fdbb2e; 0x9a1f4d4d294d5264;
    0x397692927292e4e0; 0xeafa7575c9758fbc; 0x0c3606061806301e; 0x09ae8a8a128a2498;
    0x794bb2b2f2b2f940; 0xd185e6e6bfe66359; 0x1c7e0e0e380e7036; 0x3ee71f1f7c1ff863;
    0xc4556262956237f7; 0xb53ad4d477d4eea3; 0x4d81a8a89aa82932; 0x315296966296c4f4;
    0xef62f9f9c3f99b3a; 0x97a3c5c533c566f6; 0x4a102525942535b1; 0xb2ab59597959f220;
    0x15d084842a8454ae; 0xe4c57272d572b7a7; 0x72ec3939e439d5dd; 0x98164c4c2d4c5a61;
    0xbc945e5e655eca3b; 0xf09f7878fd78e785; 0x70e53838e038ddd8; 0x05988c8c0a8c1486;
    0xbf17d1d163d1c6b2; 0x57e4a5a5aea5410b; 0xd9a1e2e2afe2434d; 0xc24e616199612ff8;
    0x7b42b3b3f6b3f145; 0x42342121842115a5; 0x25089c9c4a9c94d6; 0x3cee1e1e781ef066;
    0x8661434311432252; 0x93b1c7c73bc776fc; 0xe54ffcfcd7fcb32b; 0x0824040410042014;
    0xa2e351515951b208; 0x2f2599995e99bcc7; 0xda226d6da96d4fc4; 0x1a650d0d340d6839;
    0xe979fafacffa8335; 0xa369dfdf5bdfb684; 0xfca97e7ee57ed79b; 0x4819242490243db4;
    0x76fe3b3bec3bc5d7; 0x4b9aabab96ab313d; 0x81f0cece1fce3ed1; 0x2299111144118855;
    0x03838f8f068f0c89; 0x9c044e4e254e4a6b; 0x7366b7b7e6b7d151; 0xcbe0ebeb8beb0b60;
    0x78c13c3cf03cfdcc; 0x1ffd81813e817cbf; 0x354094946a94d4fe; 0xf31cf7f7fbf7eb0c;
    0x6f18b9b9deb9a167; 0x268b13134c13985f; 0x58512c2cb02c7d9c; 0xbb05d3d36bd3d6b8;
    0xd38ce7e7bbe76b5c; 0xdc396e6ea56e57cb; 0x95aac4c437c46ef3; 0x061b03030c03180f;
    0xacdc565645568a13; 0x885e44440d441a49; 0xfea07f7fe17fdf9e; 0x4f88a9a99ea92137;
    0x54672a2aa82a4d82; 0x6b0abbbbd6bbb16d; 0x9f87c1c123c146e2; 0xa6f153535153a202;
    0xa572dcdc57dcae8b; 0x16530b0b2c0b5827; 0x27019d9d4e9d9cd3; 0xd82b6c6cad6c47c1;
    0x62a43131c43195f5; 0xe8f37474cd7487b9; 0xf115f6f6fff6e309; 0x8c4c464605460a43;
    0x45a5acac8aac0926; 0x0fb589891e893c97; 0x28b414145014a044; 0xdfbae1e1a3e15b42;
    0x2ca616165816b04e; 0x74f73a3ae83acdd2; 0xd2066969b9696fd0; 0x124109092409482d;
    0xe0d77070dd70a7ad; 0x716fb6b6e2b6d954; 0xbd1ed0d067d0ceb7; 0xc7d6eded93ed3b7e;
    0x85e2cccc17cc2edb; 0x8468424215422a57; 0x2d2c98985a98b4c2; 0x55eda4a4aaa4490e;
    0x50752828a0285d88; 0xb8865c5c6d5cda31; 0xed6bf8f8c7f8933f; 0x11c28686228644a4
  ];
  [
    0x7830d818186018c0; 0xaf462623238c2305; 0xf991b8c6c63fc67e; 0x6fcdfbe8e887e813;
    0xa113cb878726874c; 0x626d11b8b8dab8a9; 0x0502090101040108; 0x6e9e0d4f4f214f42;
    0xee6c9b3636d836ad; 0x0451ffa6a6a2a659; 0xbdb90cd2d26fd2de; 0x06f70ef5f5f3f5fb;
    0x80f2967979f979ef; 0xcede306f6fa16f5f; 0xef3f6d91917e91fc; 0x07a4f852525552aa;
    0xfdc04760609d6027; 0x766535bcbccabc89; 0xcd2b379b9b569bac; 0x8c018a8e8e028e04;
    0x155bd2a3a3b6a371; 0x3c186c0c0c300c60; 0x8af6847b7bf17bff; 0xe16a803535d435b5;
    0x693af51d1d741de8; 0x47ddb3e0e0a7e053; 0xacb321d7d77bd7f6; 0xed999cc2c22fc25e;
    0x965c432e2eb82e6d; 0x7a96294b4b314b62; 0x21e15dfefedffea3; 0x16aed55757415782;
    0x412abd15155415a8; 0xb6eee87777c1779f; 0xeb6e923737dc37a5; 0x56d79ee5e5b3e57b;
    0xd923139f9f469f8c; 0x17fd23f0f0e7f0d3; 0x7f94204a4a354a6a; 0x95a944dada4fda9e;
    0x25b0a258587d58fa; 0xca8fcfc9c903c906; 0x8d527c2929a42955; 0x22145a0a0a280a50;
    0x4f7f50b1b1feb1e1; 0x1a5dc9a0a0baa069; 0xdad6146b6bb16b7f; 0xab17d985852e855c;
    0x73673cbdbdcebd81; 0x34ba8f5d5d695dd2; 0x5020901010401080; 0x03f507f4f4f7f4f3;
    0xc08bddcbcb0bcb16; 0xc67cd33e3ef83eed; 0x110a2d0505140528; 0xe6ce78676781671f;
    0x53d597e4e4b7e473; 0xbb4e0227279c2725; 0x5882734141194132; 0x9d0ba78b8b168b2c;
    0x0153f6a7a7a6a751; 0x94fab27d7de97dcf; 0xfb374995956e95dc; 0x9fad56d8d847d88e;
    0x30eb70fbfbcbfb8b; 0x71c1cdeeee9fee23; 0x91f8bb7c7ced7cc7; 0xe3cc716666856617;
    0x8ea77bdddd53dda6; 0x4b2eaf17175c17b8; 0x468e454747014702; 0xdc211a9e9e429e84;
    0xc589d4caca0fca1e; 0x995a582d2db42d75; 0x79632ebfbfc6bf91; 0x1b0e3f07071c0738;
    0x2347acadad8ead01; 0x2fb4b05a5a755aea; 0xb51bef838336836c; 0xff66b63333cc3385;
    0xf2c65c636391633f; 0x0a04120202080210; 0x384993aaaa92aa39; 0xa8e2de7171d971af;
    0xcf8dc6c8c807c80e; 0x7d32d119196419c8; 0x70923b4949394972; 0x9aaf5fd9d943d986;
    0x1df931f2f2eff2c3; 0x48dba8e3e3abe34b; 0x2ab6b95b5b715be2; 0x920dbc88881a8834;
    0xc8293e9a9a529aa4; 0xbe4c0b262698262d; 0xfa64bf3232c8328d; 0x4a7d59b0b0fab0e9;
    0x6acff2e9e983e91b; 0x331e770f0f3c0f78; 0xa6b733d5d573d5e6; 0xba1df480803a8074;
    0x7c6127bebec2be99; 0xde87ebcdcd13cd26; 0xe468893434d034bd; 0x75903248483d487a;
    0x24e354ffffdbffab; 0x8ff48d7a7af57af7; 0xea3d6490907a90f4; 0x3ebe9d5f5f615fc2;
    0xa0403d202080201d; 0xd5d00f6868bd6867; 0x7234ca1a1a681ad0; 0x2c41b7aeae82ae19;
    0x5e757db4b4eab4c9; 0x19a8ce54544d549a; 0xe53b7f93937693ec; 0xaa442f222288220d;
    0xe9c86364648d6407; 0x12ff2af1f1e3f1db; 0xa2e6cc7373d173bf; 0x5a24821212481290;
    0x5d807a40401d403a; 0x2810480808200840; 0xe89b95c3c32bc356; 0x7bc5dfecec97ec33;
    0x90ab4ddbdb4bdb96; 0x1f5fc0a1a1bea161; 0x8307918d8d0e8d1c; 0xc97ac83d3df43df5;
    0xf1335b97976697cc; 0x0000000000000000; 0xd483f9cfcf1bcf36; 0x87566e2b2bac2b45;
    0xb3ece17676c57697; 0xb019e68282328264; 0xa9b128d6d67fd6fe; 0x7736c31b1b6c1bd8;
    0x5b7774b5b5eeb5c1; 0x2943beafaf86af11; 0xdfd41d6a6ab56a77; 0x0da0ea50505d50ba;
    0x4c8a574545094512; 0x18fb38f3f3ebf3cb; 0xf060ad3030c0309d; 0x74c3c4efef9bef2b;
    0xc37eda3f3ffc3fe5; 0x1caac75555495592; 0x1059dba2a2b2a279; 0x65c9e9eaea8fea03;
    0xecca6a656589650f; 0x686903babad2bab9; 0x935e4a2f2fbc2f65; 0xe79d8ec0c027c04e;
    0x81a160dede5fdebe; 0x6c38fc1c1c701ce0; 0x2ee746fdfdd3fdbb; 0x649a1f4d4d294d52;
    0xe0397692927292e4; 0xbceafa7575c9758f; 0x1e0c360606180630; 0x9809ae8a8a128a24;
    0x40794bb2b2f2b2f9; 0x59d185e6e6bfe663; 0x361c7e0e0e380e70; 0x633ee71f1f7c1ff8;
    0xf7c4556262956237; 0xa3b53ad4d477d4ee; 0x324d81a8a89aa829; 0xf4315296966296c4;
    0x3aef62f9f9c3f99b; 0xf697a3c5c533c566; 0xb14a102525942535; 0x20b2ab59597959f2;
    0xae15d084842a8454; 0xa7e4c57272d572b7; 0xdd72ec3939e439d5; 0x6198164c4c2d4c5a;
    0x3bbc945e5e655eca; 0x85f09f7878fd78e7; 0xd870e53838e038dd; 0x8605988c8c0a8c14;
    0xb2bf17d1d163d1c6; 0x0b57e4a5a5aea541; 0x4dd9a1e2e2afe243; 0xf8c24e616199612f;
    0x457b42b3b3f6b3f1; 0xa542342121842115; 0xd625089c9c4a9c94; 0x663cee1e1e781ef0;
    0x5286614343114322; 0xfc93b1c7c73bc776; 0x2be54ffcfcd7fcb3; 0x1408240404100420;
    0x08a2e351515951b2; 0xc72f2599995e99bc; 0xc4da226d6da96d4f; 0x391a650d0d340d68;
    0x35e979fafacffa83; 0x84a369dfdf5bdfb6; 0x9bfca97e7ee57ed7; 0xb44819242490243d;
    0xd776fe3b3bec3bc5; 0x3d4b9aabab96ab31; 0xd181f0cece1fce3e; 0x5522991111441188;
    0x8903838f8f068f0c; 0x6b9c044e4e254e4a; 0x517366b7b7e6b7d1; 0x60cbe0ebeb8beb0b;
    0xcc78c13c3cf03cfd; 0xbf1ffd81813e817c; 0xfe354094946a94d4; 0x0cf31cf7f7fbf7eb;
    0x676f18b9b9deb9a1; 0x5f268b13134c1398; 0x9c58512c2cb02c7d; 0xb8bb05d3d36bd3d6;
    0x5cd38ce7e7bbe76b; 0xcbdc396e6ea56e57; 0xf395aac4c437c46e; 0x0f061b03030c0318;
    0x13acdc565645568a; 0x49885e44440d441a; 0x9efea07f7fe17fdf; 0x374f88a9a99ea921;
    0x8254672a2aa82a4d; 0x6d6b0abbbbd6bbb1; 0xe29f87c1c123c146; 0x02a6f153535153a2;
    0x8ba572dcdc57dcae; 0x2716530b0b2c0b58; 0xd327019d9d4e9d9c; 0xc1d82b6c6cad6c47;
    0xf562a43131c43195; 0xb9e8f37474cd7487; 0x09f115f6f6fff6e3; 0x438c4c464605460a;
    0x2645a5acac8aac09; 0x970fb589891e893c; 0x4428b414145014a0; 0x42dfbae1e1a3e15b;
    0x4e2ca616165816b0; 0xd274f73a3ae83acd; 0xd0d2066969b9696f; 0x2d12410909240948;
    0xade0d77070dd70a7; 0x54716fb6b6e2b6d9; 0xb7bd1ed0d067d0ce; 0x7ec7d6eded93ed3b;
    0xdb85e2cccc17cc2e; 0x578468424215422a; 0xc22d2c98985a98b4; 0x0e55eda4a4aaa449;
    0x8850752828a0285d; 0x31b8865c5c6d5cda; 0x3fed6bf8f8c7f893; 0xa411c28686228644
  ];
  [
    0xc07830d818186018; 0x05af462623238c23; 0x7ef991b8c6c63fc6; 0x136fcdfbe8e887e8;
    0x4ca113cb87872687; 0xa9626d11b8b8dab8; 0x0805020901010401; 0x426e9e0d4f4f214f;
    0xadee6c9b3636d836; 0x590451ffa6a6a2a6; 0xdebdb90cd2d26fd2; 0xfb06f70ef5f5f3f5;
    0xef80f2967979f979; 0x5fcede306f6fa16f; 0xfcef3f6d91917e91; 0xaa07a4f852525552;
    0x27fdc04760609d60; 0x89766535bcbccabc; 0xaccd2b379b9b569b; 0x048c018a8e8e028e;
    0x71155bd2a3a3b6a3; 0x603c186c0c0c300c; 0xff8af6847b7bf17b; 0xb5e16a803535d435;
    0xe8693af51d1d741d; 0x5347ddb3e0e0a7e0; 0xf6acb321d7d77bd7; 0x5eed999cc2c22fc2;
    0x6d965c432e2eb82e; 0x627a96294b4b314b; 0xa321e15dfefedffe; 0x8216aed557574157;
    0xa8412abd15155415; 0x9fb6eee87777c177; 0xa5eb6e923737dc37; 0x7b56d79ee5e5b3e5;
    0x8cd923139f9f469f; 0xd317fd23f0f0e7f0; 0x6a7f94204a4a354a; 0x9e95a944dada4fda;
    0xfa25b0a258587d58; 0x06ca8fcfc9c903c9; 0x558d527c2929a429; 0x5022145a0a0a280a;
    0xe14f7f50b1b1feb1; 0x691a5dc9a0a0baa0; 0x7fdad6146b6bb16b; 0x5cab17d985852e85;
    0x8173673cbdbdcebd; 0xd234ba8f5d5d695d; 0x8050209010104010; 0xf303f507f4f4f7f4;
    0x16c08bddcbcb0bcb; 0xedc67cd33e3ef83e; 0x28110a2d05051405; 0x1fe6ce7867678167;
    0x7353d597e4e4b7e4; 0x25bb4e0227279c27; 0x3258827341411941; 0x2c9d0ba78b8b168b;
    0x510153f6a7a7a6a7; 0xcf94fab27d7de97d; 0xdcfb374995956e95; 0x8e9fad56d8d847d8;
    0x8b30eb70fbfbcbfb; 0x2371c1cdeeee9fee; 0xc791f8bb7c7ced7c; 0x17e3cc7166668566;
    0xa68ea77bdddd53dd; 0xb84b2eaf17175c17; 0x02468e4547470147; 0x84dc211a9e9e429e;
    0x1ec589d4caca0fca; 0x75995a582d2db42d; 0x9179632ebfbfc6bf; 0x381b0e3f07071c07;
    0x012347acadad8ead; 0xea2fb4b05a5a755a; 0x6cb51bef83833683; 0x85ff66b63333cc33;
    0x3ff2c65c63639163; 0x100a041202020802; 0x39384993aaaa92aa; 0xafa8e2de7171d971;
    0x0ecf8dc6c8c807c8; 0xc87d32d119196419; 0x7270923b49493949; 0x869aaf5fd9d943d9;
    0xc31df931f2f2eff2; 0x4b48dba8e3e3abe3; 0xe22ab6b95b5b715b; 0x34920dbc88881a88;
    0xa4c8293e9a9a529a; 0x2dbe4c0b26269826; 0x8dfa64bf3232c832; 0xe94a7d59b0b0fab0;
    0x1b6acff2e9e983e9; 0x78331e770f0f3c0f; 0xe6a6b733d5d573d5; 0x74ba1df480803a80;
    0x997c6127bebec2be; 0x26de87ebcdcd13cd; 0xbde468893434d034; 0x7a75903248483d48;
    0xab24e354ffffdbff; 0xf78ff48d7a7af57a; 0xf4ea3d6490907a90; 0xc23ebe9d5f5f615f;
    0x1da0403d20208020; 0x67d5d00f6868bd68; 0xd07234ca1a1a681a; 0x192c41b7aeae82ae;
    0xc95e757db4b4eab4; 0x9a19a8ce54544d54; 0xece53b7f93937693; 0x0daa442f22228822;
    0x07e9c86364648d64; 0xdb12ff2af1f1e3f1; 0xbfa2e6cc7373d173; 0x905a248212124812;
    0x3a5d807a40401d40; 0x4028104808082008; 0x56e89b95c3c32bc3; 0x337bc5dfecec97ec;
    0x9690ab4ddbdb4bdb; 0x611f5fc0a1a1bea1; 0x1c8307918d8d0e8d; 0xf5c97ac83d3df43d;
    0xccf1335b97976697; 0x0000000000000000; 0x36d483f9cfcf1bcf; 0x4587566e2b2bac2b;
    0x97b3ece17676c576; 0x64b019e682823282; 0xfea9b128d6d67fd6; 0xd87736c31b1b6c1b;
    0xc15b7774b5b5eeb5; 0x112943beafaf86af; 0x77dfd41d6a6ab56a; 0xba0da0ea50505d50;
    0x124c8a5745450945; 0xcb18fb38f3f3ebf3; 0x9df060ad3030c030; 0x2b74c3c4efef9bef;
    0xe5c37eda3f3ffc3f; 0x921caac755554955; 0x791059dba2a2b2a2; 0x0365c9e9eaea8fea;
    0x0fecca6a65658965; 0xb9686903babad2ba; 0x65935e4a2f2fbc2f; 0x4ee79d8ec0c027c0;
    0xbe81a160dede5fde; 0xe06c38fc1c1c701c; 0xbb2ee746fdfdd3fd; 0x52649a1f4d4d294d;
    0xe4e0397692927292; 0x8fbceafa7575c975; 0x301e0c3606061806; 0x249809ae8a8a128a;
    0xf940794bb2b2f2b2; 0x6359d185e6e6bfe6; 0x70361c7e0e0e380e; 0xf8633ee71f1f7c1f;
    0x37f7c45562629562; 0xeea3b53ad4d477d4; 0x29324d81a8a89aa8; 0xc4f4315296966296;
    0x9b3aef62f9f9c3f9; 0x66f697a3c5c533c5; 0x35b14a1025259425; 0xf220b2ab59597959;
    0x54ae15d084842a84; 0xb7a7e4c57272d572; 0xd5dd72ec3939e439; 0x5a6198164c4c2d4c;
    0xca3bbc945e5e655e; 0xe785f09f7878fd78; 0xddd870e53838e038; 0x148605988c8c0a8c;
    0xc6b2bf17d1d163d1; 0x410b57e4a5a5aea5; 0x434dd9a1e2e2afe2; 0x2ff8c24e61619961;
    0xf1457b42b3b3f6b3; 0x15a5423421218421; 0x94d625089c9c4a9c; 0xf0663cee1e1e781e;
    0x2252866143431143; 0x76fc93b1c7c73bc7; 0xb32be54ffcfcd7fc; 0x2014082404041004;
    0xb208a2e351515951; 0xbcc72f2599995e99; 0x4fc4da226d6da96d; 0x68391a650d0d340d;
    0x8335e979fafacffa; 0xb684a369dfdf5bdf; 0xd79bfca97e7ee57e; 0x3db4481924249024;
    0xc5d776fe3b3bec3b; 0x313d4b9aabab96ab; 0x3ed181f0cece1fce; 0x8855229911114411;
    0x0c8903838f8f068f; 0x4a6b9c044e4e254e; 0xd1517366b7b7e6b7; 0x0b60cbe0ebeb8beb;
    0xfdcc78c13c3cf03c; 0x7cbf1ffd81813e81; 0xd4fe354094946a94; 0xeb0cf31cf7f7fbf7;
    0xa1676f18b9b9deb9; 0x985f268b13134c13; 0x7d9c58512c2cb02c; 0xd6b8bb05d3d36bd3;
    0x6b5cd38ce7e7bbe7; 0x57cbdc396e6ea56e; 0x6ef395aac4c437c4; 0x180f061b03030c03;
    0x8a13acdc56564556; 0x1a49885e44440d44; 0xdf9efea07f7fe17f; 0x21374f88a9a99ea9;
    0x4d8254672a2aa82a; 0xb16d6b0abbbbd6bb; 0x46e29f87c1c123c1; 0xa202a6f153535153;
    0xae8ba572dcdc57dc; 0x582716530b0b2c0b; 0x9cd327019d9d4e9d; 0x47c1d82b6c6cad6c;
    0x95f562a43131c431; 0x87b9e8f37474cd74; 0xe309f115f6f6fff6; 0x0a438c4c46460546;
    0x092645a5acac8aac; 0x3c970fb589891e89; 0xa04428b414145014; 0x5b42dfbae1e1a3e1;
    0xb04e2ca616165816; 0xcdd274f73a3ae83a; 0x6fd0d2066969b969; 0x482d124109092409;
    0xa7ade0d77070dd70; 0xd954716fb6b6e2b6; 0xceb7bd1ed0d067d0; 0x3b7ec7d6eded93ed;
    0x2edb85e2cccc17cc; 0x2a57846842421542; 0xb4c22d2c98985a98; 0x490e55eda4a4aaa4;
    0x5d8850752828a028; 0xda31b8865c5c6d5c; 0x933fed6bf8f8c7f8; 0x44a411c286862286
  ];
  [
    0x18c07830d8181860; 0x2305af462623238c; 0xc67ef991b8c6c63f; 0xe8136fcdfbe8e887;
    0x874ca113cb878726; 0xb8a9626d11b8b8da; 0x0108050209010104; 0x4f426e9e0d4f4f21;
    0x36adee6c9b3636d8; 0xa6590451ffa6a6a2; 0xd2debdb90cd2d26f; 0xf5fb06f70ef5f5f3;
    0x79ef80f2967979f9; 0x6f5fcede306f6fa1; 0x91fcef3f6d91917e; 0x52aa07a4f8525255;
    0x6027fdc04760609d; 0xbc89766535bcbcca; 0x9baccd2b379b9b56; 0x8e048c018a8e8e02;
    0xa371155bd2a3a3b6; 0x0c603c186c0c0c30; 0x7bff8af6847b7bf1; 0x35b5e16a803535d4;
    0x1de8693af51d1d74; 0xe05347ddb3e0e0a7; 0xd7f6acb321d7d77b; 0xc25eed999cc2c22f;
    0x2e6d965c432e2eb8; 0x4b627a96294b4b31; 0xfea321e15dfefedf; 0x578216aed5575741;
    0x15a8412abd151554; 0x779fb6eee87777c1; 0x37a5eb6e923737dc; 0xe57b56d79ee5e5b3;
    0x9f8cd923139f9f46; 0xf0d317fd23f0f0e7; 0x4a6a7f94204a4a35; 0xda9e95a944dada4f;
    0x58fa25b0a258587d; 0xc906ca8fcfc9c903; 0x29558d527c2929a4; 0x0a5022145a0a0a28;
    0xb1e14f7f50b1b1fe; 0xa0691a5dc9a0a0ba; 0x6b7fdad6146b6bb1; 0x855cab17d985852e;
    0xbd8173673cbdbdce; 0x5dd234ba8f5d5d69; 0x1080502090101040; 0xf4f303f507f4f4f7;
    0xcb16c08bddcbcb0b; 0x3eedc67cd33e3ef8; 0x0528110a2d050514; 0x671fe6ce78676781;
    0xe47353d597e4e4b7; 0x2725bb4e0227279c; 0x4132588273414119; 0x8b2c9d0ba78b8b16;
    0xa7510153f6a7a7a6; 0x7dcf94fab27d7de9; 0x95dcfb374995956e; 0xd88e9fad56d8d847;
    0xfb8b30eb70fbfbcb; 0xee2371c1cdeeee9f; 0x7cc791f8bb7c7ced; 0x6617e3cc71666685;
    0xdda68ea77bdddd53; 0x17b84b2eaf17175c; 0x4702468e45474701; 0x9e84dc211a9e9e42;
    0xca1ec589d4caca0f; 0x2d75995a582d2db4; 0xbf9179632ebfbfc6; 0x07381b0e3f07071c;
    0xad012347acadad8e; 0x5aea2fb4b05a5a75; 0x836cb51bef838336; 0x3385ff66b63333cc;
    0x633ff2c65c636391; 0x02100a0412020208; 0xaa39384993aaaa92; 0x71afa8e2de7171d9;
    0xc80ecf8dc6c8c807; 0x19c87d32d1191964; 0x497270923b494939; 0xd9869aaf5fd9d943;
    0xf2c31df931f2f2ef; 0xe34b48dba8e3e3ab; 0x5be22ab6b95b5b71; 0x8834920dbc88881a;
    0x9aa4c8293e9a9a52; 0x262dbe4c0b262698; 0x328dfa64bf3232c8; 0xb0e94a7d59b0b0fa;
    0xe91b6acff2e9e983; 0x0f78331e770f0f3c; 0xd5e6a6b733d5d573; 0x8074ba1df480803a;
    0xbe997c6127bebec2; 0xcd26de87ebcdcd13; 0x34bde468893434d0; 0x487a75903248483d;
    0xffab24e354ffffdb; 0x7af78ff48d7a7af5; 0x90f4ea3d6490907a; 0x5fc23ebe9d5f5f61;
    0x201da0403d202080; 0x6867d5d00f6868bd; 0x1ad07234ca1a1a68; 0xae192c41b7aeae82;
    0xb4c95e757db4b4ea; 0x549a19a8ce54544d; 0x93ece53b7f939376; 0x220daa442f222288;
    0x6407e9c86364648d; 0xf1db12ff2af1f1e3; 0x73bfa2e6cc7373d1; 0x12905a2482121248;
    0x403a5d807a40401d; 0x0840281048080820; 0xc356e89b95c3c32b; 0xec337bc5dfecec97;
    0xdb9690ab4ddbdb4b; 0xa1611f5fc0a1a1be; 0x8d1c8307918d8d0e; 0x3df5c97ac83d3df4;
    0x97ccf1335b979766; 0x0000000000000000; 0xcf36d483f9cfcf1b; 0x2b4587566e2b2bac;
    0x7697b3ece17676c5; 0x8264b019e6828232; 0xd6fea9b128d6d67f; 0x1bd87736c31b1b6c;
    0xb5c15b7774b5b5ee; 0xaf112943beafaf86; 0x6a77dfd41d6a6ab5; 0x50ba0da0ea50505d;
    0x45124c8a57454509; 0xf3cb18fb38f3f3eb; 0x309df060ad3030c0; 0xef2b74c3c4efef9b;
    0x3fe5c37eda3f3ffc; 0x55921caac7555549; 0xa2791059dba2a2b2; 0xea0365c9e9eaea8f;
    0x650fecca6a656589; 0xbab9686903babad2; 0x2f65935e4a2f2fbc; 0xc04ee79d8ec0c027;
    0xdebe81a160dede5f; 0x1ce06c38fc1c1c70; 0xfdbb2ee746fdfdd3; 0x4d52649a1f4d4d29;
    0x92e4e03976929272; 0x758fbceafa7575c9; 0x06301e0c36060618; 0x8a249809ae8a8a12;
    0xb2f940794bb2b2f2; 0xe66359d185e6e6bf; 0x0e70361c7e0e0e38; 0x1ff8633ee71f1f7c;
    0x6237f7c455626295; 0xd4eea3b53ad4d477; 0xa829324d81a8a89a; 0x96c4f43152969662;
    0xf99b3aef62f9f9c3; 0xc566f697a3c5c533; 0x2535b14a10252594; 0x59f220b2ab595979;
    0x8454ae15d084842a; 0x72b7a7e4c57272d5; 0x39d5dd72ec3939e4; 0x4c5a6198164c4c2d;
    0x5eca3bbc945e5e65; 0x78e785f09f7878fd; 0x38ddd870e53838e0; 0x8c148605988c8c0a;
    0xd1c6b2bf17d1d163; 0xa5410b57e4a5a5ae; 0xe2434dd9a1e2e2af; 0x612ff8c24e616199;
    0xb3f1457b42b3b3f6; 0x2115a54234212184; 0x9c94d625089c9c4a; 0x1ef0663cee1e1e78;
    0x4322528661434311; 0xc776fc93b1c7c73b; 0xfcb32be54ffcfcd7; 0x0420140824040410;
    0x51b208a2e3515159; 0x99bcc72f2599995e; 0x6d4fc4da226d6da9; 0x0d68391a650d0d34;
    0xfa8335e979fafacf; 0xdfb684a369dfdf5b; 0x7ed79bfca97e7ee5; 0x243db44819242490;
    0x3bc5d776fe3b3bec; 0xab313d4b9aabab96; 0xce3ed181f0cece1f; 0x1188552299111144;
    0x8f0c8903838f8f06; 0x4e4a6b9c044e4e25; 0xb7d1517366b7b7e6; 0xeb0b60cbe0ebeb8b;
    0x3cfdcc78c13c3cf0; 0x817cbf1ffd81813e; 0x94d4fe354094946a; 0xf7eb0cf31cf7f7fb;
    0xb9a1676f18b9b9de; 0x13985f268b13134c; 0x2c7d9c58512c2cb0; 0xd3d6b8bb05d3d36b;
    0xe76b5cd38ce7e7bb; 0x6e57cbdc396e6ea5; 0xc46ef395aac4c437; 0x03180f061b03030c;
    0x568a13acdc565645; 0x441a49885e44440d; 0x7fdf9efea07f7fe1; 0xa921374f88a9a99e;
    0x2a4d8254672a2aa8; 0xbbb16d6b0abbbbd6; 0xc146e29f87c1c123; 0x53a202a6f1535351;
    0xdcae8ba572dcdc57; 0x0b582716530b0b2c; 0x9d9cd327019d9d4e; 0x6c47c1d82b6c6cad;
    0x3195f562a43131c4; 0x7487b9e8f37474cd; 0xf6e309f115f6f6ff; 0x460a438c4c464605;
    0xac092645a5acac8a; 0x893c970fb589891e; 0x14a04428b4141450; 0xe15b42dfbae1e1a3;
    0x16b04e2ca6161658; 0x3acdd274f73a3ae8; 0x696fd0d2066969b9; 0x09482d1241090924;
    0x70a7ade0d77070dd; 0xb6d954716fb6b6e2; 0xd0ceb7bd1ed0d067; 0xed3b7ec7d6eded93;
    0xcc2edb85e2cccc17; 0x422a578468424215; 0x98b4c22d2c98985a; 0xa4490e55eda4a4aa;
    0x285d8850752828a0; 0x5cda31b8865c5c6d; 0xf8933fed6bf8f8c7; 0x8644a411c2868622
  ];
  [
    0x6018c07830d81818; 0x8c2305af46262323; 0x3fc67ef991b8c6c6; 0x87e8136fcdfbe8e8;
    0x26874ca113cb8787; 0xdab8a9626d11b8b8; 0x0401080502090101; 0x214f426e9e0d4f4f;
    0xd836adee6c9b3636; 0xa2a6590451ffa6a6; 0x6fd2debdb90cd2d2; 0xf3f5fb06f70ef5f5;
    0xf979ef80f2967979; 0xa16f5fcede306f6f; 0x7e91fcef3f6d9191; 0x5552aa07a4f85252;
    0x9d6027fdc0476060; 0xcabc89766535bcbc; 0x569baccd2b379b9b; 0x028e048c018a8e8e;
    0xb6a371155bd2a3a3; 0x300c603c186c0c0c; 0xf17bff8af6847b7b; 0xd435b5e16a803535;
    0x741de8693af51d1d; 0xa7e05347ddb3e0e0; 0x7bd7f6acb321d7d7; 0x2fc25eed999cc2c2;
    0xb82e6d965c432e2e; 0x314b627a96294b4b; 0xdffea321e15dfefe; 0x41578216aed55757;
    0x5415a8412abd1515; 0xc1779fb6eee87777; 0xdc37a5eb6e923737; 0xb3e57b56d79ee5e5;
    0x469f8cd923139f9f; 0xe7f0d317fd23f0f0; 0x354a6a7f94204a4a; 0x4fda9e95a944dada;
    0x7d58fa25b0a25858; 0x03c906ca8fcfc9c9; 0xa429558d527c2929; 0x280a5022145a0a0a;
    0xfeb1e14f7f50b1b1; 0xbaa0691a5dc9a0a0; 0xb16b7fdad6146b6b; 0x2e855cab17d98585;
    0xcebd8173673cbdbd; 0x695dd234ba8f5d5d; 0x4010805020901010; 0xf7f4f303f507f4f4;
    0x0bcb16c08bddcbcb; 0xf83eedc67cd33e3e; 0x140528110a2d0505; 0x81671fe6ce786767;
    0xb7e47353d597e4e4; 0x9c2725bb4e022727; 0x1941325882734141; 0x168b2c9d0ba78b8b;
    0xa6a7510153f6a7a7; 0xe97dcf94fab27d7d; 0x6e95dcfb37499595; 0x47d88e9fad56d8d8;
    0xcbfb8b30eb70fbfb; 0x9fee2371c1cdeeee; 0xed7cc791f8bb7c7c; 0x856617e3cc716666;
    0x53dda68ea77bdddd; 0x5c17b84b2eaf1717; 0x014702468e454747; 0x429e84dc211a9e9e;
    0x0fca1ec589d4caca; 0xb42d75995a582d2d; 0xc6bf9179632ebfbf; 0x1c07381b0e3f0707;
    0x8ead012347acadad; 0x755aea2fb4b05a5a; 0x36836cb51bef8383; 0xcc3385ff66b63333;
    0x91633ff2c65c6363; 0x0802100a04120202; 0x92aa39384993aaaa; 0xd971afa8e2de7171;
    0x07c80ecf8dc6c8c8; 0x6419c87d32d11919; 0x39497270923b4949; 0x43d9869aaf5fd9d9;
    0xeff2c31df931f2f2; 0xabe34b48dba8e3e3; 0x715be22ab6b95b5b; 0x1a8834920dbc8888;
    0x529aa4c8293e9a9a; 0x98262dbe4c0b2626; 0xc8328dfa64bf3232; 0xfab0e94a7d59b0b0;
    0x83e91b6acff2e9e9; 0x3c0f78331e770f0f; 0x73d5e6a6b733d5d5; 0x3a8074ba1df48080;
    0xc2be997c6127bebe; 0x13cd26de87ebcdcd; 0xd034bde468893434; 0x3d487a7590324848;
    0xdbffab24e354ffff; 0xf57af78ff48d7a7a; 0x7a90f4ea3d649090; 0x615fc23ebe9d5f5f;
    0x80201da0403d2020; 0xbd6867d5d00f6868; 0x681ad07234ca1a1a; 0x82ae192c41b7aeae;
    0xeab4c95e757db4b4; 0x4d549a19a8ce5454; 0x7693ece53b7f9393; 0x88220daa442f2222;
    0x8d6407e9c8636464; 0xe3f1db12ff2af1f1; 0xd173bfa2e6cc7373; 0x4812905a24821212;
    0x1d403a5d807a4040; 0x2008402810480808; 0x2bc356e89b95c3c3; 0x97ec337bc5dfecec;
    0x4bdb9690ab4ddbdb; 0xbea1611f5fc0a1a1; 0x0e8d1c8307918d8d; 0xf43df5c97ac83d3d;
    0x6697ccf1335b9797; 0x0000000000000000; 0x1bcf36d483f9cfcf; 0xac2b4587566e2b2b;
    0xc57697b3ece17676; 0x328264b019e68282; 0x7fd6fea9b128d6d6; 0x6c1bd87736c31b1b;
    0xeeb5c15b7774b5b5; 0x86af112943beafaf; 0xb56a77dfd41d6a6a; 0x5d50ba0da0ea5050;
    0x0945124c8a574545; 0xebf3cb18fb38f3f3; 0xc0309df060ad3030; 0x9bef2b74c3c4efef;
    0xfc3fe5c37eda3f3f; 0x4955921caac75555; 0xb2a2791059dba2a2; 0x8fea0365c9e9eaea;
    0x89650fecca6a6565; 0xd2bab9686903baba; 0xbc2f65935e4a2f2f; 0x27c04ee79d8ec0c0;
    0x5fdebe81a160dede; 0x701ce06c38fc1c1c; 0xd3fdbb2ee746fdfd; 0x294d52649a1f4d4d;
    0x7292e4e039769292; 0xc9758fbceafa7575; 0x1806301e0c360606; 0x128a249809ae8a8a;
    0xf2b2f940794bb2b2; 0xbfe66359d185e6e6; 0x380e70361c7e0e0e; 0x7c1ff8633ee71f1f;
    0x956237f7c4556262; 0x77d4eea3b53ad4d4; 0x9aa829324d81a8a8; 0x6296c4f431529696;
    0xc3f99b3aef62f9f9; 0x33c566f697a3c5c5; 0x942535b14a102525; 0x7959f220b2ab5959;
    0x2a8454ae15d08484; 0xd572b7a7e4c57272; 0xe439d5dd72ec3939; 0x2d4c5a6198164c4c;
    0x655eca3bbc945e5e; 0xfd78e785f09f7878; 0xe038ddd870e53838; 0x0a8c148605988c8c;
    0x63d1c6b2bf17d1d1; 0xaea5410b57e4a5a5; 0xafe2434dd9a1e2e2; 0x99612ff8c24e6161;
    0xf6b3f1457b42b3b3; 0x842115a542342121; 0x4a9c94d625089c9c; 0x781ef0663cee1e1e;
    0x1143225286614343; 0x3bc776fc93b1c7c7; 0xd7fcb32be54ffcfc; 0x1004201408240404;
    0x5951b208a2e35151; 0x5e99bcc72f259999; 0xa96d4fc4da226d6d; 0x340d68391a650d0d;
    0xcffa8335e979fafa; 0x5bdfb684a369dfdf; 0xe57ed79bfca97e7e; 0x90243db448192424;
    0xec3bc5d776fe3b3b; 0x96ab313d4b9aabab; 0x1fce3ed181f0cece; 0x4411885522991111;
    0x068f0c8903838f8f; 0x254e4a6b9c044e4e; 0xe6b7d1517366b7b7; 0x8beb0b60cbe0ebeb;
    0xf03cfdcc78c13c3c; 0x3e817cbf1ffd8181; 0x6a94d4fe35409494; 0xfbf7eb0cf31cf7f7;
    0xdeb9a1676f18b9b9; 0x4c13985f268b1313; 0xb02c7d9c58512c2c; 0x6bd3d6b8bb05d3d3;
    0xbbe76b5cd38ce7e7; 0xa56e57cbdc396e6e; 0x37c46ef395aac4c4; 0x0c03180f061b0303;
    0x45568a13acdc5656; 0x0d441a49885e4444; 0xe17fdf9efea07f7f; 0x9ea921374f88a9a9;
    0xa82a4d8254672a2a; 0xd6bbb16d6b0abbbb; 0x23c146e29f87c1c1; 0x5153a202a6f15353;
    0x57dcae8ba572dcdc; 0x2c0b582716530b0b; 0x4e9d9cd327019d9d; 0xad6c47c1d82b6c6c;
    0xc43195f562a43131; 0xcd7487b9e8f37474; 0xfff6e309f115f6f6; 0x05460a438c4c4646;
    0x8aac092645a5acac; 0x1e893c970fb58989; 0x5014a04428b41414; 0xa3e15b42dfbae1e1;
    0x5816b04e2ca61616; 0xe83acdd274f73a3a; 0xb9696fd0d2066969; 0x2409482d12410909;
    0xdd70a7ade0d77070; 0xe2b6d954716fb6b6; 0x67d0ceb7bd1ed0d0; 0x93ed3b7ec7d6eded;
    0x17cc2edb85e2cccc; 0x15422a5784684242; 0x5a98b4c22d2c9898; 0xaaa4490e55eda4a4;
    0xa0285d8850752828; 0x6d5cda31b8865c5c; 0xc7f8933fed6bf8f8; 0x228644a411c28686
  ];
  [
    0x186018c07830d818; 0x238c2305af462623; 0xc63fc67ef991b8c6; 0xe887e8136fcdfbe8;
    0x8726874ca113cb87; 0xb8dab8a9626d11b8; 0x0104010805020901; 0x4f214f426e9e0d4f;
    0x36d836adee6c9b36; 0xa6a2a6590451ffa6; 0xd26fd2debdb90cd2; 0xf5f3f5fb06f70ef5;
    0x79f979ef80f29679; 0x6fa16f5fcede306f; 0x917e91fcef3f6d91; 0x525552aa07a4f852;
    0x609d6027fdc04760; 0xbccabc89766535bc; 0x9b569baccd2b379b; 0x8e028e048c018a8e;
    0xa3b6a371155bd2a3; 0x0c300c603c186c0c; 0x7bf17bff8af6847b; 0x35d435b5e16a8035;
    0x1d741de8693af51d; 0xe0a7e05347ddb3e0; 0xd77bd7f6acb321d7; 0xc22fc25eed999cc2;
    0x2eb82e6d965c432e; 0x4b314b627a96294b; 0xfedffea321e15dfe; 0x5741578216aed557;
    0x155415a8412abd15; 0x77c1779fb6eee877; 0x37dc37a5eb6e9237; 0xe5b3e57b56d79ee5;
    0x9f469f8cd923139f; 0xf0e7f0d317fd23f0; 0x4a354a6a7f94204a; 0xda4fda9e95a944da;
    0x587d58fa25b0a258; 0xc903c906ca8fcfc9; 0x29a429558d527c29; 0x0a280a5022145a0a;
    0xb1feb1e14f7f50b1; 0xa0baa0691a5dc9a0; 0x6bb16b7fdad6146b; 0x852e855cab17d985;
    0xbdcebd8173673cbd; 0x5d695dd234ba8f5d; 0x1040108050209010; 0xf4f7f4f303f507f4;
    0xcb0bcb16c08bddcb; 0x3ef83eedc67cd33e; 0x05140528110a2d05; 0x6781671fe6ce7867;
    0xe4b7e47353d597e4; 0x279c2725bb4e0227; 0x4119413258827341; 0x8b168b2c9d0ba78b;
    0xa7a6a7510153f6a7; 0x7de97dcf94fab27d; 0x956e95dcfb374995; 0xd847d88e9fad56d8;
    0xfbcbfb8b30eb70fb; 0xee9fee2371c1cdee; 0x7ced7cc791f8bb7c; 0x66856617e3cc7166;
    0xdd53dda68ea77bdd; 0x175c17b84b2eaf17; 0x47014702468e4547; 0x9e429e84dc211a9e;
    0xca0fca1ec589d4ca; 0x2db42d75995a582d; 0xbfc6bf9179632ebf; 0x071c07381b0e3f07;
    0xad8ead012347acad; 0x5a755aea2fb4b05a; 0x8336836cb51bef83; 0x33cc3385ff66b633;
    0x6391633ff2c65c63; 0x020802100a041202; 0xaa92aa39384993aa; 0x71d971afa8e2de71;
    0xc807c80ecf8dc6c8; 0x196419c87d32d119; 0x4939497270923b49; 0xd943d9869aaf5fd9;
    0xf2eff2c31df931f2; 0xe3abe34b48dba8e3; 0x5b715be22ab6b95b; 0x881a8834920dbc88;
    0x9a529aa4c8293e9a; 0x2698262dbe4c0b26; 0x32c8328dfa64bf32; 0xb0fab0e94a7d59b0;
    0xe983e91b6acff2e9; 0x0f3c0f78331e770f; 0xd573d5e6a6b733d5; 0x803a8074ba1df480;
    0xbec2be997c6127be; 0xcd13cd26de87ebcd; 0x34d034bde4688934; 0x483d487a75903248;
    0xffdbffab24e354ff; 0x7af57af78ff48d7a; 0x907a90f4ea3d6490; 0x5f615fc23ebe9d5f;
    0x2080201da0403d20; 0x68bd6867d5d00f68; 0x1a681ad07234ca1a; 0xae82ae192c41b7ae;
    0xb4eab4c95e757db4; 0x544d549a19a8ce54; 0x937693ece53b7f93; 0x2288220daa442f22;
    0x648d6407e9c86364; 0xf1e3f1db12ff2af1; 0x73d173bfa2e6cc73; 0x124812905a248212;
    0x401d403a5d807a40; 0x0820084028104808; 0xc32bc356e89b95c3; 0xec97ec337bc5dfec;
    0xdb4bdb9690ab4ddb; 0xa1bea1611f5fc0a1; 0x8d0e8d1c8307918d; 0x3df43df5c97ac83d;
    0x976697ccf1335b97; 0x0000000000000000; 0xcf1bcf36d483f9cf; 0x2bac2b4587566e2b;
    0x76c57697b3ece176; 0x82328264b019e682; 0xd67fd6fea9b128d6; 0x1b6c1bd87736c31b;
    0xb5eeb5c15b7774b5; 0xaf86af112943beaf; 0x6ab56a77dfd41d6a; 0x505d50ba0da0ea50;
    0x450945124c8a5745; 0xf3ebf3cb18fb38f3; 0x30c0309df060ad30; 0xef9bef2b74c3c4ef;
    0x3ffc3fe5c37eda3f; 0x554955921caac755; 0xa2b2a2791059dba2; 0xea8fea0365c9e9ea;
    0x6589650fecca6a65; 0xbad2bab9686903ba; 0x2fbc2f65935e4a2f; 0xc027c04ee79d8ec0;
    0xde5fdebe81a160de; 0x1c701ce06c38fc1c; 0xfdd3fdbb2ee746fd; 0x4d294d52649a1f4d;
    0x927292e4e0397692; 0x75c9758fbceafa75; 0x061806301e0c3606; 0x8a128a249809ae8a;
    0xb2f2b2f940794bb2; 0xe6bfe66359d185e6; 0x0e380e70361c7e0e; 0x1f7c1ff8633ee71f;
    0x62956237f7c45562; 0xd477d4eea3b53ad4; 0xa89aa829324d81a8; 0x966296c4f4315296;
    0xf9c3f99b3aef62f9; 0xc533c566f697a3c5; 0x25942535b14a1025; 0x597959f220b2ab59;
    0x842a8454ae15d084; 0x72d572b7a7e4c572; 0x39e439d5dd72ec39; 0x4c2d4c5a6198164c;
    0x5e655eca3bbc945e; 0x78fd78e785f09f78; 0x38e038ddd870e538; 0x8c0a8c148605988c;
    0xd163d1c6b2bf17d1; 0xa5aea5410b57e4a5; 0xe2afe2434dd9a1e2; 0x6199612ff8c24e61;
    0xb3f6b3f1457b42b3; 0x21842115a5423421; 0x9c4a9c94d625089c; 0x1e781ef0663cee1e;
    0x4311432252866143; 0xc73bc776fc93b1c7; 0xfcd7fcb32be54ffc; 0x0410042014082404;
    0x515951b208a2e351; 0x995e99bcc72f2599; 0x6da96d4fc4da226d; 0x0d340d68391a650d;
    0xfacffa8335e979fa; 0xdf5bdfb684a369df; 0x7ee57ed79bfca97e; 0x2490243db4481924;
    0x3bec3bc5d776fe3b; 0xab96ab313d4b9aab; 0xce1fce3ed181f0ce; 0x1144118855229911;
    0x8f068f0c8903838f; 0x4e254e4a6b9c044e; 0xb7e6b7d1517366b7; 0xeb8beb0b60cbe0eb;
    0x3cf03cfdcc78c13c; 0x813e817cbf1ffd81; 0x946a94d4fe354094; 0xf7fbf7eb0cf31cf7;
    0xb9deb9a1676f18b9; 0x134c13985f268b13; 0x2cb02c7d9c58512c; 0xd36bd3d6b8bb05d3;
    0xe7bbe76b5cd38ce7; 0x6ea56e57cbdc396e; 0xc437c46ef395aac4; 0x030c03180f061b03;
    0x5645568a13acdc56; 0x440d441a49885e44; 0x7fe17fdf9efea07f; 0xa99ea921374f88a9;
    0x2aa82a4d8254672a; 0xbbd6bbb16d6b0abb; 0xc123c146e29f87c1; 0x535153a202a6f153;
    0xdc57dcae8ba572dc; 0x0b2c0b582716530b; 0x9d4e9d9cd327019d; 0x6cad6c47c1d82b6c;
    0x31c43195f562a431; 0x74cd7487b9e8f374; 0xf6fff6e309f115f6; 0x4605460a438c4c46;
    0xac8aac092645a5ac; 0x891e893c970fb589; 0x145014a04428b414; 0xe1a3e15b42dfbae1;
    0x165816b04e2ca616; 0x3ae83acdd274f73a; 0x69b9696fd0d20669; 0x092409482d124109;
    0x70dd70a7ade0d770; 0xb6e2b6d954716fb6; 0xd067d0ceb7bd1ed0; 0xed93ed3b7ec7d6ed;
    0xcc17cc2edb85e2cc; 0x4215422a57846842; 0x985a98b4c22d2c98; 0xa4aaa4490e55eda4;
    0x28a0285d88507528; 0x5c6d5cda31b8865c; 0xf8c7f8933fed6bf8; 0x86228644a411c286
  ]
].

Definition roundConstant : list Z := [
  0x1823c6e887b8014f; 0x36a6d2f5796f9152; 0x60bc9b8ea30c7b35; 0x1de0d7c22e4bfe57; 0x157737e59ff04ada;
  0x58c9290ab1a06b85; 0xbd5d10f4cb3e0567; 0xe427418ba77d95d8; 0xfbee7c66dd17479e; 0xca2dbf07ad5a8333
].

Definition cT (i : nat) (b : Z) : Z := at_ (nth i cTable []) (Z.to_nat b).

Definition func (x : list Z) (a b c d e f g h : nat) : Z :=
  Z.lxor (Z.lxor (Z.lxor (Z.lxor (Z.lxor (Z.lxor (Z.lxor
    (cT 0 (ror 8 (at_ x a) 56)) (cT 1 (ror 8 (at_ x b) 48)))
    (cT 2 (ror 8 (at_ x c) 40))) (cT 3 (ror 8 (at_ x d) 32)))
    (cT 4 (ror 8 (at_ x e) 24))) (cT 5 (ror 8 (at_ x f) 16)))
    (cT 6 (ror 8 (at_ x g) 8))) (cT 7 (ror 8 (at_ x h) 0)).

(** The eight lines [tmp[i] = func(x, i, i-1, ..., i-7)], indices mod 8. *)
Definition theta (x : list Z) : list Z := [
  func x 0 7 6 5 4 3 2 1;
  func x 1 0 7 6 5 4 3 2;
  func x 2 1 0 7 6 5 4 3;
  func x 3 2 1 0 7 6 5 4;
  func x 4 3 2 1 0 7 6 5;
  func x 5 4 3 2 1 0 7 6;
  func x 6 5 4 3 2 1 0 7;
  func x 7 6 5 4 3 2 1 0 ].

(** The lambda [round]: it updates [roundKey], then [state]. *)
Definition round (ks : list Z * list Z) (round : nat) : list Z * list Z :=
  let '(roundKey, state) := ks in
  let tmp := theta roundKey in
  let tmp := upd 0 (Z.lxor (at_ tmp 0) (at_ roundConstant round)) tmp in
  let roundKey := tmp in
  let tmp := theta state in
  let tmp := map (fun i => Z.lxor (at_ tmp i) (at_ roundKey i)) (seq 0 8) in
  let state := tmp in
  (roundKey, state).

(** One iteration of the block loop of [addDataImpl]. *)
Definition compress (m_h : list Z) (blk : list Z) : list Z :=
  let m := load64be blk in
  let roundKey := map (at_ m_h) (seq 0 8) in
  let state := map (fun j => Z.lxor (m j) (at_ roundKey j)) (seq 0 8) in
  let '(_, state) := fold_left round (seq 0 ROUND) (roundKey, state) in
  map (fun j => Z.lxor (Z.lxor (at_ state j) (at_ m_h j)) (m j)) (seq 0 8).

(** [m_sizeCounter += data.size()], the size converted to [uint64_t]. *)
Definition addDataImpl (s : members) (data : list Z) : members :=
  Members (Uint128.add_assign (m_sizeCounter s) (wrap 64 (Z.of_nat (length data))))
          (process_blocks BLOCK_SIZE compress (m_h s) data).

Definition reset (st : t) : t :=
  Sink [] (Members (Uint128.assign 0) (repeat 0 8)).

Definition fresh : t := reset (Sink [] (Members (Uint128.Make 0 0) (repeat 0 8))).

Definition addData : t -> list Z -> t :=
  Accumulator.addData BLOCK_SIZE addDataImpl.

(** [finalize] up to the call [addDataImpl]; [m_sizeCounter * 8]
    multiplies the member in place before it is copied. *)
Definition pad (st : t) : t :=
  let sizeCounter :=
    Uint128.add_assign (m_sizeCounter (m_core st))
                       (wrap 64 (Z.of_nat (length (m_buffer st)))) in
  let buffer := m_buffer st ++ [Z.shiftl 1 7] in
  let len := (BLOCK_SIZE - ((length buffer + 32) mod BLOCK_SIZE))%nat in
  let buffer := buffer ++ repeat 0 (len + 32) in
  let sizeCounter := Uint128.times8 sizeCounter in
  let sizeCounterBits := sizeCounter in
  let sizeCounterBitsL := Uint128.low sizeCounterBits in
  let sizeCounterBitsH := Uint128.high sizeCounterBits in
  let buffer :=
    fold_left (fun buffer i =>
                 let buffer := upd (length buffer - 16 + i)
                                   (ror 8 sizeCounterBitsH (8 * (7 - Z.of_nat i))) buffer in
                 upd (length buffer - 8 + i)
                     (ror 8 sizeCounterBitsL (8 * (7 - Z.of_nat i))) buffer)
              (seq 0 8) buffer in
  Sink buffer (Members sizeCounter (m_h (m_core st))).

Definition finalize (st : t) : t :=
  let st := pad st in
  clear (Sink (m_buffer st) (addDataImpl (m_core st) (m_buffer st))).

Definition toArray (st : t) : list Z :=
  flat_map (bytes_be 8) (m_h (m_core st)).

Definition toVector (st : t) : list Z := toArray st.

Definition toString (st : t) : string := hex_of_bytes (toArray st).

(** The members of a fresh instance, and the members once the complete
    blocks [p] have been processed: the counter holds [length p] as a
    128-bit number. *)
Definition init : members := m_core fresh.
Definition processed (p : list Z) : members :=
  Members (Uint128.Make (wrap 64 (Z.of_nat (length p)))
                        (wrap 64 (Z.of_nat (length p) / 2 ^ 64)))
          (process_blocks BLOCK_SIZE compress (m_h init) p).
Definition absorbed : list Z -> t := Accumulator.absorbed BLOCK_SIZE processed.

(** The arrays have their declared sizes: [m_h] has its eight words. *)
Definition sized (st : t) : Prop := length (m_h (m_core st)) = 8%nat.
End Whirlpool.

(** ** The seven hash types behind one interface *)

Record hash_api : Type := Api {
  inst : Type;
  api_fresh : inst;
  api_reset : inst -> inst;
  api_addData : inst -> list Z -> inst;
  api_finalize : inst -> inst;
  api_toVector : inst -> list Z;
  api_toString : inst -> string;
}.

Definition MD5_api : hash_api :=
  Api MD5.t MD5.fresh MD5.reset MD5.addData MD5.finalize MD5.toVector MD5.toString.
Definition MD2_api : hash_api :=
  Api MD2.t MD2.fresh MD2.reset MD2.addData MD2.finalize MD2.toVector MD2.toString.
Definition HAS_160_api : hash_api :=
  Api HAS_160.t HAS_160.fresh HAS_160.reset HAS_160.addData HAS_160.finalize
      HAS_160.toVector HAS_160.toString.
Definition RIPEMD_160_api : hash_api :=
  Api RIPEMD_160.t RIPEMD_160.fresh RIPEMD_160.reset RIPEMD_160.addData
      RIPEMD_160.finalize RIPEMD_160.toVector RIPEMD_160.toString.
Definition Blake1_224_api : hash_api :=
  Api Blake1_224.t Blake1_224.fresh Blake1_224.reset Blake1_224.addData
      Blake1_224.finalize Blake1_224.toVector Blake1_224.toString.
Definition Blake2_api : hash_api :=
  Api Blake2.t Blake2.fresh Blake2.reset Blake2.addData Blake2.finalize
      Blake2.toVector Blake2.toString.
Definition Whirlpool_api : hash_api :=
  Api Whirlpool.t Whirlpool.fresh Whirlpool.reset Whirlpool.addData
      Whirlpool.finalize Whirlpool.toVector Whirlpool.toString.

Definition hash_types : list hash_api :=
  [ MD5_api; MD2_api; HAS_160_api; RIPEMD_160_api; Blake1_224_api; Blake2_api;
    Whirlpool_api ].

(** The digest, as bytes and as text, of a message fed in the given chunks
    to a fresh instance. *)
Definition digest_of (H : hash_api) (chunks : list (list Z)) : list Z * string :=
  let st := api_finalize H (feed (api_addData H) (api_fresh H) chunks) in
  (api_toVector H st, api_toString H st).

(** A span holds at most [2^64 - 1] bytes. *)
Definition span_size_ok (data : list Z) : Prop := Z.of_nat (length data) < 2 ^ 64.

(** The instances of a hash type that a user can obtain. *)
Definition obtainable (H : hash_api) : inst H -> Prop :=
  reachable (api_fresh H) (api_addData H) (api_finalize H) (api_reset H).

(** [toVector] has [n] bytes on every obtainable instance. *)
Definition digest_length (H : hash_api) (n : nat) : Prop :=
  forall st, obtainable H st -> length (api_toVector H st) = n.

(** ** Bytes and hexadecimal text *)

(** A value of type [Byte] ([uint8_t]). *)
Definition is_byte (b : Z) : Prop := 0 <= b < 256.

(** The characters ["%02x"] can print. *)
Definition is_hex_char (c : ascii) : bool :=
  existsb (Ascii.eqb c)
    ["0"; "1"; "2"; "3"; "4"; "5"; "6"; "7"; "8"; "9"; "a"; "b"; "c"; "d"; "e"; "f"]%char.

Fixpoint string_forallb (p : ascii -> bool) (s : string) : bool :=
  match s with
  | EmptyString => true
  | String c r => p c && string_forallb p r
  end.

(** The members of an MD2 instance hold bytes. *)
Definition MD2_bytes_members (c : MD2.members) : Prop :=
  Forall is_byte (MD2.m_x c) /\ Forall is_byte (MD2.m_checksum c)
  /\ is_byte (MD2.m_checksumL c).

(** ** [class Buffer<T, N>] (whirlpool.h:42-159)

    A fixed [std::array<T, N>] together with the index one past the last
    element in use.  The class is modelled as compiled without [NDEBUG]:
    [fill] first evaluates [m_array.at(m_dataEndIdx + count - 1)], which
    throws [std::out_of_range] unless the index, computed in [size_t]
    (64 bits wide, as for the span sizes), is below [N]; a throw is the
    result [None]. *)
Module Buffer.
Record t : Type := Make { m_array : list Z; m_dataEndIdx : nat }.

Section Def.
Variable N : nat.

(** [constexpr Buffer() = default]: the array is value-initialised. *)
Definition create : t := Make (repeat 0 N) 0.

(** [m_array.at(pos)] returns normally exactly when [pos < N]. *)
Definition at_ok (pos : Z) : bool := pos <? Z.of_nat N.

(** The body of the loops: [m_array[m_dataEndIdx] = value; ++m_dataEndIdx]. *)
Definition put (value : Z) (b : t) : t :=
  Make (upd (m_dataEndIdx b) value (m_array b)) (S (m_dataEndIdx b)).

(** [fill(const T &value, const size_type count = 1)] *)
Definition fill (b : t) (value : Z) (count : nat) : option t :=
  if at_ok (wrap 64 (Z.of_nat (m_dataEndIdx b) + Z.of_nat count - 1))
  then Some (Nat.iter count (put value) b)
  else None.

(** [push_back(first, last)]: one [fill] call, with [count = 1], for each element. *)
Definition push_back (b : t) (data : list Z) : option t :=
  fold_left (fun ob x => match ob with Some b => fill b x 1 | None => None end)
            data (Some b).

(** [Buffer(first, last)]: the same loop on a new buffer. *)
Definition from_range (data : list Z) : option t := push_back create data.

(** [Buffer(std::initializer_list<T>)]: one bounds check, then the copy. *)
Definition from_list (initList : list Z) : option t :=
  if at_ok (wrap 64 (0 + Z.of_nat (length initList) - 1))
  then Some (fold_left (fun b i => put i b) initList create)
  else None.

(** [clear()]: [m_array = {}; m_dataEndIdx = 0]. *)
Definition clear (b : t) : t := Make (repeat 0 N) 0.

Definition empty (b : t) : bool := (m_dataEndIdx b =? 0)%nat.
Definition size (b : t) : nat := m_dataEndIdx b.

(** [operator[]], read and, through the reference it returns, written:
    [m_array[pos]] without a check.  Only a position inside the array
    has a defined behaviour; any other is the result [None]. *)
Definition get (b : t) (pos : nat) : option Z :=
  if (pos <? N)%nat then Some (at_ (m_array b) pos) else None.
Definition set (b : t) (pos : nat) (value : Z) : option t :=
  if (pos <? N)%nat then Some (Make (upd pos value (m_array b)) (m_dataEndIdx b))
  else None.

(** The range [begin(), end()). *)
Definition content (b : t) : list Z := firstn (m_dataEndIdx b) (m_array b).

(** The array has its [N] elements and the end index is inside it. *)
Definition wf (b : t) : Prop :=
  length (m_array b) = N /\ (m_dataEndIdx b <= N)%nat.
End Def.
End Buffer.

(** ** Whirlpool with its [Buffer<Byte, BLOCK_SIZE * 2>] member

    [addData] (whirlpool.h:383-415) and [finalize] (whirlpool.h:319-344)
    once more, this time on the [Buffer] class instead of the list of
    its bytes in use; [None] is a failed bounds check of [Buffer] or an
    access outside its array. *)
Module WhirlpoolBuffered.
Definition N : nat := (Whirlpool.BLOCK_SIZE * 2)%nat.

Record t : Type := Inst { m_buffer : Buffer.t; m_core : Whirlpool.members }.

(** The instance as [Whirlpool.t] sees it. *)
Definition view (st : t) : Whirlpool.t :=
  Sink (Buffer.content (m_buffer st)) (m_core st).

(** [reset()]: [m_buffer.clear(); m_sizeCounter = 0;] and the loop that
    zeroes [m_h]; the constructor calls it. *)
Definition reset (st : t) : t :=
  Inst (Buffer.clear N (m_buffer st))
       (Whirlpool.Members (Uint128.assign 0) (repeat 0 8)).

Definition fresh : t :=
  reset (Inst (Buffer.create N) (Whirlpool.Members (Uint128.Make 0 0) (repeat 0 8))).

(** The second half of [addData], from
    [const size_t dataSize = data.size();] on. *)
Definition bulk (st : t) (data : list Z) : option t :=
  let dataSize := length data in
  if (dataSize <? Whirlpool.BLOCK_SIZE)%nat then
    match Buffer.from_range N data with
    | Some buf => Some (Inst buf (m_core st))
    | None => None
    end
  else
    let len := (dataSize - dataSize mod Whirlpool.BLOCK_SIZE)%nat in
    let core := Whirlpool.addDataImpl (m_core st) (firstn len data) in
    if (len <? dataSize)%nat then
      match Buffer.from_range N (skipn len data) with
      | Some buf => Some (Inst buf core)
      | None => None
      end
    else Some (Inst (m_buffer st) core).

Definition addData (st : t) (inData : list Z) : option t :=
  let data := inData in
  if negb (Buffer.empty (m_buffer st)) then
    let len := Nat.min (Whirlpool.BLOCK_SIZE - Buffer.size (m_buffer st)) (length data) in
    match Buffer.push_back N (m_buffer st) (firstn len data) with
    | None => None
    | Some buf =>
        if (Buffer.size buf <? Whirlpool.BLOCK_SIZE)%nat then Some (Inst buf (m_core st))
        else
          let core := Whirlpool.addDataImpl (m_core st) (Buffer.content buf) in
          bulk (Inst (Buffer.clear N buf) core) (skipn len data)
    end
  else bulk st data.

Definition finalize (st : t) : option t :=
  let sizeCounter :=
    Uint128.add_assign (Whirlpool.m_sizeCounter (m_core st))
                       (wrap 64 (Z.of_nat (Buffer.size (m_buffer st)))) in
  match Buffer.fill N (m_buffer st) (Z.shiftl 1 7) 1 with
  | None => None
  | Some buf =>
      let len := (Whirlpool.BLOCK_SIZE
                  - ((Buffer.size buf + 32) mod Whirlpool.BLOCK_SIZE))%nat in
      match Buffer.fill N buf 0 (len + 32) with
      | None => None
      | Some buf =>
          let sizeCounter := Uint128.times8 sizeCounter in
          let sizeCounterBits := sizeCounter in
          let sizeCounterBitsL := Uint128.low sizeCounterBits in
          let sizeCounterBitsH := Uint128.high sizeCounterBits in
          let written :=
            fold_left (fun ob i =>
                         match ob with
                         | None => None
                         | Some buf =>
                             match Buffer.set N buf (Buffer.size buf - 16 + i)
                                     (ror 8 sizeCounterBitsH (8 * (7 - Z.of_nat i))) with
                             | None => None
                             | Some buf =>
                                 Buffer.set N buf (Buffer.size buf - 8 + i)
                                   (ror 8 sizeCounterBitsL (8 * (7 - Z.of_nat i)))
                             end
                         end)
                      (seq 0 8) (Some buf) in
          match written with
          | None => None
          | Some buf =>
              let core := Whirlpool.addDataImpl
                            (Whirlpool.Members sizeCounter (Whirlpool.m_h (m_core st)))
                            (Buffer.content buf) in
              Some (Inst (Buffer.clear N buf) core)
          end
      end
  end.

(** What [addData] and [finalize] rely on: a well-formed buffer that
    holds less than one block. *)
Definition ready (st : t) : Prop :=
  Buffer.wf N (m_buffer st)
  /\ (Buffer.size (m_buffer st) < Whirlpool.BLOCK_SIZE)%nat.
End WhirlpoolBuffered.

(** ** The round constants of Whirlpool, computed

    The [#else] branch of whirlpool.h:715-723, which is compiled out, derives
    [roundConstant(round)] from [cTable]; each [+] is on [uint64_t]. *)
Definition Whirlpool_roundConstant_computed (round : nat) : Z :=
  let c (i : nat) (mask : Z) :=
    Z.land (at_ (nth i Whirlpool.cTable []) (round * 8 + i)) mask in
  add64 (add64 (add64 (add64 (add64 (add64 (add64
    (c 0%nat 0xff00000000000000) (c 1%nat 0x00ff000000000000))
    (c 2%nat 0x0000ff0000000000)) (c 3%nat 0x000000ff00000000))
    (c 4%nat 0x00000000ff000000)) (c 5%nat 0x0000000000ff0000))
    (c 6%nat 0x000000000000ff00)) (c 7%nat 0x00000000000000ff).

(** ** The message schedule of BLAKE2b

    The calls of round [r] of blake2.h:313-408, eight to a round, and the
    message words the round reads, in the order it reads them. *)
Definition Blake2_round_calls (r : nat) : list Blake2.call :=
  firstn 8 (skipn (8 * r) Blake2.calls).

Definition Blake2_msg_words (r : nat) : list nat :=
  flat_map (fun cl => let '(Blake2.Mix _ _ _ _ x y) := cl in [x; y])
           (Blake2_round_calls r).

(** The four words a [blakeMix] call writes. *)
Definition Blake2_written (cl : Blake2.call) : list nat :=
  let '(Blake2.Mix a b c d _ _) := cl in [a; b; c; d].

(** ** The word schedule of HAS-160

    The [xTable] entries that a list of round calls reads through
    [xTable[lTable[t]]], in program order. *)
Definition HAS_160_words_read (calls : list HAS_160.call) : list nat :=
  map (fun cl => let '(HAS_160.Step _ _ _ _ _ _ t) := cl in HAS_160.l t) calls.

(** A list of [n] indices in which each of [0 .. n-1] occurs. *)
Definition is_permutation_upto (n : nat) (l : list nat) : bool :=
  (length l =? n)%nat && forallb (fun i => existsb (Nat.eqb i) l) (seq 0 n).

Fixpoint list_eqb_nat (a b : list nat) : bool :=
  match a, b with
  | [], [] => true
  | x :: a, y :: b => (x =? y)%nat && list_eqb_nat a b
  | _, _ => false
  end.

(** ** BLAKE2b, continued from any instance

    What an instance whose members are [c] holds once the bytes [msg]
    (those waiting in its accumulator, then those of later [addData]
    calls) have been taken in: the last [Blake2.held msg] bytes wait, the
    blocks before them have been processed starting from [c]. *)
Definition Blake2_processed_from (c : Blake2.members) (p : list Z) : Blake2.members :=
  Blake2.addDataImpl false 0 c p.

Definition Blake2_absorbed_from (c : Blake2.members) (msg : list Z) : Blake2.t :=
  Sink (lastn (Blake2.held msg) msg)
       (Blake2_processed_from c (firstn (length msg - Blake2.held msg) msg)).

(** ** The shape of a padded buffer

    [out] is [buffer] followed by the byte [0x80] and by zero bytes up to
    the last [field] bytes; it is one 64-byte block when [buffer], the
    [0x80] byte and [reserve] more bytes fit in less than a block, and
    two blocks otherwise. *)
Definition padded_as (reserve field : nat) (buffer out : list Z) : Prop :=
  let r := length buffer in
  length out = (if (r + 1 + reserve <? 64)%nat then 64 else 128)%nat
  /\ firstn r out = buffer
  /\ nth r out 0 = 0x80
  /\ (forall i, (r < i < length out - field)%nat -> nth i out 0 = 0).

(** ** The two lines of RIPEMD-160

    [lineLeft] is called on the locals [a .. e] and [lineRight], the
    same lambda, on [aa .. ee]; the calls of the two are interleaved in
    the source.  [RIPEMD_160_part right v] is one of the two groups of
    locals and [RIPEMD_160_call_on right cl] says that every register
    argument of the call [cl] belongs to that group. *)
Definition RIPEMD_160_reg_on (right : bool) (r : RIPEMD_160.reg) : bool :=
  match r with
  | RIPEMD_160.Ra | RIPEMD_160.Rb | RIPEMD_160.Rc | RIPEMD_160.Rd | RIPEMD_160.Re =>
      negb right
  | _ => right
  end.

Definition RIPEMD_160_call_on (right : bool) (cl : RIPEMD_160.call) : bool :=
  let '(RIPEMD_160.lineLeft ra rb rc rd re _ _ _ _) := cl in
  forallb (RIPEMD_160_reg_on right) [ra; rb; rc; rd; re].

Definition RIPEMD_160_part (right : bool) (v : RIPEMD_160.regs) : list Z :=
  if right
  then [RIPEMD_160.aa v; RIPEMD_160.bb v; RIPEMD_160.cc v; RIPEMD_160.dd v; RIPEMD_160.ee v]
  else [RIPEMD_160.a v; RIPEMD_160.b v; RIPEMD_160.c v; RIPEMD_160.d v; RIPEMD_160.e v].

(** The calls of one line, in program order, and the message words that
    round [round] (sixteen calls) of the line reads. *)
Definition RIPEMD_160_line_calls (right : bool) : list RIPEMD_160.call :=
  filter (RIPEMD_160_call_on right) RIPEMD_160.calls.

Definition RIPEMD_160_words_read (right : bool) (round : nat) : list nat :=
  map (fun cl => let '(RIPEMD_160.lineLeft _ _ _ _ _ _ _ r _) := cl in r)
      (firstn 16 (skipn (16 * round) (RIPEMD_160_line_calls right))).

(** ** The rounds of MD5

    The sixteen calls of round [r] of md5.h:275-341, the message words
    they read and the registers they write ([a] is 0, [b] 1, [c] 2,
    [d] 3). *)
Definition MD5_round_calls (r : nat) : list MD5.call :=
  firstn 16 (skipn (16 * r) MD5.calls).

Definition MD5_words_read (r : nat) : list nat :=
  map (fun cl => let '(MD5.Round _ _ _ _ _ k _ _) := cl in k) (MD5_round_calls r).

Definition MD5_reg_index (r : MD5.reg) : nat :=
  match r with MD5.Ra => 0 | MD5.Rb => 1 | MD5.Rc => 2 | MD5.Rd => 3 end%nat.

Definition MD5_written (r : nat) : list nat :=
  map (fun cl => let '(MD5.Round ra _ _ _ _ _ _ _) := cl in MD5_reg_index ra)
      (MD5_round_calls r).

(** ** The block functions, round by round

    One iteration of the block loop of [addDataImpl] with the mixing
    written as [rounds] rounds -- of eight [blakeMix] calls for the two
    BLAKE functions, of sixteen [round] calls for MD5 -- in place of the
    unrolled sequence of calls; everything else is the text of
    [Blake1_224.compress], [Blake2.compress] and [MD5.compress]. *)
Definition Blake1_224_compress_rounds (rounds : nat) (paddingLen : Z)
    (s : Blake1_224.members) (blk : list Z) : Blake1_224.members :=
  let m := load32be blk in
  let m_h := Blake1_224.m_h s in
  let v := map (at_ m_h) (seq 0 8) ++ map (at_ Blake1_224.cTable) (seq 0 8) in
  let nonPaddingBits :=
    wrap 32 ((Z.of_nat Blake1_224.BLOCK_SIZE - paddingLen) * 8) in
  let m_sizeCounter := wrap 64 (Blake1_224.m_sizeCounter s + nonPaddingBits) in
  let v :=
    if 0 <? nonPaddingBits then
      let t0 := ror 32 m_sizeCounter 0 in
      let t1 := ror 32 m_sizeCounter 32 in
      let v := upd 12 (Z.lxor (at_ v 12) t0) v in
      let v := upd 13 (Z.lxor (at_ v 13) t0) v in
      let v := upd 14 (Z.lxor (at_ v 14) t1) v in
      upd 15 (Z.lxor (at_ v 15) t1) v
    else v in
  let v :=
    fold_left (fun v r => fold_left (Blake1_224.blakeMix m) (Blake1_224.round_calls r) v)
              (seq 0 rounds) v in
  Blake1_224.Members m_sizeCounter
    (map (fun i => Z.lxor (at_ m_h i) (Z.lxor (at_ v i) (at_ v (i + 8)))) (seq 0 8)).

Definition Blake2_compress_rounds (rounds : nat) (isFinal : bool) (paddingLen : Z)
    (s : Blake2.members) (blk : list Z) : Blake2.members :=
  let m := load64le blk in
  let m_sizeCounter :=
    Blake2.Uint128.add_assign (Blake2.m_sizeCounter s)
      (wrap 64 (Z.of_nat Blake2.BLOCK_SIZE - paddingLen)) in
  let m_h := Blake2.m_h s in
  let v := Blake2.init_v m_h m_sizeCounter isFinal in
  let v :=
    fold_left (fun v r => fold_left (Blake2.blakeMix m) (Blake2_round_calls r) v)
              (seq 0 rounds) v in
  Blake2.Members m_sizeCounter
    (map (fun i => Z.lxor (at_ m_h i) (Z.lxor (at_ v i) (at_ v (i + 8)))) (seq 0 8)).

Definition MD5_compress_rounds (rounds : nat) (st : list Z) (blk : list Z) : list Z :=
  let x := load32le blk in
  let v := MD5.Regs (at_ st 0) (at_ st 1) (at_ st 2) (at_ st 3) in
  let v :=
    fold_left (fun v r => fold_left (MD5.round x) (MD5_round_calls r) v)
              (seq 0 rounds) v in
  [ add32 (at_ st 0) (MD5.a v); add32 (at_ st 1) (MD5.b v);
    add32 (at_ st 2) (MD5.c v); add32 (at_ st 3) (MD5.d v) ].

(** * Facts about the embedding *)

(** ** Lists, arrays and the block loop *)

Lemma upd_length {A} i (v : A) l : length (upd i v l) = length l.
Proof.
  revert i; induction l as [|x l IH]; intros [|i]; simpl; auto.
Qed.

Lemma upd_app_r {A} (p l : list A) i v :
  upd (length p + i) v (p ++ l) = p ++ upd i v l.
Proof.
  induction p as [|x p IH]; simpl; [destruct l; reflexivity|].
  now rewrite IH.
Qed.

Lemma fold_left_ext_in {A B} (f g : A -> B -> A) l :
  (forall x, In x l -> forall a, f a x = g a x) ->
  forall a, fold_left f l a = fold_left g l a.
Proof.
  induction l as [|x l IH]; intros H a; simpl; [reflexivity|].
  rewrite (H x (or_introl eq_refl)). apply IH. intros; apply H; now right.
Qed.

Lemma fold_left_preserves {A B} (P : A -> Prop) (f : A -> B -> A) l :
  (forall a x, P a -> P (f a x)) -> forall a, P a -> P (fold_left f l a).
Proof.
  intros H; induction l as [|x l IH]; intros a Ha; simpl; auto.
Qed.

Lemma fold_left_map_arg {A B D} (f : A -> B -> A) (g : D -> B) l :
  forall a, fold_left f (map g l) a = fold_left (fun a x => f a (g x)) l a.
Proof.
  induction l as [|x l IH]; intros a; simpl; auto.
Qed.

Lemma seq_from q n : seq q n = map (Nat.add q) (seq 0 n).
Proof.
  revert q; induction n as [|n IH]; intros q; simpl; [reflexivity|].
  rewrite Nat.add_0_r. f_equal.
  rewrite (IH (S q)), (IH 1%nat), map_map.
  apply map_ext. intros; lia.
Qed.

Lemma mod_0_multiple B n : (0 < B)%nat -> (n mod B = 0)%nat -> exists q, n = (q * B)%nat.
Proof.
  intros HB H. exists (n / B)%nat.
  pose proof (Nat.div_mod_eq n B) as E. rewrite H in E. lia.
Qed.

Lemma multiple_mod_0 B q : ((q * B) mod B = 0)%nat.
Proof. apply Nat.Div0.mod_mul. Qed.

Lemma block_app_l B i q (a b : list Z) :
  length a = (q * B)%nat -> (i < q)%nat -> block B i (a ++ b) = block B i a.
Proof.
  intros Ha Hi. unfold block.
  assert (Hle : (i * B + B <= length a)%nat) by (rewrite Ha; nia).
  rewrite skipn_app.
  replace (i * B - length a)%nat with 0%nat by lia. simpl.
  rewrite firstn_app.
  rewrite length_skipn.
  replace (B - (length a - i * B))%nat with 0%nat by lia.
  simpl. now rewrite app_nil_r.
Qed.

Lemma block_app_r B i q (a b : list Z) :
  length a = (q * B)%nat -> block B (q + i) (a ++ b) = block B i b.
Proof.
  intros Ha. unfold block.
  rewrite skipn_app.
  rewrite skipn_all2 by (rewrite Ha; nia).
  simpl. f_equal. f_equal. rewrite Ha. nia.
Qed.

Lemma process_blocks_nil {H} B (f : H -> list Z -> H) h :
  process_blocks B f h [] = h.
Proof.
  unfold process_blocks. simpl. now rewrite Nat.Div0.div_0_l.
Qed.

Lemma process_blocks_app {H} B (f : H -> list Z -> H) h a b :
  (0 < B)%nat -> (length a mod B = 0)%nat ->
  process_blocks B f h (a ++ b) = process_blocks B f (process_blocks B f h a) b.
Proof.
  intros HB Hmod.
  destruct (mod_0_multiple _ _ HB Hmod) as [q Hq].
  unfold process_blocks.
  rewrite length_app, Hq.
  rewrite Nat.div_add_l by lia.
  rewrite Nat.div_mul by lia.
  rewrite seq_app, fold_left_app. simpl.
  rewrite (fold_left_ext_in _ (fun h i => f h (block B i a)) (seq 0 q)).
  2:{ intros i Hi h0. apply in_seq in Hi. now rewrite (block_app_l B i q) by lia. }
  rewrite (seq_from q), fold_left_map_arg.
  apply fold_left_ext_in. intros i _ h0. now rewrite (block_app_r B i q).
Qed.

(** ** The accumulating byte sink, for any block processor

    [processed p] gives the members after the complete blocks [p] have been
    compressed; [adm] singles out the spans whose size the size types of the
    source can hold (it is [True] where the block processor does not use
    the size). *)

Module AccumulatorFacts.
Section Facts.
Context {C : Type}.
Variable B : nat.
Variable impl : C -> list Z -> C.
Variable init : C.
Variable processed : list Z -> C.
Variable adm : list Z -> Prop.
Hypothesis B_pos : (0 < B)%nat.
Hypothesis adm_prefix : forall d n, adm d -> adm (firstn n d).
Hypothesis adm_suffix : forall d n, adm d -> adm (skipn n d).
Hypothesis adm_block : forall a, length a = B -> adm a.
Hypothesis processed_nil : processed [] = init.
Hypothesis processed_app :
  forall p a, (length p mod B = 0)%nat -> adm a ->
              impl (processed p) a = processed (p ++ a).

Local Abbreviation addData := (Accumulator.addData B impl).
Local Abbreviation bulk := (Accumulator.bulk B impl).
Local Abbreviation absorbed := (Accumulator.absorbed B processed).
Local Abbreviation whole := (Accumulator.whole B).

Lemma acc_whole_le m : (whole m <= length m)%nat.
Proof.
  unfold Accumulator.whole. rewrite Nat.mul_comm. apply Nat.Div0.mul_div_le.
Qed.

Lemma acc_whole_rest m : (length m - whole m = length m mod B)%nat.
Proof.
  unfold Accumulator.whole. pose proof (Nat.div_mod_eq (length m) B). lia.
Qed.

Lemma acc_whole_split p r :
  (length p mod B = 0)%nat -> (length r < B)%nat -> whole (p ++ r) = length p.
Proof.
  intros Hp Hr. destruct (mod_0_multiple _ _ B_pos Hp) as [q Hq].
  unfold Accumulator.whole. rewrite length_app, Hq.
  rewrite Nat.div_add_l by lia. rewrite (Nat.div_small _ _ Hr). lia.
Qed.

Lemma acc_absorbed_intro p r :
  (length p mod B = 0)%nat -> (length r < B)%nat ->
  absorbed (p ++ r) = Sink r (processed p).
Proof.
  intros Hp Hr. unfold Accumulator.absorbed. rewrite (acc_whole_split p r Hp Hr).
  rewrite skipn_app, firstn_app, Nat.sub_diag, skipn_all, firstn_all. simpl.
  now rewrite app_nil_r.
Qed.

Lemma acc_absorbed_elim m :
  exists p r, m = p ++ r /\ (length p mod B = 0)%nat /\ (length r < B)%nat /\
              absorbed m = Sink r (processed p).
Proof.
  exists (firstn (whole m) m), (skipn (whole m) m).
  pose proof (acc_whole_le m) as Hle.
  repeat split.
  - now rewrite firstn_skipn.
  - rewrite length_firstn, Nat.min_l by exact Hle. apply multiple_mod_0.
  - rewrite length_skipn, acc_whole_rest. now apply Nat.mod_upper_bound, Nat.neq_0_lt_0.
Qed.

Lemma acc_absorbed_nil : absorbed [] = Sink [] init.
Proof.
  rewrite <- processed_nil.
  apply (acc_absorbed_intro [] []); simpl; [apply Nat.Div0.mod_0_l | exact B_pos].
Qed.

Lemma acc_buffer_absorbed m : length (m_buffer (absorbed m)) = (length m mod B)%nat.
Proof. simpl. now rewrite length_skipn, acc_whole_rest. Qed.

Lemma acc_aligned_len n : ((n - n mod B) mod B = 0)%nat.
Proof.
  replace (n - n mod B)%nat with (n / B * B)%nat
    by (pose proof (Nat.div_mod_eq n B); lia).
  apply multiple_mod_0.
Qed.

Lemma acc_mod_add_aligned a b :
  (a mod B = 0)%nat -> (b mod B = 0)%nat -> ((a + b) mod B = 0)%nat.
Proof.
  intros Ha Hb. rewrite Nat.Div0.add_mod, Ha, Hb. simpl. apply Nat.Div0.mod_0_l.
Qed.

(** The accumulator never reaches a full block, so the subtraction
    [BLOCK_SIZE - m_buffer.size()] of [addData] cannot wrap. *)
Lemma acc_buffer_bound st d :
  (length (m_buffer st) < B)%nat -> (length (m_buffer (addData st d)) < B)%nat.
Proof.
  intros Hst.
  assert (Hbulk : forall c d0, (length (m_buffer (bulk (Sink [] c) d0)) < B)%nat).
  { intros c d0. unfold Accumulator.bulk. cbn [m_buffer m_core].
    destruct (Nat.ltb_spec (length d0) B) as [Hlt|Hge]; [exact Hlt|].
    destruct (Nat.ltb_spec (length d0 - length d0 mod B) (length d0)) as [Hl|Hl];
      cbn [m_buffer length]; [|exact B_pos].
    rewrite length_skipn.
    pose proof (Nat.mod_upper_bound (length d0) B). lia. }
  unfold Accumulator.addData. destruct (m_buffer st) as [|x b] eqn:Eb.
  - destruct st as [b0 c0]. cbn [m_buffer] in Eb. subst b0. apply Hbulk.
  - cbn [m_buffer m_core clear].
    destruct (Nat.ltb_spec (length ((x :: b) ++ firstn (Nat.min (B - length (x :: b))
                                                                (length d)) d)) B)
      as [Hlt|Hge]; [exact Hlt | apply Hbulk].
Qed.

Lemma acc_bulk_absorbed p d :
  adm d -> (length p mod B = 0)%nat ->
  bulk (Sink [] (processed p)) d = absorbed (p ++ d).
Proof.
  intros Hadm Hp. unfold Accumulator.bulk. simpl m_core. simpl m_buffer.
  destruct (Nat.ltb_spec (length d) B) as [Hlt|Hge].
  - now rewrite acc_absorbed_intro.
  - set (len := (length d - length d mod B)%nat).
    assert (Hlen : (len <= length d)%nat) by (unfold len; lia).
    assert (Hd : p ++ d = (p ++ firstn len d) ++ skipn len d)
      by now rewrite <- app_assoc, firstn_skipn.
    assert (Hrest : (length (skipn len d) < B)%nat).
    { rewrite length_skipn. unfold len.
      pose proof (Nat.mod_upper_bound (length d) B). lia. }
    assert (Hal : (length (p ++ firstn len d) mod B = 0)%nat).
    { rewrite length_app, length_firstn, Nat.min_l by exact Hlen.
      apply acc_mod_add_aligned; [exact Hp | apply acc_aligned_len]. }
    rewrite processed_app by (auto using adm_prefix).
    rewrite Hd, (acc_absorbed_intro _ _ Hal Hrest).
    destruct (Nat.ltb_spec len (length d)) as [_|Hall]; [reflexivity|].
    now rewrite skipn_all2 by exact Hall.
Qed.

(** One more [addData] call on an instance that has consumed [m]. *)
Lemma acc_addData_absorbed m d :
  adm d -> addData (absorbed m) d = absorbed (m ++ d).
Proof.
  intros Hadm.
  destruct (acc_absorbed_elim m) as (p & r & Hm & Hp & Hr & ->). subst m.
  unfold Accumulator.addData. simpl m_buffer. simpl m_core.
  destruct r as [|x r'].
  - rewrite app_nil_r in *. now apply acc_bulk_absorbed.
  - set (r := x :: r') in *. unfold clear. simpl m_buffer. simpl m_core.
    set (len := Nat.min (B - length r) (length d)).
    assert (Hlen : length (r ++ firstn len d) = (length r + len)%nat).
    { rewrite length_app, length_firstn. unfold len. lia. }
    destruct (Nat.ltb_spec (length (r ++ firstn len d)) B) as [Hlt|Hge].
    + assert (Hall : len = length d) by (unfold len in *; lia).
      rewrite Hall, firstn_all in *. rewrite <- app_assoc.
      symmetry. now apply acc_absorbed_intro.
    + assert (HB : length (r ++ firstn len d) = B) by (unfold len in *; lia).
      assert (Hal : (length (p ++ r ++ firstn len d) mod B = 0)%nat).
      { rewrite length_app. apply acc_mod_add_aligned; [exact Hp|].
        rewrite HB. now apply Nat.Div0.mod_same. }
      assert (Heq : (p ++ r) ++ d = (p ++ r ++ firstn len d) ++ skipn len d).
      { rewrite <- !app_assoc. now rewrite firstn_skipn. }
      rewrite processed_app by (auto using adm_block).
      rewrite Heq. apply acc_bulk_absorbed; auto using adm_suffix.
Qed.

Lemma acc_feed_from m chunks :
  Forall adm chunks ->
  fold_left addData chunks (absorbed m) = absorbed (m ++ concat chunks).
Proof.
  revert m; induction chunks as [|c cs IH]; intros m Hadm; simpl in *.
  - now rewrite app_nil_r.
  - inversion Hadm; subst.
    rewrite acc_addData_absorbed by assumption.
    rewrite IH by assumption. now rewrite app_assoc.
Qed.

(** However a message is cut into [addData] calls, a fresh instance ends
    up holding what [absorbed] says. *)
Lemma acc_feed_absorbed chunks :
  Forall adm chunks ->
  feed addData (Sink [] init) chunks = absorbed (concat chunks).
Proof.
  intros Hadm. unfold feed. rewrite <- acc_absorbed_nil. now apply (acc_feed_from []).
Qed.

Lemma acc_feed_chunking chunks :
  Forall adm chunks -> adm (concat chunks) ->
  feed addData (Sink [] init) chunks = addData (Sink [] init) (concat chunks).
Proof.
  intros Hadm Hall. rewrite (acc_feed_absorbed _ Hadm).
  rewrite <- acc_absorbed_nil. symmetry. now apply (acc_addData_absorbed []).
Qed.
End Facts.
End AccumulatorFacts.

(** ** Words, bytes and the two-word counter *)

Lemma wrap_range bits x : 0 <= bits -> 0 <= wrap bits x < 2 ^ bits.
Proof. intros. unfold wrap. apply Z.mod_pos_bound. now apply Z.pow_pos_nonneg. Qed.

Lemma wrap_small bits x : 0 <= x < 2 ^ bits -> wrap bits x = x.
Proof. intros. unfold wrap. now apply Z.mod_small. Qed.

Lemma wrap_add_l bits x y : wrap bits (wrap bits x + y) = wrap bits (x + y).
Proof. unfold wrap. apply Zplus_mod_idemp_l. Qed.

Lemma wrap_add_r bits x y : wrap bits (x + wrap bits y) = wrap bits (x + y).
Proof. unfold wrap. apply Zplus_mod_idemp_r. Qed.

Lemma ror_spec Rbits x s :
  0 <= Rbits -> 0 <= s -> ror Rbits x s = (x / 2 ^ s) mod 2 ^ Rbits.
Proof.
  intros. unfold ror. now rewrite Z.land_ones, Z.shiftr_div_pow2.
Qed.

(** The carry of [operator+=]: the pair (new high, new low) is the exact
    128-bit sum. *)
Lemma add_carry_exact lo hi n :
  0 <= lo < 2 ^ 64 -> 0 <= hi < 2 ^ 64 -> 0 <= n < 2 ^ 64 ->
  let newLo := add64 lo n in
  let hi' := if newLo <? lo then add64 hi 1 else hi in
  hi' * 2 ^ 64 + newLo = (hi * 2 ^ 64 + lo + n) mod 2 ^ 128
  /\ 0 <= newLo < 2 ^ 64 /\ 0 <= hi' < 2 ^ 64.
Proof.
  intros Hlo Hhi Hn. cbv zeta. unfold add64, wrap.
  change (2 ^ 64) with 18446744073709551616 in *.
  change (2 ^ 128) with (18446744073709551616 * 18446744073709551616).
  destruct (Z.ltb_spec ((lo + n) mod 18446744073709551616) lo) as [Hc|Hc];
    Z.to_euclidean_division_equations; nia.
Qed.

Lemma lor_shifted_small k j :
  0 <= k -> 0 <= j < 8 -> Z.lor (8 * k) j = 8 * k + j.
Proof.
  intros Hk Hj.
  rewrite <- Z.lxor_lor, <- Z.add_nocarry_lxor; try reflexivity.
  all: apply Z.bits_inj'; intros i Hi; rewrite Z.land_spec, Z.bits_0.
  all: replace (8 * k) with (Z.shiftl k 3) by (rewrite Z.shiftl_mul_pow2; lia).
  all: destruct (Z.ltb_spec i 3) as [Hlt|Hge];
    [ rewrite Z.shiftl_spec_low by lia; reflexivity | ].
  all: rewrite (Z.bits_above_log2 j i); [apply andb_false_r | lia | ].
  all: destruct (Z.eq_dec j 0) as [->|]; [simpl; lia|].
  all: apply Z.log2_lt_pow2; try lia.
  all: apply Z.lt_le_trans with (2 ^ 3); [simpl; lia | apply Z.pow_le_mono_r; lia].
Qed.

(** The shift of [operator*]: the pair (new high, new low) is the value
    times eight, modulo [2^128]. *)
Lemma shift3_exact lo hi :
  0 <= lo < 2 ^ 64 -> 0 <= hi < 2 ^ 64 ->
  let msb := wrap 8 (Z.land (Z.shiftr lo 61) 0xff) in
  let hi' := Z.lor (shl64 hi 3) msb in
  let lo' := shl64 lo 3 in
  hi' * 2 ^ 64 + lo' = (8 * (hi * 2 ^ 64 + lo)) mod 2 ^ 128
  /\ 0 <= lo' < 2 ^ 64 /\ 0 <= hi' < 2 ^ 64
  /\ hi' = (8 * hi) mod 2 ^ 64 + lo / 2 ^ 61.
Proof.
  intros Hlo Hhi. cbv zeta.
  change 0xff with (Z.ones 8).
  rewrite Z.land_ones, Z.shiftr_div_pow2 by lia.
  unfold shl64, wrap. rewrite !Z.shiftl_mul_pow2 by lia.
  assert (Hm : 0 <= lo / 2 ^ 61 < 8).
  { split; [apply Z.div_pos; lia|].
    apply Z.div_lt_upper_bound; [lia|]. change (2 ^ 61 * 8) with (2 ^ 64). lia. }
  rewrite (Z.mod_small (lo / 2 ^ 61) (2 ^ 8)) by (change (2 ^ 8) with 256; lia).
  rewrite (Z.mod_small (lo / 2 ^ 61) (2 ^ 8)) by (change (2 ^ 8) with 256; lia).
  assert (Hh : (hi * 2 ^ 3) mod 2 ^ 64 = 8 * (hi mod 2 ^ 61)).
  { change (2 ^ 3) with 8. change (2 ^ 64) with (8 * 2 ^ 61).
    rewrite (Z.mul_comm hi 8). rewrite Z.mul_mod_distr_l by lia. reflexivity. }
  rewrite Hh.
  rewrite lor_shifted_small; [| apply Z.mod_pos_bound; lia | exact Hm].
  change (2 ^ 3) with 8.
  change (2 ^ 61) with 2305843009213693952 in *.
  change (2 ^ 64) with 18446744073709551616 in *.
  change (2 ^ 128) with (18446744073709551616 * 18446744073709551616).
  repeat split; Z.to_euclidean_division_equations; nia.
Qed.

(** Little-endian and big-endian readings of a byte string. *)
Lemma bytes_le_S n w : bytes_le (S n) w = (w mod 256) :: bytes_le n (w / 256).
Proof.
  unfold bytes_le. cbn [seq map]. rewrite (seq_from 1 n). f_equal.
  - rewrite ror_spec by lia. simpl. now rewrite Z.div_1_r.
  - rewrite map_map. apply map_ext. intros j.
    rewrite !ror_spec by lia.
    replace (Z.of_nat (1 + j) * 8) with (8 + Z.of_nat j * 8) by lia.
    rewrite Z.pow_add_r by lia. rewrite Z.div_div by lia. reflexivity.
Qed.

Lemma le_value_bytes_le n w : le_value (bytes_le n w) = w mod 256 ^ Z.of_nat n.
Proof.
  revert w; induction n as [|n IH]; intros w.
  - simpl. now rewrite Z.mod_1_r.
  - rewrite bytes_le_S. cbn [le_value fold_right]. fold (le_value (bytes_le n (w / 256))).
    rewrite IH, Nat2Z.inj_succ, Z.pow_succ_r by lia.
    rewrite Z.rem_mul_r by lia. reflexivity.
Qed.

Lemma le_value_app l1 l2 :
  le_value (l1 ++ l2) = le_value l1 + 256 ^ Z.of_nat (length l1) * le_value l2.
Proof.
  induction l1 as [|b l1 IH]; cbn [le_value fold_right app length].
  - fold (le_value l2). lia.
  - fold (le_value (l1 ++ l2)) (le_value l1). rewrite IH, Nat2Z.inj_succ, Z.pow_succ_r by lia.
    lia.
Qed.

Lemma be_value_rev l : be_value (rev l) = le_value l.
Proof.
  induction l as [|b l IH]; [reflexivity|].
  unfold be_value in *. cbn [rev le_value fold_right].
  rewrite fold_left_app. cbn [fold_left]. rewrite IH. unfold le_value. lia.
Qed.

Lemma bytes_be_rev n w : bytes_be n w = rev (bytes_le n w).
Proof. unfold bytes_be, bytes_le. now rewrite map_rev. Qed.

Lemma be_value_bytes_be n w : be_value (bytes_be n w) = w mod 256 ^ Z.of_nat n.
Proof. now rewrite bytes_be_rev, be_value_rev, le_value_bytes_le. Qed.

Lemma be_value_app l1 l2 :
  be_value (l1 ++ l2) = be_value l1 * 256 ^ Z.of_nat (length l2) + be_value l2.
Proof.
  rewrite <- (rev_involutive (l1 ++ l2)), be_value_rev, rev_app_distr, le_value_app.
  rewrite <- !be_value_rev, !rev_involutive, length_rev. lia.
Qed.

(** ** The six hash types that share [Accumulator.addData] *)

Lemma True_prefix (d : list Z) (n : nat) : True -> True.
Proof. exact (fun x => x). Qed.

Lemma Forall_True {A} (l : list A) : Forall (fun _ => True) l.
Proof. induction l; constructor; auto. Qed.


Module MD5Facts.
Import MD5.

Lemma md5_processed_app p a :
  (length p mod BLOCK_SIZE = 0)%nat -> True ->
  addDataImpl (processed p) a = processed (p ++ a).
Proof.
  intros Hp _. unfold processed, addDataImpl.
  cbn [m_sizeCounter m_state]. f_equal;
    [rewrite wrap_add_l, length_app, Nat2Z.inj_add; f_equal; lia|].
  symmetry; apply process_blocks_app; [unfold BLOCK_SIZE; lia | exact Hp].
Qed.

Theorem md5_feed_absorbed chunks : feed addData fresh chunks = absorbed (concat chunks).
Proof.
  apply (AccumulatorFacts.acc_feed_absorbed BLOCK_SIZE (addDataImpl) init processed
           (fun _ => True)); auto using md5_processed_app, Forall_True.
  unfold BLOCK_SIZE; lia.
Qed.

Theorem md5_chunking chunks : feed addData fresh chunks = addData fresh (concat chunks).
Proof.
  apply (AccumulatorFacts.acc_feed_chunking BLOCK_SIZE (addDataImpl) init processed
           (fun _ => True)); auto using md5_processed_app, Forall_True.
  unfold BLOCK_SIZE; lia.
Qed.

Lemma md5_buffer_absorbed msg :
  length (m_buffer (absorbed msg)) = (length msg mod BLOCK_SIZE)%nat.
Proof.
  apply (AccumulatorFacts.acc_buffer_absorbed BLOCK_SIZE processed). unfold BLOCK_SIZE; lia.
Qed.
End MD5Facts.

Module MD2Facts.
Import MD2.

Lemma md2_processed_app p a :
  (length p mod BLOCK_SIZE = 0)%nat -> True ->
  addDataImpl (processed p) a = processed (p ++ a).
Proof.
  intros Hp _. unfold processed, addDataImpl.
  symmetry; apply process_blocks_app; [unfold BLOCK_SIZE; lia | exact Hp].
Qed.

Theorem md2_feed_absorbed chunks : feed addData fresh chunks = absorbed (concat chunks).
Proof.
  apply (AccumulatorFacts.acc_feed_absorbed BLOCK_SIZE (addDataImpl) init processed
           (fun _ => True)); auto using md2_processed_app, Forall_True.
  unfold BLOCK_SIZE; lia.
Qed.

Theorem md2_chunking chunks : feed addData fresh chunks = addData fresh (concat chunks).
Proof.
  apply (AccumulatorFacts.acc_feed_chunking BLOCK_SIZE (addDataImpl) init processed
           (fun _ => True)); auto using md2_processed_app, Forall_True.
  unfold BLOCK_SIZE; lia.
Qed.

Lemma md2_buffer_absorbed msg :
  length (m_buffer (absorbed msg)) = (length msg mod BLOCK_SIZE)%nat.
Proof.
  apply (AccumulatorFacts.acc_buffer_absorbed BLOCK_SIZE processed). unfold BLOCK_SIZE; lia.
Qed.
End MD2Facts.

Module HAS_160Facts.
Import HAS_160.

Lemma has160_processed_app p a :
  (length p mod BLOCK_SIZE = 0)%nat -> True ->
  addDataImpl (processed p) a = processed (p ++ a).
Proof.
  intros Hp _. unfold processed, addDataImpl.
  cbn [m_sizeCounter m_h]. f_equal;
    [rewrite wrap_add_l, length_app, Nat2Z.inj_add; f_equal; lia|].
  symmetry; apply process_blocks_app; [unfold BLOCK_SIZE; lia | exact Hp].
Qed.

Theorem has160_feed_absorbed chunks : feed addData fresh chunks = absorbed (concat chunks).
Proof.
  apply (AccumulatorFacts.acc_feed_absorbed BLOCK_SIZE (addDataImpl) init processed
           (fun _ => True)); auto using has160_processed_app, Forall_True.
  unfold BLOCK_SIZE; lia.
Qed.

Theorem has160_chunking chunks : feed addData fresh chunks = addData fresh (concat chunks).
Proof.
  apply (AccumulatorFacts.acc_feed_chunking BLOCK_SIZE (addDataImpl) init processed
           (fun _ => True)); auto using has160_processed_app, Forall_True.
  unfold BLOCK_SIZE; lia.
Qed.

Lemma has160_buffer_absorbed msg :
  length (m_buffer (absorbed msg)) = (length msg mod BLOCK_SIZE)%nat.
Proof.
  apply (AccumulatorFacts.acc_buffer_absorbed BLOCK_SIZE processed). unfold BLOCK_SIZE; lia.
Qed.
End HAS_160Facts.

Module RIPEMD_160Facts.
Import RIPEMD_160.

Lemma rmd160_processed_app p a :
  (length p mod BLOCK_SIZE = 0)%nat -> True ->
  addDataImpl (processed p) a = processed (p ++ a).
Proof.
  intros Hp _. unfold processed, addDataImpl.
  cbn [m_sizeCounter m_h]. f_equal;
    [rewrite wrap_add_l, length_app, Nat2Z.inj_add; f_equal; lia|].
  symmetry; apply process_blocks_app; [unfold BLOCK_SIZE; lia | exact Hp].
Qed.

Theorem rmd160_feed_absorbed chunks : feed addData fresh chunks = absorbed (concat chunks).
Proof.
  apply (AccumulatorFacts.acc_feed_absorbed BLOCK_SIZE (addDataImpl) init processed
           (fun _ => True)); auto using rmd160_processed_app, Forall_True.
  unfold BLOCK_SIZE; lia.
Qed.

Theorem rmd160_chunking chunks : feed addData fresh chunks = addData fresh (concat chunks).
Proof.
  apply (AccumulatorFacts.acc_feed_chunking BLOCK_SIZE (addDataImpl) init processed
           (fun _ => True)); auto using rmd160_processed_app, Forall_True.
  unfold BLOCK_SIZE; lia.
Qed.

Lemma rmd160_buffer_absorbed msg :
  length (m_buffer (absorbed msg)) = (length msg mod BLOCK_SIZE)%nat.
Proof.
  apply (AccumulatorFacts.acc_buffer_absorbed BLOCK_SIZE processed). unfold BLOCK_SIZE; lia.
Qed.
End RIPEMD_160Facts.

Module Blake1_224Facts.
Import Blake1_224.

Lemma blake1_processed_app p a :
  (length p mod BLOCK_SIZE = 0)%nat -> True ->
  addDataImpl 0 (processed p) a = processed (p ++ a).
Proof.
  intros Hp _. unfold processed, addDataImpl.
  symmetry; apply process_blocks_app; [unfold BLOCK_SIZE; lia | exact Hp].
Qed.

Theorem blake1_feed_absorbed chunks : feed addData fresh chunks = absorbed (concat chunks).
Proof.
  apply (AccumulatorFacts.acc_feed_absorbed BLOCK_SIZE (addDataImpl 0) init processed
           (fun _ => True)); auto using blake1_processed_app, Forall_True.
  unfold BLOCK_SIZE; lia.
Qed.

Theorem blake1_chunking chunks : feed addData fresh chunks = addData fresh (concat chunks).
Proof.
  apply (AccumulatorFacts.acc_feed_chunking BLOCK_SIZE (addDataImpl 0) init processed
           (fun _ => True)); auto using blake1_processed_app, Forall_True.
  unfold BLOCK_SIZE; lia.
Qed.

Lemma blake1_buffer_absorbed msg :
  length (m_buffer (absorbed msg)) = (length msg mod BLOCK_SIZE)%nat.
Proof.
  apply (AccumulatorFacts.acc_buffer_absorbed BLOCK_SIZE processed). unfold BLOCK_SIZE; lia.
Qed.
End Blake1_224Facts.

(** ** The class [Uint128]

    blake2.h and whirlpool.h each declare it; the two bodies of
    [operator+=] and [operator*] are the same text. *)

Module Uint128Facts.
Import Uint128.

Lemma u128_add_assign_exact v n :
  in_range v -> 0 <= n < 2 ^ 64 ->
  value (add_assign v n) = (value v + n) mod 2 ^ 128 /\ in_range (add_assign v n).
Proof.
  intros [Hlo Hhi] Hn. unfold value, in_range, add_assign. cbn [m_lo m_hi].
  destruct (add_carry_exact _ _ _ Hlo Hhi Hn) as (E & R1 & R2). cbv zeta in *.
  auto.
Qed.

Lemma u128_times8_exact v :
  in_range v ->
  value (times8 v) = (8 * value v) mod 2 ^ 128 /\ in_range (times8 v)
  /\ m_hi (times8 v) = (8 * m_hi v) mod 2 ^ 64 + m_lo v / 2 ^ 61
  /\ m_lo (times8 v) = (8 * m_lo v) mod 2 ^ 64.
Proof.
  intros [Hlo Hhi]. unfold value, in_range, times8. cbn [m_lo m_hi].
  destruct (shift3_exact _ _ Hlo Hhi) as (E & R1 & R2 & Ehi). cbv zeta in *.
  repeat split; try tauto.
  unfold shl64, wrap. rewrite Z.shiftl_mul_pow2 by lia. f_equal. lia.
Qed.
End Uint128Facts.

Module Blake2Uint128Facts.
Import Blake2.Uint128.

Lemma b2u128_add_assign_exact v n :
  in_range v -> 0 <= n < 2 ^ 64 ->
  value (add_assign v n) = (value v + n) mod 2 ^ 128 /\ in_range (add_assign v n).
Proof.
  intros [Hlo Hhi] Hn. unfold value, in_range, add_assign. cbn [m_lo m_hi].
  destruct (add_carry_exact _ _ _ Hlo Hhi Hn) as (E & R1 & R2). cbv zeta in *.
  auto.
Qed.

Lemma b2u128_times8_exact v :
  in_range v ->
  value (times8 v) = (8 * value v) mod 2 ^ 128 /\ in_range (times8 v)
  /\ m_hi (times8 v) = (8 * m_hi v) mod 2 ^ 64 + m_lo v / 2 ^ 61
  /\ m_lo (times8 v) = (8 * m_lo v) mod 2 ^ 64.
Proof.
  intros [Hlo Hhi]. unfold value, in_range, times8. cbn [m_lo m_hi].
  destruct (shift3_exact _ _ Hlo Hhi) as (E & R1 & R2 & Ehi). cbv zeta in *.
  repeat split; try tauto.
  unfold shl64, wrap. rewrite Z.shiftl_mul_pow2 by lia. f_equal. lia.
Qed.
End Blake2Uint128Facts.

(** The counter of whirlpool.h after [P] bytes, one [addDataImpl] later. *)
Lemma counter_step P A :
  0 <= P -> 0 <= A < 2 ^ 64 ->
  Uint128.add_assign (Uint128.Make (wrap 64 P) (wrap 64 (P / 2 ^ 64))) (wrap 64 A)
  = Uint128.Make (wrap 64 (P + A)) (wrap 64 ((P + A) / 2 ^ 64)).
Proof.
  intros HP HA. unfold Uint128.add_assign. cbn [Uint128.m_lo Uint128.m_hi].
  rewrite (wrap_small 64 A) by exact HA.
  assert (E1 : add64 (wrap 64 P) A = wrap 64 (P + A)) by apply wrap_add_l.
  rewrite E1. f_equal.
  unfold add64, wrap.
  change (2 ^ 64) with 18446744073709551616 in *.
  destruct (Z.ltb_spec ((P + A) mod 18446744073709551616) (P mod 18446744073709551616));
    Z.to_euclidean_division_equations; nia.
Qed.

Module WhirlpoolFacts.
Import Whirlpool.

Lemma whirlpool_span_prefix (d : list Z) n : span_size_ok d -> span_size_ok (firstn n d).
Proof. unfold span_size_ok. rewrite length_firstn. lia. Qed.

Lemma whirlpool_span_suffix (d : list Z) n : span_size_ok d -> span_size_ok (skipn n d).
Proof. unfold span_size_ok. rewrite length_skipn. lia. Qed.

Lemma whirlpool_span_block (a : list Z) : length a = BLOCK_SIZE -> span_size_ok a.
Proof. unfold span_size_ok, BLOCK_SIZE. intros ->. reflexivity. Qed.

Lemma whirlpool_span_chunks chunks : span_size_ok (concat chunks) -> Forall span_size_ok chunks.
Proof.
  unfold span_size_ok. induction chunks as [|c cs IH]; intros H; constructor.
  - simpl in H. rewrite length_app in H. lia.
  - apply IH. simpl in H. rewrite length_app in H. lia.
Qed.

Lemma whirlpool_processed_app p a :
  (length p mod BLOCK_SIZE = 0)%nat -> span_size_ok a ->
  addDataImpl (processed p) a = processed (p ++ a).
Proof.
  intros Hp Ha. unfold processed, addDataImpl. cbn [m_sizeCounter m_h]. f_equal.
  - rewrite counter_step; [| lia | unfold span_size_ok in Ha; lia].
    now rewrite length_app, Nat2Z.inj_add.
  - symmetry; apply process_blocks_app; [unfold BLOCK_SIZE; lia | exact Hp].
Qed.

Theorem whirlpool_feed_absorbed chunks :
  Forall span_size_ok chunks -> feed addData fresh chunks = absorbed (concat chunks).
Proof.
  apply (AccumulatorFacts.acc_feed_absorbed BLOCK_SIZE addDataImpl init processed
           span_size_ok);
    auto using whirlpool_processed_app, whirlpool_span_prefix, whirlpool_span_suffix, whirlpool_span_block.
  unfold BLOCK_SIZE; lia.
Qed.

Theorem whirlpool_chunking chunks :
  span_size_ok (concat chunks) ->
  feed addData fresh chunks = addData fresh (concat chunks).
Proof.
  intros H.
  apply (AccumulatorFacts.acc_feed_chunking BLOCK_SIZE addDataImpl init processed
           span_size_ok);
    auto using whirlpool_processed_app, whirlpool_span_prefix, whirlpool_span_suffix, whirlpool_span_block, whirlpool_span_chunks.
  unfold BLOCK_SIZE; lia.
Qed.

Lemma whirlpool_buffer_absorbed msg :
  length (m_buffer (absorbed msg)) = (length msg mod BLOCK_SIZE)%nat.
Proof.
  apply (AccumulatorFacts.acc_buffer_absorbed BLOCK_SIZE processed). unfold BLOCK_SIZE; lia.
Qed.
End WhirlpoolFacts.

(** ** BLAKE2b: the accumulator that keeps the last block back *)

Module Blake2Facts.
Import Blake2.

Lemma blake2_processed_nil : processed [] = init.
Proof. reflexivity. Qed.

Lemma blake2_processed_app p a :
  (length p mod BLOCK_SIZE = 0)%nat ->
  addDataImpl false 0 (processed p) a = processed (p ++ a).
Proof.
  intros Hp. unfold processed, addDataImpl.
  symmetry; apply process_blocks_app; [unfold BLOCK_SIZE; lia | exact Hp].
Qed.

Lemma blake2_held_split p r :
  (length p mod BLOCK_SIZE = 0)%nat -> (1 <= length r <= BLOCK_SIZE)%nat ->
  held (p ++ r) = length r.
Proof.
  unfold BLOCK_SIZE. intros Hp Hr. unfold held. rewrite length_app.
  destruct (length p + length r)%nat as [|n] eqn:E; [lia|].
  unfold BLOCK_SIZE.
  destruct (mod_0_multiple 128 (length p)) as [q Hq]; [lia | exact Hp |].
  assert (n = (length r - 1) + q * 128)%nat as -> by lia.
  rewrite Nat.Div0.mod_add, Nat.mod_small; lia.
Qed.

Lemma blake2_absorbed_intro p r :
  (length p mod BLOCK_SIZE = 0)%nat -> (1 <= length r <= BLOCK_SIZE)%nat ->
  absorbed (p ++ r) = Sink r (processed p).
Proof.
  intros Hp Hr. unfold absorbed, lastn. rewrite (blake2_held_split p r Hp Hr).
  rewrite length_app.
  replace (length p + length r - length r)%nat with (length p) by lia.
  rewrite skipn_app, firstn_app, Nat.sub_diag, skipn_all, firstn_all. simpl.
  now rewrite app_nil_r.
Qed.

Lemma blake2_absorbed_nil : absorbed [] = fresh.
Proof. reflexivity. Qed.

Lemma blake2_held_bounds msg : msg <> [] -> (1 <= held msg <= BLOCK_SIZE)%nat /\ (held msg <= length msg)%nat.
Proof.
  intros Hne. unfold held. destruct msg as [|x l]; [congruence|]. cbn [length].
  unfold BLOCK_SIZE.
  assert (length l mod 128 < 128)%nat by (apply Nat.mod_upper_bound; lia).
  pose proof (Nat.Div0.mod_le (length l) 128). lia.
Qed.

Lemma blake2_held_le msg : (held msg <= BLOCK_SIZE)%nat /\ (held msg <= length msg)%nat.
Proof.
  destruct msg as [|x l]; [split; [unfold held; cbn [length]; lia | reflexivity]|].
  destruct (blake2_held_bounds (x :: l)); [discriminate | lia].
Qed.

Lemma blake2_held_aligned msg : ((length msg - held msg) mod BLOCK_SIZE = 0)%nat.
Proof.
  unfold held, BLOCK_SIZE. destruct (length msg) as [|n]; [reflexivity|].
  replace (S n - S (n mod 128))%nat with (n / 128 * 128)%nat
    by (pose proof (Nat.div_mod_eq n 128); lia).
  apply multiple_mod_0.
Qed.

Lemma blake2_absorbed_elim msg :
  msg <> [] ->
  exists p r, msg = p ++ r /\ (length p mod BLOCK_SIZE = 0)%nat /\
              (1 <= length r <= BLOCK_SIZE)%nat /\ absorbed msg = Sink r (processed p).
Proof.
  intros Hne. destruct (blake2_held_bounds msg Hne) as [Hb Hle].
  exists (firstn (length msg - held msg) msg), (skipn (length msg - held msg) msg).
  repeat split.
  - now rewrite firstn_skipn.
  - rewrite length_firstn, Nat.min_l by lia. apply blake2_held_aligned.
  - rewrite length_skipn. lia.
  - rewrite length_skipn. lia.
Qed.

(** The bulk step keeps back the last one to [BLOCK_SIZE] bytes. *)
Lemma blake2_bulk_absorbed b p d :
  d <> [] -> (length p mod BLOCK_SIZE = 0)%nat ->
  bulk (Sink b (processed p)) d = absorbed (p ++ d).
Proof.
  intros Hne Hp. unfold bulk. cbn [m_core].
  set (remainder := if negb (length d mod BLOCK_SIZE =? 0)%nat
                    then (length d mod BLOCK_SIZE)%nat else BLOCK_SIZE).
  assert (Hlen : (0 < length d)%nat) by (destruct d; [congruence | simpl; lia]).
  assert (Hrem : (1 <= remainder <= BLOCK_SIZE)%nat /\ (remainder <= length d)%nat
                 /\ ((length d - remainder) mod BLOCK_SIZE = 0)%nat).
  { unfold remainder, BLOCK_SIZE in *.
    pose proof (Nat.div_mod_eq (length d) 128) as E.
    pose proof (Nat.mod_upper_bound (length d) 128).
    destruct (Nat.eqb_spec (length d mod 128) 0) as [H0|H0]; cbn [negb].
    - rewrite H0 in E. repeat split; try lia.
      replace (length d - 128)%nat with ((length d / 128 - 1) * 128)%nat by lia.
      apply multiple_mod_0.
    - repeat split; try lia.
      replace (length d - length d mod 128)%nat with (length d / 128 * 128)%nat by lia.
      apply multiple_mod_0. }
  destruct Hrem as (Hr1 & Hr2 & Hr3).
  rewrite blake2_processed_app by exact Hp.
  replace (p ++ d) with ((p ++ firstn (length d - remainder) d)
                           ++ skipn (length d - remainder) d)
    by now rewrite <- app_assoc, firstn_skipn.
  rewrite blake2_absorbed_intro; [reflexivity | | rewrite length_skipn; lia].
  rewrite length_app, length_firstn, Nat.min_l by lia.
  rewrite Nat.Div0.add_mod, Hp, Hr3. reflexivity.
Qed.

Lemma blake2_addData_rec_absorbed fuel :
  forall p r d,
    (length p mod BLOCK_SIZE = 0)%nat -> (length r <= BLOCK_SIZE)%nat ->
    (r = [] -> p = []) -> (length d < fuel)%nat ->
    addData_rec fuel (Sink r (processed p)) d = Some (absorbed ((p ++ r) ++ d)).
Proof.
  induction fuel as [|fuel IH]; intros p r d Hp Hr Hnil Hfuel; [lia|].
  cbn [addData_rec]. destruct d as [|x d'].
  - rewrite app_nil_r. f_equal.
    destruct r as [|y r'].
    + rewrite (Hnil eq_refl). reflexivity.
    + symmetry. apply blake2_absorbed_intro; [exact Hp | simpl in *; lia].
  - set (d := x :: d') in *. cbn [m_buffer m_core].
    destruct (Nat.eqb_spec (length r) BLOCK_SIZE) as [Hfull|Hnot].
    + f_equal. unfold clear. cbn [m_buffer m_core].
      rewrite blake2_processed_app by exact Hp.
      apply blake2_bulk_absorbed; [discriminate|].
      rewrite length_app, Nat.Div0.add_mod, Hp, Hfull. reflexivity.
    + destruct r as [|y r'].
      * rewrite (Hnil eq_refl). f_equal. simpl app.
        apply (blake2_bulk_absorbed [] [] d); [discriminate | reflexivity].
      * set (r := y :: r') in *.
        set (len := Nat.min (BLOCK_SIZE - length r) (length d)).
        assert (Hlen : (1 <= len)%nat) by (unfold len, d; simpl length in *; lia).
        assert (Hlen' : (len <= length d)%nat) by (unfold len; lia).
        rewrite (IH p (r ++ firstn len d) (skipn len d)); try assumption.
        -- rewrite <- !app_assoc. now rewrite firstn_skipn.
        -- rewrite length_app, length_firstn. unfold len. lia.
        -- intros E. apply app_eq_nil in E. destruct E as [E _]. discriminate.
        -- rewrite length_skipn. lia.
Qed.

(** The recursion of [addData] ends within the levels [addData] allows. *)
Lemma blake2_addData_rec_total st d :
  (length (m_buffer st) <= BLOCK_SIZE)%nat ->
  exists st', addData_rec (S (length d)) st d = Some st'.
Proof.
  assert (G : forall fuel st d,
             (length (m_buffer st) <= BLOCK_SIZE)%nat -> (length d < fuel)%nat ->
             exists st', addData_rec fuel st d = Some st').
  { induction fuel as [|fuel IH]; intros st0 d0 Hb Hf; [lia|].
    cbn [addData_rec]. destruct d0 as [|x d']; [eauto|].
    destruct (Nat.eqb_spec (length (m_buffer st0)) BLOCK_SIZE); [eauto|].
    destruct (m_buffer st0) as [|y b'] eqn:Eb; [eauto|].
    apply IH; cbn [m_buffer].
    - rewrite length_app, length_firstn. lia.
    - rewrite length_skipn. simpl length in *. lia. }
  intros Hb. apply G; [exact Hb | lia].
Qed.

Lemma blake2_addData_absorbed m d : addData (absorbed m) d = absorbed (m ++ d).
Proof.
  unfold addData.
  destruct m as [|x m'].
  - change (absorbed []) with (Sink [] (processed [])).
    rewrite (blake2_addData_rec_absorbed (S (length d)) [] [] d); auto.
    unfold BLOCK_SIZE; simpl; lia.
  - destruct (blake2_absorbed_elim (x :: m')) as (p & r & Hm & Hp & Hr & ->); [discriminate|].
    rewrite Hm.
    rewrite (blake2_addData_rec_absorbed (S (length d)) p r d); auto; try lia.
    intros ->. simpl in Hr. lia.
Qed.

Theorem blake2_feed_absorbed chunks : feed addData fresh chunks = absorbed (concat chunks).
Proof.
  unfold feed. rewrite <- blake2_absorbed_nil.
  change (concat chunks) with ([] ++ concat chunks).
  generalize (@nil Z) as m. induction chunks as [|c cs IH]; intros m; simpl.
  - now rewrite app_nil_r.
  - rewrite blake2_addData_absorbed, IH. now rewrite app_assoc.
Qed.

Theorem blake2_chunking chunks : feed addData fresh chunks = addData fresh (concat chunks).
Proof.
  rewrite blake2_feed_absorbed. rewrite <- blake2_absorbed_nil. symmetry.
  apply (blake2_addData_absorbed [] (concat chunks)).
Qed.

Lemma blake2_buffer_absorbed msg : length (m_buffer (absorbed msg)) = held msg.
Proof.
  unfold absorbed, lastn. cbn [m_buffer]. rewrite length_skipn.
  destruct msg as [|x l]; [reflexivity|].
  destruct (blake2_held_bounds (x :: l)); [discriminate|]. lia.
Qed.
End Blake2Facts.

(** ** Array sizes are kept by every operation *)

Lemma flat_map_length_const {A B} (f : A -> list B) k l :
  (forall x, length (f x) = k) -> length (flat_map f l) = (k * length l)%nat.
Proof.
  intros Hf. induction l as [|x l IH]; simpl; [lia|].
  rewrite length_app, Hf, IH. lia.
Qed.

Lemma bytes_le_length n w : length (bytes_le n w) = n.
Proof. unfold bytes_le. now rewrite length_map, length_seq. Qed.

Lemma bytes_be_length n w : length (bytes_be n w) = n.
Proof. unfold bytes_be. now rewrite length_map, length_rev, length_seq. Qed.

Lemma process_blocks_preserves {H} (P : H -> Prop) B (f : H -> list Z -> H) :
  (forall h blk, P h -> P (f h blk)) ->
  forall h data, P h -> P (process_blocks B f h data).
Proof.
  intros Hf h data Hh. unfold process_blocks.
  apply fold_left_preserves; auto.
Qed.

Lemma addData_core_preserves {C} (P : C -> Prop) B (impl : C -> list Z -> C) :
  (forall c d, P c -> P (impl c d)) ->
  forall st d, P (m_core st) -> P (m_core (Accumulator.addData B impl st d)).
Proof.
  intros Himpl st d Hst.
  assert (Hbulk : forall st d, P (m_core st) -> P (m_core (Accumulator.bulk B impl st d))).
  { intros st0 d0 H0. unfold Accumulator.bulk.
    destruct (_ <? _)%nat; [exact H0|]. cbn [m_core].
    destruct (_ <? _)%nat; cbn [m_core]; auto. }
  unfold Accumulator.addData. destruct (m_buffer st); [auto|].
  cbn [m_buffer m_core]. destruct (_ <? _)%nat; [exact Hst|].
  apply Hbulk. cbn [m_core clear]. auto.
Qed.

(** Every instance a user can obtain satisfies what the fresh instance
    satisfies and the three mutators keep. *)
Lemma reachable_ind_inv {T} (P : T -> Prop) fresh addData finalize reset :
  P fresh -> (forall st d, P st -> P (addData st d)) ->
  (forall st, P st -> P (finalize st)) -> (forall st, P st -> P (reset st)) ->
  forall st, reachable fresh addData finalize reset st -> P st.
Proof.
  intros Hf Ha Hfin Hr st H. induction H; auto.
Qed.

Module MD5Sizes.
Import MD5.

Lemma md5_impl_sized c d :
  length (m_state c) = 4%nat -> length (m_state (addDataImpl c d)) = 4%nat.
Proof.
  intros H. unfold addDataImpl. cbn [m_state].
  apply (process_blocks_preserves (fun h => length h = 4%nat)); auto.
Qed.

Lemma md5_reachable_sized st : reachable fresh addData finalize reset st -> sized st.
Proof.
  apply reachable_ind_inv; unfold sized.
  - reflexivity.
  - intros st0 d H.
    apply (addData_core_preserves (fun c => length (m_state c) = 4%nat)); auto using md5_impl_sized.
  - intros st0 H. unfold finalize. cbn [clear m_core m_buffer]. now apply md5_impl_sized.
  - reflexivity.
Qed.

Lemma md5_toVector_length st : sized st -> length (toVector st) = 16%nat.
Proof.
  unfold sized, toVector. intros H.
  rewrite (flat_map_length_const _ 4) by apply bytes_le_length. lia.
Qed.
End MD5Sizes.

Module HAS_160Sizes.
Import HAS_160.

Lemma has160_impl_sized c d :
  length (m_h c) = 5%nat -> length (m_h (addDataImpl c d)) = 5%nat.
Proof.
  intros H. unfold addDataImpl. cbn [m_h].
  apply (process_blocks_preserves (fun h => length h = 5%nat)); auto.
Qed.

Lemma has160_reachable_sized st : reachable fresh addData finalize reset st -> sized st.
Proof.
  apply reachable_ind_inv; unfold sized.
  - reflexivity.
  - intros st0 d H.
    apply (addData_core_preserves (fun c => length (m_h c) = 5%nat)); auto using has160_impl_sized.
  - intros st0 H. unfold finalize. cbn [clear m_core m_buffer]. now apply has160_impl_sized.
  - reflexivity.
Qed.

Lemma has160_toVector_length st : sized st -> length (toVector st) = 20%nat.
Proof.
  unfold sized, toVector. intros H.
  rewrite (flat_map_length_const _ 4) by apply bytes_le_length. lia.
Qed.
End HAS_160Sizes.

Module RIPEMD_160Sizes.
Import RIPEMD_160.

Lemma rmd160_impl_sized c d :
  length (m_h c) = 5%nat -> length (m_h (addDataImpl c d)) = 5%nat.
Proof.
  intros H. unfold addDataImpl. cbn [m_h].
  apply (process_blocks_preserves (fun h => length h = 5%nat)); auto.
Qed.

Lemma rmd160_reachable_sized st : reachable fresh addData finalize reset st -> sized st.
Proof.
  apply reachable_ind_inv; unfold sized.
  - reflexivity.
  - intros st0 d H.
    apply (addData_core_preserves (fun c => length (m_h c) = 5%nat)); auto using rmd160_impl_sized.
  - intros st0 H. unfold finalize. cbn [clear m_core m_buffer]. now apply rmd160_impl_sized.
  - reflexivity.
Qed.

Lemma rmd160_toVector_length st : sized st -> length (toVector st) = 20%nat.
Proof.
  unfold sized, toVector. intros H.
  rewrite (flat_map_length_const _ 4) by apply bytes_le_length. lia.
Qed.
End RIPEMD_160Sizes.

Module Blake1_224Sizes.
Import Blake1_224.

Lemma blake1_impl_sized pl c d :
  length (m_h c) = 8%nat -> length (m_h (addDataImpl pl c d)) = 8%nat.
Proof.
  intros H. unfold addDataImpl.
  apply (process_blocks_preserves (fun c => length (m_h c) = 8%nat)); auto.
Qed.

Lemma blake1_reachable_sized st : reachable fresh addData finalize reset st -> sized st.
Proof.
  apply reachable_ind_inv; unfold sized.
  - reflexivity.
  - intros st0 d H.
    apply (addData_core_preserves (fun c => length (m_h c) = 8%nat)); auto using blake1_impl_sized.
  - intros st0 H. unfold finalize, pad. cbn [clear m_core m_buffer]. now apply blake1_impl_sized.
  - reflexivity.
Qed.

Lemma blake1_toVector_length st : sized st -> length (toVector st) = 28%nat.
Proof.
  unfold sized, toVector. intros H.
  rewrite (flat_map_length_const _ 4) by apply bytes_be_length.
  destruct (m_h (m_core st)) as [|h0 [|h1 [|h2 [|h3 [|h4 [|h5 [|h6 [|h7 [|]]]]]]]]];
    try discriminate. reflexivity.
Qed.
End Blake1_224Sizes.

Module WhirlpoolSizes.
Import Whirlpool.

Lemma whirlpool_compress_sized h blk : length (compress h blk) = 8%nat.
Proof.
  unfold compress. destruct (fold_left _ _ _). now rewrite length_map, length_seq.
Qed.

Lemma whirlpool_impl_sized c d :
  length (m_h c) = 8%nat -> length (m_h (addDataImpl c d)) = 8%nat.
Proof.
  intros H. unfold addDataImpl. cbn [m_h].
  apply (process_blocks_preserves (fun h => length h = 8%nat)); auto using whirlpool_compress_sized.
Qed.

Lemma whirlpool_reachable_sized st : reachable fresh addData finalize reset st -> sized st.
Proof.
  apply reachable_ind_inv; unfold sized.
  - reflexivity.
  - intros st0 d H.
    apply (addData_core_preserves (fun c => length (m_h c) = 8%nat)); auto using whirlpool_impl_sized.
  - intros st0 H. unfold finalize. cbn [clear m_core m_buffer]. now apply whirlpool_impl_sized.
  - reflexivity.
Qed.

Lemma whirlpool_toVector_length st : sized st -> length (toVector st) = 64%nat.
Proof.
  unfold sized, toVector, toArray. intros H.
  rewrite (flat_map_length_const _ 8) by apply bytes_be_length. lia.
Qed.
End WhirlpoolSizes.

Module Blake2Sizes.
Import Blake2.

Lemma blake2_impl_sized f pl c d :
  length (m_h c) = 8%nat -> length (m_h (addDataImpl f pl c d)) = 8%nat.
Proof.
  intros H. unfold addDataImpl.
  apply (process_blocks_preserves (fun c => length (m_h c) = 8%nat)); auto.
Qed.

Lemma blake2_addData_rec_sized fuel :
  forall st d st', sized st -> addData_rec fuel st d = Some st' -> sized st'.
Proof.
  unfold sized. induction fuel as [|fuel IH]; intros st d st' Hst E; [discriminate|].
  cbn [addData_rec] in E. destruct d as [|x d']; [now inversion E; subst|].
  destruct (_ =? _)%nat.
  - inversion E; subst. unfold bulk. cbn [m_core clear]. auto using blake2_impl_sized.
  - destruct (m_buffer st) as [|y b'].
    + inversion E; subst. unfold bulk. cbn [m_core]. auto using blake2_impl_sized.
    + apply IH in E; auto.
Qed.

Lemma blake2_reachable_sized st : reachable fresh addData finalize reset st -> sized st.
Proof.
  apply reachable_ind_inv.
  - reflexivity.
  - intros st0 d H. unfold addData.
    destruct (addData_rec _ _ _) as [st'|] eqn:E; [|exact H].
    eapply blake2_addData_rec_sized; eauto.
  - intros st0 H. unfold sized, finalize, pad. cbn [clear m_core m_buffer].
    now apply blake2_impl_sized.
  - reflexivity.
Qed.

Lemma blake2_toVector_length st : sized st -> length (toVector st) = 64%nat.
Proof.
  unfold sized, toVector. intros H.
  rewrite (flat_map_length_const _ 8) by apply bytes_le_length. lia.
Qed.
End Blake2Sizes.

Module MD2Sizes.
Import MD2.

Lemma md2_checksum_steps_length m l cs :
  length (fst (fold_left (checksum_step m) l cs)) = length (fst cs).
Proof.
  revert cs; induction l as [|j l IH]; intros [cs L]; [reflexivity|]. cbn [fold_left].
  rewrite IH. unfold checksum_step. cbn [fst]. apply upd_length.
Qed.

Lemma md2_load_steps_length m l x : length (fold_left (load_step m) l x) = length x.
Proof.
  revert x; induction l as [|j l IH]; intros x; [reflexivity|]. cbn [fold_left].
  rewrite IH. unfold load_step. now rewrite !upd_length.
Qed.

Lemma md2_subst_steps_length l xt :
  length (fst (fold_left subst_step l xt)) = length (fst xt).
Proof.
  revert xt; induction l as [|j l IH]; intros [x tt]; [reflexivity|]. cbn [fold_left].
  rewrite IH. unfold subst_step. cbn [fst]. apply upd_length.
Qed.

Lemma md2_round_step_length xt j : length (fst (round_step xt j)) = length (fst xt).
Proof.
  unfold round_step. generalize (seq 0 48) as l. intros l.
  pose proof (md2_subst_steps_length l xt) as H.
  destruct (fold_left subst_step l xt). exact H.
Qed.

Lemma md2_round_steps_length l xt :
  length (fst (fold_left round_step l xt)) = length (fst xt).
Proof.
  revert xt; induction l as [|j l IH]; intros xt; [reflexivity|]. cbn [fold_left].
  now rewrite IH, md2_round_step_length.
Qed.

(** [compress] through projections instead of destructuring lets. *)
Lemma md2_compress_eq s m :
  compress s m =
  Members (fst (fold_left round_step (seq 0 18)
                          (fold_left (load_step m) (seq 0 16) (m_x s), 0)))
          (fst (fold_left (checksum_step m) (seq 0 16) (m_checksum s, m_checksumL s)))
          (snd (fold_left (checksum_step m) (seq 0 16) (m_checksum s, m_checksumL s))).
Proof.
  unfold compress.
  generalize (seq 0 18) as l18. generalize (seq 0 16) as l16. intros l16 l18.
  destruct (fold_left (checksum_step m) l16 _) as [cs L].
  destruct (fold_left round_step l18 _) as [x tt]. reflexivity.
Qed.

Lemma md2_compress_sized c m : sized_members c -> sized_members (compress c m).
Proof.
  intros [Hx Hc]. rewrite md2_compress_eq. split; cbn [m_x m_checksum].
  - rewrite md2_round_steps_length. cbn [fst]. now rewrite md2_load_steps_length.
  - now rewrite md2_checksum_steps_length.
Qed.

Lemma md2_impl_sized c d : sized_members c -> sized_members (addDataImpl c d).
Proof.
  intros H. unfold addDataImpl.
  apply (process_blocks_preserves sized_members); auto using md2_compress_sized.
Qed.

Lemma md2_reachable_sized st : reachable fresh addData finalize reset st -> sized st.
Proof.
  apply reachable_ind_inv; unfold sized.
  - split; reflexivity.
  - intros st0 d H.
    apply (addData_core_preserves sized_members); auto using md2_impl_sized.
  - intros st0 H. unfold finalize, pad. cbn [clear m_core m_buffer].
    auto using md2_impl_sized.
  - split; reflexivity.
Qed.

Lemma md2_toVector_length st : sized st -> length (toVector st) = 16%nat.
Proof.
  unfold sized, toVector. intros [H _]. rewrite length_firstn, H. reflexivity.
Qed.
End MD2Sizes.

(** ** The accumulator stays below one block (at one block for BLAKE2b) *)

Lemma reachable_buffer_bound {C} B (impl : C -> list Z -> C) fresh finalize reset :
  (0 < B)%nat -> m_buffer fresh = [] ->
  (forall st, m_buffer (finalize st) = []) -> (forall st, m_buffer (reset st) = []) ->
  forall st, reachable fresh (Accumulator.addData B impl) finalize reset st ->
             (length (m_buffer st) < B)%nat.
Proof.
  intros HB Hf Hfin Hr. apply reachable_ind_inv.
  - now rewrite Hf.
  - intros st d H. now apply AccumulatorFacts.acc_buffer_bound.
  - intros st _. now rewrite Hfin.
  - intros st _. now rewrite Hr.
Qed.

Lemma blake2_addData_rec_bound fuel :
  forall st d st',
    (length (m_buffer st) <= Blake2.BLOCK_SIZE)%nat ->
    Blake2.addData_rec fuel st d = Some st' ->
    (length (m_buffer st') <= Blake2.BLOCK_SIZE)%nat.
Proof.
  induction fuel as [|fuel IH]; intros st d st' Hst E; [discriminate|].
  cbn [Blake2.addData_rec] in E. destruct d as [|x d']; [now inversion E; subst|].
  assert (Hbulk : forall s0 d0,
             (length (m_buffer (Blake2.bulk s0 (x :: d0))) <= Blake2.BLOCK_SIZE)%nat).
  { intros s0 d0. unfold Blake2.bulk. cbn [m_buffer]. rewrite length_skipn.
    unfold Blake2.BLOCK_SIZE.
    assert (length (x :: d0) mod 128 < 128)%nat by (apply Nat.mod_upper_bound; lia).
    destruct (length (x :: d0) mod 128 =? 0)%nat; cbn [negb]; lia. }
  destruct (_ =? _)%nat.
  - inversion E; subst. apply Hbulk.
  - destruct (m_buffer st) as [|y b'] eqn:Eb.
    + inversion E; subst. apply Hbulk.
    + apply IH in E; [exact E|]. cbn [m_buffer].
      rewrite length_app, length_firstn. lia.
Qed.

Theorem buffer_below_block_size :
  (forall st, reachable MD5.fresh MD5.addData MD5.finalize MD5.reset st ->
              (length (m_buffer st) < MD5.BLOCK_SIZE)%nat)
  /\ (forall st, reachable MD2.fresh MD2.addData MD2.finalize MD2.reset st ->
                 (length (m_buffer st) < MD2.BLOCK_SIZE)%nat)
  /\ (forall st, reachable HAS_160.fresh HAS_160.addData HAS_160.finalize HAS_160.reset st ->
                 (length (m_buffer st) < HAS_160.BLOCK_SIZE)%nat)
  /\ (forall st, reachable RIPEMD_160.fresh RIPEMD_160.addData RIPEMD_160.finalize
                           RIPEMD_160.reset st ->
                 (length (m_buffer st) < RIPEMD_160.BLOCK_SIZE)%nat)
  /\ (forall st, reachable Blake1_224.fresh Blake1_224.addData Blake1_224.finalize
                           Blake1_224.reset st ->
                 (length (m_buffer st) < Blake1_224.BLOCK_SIZE)%nat)
  /\ (forall st, reachable Whirlpool.fresh Whirlpool.addData Whirlpool.finalize
                           Whirlpool.reset st ->
                 (length (m_buffer st) < Whirlpool.BLOCK_SIZE)%nat)
  /\ (forall st, reachable Blake2.fresh Blake2.addData Blake2.finalize Blake2.reset st ->
                 (length (m_buffer st) <= Blake2.BLOCK_SIZE)%nat).
Proof.
  repeat match goal with |- _ /\ _ => split end.
  1-6: apply reachable_buffer_bound; try reflexivity; vm_compute; lia.
  apply reachable_ind_inv.
  - vm_compute. lia.
  - intros st d H. unfold Blake2.addData.
    destruct (Blake2.addData_rec _ _ _) as [st'|] eqn:E; [|exact H].
    eapply blake2_addData_rec_bound; eauto.
  - intros st _. cbn. lia.
  - intros st _. cbn. lia.
Qed.

(** ** The length field written by [finalize] *)

Lemma upd_tail {A} (pre l : list A) i v k :
  i = (length pre + k)%nat -> upd i v (pre ++ l) = pre ++ upd k v l.
Proof. intros ->. apply upd_app_r. Qed.

Lemma lastn_app {A} (p t : list A) k : length t = k -> lastn k (p ++ t) = t.
Proof.
  intros <-. unfold lastn. rewrite length_app.
  replace (length p + length t - length t)%nat with (length p) by lia.
  rewrite skipn_app, Nat.sub_diag, skipn_all. reflexivity.
Qed.

(** A loop that writes into the last [n] bytes of a buffer leaves the
    bytes before them alone. *)
Lemma fold_tail (n : nat) (step step' : list Z -> nat -> list Z) (pre : list Z) idx :
  (forall l i, length l = n ->
               step (pre ++ l) i = pre ++ step' l i /\ length (step' l i) = n) ->
  forall l, length l = n ->
            fold_left step idx (pre ++ l) = pre ++ fold_left step' idx l.
Proof.
  intros Hstep. induction idx as [|i idx IH]; intros l Hl; [reflexivity|].
  cbn [fold_left]. destruct (Hstep l i Hl) as [-> Hn]. now apply IH.
Qed.

Lemma write_pair (a : nat) (x y : Z) (pre l : list Z) (i : nat) :
  length l = (2 * a)%nat ->
  (let buffer := upd (length (pre ++ l) - 2 * a + i) x (pre ++ l) in
   upd (length buffer - a + i) y buffer)
  = pre ++ upd (a + i) y (upd i x l)
  /\ length (upd (a + i) y (upd i x l)) = (2 * a)%nat.
Proof.
  intros Hl. cbv zeta. rewrite !upd_length, length_app, Hl. split; [|reflexivity].
  rewrite (upd_tail pre l _ x i) by lia.
  rewrite (upd_tail pre _ _ y (a + i)) by lia. reflexivity.
Qed.

(** The loop of md5.h:155-159 (and of has_160.h, ripemd_160.h): low word
    then high word, each least significant byte first. *)
Lemma length_field_le (buf0 : list Z) (padlen : nat) (L H : Z) :
  fold_left (fun buffer i =>
               let buffer := upd (length buffer - 8 + i) (ror 8 L (8 * Z.of_nat i)) buffer in
               upd (length buffer - 4 + i) (ror 8 H (8 * Z.of_nat i)) buffer)
            (seq 0 4) (buf0 ++ repeat 0 (padlen + 8))
  = (buf0 ++ repeat 0 padlen) ++ bytes_le 4 L ++ bytes_le 4 H.
Proof.
  rewrite repeat_app, app_assoc.
  rewrite (fold_tail 8 _ (fun l i => upd (4 + i) (ror 8 H (8 * Z.of_nat i))
                                         (upd i (ror 8 L (8 * Z.of_nat i)) l)));
    [reflexivity | | reflexivity].
  intros l i Hl. apply (write_pair 4 _ _ _ l i Hl).
Qed.

(** The loop of blake1_224.h:152-156: high word then low word, each most
    significant byte first. *)
Lemma length_field_be (buf0 : list Z) (padlen : nat) (L H : Z) :
  fold_left (fun buffer i =>
               let buffer := upd (length buffer - 8 + i)
                                 (ror 8 H (8 * (3 - Z.of_nat i))) buffer in
               upd (length buffer - 4 + i) (ror 8 L (8 * (3 - Z.of_nat i))) buffer)
            (seq 0 4) (buf0 ++ repeat 0 (padlen + 8))
  = (buf0 ++ repeat 0 padlen) ++ bytes_be 4 H ++ bytes_be 4 L.
Proof.
  rewrite repeat_app, app_assoc.
  rewrite (fold_tail 8 _ (fun l i => upd (4 + i) (ror 8 L (8 * (3 - Z.of_nat i)))
                                         (upd i (ror 8 H (8 * (3 - Z.of_nat i))) l)));
    [reflexivity | | reflexivity].
  intros l i Hl. apply (write_pair 4 _ _ _ l i Hl).
Qed.

(** The loop of whirlpool.h:334-338: sixteen bytes, high word then low
    word, each most significant byte first. *)
Lemma length_field_be128 (buf0 : list Z) (padlen : nat) (L H : Z) :
  fold_left (fun buffer i =>
               let buffer := upd (length buffer - 16 + i)
                                 (ror 8 H (8 * (7 - Z.of_nat i))) buffer in
               upd (length buffer - 8 + i) (ror 8 L (8 * (7 - Z.of_nat i))) buffer)
            (seq 0 8) (buf0 ++ repeat 0 (padlen + 32))
  = (buf0 ++ repeat 0 (padlen + 16)) ++ bytes_be 8 H ++ bytes_be 8 L.
Proof.
  replace (padlen + 32)%nat with ((padlen + 16) + 16)%nat by lia.
  rewrite repeat_app, app_assoc.
  rewrite (fold_tail 16 _ (fun l i => upd (8 + i) (ror 8 L (8 * (7 - Z.of_nat i)))
                                          (upd i (ror 8 H (8 * (7 - Z.of_nat i))) l)));
    [reflexivity | | reflexivity].
  intros l i Hl. apply (write_pair 8 _ _ _ l i Hl).
Qed.

Lemma split_words bits :
  0 <= bits < 2 ^ 64 ->
  ror 32 bits 0 mod 256 ^ 4 + 256 ^ 4 * (ror 32 bits 32 mod 256 ^ 4) = bits.
Proof.
  intros Hb. rewrite !ror_spec by lia.
  change (2 ^ 0) with 1. rewrite Z.div_1_r.
  change (256 ^ 4) with 4294967296. change (2 ^ 32) with 4294967296.
  change (2 ^ 64) with 18446744073709551616 in Hb.
  Z.to_euclidean_division_equations; lia.
Qed.

Lemma le_field_value bits :
  0 <= bits < 2 ^ 64 ->
  le_value (bytes_le 4 (ror 32 bits 0) ++ bytes_le 4 (ror 32 bits 32)) = bits.
Proof.
  intros Hb. rewrite le_value_app, !le_value_bytes_le, bytes_le_length.
  now apply split_words.
Qed.

Lemma be_field_value bits :
  0 <= bits < 2 ^ 64 ->
  be_value (bytes_be 4 (ror 32 bits 32) ++ bytes_be 4 (ror 32 bits 0)) = bits.
Proof.
  intros Hb. rewrite be_value_app, !be_value_bytes_be, bytes_be_length.
  pose proof (split_words bits Hb). lia.
Qed.

Lemma be128_field_value hi lo :
  0 <= lo < 2 ^ 64 -> 0 <= hi < 2 ^ 64 ->
  be_value (bytes_be 8 hi ++ bytes_be 8 lo) = hi * 2 ^ 64 + lo.
Proof.
  intros Hlo Hhi. rewrite be_value_app, !be_value_bytes_be, bytes_be_length.
  change (256 ^ Z.of_nat 8) with (2 ^ 64). rewrite !Z.mod_small by assumption.
  reflexivity.
Qed.

(** ** What [finalize] appends *)

Lemma process_blocks_one {H} B (f : H -> list Z -> H) h data :
  (0 < B)%nat -> length data = B -> process_blocks B f h data = f h data.
Proof.
  intros HB Hl. unfold process_blocks. rewrite Hl, Nat.div_same by lia.
  cbn [seq fold_left]. unfold block. cbn [Nat.mul skipn].
  now rewrite <- Hl, firstn_all.
Qed.

Module MD5Pad.
Import MD5.

(** The padded buffer that [finalize] hands to [addDataImpl]. *)
Lemma md5_pad_buffer st :
  let sizeCounter := wrap 64 (m_sizeCounter (m_core st) + Z.of_nat (length (m_buffer st))) in
  let bits := wrap 64 (sizeCounter * 8) in
  let len := (BLOCK_SIZE - ((length (m_buffer st ++ [Z.shiftl 1 7]) + 8) mod BLOCK_SIZE))%nat in
  m_buffer (pad st)
  = ((m_buffer st ++ [Z.shiftl 1 7]) ++ repeat 0 len)
      ++ bytes_le 4 (ror 32 bits 0) ++ bytes_le 4 (ror 32 bits 32).
Proof.
  cbv zeta. unfold pad. cbn [m_buffer]. apply length_field_le.
Qed.

Lemma md5_pad_field st :
  le_value (lastn 8 (m_buffer (pad st)))
  = wrap 64 (wrap 64 (m_sizeCounter (m_core st) + Z.of_nat (length (m_buffer st))) * 8).
Proof.
  pose proof (md5_pad_buffer st) as E. cbv zeta in E. rewrite E.
  rewrite lastn_app by (now rewrite length_app, !bytes_le_length).
  apply le_field_value. apply wrap_range. lia.
Qed.

Lemma md5_pad_aligned st : (length (m_buffer (pad st)) mod BLOCK_SIZE = 0)%nat.
Proof.
  pose proof (md5_pad_buffer st) as E. cbv zeta in E. rewrite E.
  rewrite !length_app, !bytes_le_length, repeat_length. cbn [length].
  unfold BLOCK_SIZE. generalize (length (m_buffer st)) as n. intros n.
  pose proof (Nat.div_mod_eq (n + 1 + 8) 64).
  assert ((n + 1 + 8) mod 64 < 64)%nat by (apply Nat.mod_upper_bound; lia).
  replace (n + 1 + (64 - (n + 1 + 8) mod 64) + (4 + 4))%nat
    with (((n + 1 + 8) / 64 + 1) * 64)%nat by lia.
  apply multiple_mod_0.
Qed.

Lemma md5_counter_processed p : m_sizeCounter (processed p) = wrap 64 (Z.of_nat (length p)).
Proof. reflexivity. Qed.

Lemma md5_absorbed_field msg :
  le_value (lastn 8 (m_buffer (pad (absorbed msg))))
  = (8 * Z.of_nat (length msg)) mod 2 ^ 64.
Proof.
  rewrite md5_pad_field. unfold absorbed, Accumulator.absorbed. cbn [m_core m_buffer].
  rewrite md5_counter_processed, wrap_add_l, <- Nat2Z.inj_add, <- length_app, firstn_skipn.
  unfold wrap. rewrite Zmult_mod_idemp_l. f_equal. lia.
Qed.
End MD5Pad.

Module HAS_160Pad.
Import HAS_160.

(** The padded buffer that [finalize] hands to [addDataImpl]. *)
Lemma has160_pad_buffer st :
  let sizeCounter := wrap 64 (m_sizeCounter (m_core st) + Z.of_nat (length (m_buffer st))) in
  let bits := wrap 64 (sizeCounter * 8) in
  let len := (BLOCK_SIZE - ((length (m_buffer st ++ [Z.shiftl 1 7]) + 8) mod BLOCK_SIZE))%nat in
  m_buffer (pad st)
  = ((m_buffer st ++ [Z.shiftl 1 7]) ++ repeat 0 len)
      ++ bytes_le 4 (ror 32 bits 0) ++ bytes_le 4 (ror 32 bits 32).
Proof.
  cbv zeta. unfold pad. cbn [m_buffer]. apply length_field_le.
Qed.

Lemma has160_pad_field st :
  le_value (lastn 8 (m_buffer (pad st)))
  = wrap 64 (wrap 64 (m_sizeCounter (m_core st) + Z.of_nat (length (m_buffer st))) * 8).
Proof.
  pose proof (has160_pad_buffer st) as E. cbv zeta in E. rewrite E.
  rewrite lastn_app by (now rewrite length_app, !bytes_le_length).
  apply le_field_value. apply wrap_range. lia.
Qed.

Lemma has160_pad_aligned st : (length (m_buffer (pad st)) mod BLOCK_SIZE = 0)%nat.
Proof.
  pose proof (has160_pad_buffer st) as E. cbv zeta in E. rewrite E.
  rewrite !length_app, !bytes_le_length, repeat_length. cbn [length].
  unfold BLOCK_SIZE. generalize (length (m_buffer st)) as n. intros n.
  pose proof (Nat.div_mod_eq (n + 1 + 8) 64).
  assert ((n + 1 + 8) mod 64 < 64)%nat by (apply Nat.mod_upper_bound; lia).
  replace (n + 1 + (64 - (n + 1 + 8) mod 64) + (4 + 4))%nat
    with (((n + 1 + 8) / 64 + 1) * 64)%nat by lia.
  apply multiple_mod_0.
Qed.

Lemma has160_counter_processed p : m_sizeCounter (processed p) = wrap 64 (Z.of_nat (length p)).
Proof. reflexivity. Qed.

Lemma has160_absorbed_field msg :
  le_value (lastn 8 (m_buffer (pad (absorbed msg))))
  = (8 * Z.of_nat (length msg)) mod 2 ^ 64.
Proof.
  rewrite has160_pad_field. unfold absorbed, Accumulator.absorbed. cbn [m_core m_buffer].
  rewrite has160_counter_processed, wrap_add_l, <- Nat2Z.inj_add, <- length_app, firstn_skipn.
  unfold wrap. rewrite Zmult_mod_idemp_l. f_equal. lia.
Qed.
End HAS_160Pad.

Module RIPEMD_160Pad.
Import RIPEMD_160.

(** The padded buffer that [finalize] hands to [addDataImpl]. *)
Lemma rmd160_pad_buffer st :
  let sizeCounter := wrap 64 (m_sizeCounter (m_core st) + Z.of_nat (length (m_buffer st))) in
  let bits := wrap 64 (sizeCounter * 8) in
  let len := (BLOCK_SIZE - ((length (m_buffer st ++ [Z.shiftl 1 7]) + 8) mod BLOCK_SIZE))%nat in
  m_buffer (pad st)
  = ((m_buffer st ++ [Z.shiftl 1 7]) ++ repeat 0 len)
      ++ bytes_le 4 (ror 32 bits 0) ++ bytes_le 4 (ror 32 bits 32).
Proof.
  cbv zeta. unfold pad. cbn [m_buffer]. apply length_field_le.
Qed.

Lemma rmd160_pad_field st :
  le_value (lastn 8 (m_buffer (pad st)))
  = wrap 64 (wrap 64 (m_sizeCounter (m_core st) + Z.of_nat (length (m_buffer st))) * 8).
Proof.
  pose proof (rmd160_pad_buffer st) as E. cbv zeta in E. rewrite E.
  rewrite lastn_app by (now rewrite length_app, !bytes_le_length).
  apply le_field_value. apply wrap_range. lia.
Qed.

Lemma rmd160_pad_aligned st : (length (m_buffer (pad st)) mod BLOCK_SIZE = 0)%nat.
Proof.
  pose proof (rmd160_pad_buffer st) as E. cbv zeta in E. rewrite E.
  rewrite !length_app, !bytes_le_length, repeat_length. cbn [length].
  unfold BLOCK_SIZE. generalize (length (m_buffer st)) as n. intros n.
  pose proof (Nat.div_mod_eq (n + 1 + 8) 64).
  assert ((n + 1 + 8) mod 64 < 64)%nat by (apply Nat.mod_upper_bound; lia).
  replace (n + 1 + (64 - (n + 1 + 8) mod 64) + (4 + 4))%nat
    with (((n + 1 + 8) / 64 + 1) * 64)%nat by lia.
  apply multiple_mod_0.
Qed.

Lemma rmd160_counter_processed p : m_sizeCounter (processed p) = wrap 64 (Z.of_nat (length p)).
Proof. reflexivity. Qed.

Lemma rmd160_absorbed_field msg :
  le_value (lastn 8 (m_buffer (pad (absorbed msg))))
  = (8 * Z.of_nat (length msg)) mod 2 ^ 64.
Proof.
  rewrite rmd160_pad_field. unfold absorbed, Accumulator.absorbed. cbn [m_core m_buffer].
  rewrite rmd160_counter_processed, wrap_add_l, <- Nat2Z.inj_add, <- length_app, firstn_skipn.
  unfold wrap. rewrite Zmult_mod_idemp_l. f_equal. lia.
Qed.
End RIPEMD_160Pad.

Module Blake1_224Pad.
Import Blake1_224.

Lemma blake1_pad_buffer st :
  let bits := wrap 64 (m_sizeCounter (m_core st)
                       + wrap 64 (Z.of_nat (length (m_buffer st)) * 8)) in
  let len := (BLOCK_SIZE - ((length (m_buffer st ++ [Z.shiftl 1 7]) + 8) mod BLOCK_SIZE))%nat in
  m_buffer (fst (pad st))
  = ((m_buffer st ++ [Z.shiftl 1 7]) ++ repeat 0 len)
      ++ bytes_be 4 (ror 32 bits 32) ++ bytes_be 4 (ror 32 bits 0).
Proof.
  cbv zeta. unfold pad. cbn [m_buffer fst]. apply length_field_be.
Qed.

Lemma blake1_pad_field st :
  be_value (lastn 8 (m_buffer (fst (pad st))))
  = wrap 64 (m_sizeCounter (m_core st) + wrap 64 (Z.of_nat (length (m_buffer st)) * 8)).
Proof.
  pose proof (blake1_pad_buffer st) as E. cbv zeta in E. rewrite E.
  rewrite lastn_app by (now rewrite length_app, !bytes_be_length).
  apply be_field_value. apply wrap_range. lia.
Qed.

Lemma blake1_pad_aligned st : (length (m_buffer (fst (pad st))) mod BLOCK_SIZE = 0)%nat.
Proof.
  pose proof (blake1_pad_buffer st) as E. cbv zeta in E. rewrite E.
  rewrite !length_app, !bytes_be_length, repeat_length. cbn [length].
  unfold BLOCK_SIZE. generalize (length (m_buffer st)) as n. intros n.
  pose proof (Nat.div_mod_eq (n + 1 + 8) 64).
  assert ((n + 1 + 8) mod 64 < 64)%nat by (apply Nat.mod_upper_bound; lia).
  replace (n + 1 + (64 - (n + 1 + 8) mod 64) + (4 + 4))%nat
    with (((n + 1 + 8) / 64 + 1) * 64)%nat by lia.
  apply multiple_mod_0.
Qed.

(** Every block processed by [addData] adds 512 to the bit counter. *)
Lemma blake1_counter_blocks (g : nat -> list Z) l :
  forall s, 0 <= m_sizeCounter s < 2 ^ 64 ->
    m_sizeCounter (fold_left (fun h i => compress 0 h (g i)) l s)
    = wrap 64 (m_sizeCounter s + 512 * Z.of_nat (length l)).
Proof.
  induction l as [|i l IH]; intros s Hs.
  - cbn [fold_left length]. rewrite Z.mul_0_r, Z.add_0_r. symmetry. now apply wrap_small.
  - cbn [fold_left]. rewrite IH.
    + unfold compress at 1. cbn [m_sizeCounter].
      change (wrap 32 ((Z.of_nat BLOCK_SIZE - 0) * 8)) with 512.
      rewrite wrap_add_l. f_equal. cbn [length]. lia.
    + unfold compress. cbn [m_sizeCounter]. apply wrap_range. lia.
Qed.

Lemma blake1_counter_processed p :
  m_sizeCounter (processed p) = wrap 64 (512 * Z.of_nat (length p / 64)).
Proof.
  unfold processed, addDataImpl, process_blocks.
  rewrite (blake1_counter_blocks (fun i => block BLOCK_SIZE i p)) by (vm_compute; split; congruence).
  rewrite length_seq. reflexivity.
Qed.

Lemma blake1_absorbed_field msg :
  be_value (lastn 8 (m_buffer (fst (pad (absorbed msg)))))
  = (8 * Z.of_nat (length msg)) mod 2 ^ 64.
Proof.
  rewrite blake1_pad_field. unfold absorbed, Accumulator.absorbed. cbn [m_core m_buffer].
  rewrite blake1_counter_processed, wrap_add_l, wrap_add_r.
  rewrite length_firstn, length_skipn. unfold Accumulator.whole, BLOCK_SIZE.
  pose proof (Nat.div_mod_eq (length msg) 64) as E.
  rewrite Nat.min_l by lia. rewrite Nat.div_mul by lia.
  unfold wrap. f_equal. lia.
Qed.
End Blake1_224Pad.

Module WhirlpoolPad.
Import Whirlpool.

Lemma whirlpool_pad_buffer st :
  let counter := Uint128.times8
                   (Uint128.add_assign (m_sizeCounter (m_core st))
                                       (wrap 64 (Z.of_nat (length (m_buffer st))))) in
  let len := (BLOCK_SIZE - ((length (m_buffer st ++ [Z.shiftl 1 7]) + 32) mod BLOCK_SIZE))%nat in
  m_buffer (pad st)
  = ((m_buffer st ++ [Z.shiftl 1 7]) ++ repeat 0 (len + 16))
      ++ bytes_be 8 (Uint128.high counter) ++ bytes_be 8 (Uint128.low counter).
Proof.
  cbv zeta. unfold pad. cbn [m_buffer]. apply length_field_be128.
Qed.

Lemma whirlpool_pad_field st :
  Uint128.in_range (m_sizeCounter (m_core st)) ->
  be_value (lastn 16 (m_buffer (pad st)))
  = (8 * ((Uint128.value (m_sizeCounter (m_core st))
           + wrap 64 (Z.of_nat (length (m_buffer st)))) mod 2 ^ 128)) mod 2 ^ 128.
Proof.
  intros Hr.
  pose proof (whirlpool_pad_buffer st) as E. cbv zeta in E. rewrite E.
  rewrite lastn_app by (now rewrite length_app, !bytes_be_length).
  destruct (Uint128Facts.u128_add_assign_exact _ (wrap 64 (Z.of_nat (length (m_buffer st)))) Hr)
    as [Ea Ra]; [apply wrap_range; lia|].
  destruct (Uint128Facts.u128_times8_exact _ Ra) as (Et & [Rlo Rhi] & _).
  rewrite be128_field_value by assumption.
  unfold Uint128.high, Uint128.low. fold (Uint128.value (Uint128.times8
    (Uint128.add_assign (m_sizeCounter (m_core st))
                        (wrap 64 (Z.of_nat (length (m_buffer st))))))).
  now rewrite Et, Ea.
Qed.

Lemma whirlpool_pad_aligned st : (length (m_buffer (pad st)) mod BLOCK_SIZE = 0)%nat.
Proof.
  pose proof (whirlpool_pad_buffer st) as E. cbv zeta in E. rewrite E.
  rewrite !length_app, !bytes_be_length, repeat_length. cbn [length].
  unfold BLOCK_SIZE. generalize (length (m_buffer st)) as n. intros n.
  pose proof (Nat.div_mod_eq (n + 1 + 32) 64).
  assert ((n + 1 + 32) mod 64 < 64)%nat by (apply Nat.mod_upper_bound; lia).
  replace (n + 1 + (64 - (n + 1 + 32) mod 64 + 16) + (8 + 8))%nat
    with (((n + 1 + 32) / 64 + 1) * 64)%nat by lia.
  apply multiple_mod_0.
Qed.

(** The padded data fits the 128 bytes of [Buffer<Byte, 128>]. *)
Lemma whirlpool_pad_capacity st :
  (length (m_buffer st) < BLOCK_SIZE)%nat -> (length (m_buffer (pad st)) <= 128)%nat.
Proof.
  intros Hb. pose proof (whirlpool_pad_buffer st) as E. cbv zeta in E. rewrite E.
  rewrite !length_app, !bytes_be_length, repeat_length. cbn [length].
  unfold BLOCK_SIZE in *. generalize dependent (length (m_buffer st)). intros n Hn.
  pose proof (Nat.div_mod_eq (n + 1 + 32) 64).
  assert ((n + 1 + 32) mod 64 < 64)%nat by (apply Nat.mod_upper_bound; lia).
  assert ((n + 1 + 32) / 64 < 2)%nat by (apply Nat.Div0.div_lt_upper_bound; lia).
  lia.
Qed.

Lemma whirlpool_counter_processed p :
  Uint128.in_range (m_sizeCounter (processed p))
  /\ Uint128.value (m_sizeCounter (processed p)) = Z.of_nat (length p) mod 2 ^ 128.
Proof.
  unfold processed, Uint128.in_range, Uint128.value. cbn [m_sizeCounter Uint128.m_lo Uint128.m_hi].
  repeat split; try (apply wrap_range; lia).
  unfold wrap. generalize (Z.of_nat (length p)) (Nat2Z.is_nonneg (length p)). intros P HP.
  change (2 ^ 64) with 18446744073709551616.
  change (2 ^ 128) with (18446744073709551616 * 18446744073709551616).
  Z.to_euclidean_division_equations; nia.
Qed.

Lemma whirlpool_absorbed_field msg :
  be_value (lastn 16 (m_buffer (pad (absorbed msg))))
  = (8 * Z.of_nat (length msg)) mod 2 ^ 128.
Proof.
  unfold absorbed, Accumulator.absorbed.
  destruct (whirlpool_counter_processed (firstn (Accumulator.whole BLOCK_SIZE msg) msg)) as [Hr Hv].
  rewrite whirlpool_pad_field by exact Hr. cbn [m_core m_buffer]. rewrite Hv.
  assert (Hb : (length (skipn (Accumulator.whole BLOCK_SIZE msg) msg) < 64)%nat).
  { rewrite length_skipn. unfold Accumulator.whole, BLOCK_SIZE.
    pose proof (Nat.div_mod_eq (length msg) 64).
    assert (length msg mod 64 < 64)%nat by (apply Nat.mod_upper_bound; lia). lia. }
  rewrite (wrap_small 64) by (split; [lia|]; apply Z.lt_trans with 64; [lia|reflexivity]).
  rewrite Zplus_mod_idemp_l, <- Nat2Z.inj_add, <- length_app, firstn_skipn.
  now rewrite Zmult_mod_idemp_r.
Qed.
End WhirlpoolPad.

(** ** The last compression of BLAKE2b and the checksum of MD2 *)

Module Blake2Final.
Import Blake2.

(** Every block processed by [addData] adds 128 to the byte counter. *)
Lemma blake2_counter_blocks (g : nat -> list Z) l :
  forall s, Uint128.in_range (m_sizeCounter s) ->
    let s' := fold_left (fun h i => compress false 0 h (g i)) l s in
    Uint128.in_range (m_sizeCounter s')
    /\ Uint128.value (m_sizeCounter s')
       = (Uint128.value (m_sizeCounter s) + 128 * Z.of_nat (length l)) mod 2 ^ 128.
Proof.
  induction l as [|i l IH]; intros s Hs; cbv zeta.
  - cbn [fold_left length]. split; [exact Hs|].
    rewrite Z.mul_0_r, Z.add_0_r. symmetry. apply Z.mod_small.
    destruct Hs as [[? ?] [? ?]]. unfold Uint128.value.
    change (2 ^ 128) with (2 ^ 64 * 2 ^ 64). nia.
  - cbn [fold_left].
    destruct (Blake2Uint128Facts.b2u128_add_assign_exact (m_sizeCounter s) 128 Hs) as [Ea Ra];
      [split; [lia | reflexivity]|].
    assert (Ec : m_sizeCounter (compress false 0 s (g i))
                 = Uint128.add_assign (m_sizeCounter s) 128) by reflexivity.
    destruct (IH (compress false 0 s (g i))) as [Hr Hv].
    + rewrite Ec. exact Ra.
    + split; [exact Hr|]. rewrite Hv, Ec, Ea.
      rewrite Zplus_mod_idemp_l. f_equal. cbn [length]. lia.
Qed.

Lemma blake2_counter_processed p :
  Uint128.in_range (m_sizeCounter (processed p))
  /\ Uint128.value (m_sizeCounter (processed p))
     = (128 * Z.of_nat (length p / 128)) mod 2 ^ 128.
Proof.
  unfold processed, addDataImpl, process_blocks.
  destruct (blake2_counter_blocks (fun i => block BLOCK_SIZE i p) (seq 0 (length p / BLOCK_SIZE)) init)
    as [Hr Hv].
  - repeat split; vm_compute; congruence.
  - split; [exact Hr|]. cbv zeta in Hv. rewrite Hv, length_seq. reflexivity.
Qed.

(** [finalize] runs the block loop once, on the padded buffer. *)
Lemma blake2_finalize_one st :
  (length (m_buffer st) <= BLOCK_SIZE)%nat ->
  let n := length (m_buffer st) in
  let padded := m_buffer st ++ repeat 0 (BLOCK_SIZE - n) in
  length padded = BLOCK_SIZE
  /\ pad st = (Sink padded (m_core st), Z.of_nat (BLOCK_SIZE - n))
  /\ finalize st
     = Sink [] (compress true (Z.of_nat (BLOCK_SIZE - n)) (m_core st) padded).
Proof.
  intros Hn n padded.
  assert (Hl : length padded = BLOCK_SIZE).
  { unfold padded. rewrite length_app, repeat_length. fold n. lia. }
  split; [exact Hl|]. split; [reflexivity|].
  unfold finalize, pad. fold n. fold padded. cbn [m_buffer m_core clear].
  unfold addDataImpl. rewrite process_blocks_one; [reflexivity | unfold BLOCK_SIZE; lia | exact Hl].
Qed.
End Blake2Final.

Module MD2Final.
Import MD2.

(** The loop over [checksum_step] is the byte-by-byte rule. *)
Lemma md2_checksum_steps_spec_gen m pre :
  forall C L Cdone,
    length Cdone = length pre -> length C = length m ->
    fold_left (checksum_step (pre ++ m)) (seq (length pre) (length m)) (Cdone ++ C, L)
    = (Cdone ++ fst (checksum_spec C L m), snd (checksum_spec C L m)).
Proof.
  revert pre. induction m as [|b m IH]; intros pre C L Cdone Hd Hc.
  - destruct C; [reflexivity | discriminate].
  - destruct C as [|c C]; [discriminate|].
    cbn [length seq fold_left checksum_spec].
    unfold checksum_step at 2.
    assert (E1 : at_ (Cdone ++ c :: C) (length pre) = c).
    { unfold at_. rewrite <- Hd. now rewrite nth_middle. }
    assert (E2 : at_ (pre ++ b :: m) (length pre) = b).
    { unfold at_. now rewrite nth_middle. }
    rewrite E1, E2.
    rewrite (upd_tail Cdone (c :: C) _ _ 0) by lia. cbn [upd].
    assert (E3 : at_ (Cdone ++ Z.lxor c (at_ piSubst (Z.to_nat (Z.lxor b L))) :: C)
                     (length pre)
                 = Z.lxor c (at_ piSubst (Z.to_nat (Z.lxor b L)))).
    { unfold at_. rewrite <- Hd. now rewrite nth_middle. }
    rewrite E3.
    specialize (IH (pre ++ [b]) C (Z.lxor c (at_ piSubst (Z.to_nat (Z.lxor b L))))
                   (Cdone ++ [Z.lxor c (at_ piSubst (Z.to_nat (Z.lxor b L)))])).
    rewrite <- !app_assoc in IH. cbn [app] in IH.
    rewrite !length_app in IH. cbn [length] in IH.
    replace (length pre + 1)%nat with (S (length pre)) in IH by lia.
    rewrite IH by (simpl in *; lia).
    destruct (checksum_spec C _ m) as [rest L']. reflexivity.
Qed.

Lemma md2_checksum_steps_spec m C L :
  length C = 16%nat -> length m = 16%nat ->
  fold_left (checksum_step m) (seq 0 16) (C, L) = checksum_spec C L m.
Proof.
  intros HC Hm.
  pose proof (md2_checksum_steps_spec_gen m [] C L [] eq_refl) as E.
  cbn [app length] in E. rewrite Hm in E. rewrite E by lia.
  now destruct (checksum_spec C L m).
Qed.
End MD2Final.

(** ** What [finalize] hands to the block processor

    [finalize] ends with [addDataImpl(m_buffer); m_buffer.clear()] on the
    buffer that the statements before have padded. *)
Module FinalizePad.

Lemma md5_finalize_pad st :
  MD5.finalize st
  = Sink [] (MD5.addDataImpl (m_core (MD5.pad st)) (m_buffer (MD5.pad st))).
Proof. reflexivity. Qed.

Lemma has160_finalize_pad st :
  HAS_160.finalize st
  = Sink [] (HAS_160.addDataImpl (m_core (HAS_160.pad st)) (m_buffer (HAS_160.pad st))).
Proof. reflexivity. Qed.

Lemma rmd160_finalize_pad st :
  RIPEMD_160.finalize st
  = Sink [] (RIPEMD_160.addDataImpl (m_core (RIPEMD_160.pad st))
                                    (m_buffer (RIPEMD_160.pad st))).
Proof. reflexivity. Qed.

Lemma blake1_finalize_pad st :
  Blake1_224.finalize st
  = Sink [] (Blake1_224.addDataImpl (snd (Blake1_224.pad st))
               (m_core (fst (Blake1_224.pad st))) (m_buffer (fst (Blake1_224.pad st)))).
Proof.
  unfold Blake1_224.finalize. destruct (Blake1_224.pad st) as [st' pl]. reflexivity.
Qed.

Lemma whirlpool_finalize_pad st :
  Whirlpool.finalize st
  = Sink [] (Whirlpool.addDataImpl (m_core (Whirlpool.pad st))
                                   (m_buffer (Whirlpool.pad st))).
Proof. reflexivity. Qed.
End FinalizePad.

(** ** Known answers: the embedding reproduces the published digests *)

Example md5_empty :
  MD5.toString (MD5.finalize MD5.fresh)
  = "d41d8cd98f00b204e9800998ecf8427e"%string.
Proof. vm_compute. reflexivity. Qed.
Example md5_abc :
  MD5.toString (MD5.finalize (MD5.addData MD5.fresh (bytes_of_string "abc")))
  = "900150983cd24fb0d6963f7d28e17f72"%string.
Proof. vm_compute. reflexivity. Qed.
Example md2_empty :
  MD2.toString (MD2.finalize MD2.fresh)
  = "8350e5a3e24c153df2275c9f80692773"%string.
Proof. vm_compute. reflexivity. Qed.
Example md2_abc :
  MD2.toString (MD2.finalize (MD2.addData MD2.fresh (bytes_of_string "abc")))
  = "da853b0d3f88d99b30283a69e6ded6bb"%string.
Proof. vm_compute. reflexivity. Qed.
Example has_empty :
  HAS_160.toString (HAS_160.finalize HAS_160.fresh)
  = "307964ef34151d37c8047adec7ab50f4ff89762d"%string.
Proof. vm_compute. reflexivity. Qed.
Example has_abc :
  HAS_160.toString (HAS_160.finalize (HAS_160.addData HAS_160.fresh (bytes_of_string "abc")))
  = "975e810488cf2a3d49838478124afce4b1c78804"%string.
Proof. vm_compute. reflexivity. Qed.
Example rmd_empty :
  RIPEMD_160.toString (RIPEMD_160.finalize RIPEMD_160.fresh)
  = "9c1185a5c5e9fc54612808977ee8f548b2258d31"%string.
Proof. vm_compute. reflexivity. Qed.
Example rmd_abc :
  RIPEMD_160.toString (RIPEMD_160.finalize (RIPEMD_160.addData RIPEMD_160.fresh (bytes_of_string "abc")))
  = "8eb208f7e05d987a9b044a8e98c6b087f15a0bfc"%string.
Proof. vm_compute. reflexivity. Qed.
Example b1_empty :
  Blake1_224.toString (Blake1_224.finalize Blake1_224.fresh)
  = "7dc5313b1c04512a174bd6503b89607aecbee0903d40a8a569c94eed"%string.
Proof. vm_compute. reflexivity. Qed.
Example b2_empty :
  Blake2.toString (Blake2.finalize Blake2.fresh)
  = "786a02f742015903c6c6fd852552d272912f4740e15847618a86e217f71f5419d25e1031afee585313896444934eb04b903a685b1448b755d56f701afe9be2ce"%string.
Proof. vm_compute. reflexivity. Qed.
Example b2_abc :
  Blake2.toString (Blake2.finalize (Blake2.addData Blake2.fresh (bytes_of_string "abc")))
  = "ba80a53f981c4d0d6a2797b69f12f6e94c212f14685ac4b74b12bb6fdbffa2d17d87c5392aab792dc252d5de4533cc9518d38aa8dbf1925ab92386edd4009923"%string.
Proof. vm_compute. reflexivity. Qed.
Example wp_empty :
  Whirlpool.toString (Whirlpool.finalize Whirlpool.fresh)
  = "19fa61d75522a4669b44e39c1d2e1726c530232130d407f89afee0964997f7a73e83be698b288febcf88e3e03c4f0757ea8964e59b63d93708b138cc42a66eb3"%string.
Proof. vm_compute. reflexivity. Qed.
Example b1_fox :
  Blake1_224.toString (Blake1_224.finalize (Blake1_224.addData Blake1_224.fresh
    (bytes_of_string "The quick brown fox jumps over the lazy dog")))
  = "c8e92d7088ef87c1530aee2ad44dc720cc10589cc2ec58f95a15e51b"%string.
Proof. vm_compute. reflexivity. Qed.
Example wp_fox :
  Whirlpool.toString (Whirlpool.finalize (Whirlpool.addData Whirlpool.fresh
    (bytes_of_string "The quick brown fox jumps over the lazy dog")))
  = "b97de512e91e3828b40d2b0fdce9ceb3c4a71f9bea8d88e75c4fa854df36725fd2b52eb6544edcacd6f8beddfea403cb55ae31f03ad62a5ef54e42ee82c3fb35"%string.
Proof. vm_compute. reflexivity. Qed.

(** * The claims of the specification *)

(** C1. Chunking invariance: for each of the seven hash types, feeding a
    message to a fresh instance in any sequence of consecutive chunks
    (empty chunks included) and finalizing gives the same digest bytes and
    the same digest text as one [addData] of the whole message followed by
    [finalize].  The whole message is a span, so its size fits [size_t]. *)
Theorem C1_chunking_invariance (chunks : list (list Z)) :
  span_size_ok (concat chunks) ->
  Forall (fun H => digest_of H chunks = digest_of H [concat chunks]) hash_types.
Proof.
  intros Hsize.
  unfold hash_types, digest_of, MD5_api, MD2_api, HAS_160_api, RIPEMD_160_api,
    Blake1_224_api, Blake2_api, Whirlpool_api.
  repeat constructor; cbn [inst api_finalize api_addData api_fresh api_toVector api_toString].
  - now rewrite (MD5Facts.md5_chunking chunks).
  - now rewrite (MD2Facts.md2_chunking chunks).
  - now rewrite (HAS_160Facts.has160_chunking chunks).
  - now rewrite (RIPEMD_160Facts.rmd160_chunking chunks).
  - now rewrite (Blake1_224Facts.blake1_chunking chunks).
  - now rewrite (Blake2Facts.blake2_chunking chunks).
  - now rewrite (WhirlpoolFacts.whirlpool_chunking chunks Hsize).
Qed.

(** The message "abc" cut into "a", the empty chunk and "bc". *)
Lemma C1_chunking_invariance_witness :
  span_size_ok (concat [[97]; []; [98; 99]]) /\
  Forall (fun H => digest_of H [[97]; []; [98; 99]] = digest_of H [concat [[97]; []; [98; 99]]])
         hash_types.
Proof.
  assert (Hsize : span_size_ok (concat [[97]; []; [98; 99]])) by reflexivity.
  split; [exact Hsize | exact (C1_chunking_invariance [[97]; []; [98; 99]] Hsize)].
Defined.

(** C2. Known answers of MD5: the empty message hashes to
    d41d8cd98f00b204e9800998ecf8427e and the three bytes 'a', 'b', 'c' hash to
    900150983cd24fb0d6963f7d28e17f72, as lowercase hexadecimal text with two
    characters per byte. *)
Theorem C2_md5_known_answers :
  MD5.toString (MD5.finalize MD5.fresh) = "d41d8cd98f00b204e9800998ecf8427e"%string
  /\ MD5.toString (MD5.finalize (MD5.addData MD5.fresh [97; 98; 99]))
     = "900150983cd24fb0d6963f7d28e17f72"%string
  /\ bytes_of_string "abc" = [97; 98; 99].
Proof. repeat split; vm_compute; reflexivity. Qed.

(** C8. Reset restores the initial state: for each hash type and every
    instance whatsoever (so after any sequence of [addData] calls, with or
    without a [finalize]), [reset] gives the instance a constructor gives,
    and hashing a message after [reset] gives the digest of that message on
    a fresh instance; [reset] empties the buffer, zeroes the size counter
    and puts the initial constants of the algorithm in the state words. *)
Theorem C8_reset_restores_initial_state :
  Forall (fun H =>
            forall (st : inst H) (M : list Z),
              api_reset H st = api_fresh H
              /\ (let st' := api_finalize H (api_addData H (api_reset H st) M) in
                  (api_toVector H st', api_toString H st')) = digest_of H [M])
         hash_types
  /\ (forall st, MD5.reset st
                 = Sink [] (MD5.Members 0 [0x67452301; 0xefcdab89; 0x98badcfe; 0x10325476]))
  /\ (forall st, MD2.reset st = Sink [] (MD2.Members (repeat 0 48) (repeat 0 16) 0))
  /\ (forall st, HAS_160.reset st
                 = Sink [] (HAS_160.Members 0 [0x67452301; 0xEFCDAB89; 0x98BADCFE;
                                               0x10325476; 0xC3D2E1F0]))
  /\ (forall st, RIPEMD_160.reset st
                 = Sink [] (RIPEMD_160.Members 0 [0x67452301; 0xEFCDAB89; 0x98BADCFE;
                                                  0x10325476; 0xC3D2E1F0]))
  /\ (forall st, Blake1_224.reset st
                 = Sink [] (Blake1_224.Members 0 [0xc1059ed8; 0x367cd507; 0x3070dd17;
                                                  0xf70e5939; 0xffc00b31; 0x68581511;
                                                  0x64f98fa7; 0xbefa4fa4]))
  /\ (forall st, Blake2.reset st
                 = Sink [] (Blake2.Members (Blake2.Uint128.Make 0 0)
                              (Z.lxor 0x6a09e667f3bcc908 0x01010040
                                 :: tl Blake2.m_initializationVector)))
  /\ (forall st, Whirlpool.reset st
                 = Sink [] (Whirlpool.Members (Uint128.Make 0 0) (repeat 0 8))).
Proof.
  split; [unfold hash_types; repeat constructor|].
  repeat match goal with |- _ /\ _ => split end; intros st; reflexivity.
Qed.

(** C10. The class [Uint128] of whirlpool.h and of blake2.h is exact
    128-bit unsigned arithmetic on its two 64-bit words: [v += n] gives the
    sum modulo [2^128], the overflow of the low word being carried into the
    high word, and [v * 8] gives the value shifted left by three bits modulo
    [2^128], the top three bits of the low word moving into the high word. *)
Theorem C10_uint128_exact :
  (forall v n, Uint128.in_range v -> 0 <= n < 2 ^ 64 ->
     Uint128.value (Uint128.add_assign v n) = (Uint128.value v + n) mod 2 ^ 128
     /\ Uint128.in_range (Uint128.add_assign v n)
     /\ Uint128.value (Uint128.times8 v) = Z.shiftl (Uint128.value v) 3 mod 2 ^ 128
     /\ Uint128.in_range (Uint128.times8 v)
     /\ Uint128.m_hi (Uint128.times8 v)
        = (8 * Uint128.m_hi v) mod 2 ^ 64 + Z.shiftr (Uint128.m_lo v) 61)
  /\
  (forall v n, Blake2.Uint128.in_range v -> 0 <= n < 2 ^ 64 ->
     Blake2.Uint128.value (Blake2.Uint128.add_assign v n)
     = (Blake2.Uint128.value v + n) mod 2 ^ 128
     /\ Blake2.Uint128.in_range (Blake2.Uint128.add_assign v n)
     /\ Blake2.Uint128.value (Blake2.Uint128.times8 v)
        = Z.shiftl (Blake2.Uint128.value v) 3 mod 2 ^ 128
     /\ Blake2.Uint128.in_range (Blake2.Uint128.times8 v)
     /\ Blake2.Uint128.m_hi (Blake2.Uint128.times8 v)
        = (8 * Blake2.Uint128.m_hi v) mod 2 ^ 64 + Z.shiftr (Blake2.Uint128.m_lo v) 61).
Proof.
  split; intros v n Hv Hn.
  - destruct (Uint128Facts.u128_add_assign_exact v n Hv Hn) as [Ea Ra].
    destruct (Uint128Facts.u128_times8_exact v Hv) as (Et & Rt & Eh & _).
    rewrite Z.shiftl_mul_pow2, Z.shiftr_div_pow2 by lia.
    repeat split; try tauto; try apply Ra; try apply Rt.
    rewrite Et. f_equal. change (2 ^ 3) with 8. lia.
  - destruct (Blake2Uint128Facts.b2u128_add_assign_exact v n Hv Hn) as [Ea Ra].
    destruct (Blake2Uint128Facts.b2u128_times8_exact v Hv) as (Et & Rt & Eh & _).
    rewrite Z.shiftl_mul_pow2, Z.shiftr_div_pow2 by lia.
    repeat split; try tauto; try apply Ra; try apply Rt.
    rewrite Et. f_equal. change (2 ^ 3) with 8. lia.
Qed.

(** A carry out of the low word and the three top bits of the low word,
    on both classes. *)
Lemma C10_uint128_exact_witness :
  Uint128.value (Uint128.add_assign (Uint128.Make (2 ^ 64 - 1) 5) 3)
  = (Uint128.value (Uint128.Make (2 ^ 64 - 1) 5) + 3) mod 2 ^ 128
  /\ Blake2.Uint128.value (Blake2.Uint128.times8 (Blake2.Uint128.Make (2 ^ 63 + 1) (2 ^ 62)))
     = Z.shiftl (Blake2.Uint128.value (Blake2.Uint128.Make (2 ^ 63 + 1) (2 ^ 62))) 3
       mod 2 ^ 128.
Proof.
  split.
  - apply (proj1 C10_uint128_exact (Uint128.Make (2 ^ 64 - 1) 5) 3).
    + split; split; vm_compute; congruence.
    + split; vm_compute; congruence.
  - apply (proj2 C10_uint128_exact (Blake2.Uint128.Make (2 ^ 63 + 1) (2 ^ 62)) 0).
    + split; split; vm_compute; congruence.
    + split; vm_compute; congruence.
Defined.

(** C9. Fixed digest length: on every instance a user can obtain (whatever
    was fed, finalized or reset before), [toVector] returns 28 bytes for
    BLAKE-224 (the first 7 of its 8 state words), 64 bytes for BLAKE2b and
    for Whirlpool, 20 bytes for HAS-160 and for RIPEMD-160, and 16 bytes for
    MD2 (the first 16 bytes of the 48-byte working buffer) and for MD5. *)
Theorem C9_fixed_digest_length :
  digest_length Blake1_224_api 28 /\ digest_length Blake2_api 64
  /\ digest_length Whirlpool_api 64 /\ digest_length HAS_160_api 20
  /\ digest_length RIPEMD_160_api 20 /\ digest_length MD2_api 16
  /\ digest_length MD5_api 16
  /\ (forall st, obtainable Blake1_224_api st ->
        length (Blake1_224.m_h (m_core st)) = 8%nat
        /\ Blake1_224.toVector st
           = flat_map (bytes_be 4) (firstn 7 (Blake1_224.m_h (m_core st))))
  /\ (forall st, obtainable MD2_api st ->
        length (MD2.m_x (m_core st)) = 48%nat
        /\ MD2.toVector st = firstn 16 (MD2.m_x (m_core st))).
Proof.
  unfold digest_length, obtainable.
  repeat match goal with |- _ /\ _ => split end;
    intros st Hst; cbn [inst api_toVector api_fresh api_addData api_finalize
                                     api_reset Blake1_224_api Blake2_api Whirlpool_api
                                     HAS_160_api RIPEMD_160_api MD2_api MD5_api] in *.
  - now apply Blake1_224Sizes.blake1_toVector_length, Blake1_224Sizes.blake1_reachable_sized.
  - now apply Blake2Sizes.blake2_toVector_length, Blake2Sizes.blake2_reachable_sized.
  - now apply WhirlpoolSizes.whirlpool_toVector_length, WhirlpoolSizes.whirlpool_reachable_sized.
  - now apply HAS_160Sizes.has160_toVector_length, HAS_160Sizes.has160_reachable_sized.
  - now apply RIPEMD_160Sizes.rmd160_toVector_length, RIPEMD_160Sizes.rmd160_reachable_sized.
  - now apply MD2Sizes.md2_toVector_length, MD2Sizes.md2_reachable_sized.
  - now apply MD5Sizes.md5_toVector_length, MD5Sizes.md5_reachable_sized.
  - apply Blake1_224Sizes.blake1_reachable_sized in Hst. unfold Blake1_224.sized in Hst.
    split; [exact Hst|].
    unfold Blake1_224.toVector.
    destruct (Blake1_224.m_h (m_core st)) as [|h0 [|h1 [|h2 [|h3 [|h4 [|h5 [|h6 [|h7 [|]]]]]]]]];
      try discriminate. reflexivity.
  - split; [now apply MD2Sizes.md2_reachable_sized | reflexivity].
Qed.

(** The digest of "abc", and the digest read again after a [reset]. *)
Lemma C9_fixed_digest_length_witness :
  length (Blake1_224.toVector (Blake1_224.finalize (Blake1_224.addData Blake1_224.fresh [97; 98; 99])))
  = 28%nat
  /\ length (MD2.toVector (MD2.reset (MD2.finalize (MD2.addData MD2.fresh [97; 98; 99]))))
     = 16%nat.
Proof.
  split.
  - apply (proj1 C9_fixed_digest_length). unfold obtainable.
    apply reach_finalize, reach_addData, reach_fresh.
  - apply (proj1 (proj2 (proj2 (proj2 (proj2 (proj2 C9_fixed_digest_length)))))).
    unfold obtainable.
    apply reach_reset, reach_finalize, reach_addData, reach_fresh.
Defined.

(** C3, as the specification states it, fails: MD5 (and, the same way,
    MD2, HAS-160, RIPEMD-160 and BLAKE-224) and Whirlpool do not hold a full
    block back.  After one [addData] of exactly 64 bytes the accumulator is
    empty and the block has been compressed. *)
Lemma C3_counterexample :
  let msg := repeat 0 64 in
  (0 < length msg)%nat /\ (length msg mod 64 = 0)%nat
  /\ ~ keeps_last_block 64 MD5.processed (MD5.addData MD5.fresh msg) msg
  /\ ~ keeps_last_block 64 Whirlpool.processed (Whirlpool.addData Whirlpool.fresh msg) msg
  /\ m_buffer (MD5.addData MD5.fresh msg) = []
  /\ m_buffer (Whirlpool.addData Whirlpool.fresh msg) = [].
Proof.
  cbv zeta. repeat match goal with |- _ /\ _ => split end.
  - rewrite repeat_length. lia.
  - reflexivity.
  - intros [Hbuf _]. vm_compute in Hbuf. discriminate.
  - intros [Hbuf _]. vm_compute in Hbuf. discriminate.
  - vm_compute. reflexivity.
  - vm_compute. reflexivity.
Qed.

Lemma absorbed_keeps_partial {C} B (processed : list Z -> C) msg :
  keeps_partial_block B processed (Accumulator.absorbed B processed msg) msg.
Proof.
  unfold keeps_partial_block, Accumulator.absorbed, lastn. cbn [m_buffer m_core].
  assert (E : (length msg - length msg mod B = Accumulator.whole B msg)%nat).
  { unfold Accumulator.whole. pose proof (Nat.div_mod_eq (length msg) B). lia. }
  now rewrite E.
Qed.

(** C3, amended.  For MD5, MD2, HAS-160, RIPEMD-160, BLAKE-224 and
    Whirlpool a buffer that reaches one full block is compressed at once:
    after any sequence of [addData] calls the accumulator holds exactly the
    [L mod BLOCK_SIZE] trailing bytes of the input (nothing when [L] is a
    multiple of the block size) and every complete block has been
    processed.  For BLAKE2b, after any sequence of [addData] calls with
    positive cumulative input, the accumulator holds the last one to 128
    bytes of the input -- a full block when [L] is a multiple of 128 --
    and only the blocks before them have been processed. *)
Theorem C3_buffering_policy (chunks : list (list Z)) :
  Forall span_size_ok chunks ->
  let msg := concat chunks in
  keeps_partial_block 64 MD5.processed (feed MD5.addData MD5.fresh chunks) msg
  /\ keeps_partial_block 16 MD2.processed (feed MD2.addData MD2.fresh chunks) msg
  /\ keeps_partial_block 64 HAS_160.processed (feed HAS_160.addData HAS_160.fresh chunks) msg
  /\ keeps_partial_block 64 RIPEMD_160.processed
       (feed RIPEMD_160.addData RIPEMD_160.fresh chunks) msg
  /\ keeps_partial_block 64 Blake1_224.processed
       (feed Blake1_224.addData Blake1_224.fresh chunks) msg
  /\ keeps_partial_block 64 Whirlpool.processed
       (feed Whirlpool.addData Whirlpool.fresh chunks) msg
  /\ ((0 < length msg)%nat ->
      keeps_last_block 128 Blake2.processed (feed Blake2.addData Blake2.fresh chunks) msg).
Proof.
  intros Hsize msg. repeat match goal with |- _ /\ _ => split end.
  - rewrite MD5Facts.md5_feed_absorbed. apply absorbed_keeps_partial.
  - rewrite MD2Facts.md2_feed_absorbed. apply absorbed_keeps_partial.
  - rewrite HAS_160Facts.has160_feed_absorbed. apply absorbed_keeps_partial.
  - rewrite RIPEMD_160Facts.rmd160_feed_absorbed. apply absorbed_keeps_partial.
  - rewrite Blake1_224Facts.blake1_feed_absorbed. apply absorbed_keeps_partial.
  - rewrite (WhirlpoolFacts.whirlpool_feed_absorbed chunks Hsize). apply absorbed_keeps_partial.
  - intros Hpos. rewrite Blake2Facts.blake2_feed_absorbed. fold msg.
    unfold keeps_last_block, Blake2.absorbed. cbn [m_buffer m_core].
    assert (E : (if (length msg mod 128 =? 0)%nat then 128%nat else (length msg mod 128)%nat)
                = Blake2.held msg).
    { unfold Blake2.held, Blake2.BLOCK_SIZE. destruct (length msg) as [|n]; [lia|].
      pose proof (Nat.div_mod_eq n 128) as E1.
      pose proof (Nat.div_mod_eq (S n) 128) as E2.
      assert (n mod 128 < 128)%nat by (apply Nat.mod_upper_bound; lia).
      assert (S n mod 128 < 128)%nat by (apply Nat.mod_upper_bound; lia).
      destruct (Nat.eqb_spec (S n mod 128) 0) as [Hz|Hz]; nia. }
    rewrite E. split; reflexivity.
Qed.

(** Sixty-four bytes in two calls: the six eager types end with an empty
    accumulator; 128 bytes leave BLAKE2b with a full one. *)
Lemma C3_buffering_policy_witness :
  keeps_partial_block 64 MD5.processed
    (feed MD5.addData MD5.fresh [repeat 0 60; repeat 0 4]) (concat [repeat 0 60; repeat 0 4])
  /\ keeps_last_block 128 Blake2.processed
       (feed Blake2.addData Blake2.fresh [repeat 0 128]) (concat [repeat 0 128]).
Proof.
  assert (H1 : Forall span_size_ok [repeat 0 60; repeat 0 4])
    by (repeat constructor).
  assert (H2 : Forall span_size_ok [repeat 0 128]) by (repeat constructor).
  assert (H3 : (0 < length (concat [repeat 0 128]))%nat) by (vm_compute; lia).
  split.
  - exact (proj1 (C3_buffering_policy _ H1)).
  - exact (proj2 (proj2 (proj2 (proj2 (proj2 (proj2 (C3_buffering_policy _ H2)))))) H3).
Defined.

(** C4, as the specification states it, fails: the block loop of
    blake1_224.h expands the mixing macro neither 80 times (8 x 10) nor 64
    times (8 rounds of 8), and what [compress] makes of a block is not
    what ten rounds, or eight, make of it -- here on the members of a new
    instance and a block of zero bytes. *)
Lemma C4_counterexample :
  length Blake1_224.calls <> (8 * 10)%nat /\ length Blake1_224.calls <> (8 * 8)%nat
  /\ Blake1_224.compress 0 Blake1_224.init (repeat 0 64)
     <> Blake1_224_compress_rounds 10 0 Blake1_224.init (repeat 0 64)
  /\ Blake1_224.compress 0 Blake1_224.init (repeat 0 64)
     <> Blake1_224_compress_rounds 8 0 Blake1_224.init (repeat 0 64).
Proof.
  split; [vm_compute; discriminate |]. split; [vm_compute; discriminate |].
  split; intros H; apply (f_equal Blake1_224.m_h) in H; vm_compute in H; discriminate H.
Qed.

Lemma fold_left_concat {A B} (f : A -> B -> A) (ls : list (list B)) a :
  fold_left f (concat ls) a = fold_left (fun a l => fold_left f l a) ls a.
Proof.
  revert a; induction ls as [|l ls IH]; intros a; simpl; [reflexivity|].
  now rewrite fold_left_app, IH.
Qed.

Lemma blake1_fold_rounds m v :
  fold_left (Blake1_224.blakeMix m) Blake1_224.calls v
  = fold_left (fun v r => fold_left (Blake1_224.blakeMix m) (Blake1_224.round_calls r) v)
              (seq 0 14) v.
Proof.
  assert (E : Blake1_224.calls = concat (map Blake1_224.round_calls (seq 0 14)))
    by (vm_compute; reflexivity).
  rewrite E at 1. rewrite fold_left_concat, fold_left_map_arg. reflexivity.
Qed.

(** C4, amended.  The BLAKE-224 compression function applies 14 rounds of
    mixing per 64-byte block, 8 G-function calls to a round and 112 in
    total; each round reads the sixteen message words once each, in the
    order of a fixed permutation, and rounds 10 to 13 use the permutations
    of rounds 0 to 3 again.  The last part states it of the block
    function itself: [compress] is the block iteration that mixes in 14
    rounds. *)
Theorem C4_blake1_rounds :
  length Blake1_224.calls = 112%nat
  /\ Blake1_224.calls = concat (map Blake1_224.round_calls (seq 0 14))
  /\ forallb (fun r => (length (Blake1_224.round_calls r) =? 8)%nat
                       && Blake1_224.is_permutation16 (Blake1_224.msg_words r))
             (seq 0 14) = true
  /\ map Blake1_224.round_calls (seq 10 4) = map Blake1_224.round_calls (seq 0 4)
  /\ (forall m v,
        fold_left (Blake1_224.blakeMix m) Blake1_224.calls v
        = fold_left (fun v r => fold_left (Blake1_224.blakeMix m) (Blake1_224.round_calls r) v)
                    (seq 0 14) v)
  /\ (forall paddingLen s blk,
        Blake1_224.compress paddingLen s blk
        = Blake1_224_compress_rounds 14 paddingLen s blk).
Proof.
  assert (E : Blake1_224.calls = concat (map Blake1_224.round_calls (seq 0 14)))
    by (vm_compute; reflexivity).
  split; [vm_compute; reflexivity|].
  split; [exact E|].
  split; [vm_compute; reflexivity|].
  split; [vm_compute; reflexivity|].
  split; [exact blake1_fold_rounds |].
  intros paddingLen s blk.
  unfold Blake1_224.compress, Blake1_224_compress_rounds. cbv zeta.
  rewrite blake1_fold_rounds. reflexivity.
Qed.

(** C5. BLAKE2b finalization: after any sequence of [addData] calls,
    [finalize] pads the buffered bytes with zeros to one block of 128 bytes
    and runs the compression once on it; in that compression the working
    word [v[14]] is the complement of [IV[6]] (it is [IV[6]] itself in every
    compression started by [addData]), and the 128-bit counter, advanced by
    the number of buffered -- real -- bytes and so equal to the length of
    the whole message, is XORed into [v[12]] (low half) and [v[13]] (high
    half). *)
Theorem C5_blake2_finalize (chunks : list (list Z)) :
  let msg := concat chunks in
  let st := feed Blake2.addData Blake2.fresh chunks in
  let n := length (m_buffer st) in
  let padded := m_buffer st ++ repeat 0 (128 - n) in
  let counter :=
    Blake2.Uint128.add_assign (Blake2.m_sizeCounter (m_core st)) (Z.of_nat n) in
  let h := Blake2.m_h (m_core st) in
  let v0 := Blake2.init_v h counter true in
  let v := fold_left (Blake2.blakeMix (load64le padded)) Blake2.calls v0 in
  let iv := at_ Blake2.m_initializationVector in
  (n <= 128)%nat /\ length padded = 128%nat
  /\ m_core st = Blake2.addDataImpl false 0 Blake2.init (firstn (length msg - n) msg)
  /\ Blake2.pad st = (Sink padded (m_core st), Z.of_nat (128 - n))
  /\ Blake2.finalize st
     = Sink [] (Blake2.Members counter
                  (map (fun i => Z.lxor (at_ h i) (Z.lxor (at_ v i) (at_ v (i + 8))))
                       (seq 0 8)))
  /\ at_ v0 14 = not64 (iv 6%nat)
  /\ (forall h' c', at_ (Blake2.init_v h' c' false) 14 = iv 6%nat)
  /\ at_ v0 12 = Z.lxor (iv 4%nat) (Blake2.Uint128.low counter)
  /\ at_ v0 13 = Z.lxor (iv 5%nat) (Blake2.Uint128.high counter)
  /\ Blake2.Uint128.value counter
     = (Blake2.Uint128.value (Blake2.m_sizeCounter (m_core st)) + Z.of_nat n) mod 2 ^ 128
  /\ Blake2.Uint128.value counter = Z.of_nat (length msg) mod 2 ^ 128.
Proof.
  intros msg st n padded counter h v0 v iv.
  assert (Est : st = Blake2.absorbed msg) by apply Blake2Facts.blake2_feed_absorbed.
  assert (Hn : n = Blake2.held msg).
  { unfold n. rewrite Est. apply Blake2Facts.blake2_buffer_absorbed. }
  assert (Hle : (n <= 128)%nat /\ (n <= length msg)%nat).
  { rewrite Hn. apply Blake2Facts.blake2_held_le. }
  destruct Hle as [Hle Hlm].
  destruct (Blake2Final.blake2_finalize_one st) as (Hl & Hp & Hf); [exact Hle|].
  assert (Hcore : m_core st = Blake2.processed (firstn (length msg - n) msg)).
  { rewrite Hn, Est. reflexivity. }
  destruct (Blake2Final.blake2_counter_processed (firstn (length msg - n) msg)) as [Hr Hv].
  rewrite <- Hcore in Hr, Hv.
  destruct (Blake2Uint128Facts.b2u128_add_assign_exact (Blake2.m_sizeCounter (m_core st))
              (Z.of_nat n) Hr) as [Ea _].
  { split; [lia|]. apply Z.le_lt_trans with 128; [lia | reflexivity]. }
  assert (Hw : wrap 64 (Z.of_nat Blake2.BLOCK_SIZE - Z.of_nat (Blake2.BLOCK_SIZE - n))
               = Z.of_nat n).
  { unfold Blake2.BLOCK_SIZE. rewrite wrap_small.
    + lia.
    + split; [lia|]. apply Z.le_lt_trans with 128; [lia | reflexivity]. }
  split; [exact Hle|]. split; [exact Hl|]. split; [exact Hcore|]. split; [exact Hp|].
  split.
  { rewrite Hf. unfold Blake2.compress. fold n. fold padded. rewrite Hw. reflexivity. }
  split; [reflexivity|]. split; [intros h' c'; reflexivity|].
  split; [reflexivity|]. split; [reflexivity|]. split; [exact Ea|].
  - fold counter in Ea. rewrite Ea, Hv, Zplus_mod_idemp_l. f_equal.
    rewrite length_firstn, Nat.min_l by lia.
    assert (Hal : ((length msg - n) mod 128 = 0)%nat)
      by (rewrite Hn; apply Blake2Facts.blake2_held_aligned).
    pose proof (Nat.div_mod_eq (length msg - n) 128) as E. rewrite Hal in E. lia.
Qed.

(** C6. Length field: after any sequence of [addData] calls totalling [L]
    bytes (each call on a span, so on fewer than [2^64] bytes),
    [finalize] hands to the block processor the buffer that its
    statements before the [addDataImpl] call have padded (first part),
    and that buffer is a whole number of blocks and ends with the field
    that encodes [8 * L], the bit length of the input without any
    padding: eight bytes, least significant first,
    for MD5, HAS-160 and RIPEMD-160; eight bytes, high word then low word,
    most significant first, for BLAKE-224; sixteen bytes, most significant
    first, for Whirlpool.  The field is as wide as it is: [8 * L] is
    written modulo [2^64], and modulo [2^128] for Whirlpool. *)
Theorem C6_length_field (chunks : list (list Z)) :
  Forall span_size_ok chunks ->
  let L := Z.of_nat (length (concat chunks)) in
  let md5 := MD5.pad (feed MD5.addData MD5.fresh chunks) in
  let has := HAS_160.pad (feed HAS_160.addData HAS_160.fresh chunks) in
  let rmd := RIPEMD_160.pad (feed RIPEMD_160.addData RIPEMD_160.fresh chunks) in
  let b1 := fst (Blake1_224.pad (feed Blake1_224.addData Blake1_224.fresh chunks)) in
  let wp := Whirlpool.pad (feed Whirlpool.addData Whirlpool.fresh chunks) in
  (MD5.finalize (feed MD5.addData MD5.fresh chunks)
   = Sink [] (MD5.addDataImpl (m_core md5) (m_buffer md5))
   /\ HAS_160.finalize (feed HAS_160.addData HAS_160.fresh chunks)
      = Sink [] (HAS_160.addDataImpl (m_core has) (m_buffer has))
   /\ RIPEMD_160.finalize (feed RIPEMD_160.addData RIPEMD_160.fresh chunks)
      = Sink [] (RIPEMD_160.addDataImpl (m_core rmd) (m_buffer rmd))
   /\ Blake1_224.finalize (feed Blake1_224.addData Blake1_224.fresh chunks)
      = Sink [] (Blake1_224.addDataImpl
                   (snd (Blake1_224.pad (feed Blake1_224.addData Blake1_224.fresh chunks)))
                   (m_core b1) (m_buffer b1))
   /\ Whirlpool.finalize (feed Whirlpool.addData Whirlpool.fresh chunks)
      = Sink [] (Whirlpool.addDataImpl (m_core wp) (m_buffer wp)))
  /\
  (le_value (lastn 8 (m_buffer md5)) = (8 * L) mod 2 ^ 64
   /\ (length (m_buffer md5) mod 64 = 0)%nat)
  /\ (le_value (lastn 8 (m_buffer has)) = (8 * L) mod 2 ^ 64
      /\ (length (m_buffer has) mod 64 = 0)%nat)
  /\ (le_value (lastn 8 (m_buffer rmd)) = (8 * L) mod 2 ^ 64
      /\ (length (m_buffer rmd) mod 64 = 0)%nat)
  /\ (be_value (lastn 8 (m_buffer b1)) = (8 * L) mod 2 ^ 64
      /\ (length (m_buffer b1) mod 64 = 0)%nat)
  /\ (be_value (lastn 16 (m_buffer wp)) = (8 * L) mod 2 ^ 128
      /\ (length (m_buffer wp) mod 64 = 0)%nat)
  /\ (8 * L < 2 ^ 64 ->
      le_value (lastn 8 (m_buffer md5)) = 8 * L
      /\ le_value (lastn 8 (m_buffer has)) = 8 * L
      /\ le_value (lastn 8 (m_buffer rmd)) = 8 * L
      /\ be_value (lastn 8 (m_buffer b1)) = 8 * L
      /\ be_value (lastn 16 (m_buffer wp)) = 8 * L).
Proof.
  intros Hsize L md5 has rmd b1 wp.
  assert (H1 : le_value (lastn 8 (m_buffer md5)) = (8 * L) mod 2 ^ 64).
  { unfold md5. rewrite MD5Facts.md5_feed_absorbed. apply MD5Pad.md5_absorbed_field. }
  assert (H2 : le_value (lastn 8 (m_buffer has)) = (8 * L) mod 2 ^ 64).
  { unfold has. rewrite HAS_160Facts.has160_feed_absorbed. apply HAS_160Pad.has160_absorbed_field. }
  assert (H3 : le_value (lastn 8 (m_buffer rmd)) = (8 * L) mod 2 ^ 64).
  { unfold rmd. rewrite RIPEMD_160Facts.rmd160_feed_absorbed. apply RIPEMD_160Pad.rmd160_absorbed_field. }
  assert (H4 : be_value (lastn 8 (m_buffer b1)) = (8 * L) mod 2 ^ 64).
  { unfold b1. rewrite Blake1_224Facts.blake1_feed_absorbed. apply Blake1_224Pad.blake1_absorbed_field. }
  assert (H5 : be_value (lastn 16 (m_buffer wp)) = (8 * L) mod 2 ^ 128).
  { unfold wp. rewrite (WhirlpoolFacts.whirlpool_feed_absorbed chunks Hsize).
    apply WhirlpoolPad.whirlpool_absorbed_field. }
  split.
  { split; [apply FinalizePad.md5_finalize_pad |].
    split; [apply FinalizePad.has160_finalize_pad |].
    split; [apply FinalizePad.rmd160_finalize_pad |].
    split; [apply FinalizePad.blake1_finalize_pad | apply FinalizePad.whirlpool_finalize_pad]. }
  repeat match goal with |- _ /\ _ => split end; try assumption.
  - apply MD5Pad.md5_pad_aligned.
  - apply HAS_160Pad.has160_pad_aligned.
  - apply RIPEMD_160Pad.rmd160_pad_aligned.
  - apply Blake1_224Pad.blake1_pad_aligned.
  - apply WhirlpoolPad.whirlpool_pad_aligned.
  - intros Hfit.
    assert (HL : 0 <= 8 * L) by (unfold L; lia).
    rewrite H1, H2, H3, H4, H5.
    rewrite (Z.mod_small (8 * L) (2 ^ 64)) by lia.
    rewrite (Z.mod_small (8 * L) (2 ^ 128))
      by (split; [lia|]; apply Z.lt_trans with (2 ^ 64); [lia | reflexivity]).
    repeat split.
Qed.

(** Sixty-five bytes in three calls: the field holds 520. *)
Lemma C6_length_field_witness :
  le_value (lastn 8 (m_buffer (MD5.pad (feed MD5.addData MD5.fresh
                                          [repeat 7 60; []; repeat 9 5]))))
  = 8 * Z.of_nat (length (concat [repeat 7 60; []; repeat 9 5]))
  /\ be_value (lastn 16 (m_buffer (Whirlpool.pad (feed Whirlpool.addData Whirlpool.fresh
                                                    [repeat 7 60; []; repeat 9 5]))))
     = 8 * Z.of_nat (length (concat [repeat 7 60; []; repeat 9 5])).
Proof.
  assert (Hs : Forall span_size_ok [repeat 7 60; []; repeat 9 5]) by (repeat constructor).
  assert (Hfit : 8 * Z.of_nat (length (concat [repeat 7 60; []; repeat 9 5])) < 2 ^ 64)
    by (vm_compute; reflexivity).
  pose proof (proj2 (proj2 (proj2 (proj2 (proj2 (proj2
                (C6_length_field [repeat 7 60; []; repeat 9 5] Hs)))))) Hfit) as W.
  cbv zeta in W. split; [exact (proj1 W) | exact (proj2 (proj2 (proj2 (proj2 W))))].
Defined.

(** C7. MD2 finalization: with [r < 16] bytes buffered, [finalize] appends
    [k = 16 - r mod 16] bytes, each of value [k], with [1 <= k <= 16]; the
    padded data, one block, is compressed, which updates the running
    checksum byte by byte through the 256-entry table ([C[j] = C[j] xor
    S[m[j] xor L]], [L = C[j]]); the 16-byte checksum that results is then
    compressed as one more block, and the digest is the first 16 bytes of
    the working buffer after it. *)
Theorem C7_md2_finalize (st : MD2.t) :
  (length (m_buffer st) < 16)%nat ->
  length (MD2.m_x (m_core st)) = 48%nat ->
  length (MD2.m_checksum (m_core st)) = 16%nat ->
  let r := length (m_buffer st) in
  let k := (16 - r mod 16)%nat in
  let padded := m_buffer st ++ repeat (Z.of_nat k) k in
  let s1 := MD2.compress (m_core st) padded in
  let s2 := MD2.compress s1 (MD2.m_checksum s1) in
  (1 <= k <= 16)%nat /\ length (MD2.piSubst) = 256%nat
  /\ m_buffer (MD2.pad st) = padded /\ length padded = 16%nat
  /\ MD2.addDataImpl (m_core st) padded = s1
  /\ (MD2.m_checksum s1, MD2.m_checksumL s1)
     = MD2.checksum_spec (MD2.m_checksum (m_core st)) (MD2.m_checksumL (m_core st)) padded
  /\ length (MD2.m_checksum s1) = 16%nat
  /\ MD2.finalize st = Sink [] s2
  /\ MD2.toVector (MD2.finalize st) = firstn 16 (MD2.m_x s2)
  /\ length (MD2.toVector (MD2.finalize st)) = 16%nat.
Proof.
  intros Hr Hx Hc r k padded s1 s2.
  assert (Hk : (1 <= k <= 16)%nat /\ k = (16 - r)%nat).
  { unfold k. rewrite (Nat.mod_small r 16) by exact Hr. fold r in Hr. lia. }
  destruct Hk as [Hk Hk'].
  assert (Hp : length padded = 16%nat).
  { unfold padded. rewrite length_app, repeat_length. fold r. lia. }
  assert (Hpad : m_buffer (MD2.pad st) = padded).
  { unfold MD2.pad, padded. cbn [m_buffer]. unfold MD2.BLOCK_SIZE. fold r. fold k.
    rewrite wrap_small; [reflexivity|].
    split; [lia|]. apply Z.le_lt_trans with 16; [lia | reflexivity]. }
  assert (H1 : MD2.addDataImpl (m_core st) padded = s1).
  { unfold MD2.addDataImpl. apply process_blocks_one; [unfold MD2.BLOCK_SIZE; lia | exact Hp]. }
  assert (Hs1 : MD2.sized_members s1).
  { apply MD2Sizes.md2_compress_sized. split; assumption. }
  assert (Hs2 : MD2.sized_members s2) by (apply MD2Sizes.md2_compress_sized; exact Hs1).
  assert (Hfin : MD2.finalize st = Sink [] s2).
  { unfold MD2.finalize. cbn [clear m_buffer m_core].
    change (m_core (MD2.pad st)) with (m_core st). rewrite Hpad, H1.
    unfold MD2.addDataImpl. rewrite process_blocks_one;
      [reflexivity | unfold MD2.BLOCK_SIZE; lia | apply Hs1]. }
  repeat match goal with |- _ /\ _ => split end;
    try assumption; try reflexivity; try apply Hk; try apply Hs1.
  - unfold s1. rewrite MD2Sizes.md2_compress_eq. cbn [MD2.m_checksum MD2.m_checksumL].
    rewrite MD2Final.md2_checksum_steps_spec by assumption.
    now destruct (MD2.checksum_spec _ _ _).
  - now rewrite Hfin.
  - rewrite Hfin. unfold MD2.toVector. cbn [m_core].
    rewrite length_firstn. destruct Hs2 as [-> _]. reflexivity.
Qed.

(** Three bytes buffered: thirteen bytes of value 13 are appended. *)
Lemma C7_md2_finalize_witness :
  m_buffer (MD2.pad (MD2.addData MD2.fresh [97; 98; 99]%Z)) = [97; 98; 99]%Z ++ repeat 13 13
  /\ length (MD2.toVector (MD2.finalize (MD2.addData MD2.fresh [97; 98; 99]%Z))) = 16%nat.
Proof.
  assert (H1 : (length (m_buffer (MD2.addData MD2.fresh [97; 98; 99]%Z)) < 16)%nat)
    by (vm_compute; lia).
  assert (H2 : length (MD2.m_x (m_core (MD2.addData MD2.fresh [97; 98; 99]%Z))) = 48%nat)
    by reflexivity.
  assert (H3 : length (MD2.m_checksum (m_core (MD2.addData MD2.fresh [97; 98; 99]%Z))) = 16%nat)
    by reflexivity.
  pose proof (C7_md2_finalize (MD2.addData MD2.fresh [97; 98; 99]%Z) H1 H2 H3) as W.
  cbv zeta in W.
  split; [exact (proj1 (proj2 (proj2 W))) | exact (proj2 (proj2 (proj2 (proj2 (proj2
            (proj2 (proj2 (proj2 (proj2 W)))))))))].
Defined.

(** * Further properties of the code *)

(** ** Bits of the word helpers *)

Lemma testbit_above w k n :
  0 <= w < 2 ^ k -> k <= n -> Z.testbit w n = false.
Proof.
  intros [Hw0 Hwk] Hn.
  destruct (Z.eq_dec w 0) as [-> | Hnz]; [apply Z.bits_0 |].
  apply Z.bits_above_log2; [lia |].
  assert (Hk : 0 <= k).
  { destruct (Z.lt_ge_cases k 0) as [Hneg | ]; [| lia].
    rewrite (Z.pow_neg_r 2 k) in Hwk by lia. lia. }
  assert (Z.log2 w < k) by (apply Z.log2_lt_pow2; lia).
  lia.
Qed.

Lemma range_of_bits w k :
  0 <= k -> 0 <= w -> (forall n, k <= n -> Z.testbit w n = false) -> 0 <= w < 2 ^ k.
Proof.
  intros Hk Hw Hbits. split; [lia |].
  destruct (Z.eq_dec w 0) as [-> | Hnz]; [apply Z.pow_pos_nonneg; lia |].
  apply Z.log2_lt_pow2; [lia |].
  destruct (Z.lt_ge_cases (Z.log2 w) k) as [ | Hge]; [lia |].
  specialize (Hbits (Z.log2 w) Hge).
  rewrite Z.bit_log2 in Hbits by lia. discriminate.
Qed.

Lemma ror_testbit bits w s n :
  0 <= bits -> 0 <= s ->
  Z.testbit (ror bits w s) n = (0 <=? n) && (n <? bits) && Z.testbit w (n + s).
Proof.
  intros Hb Hs. unfold ror.
  destruct (Z.leb_spec 0 n) as [Hn | Hn]; cbn [andb].
  - rewrite Z.land_spec, Z.shiftr_spec by lia.
    rewrite Z.testbit_ones_nonneg by lia.
    rewrite andb_comm. reflexivity.
  - apply Z.testbit_neg_r. lia.
Qed.

Lemma ror_range bits w s : 0 <= bits -> 0 <= ror bits w s < 2 ^ bits.
Proof.
  intros Hb. unfold ror.
  rewrite Z.land_ones by lia. apply Z.mod_pos_bound. apply Z.pow_pos_nonneg; lia.
Qed.

Lemma wrap_testbit k w n :
  0 <= k -> Z.testbit (wrap k w) n = (n <? k) && Z.testbit w n.
Proof.
  intros Hk. unfold wrap.
  destruct (Z.ltb_spec n k) as [Hlt | Hge]; cbn [andb].
  - apply Z.mod_pow2_bits_low. lia.
  - apply Z.mod_pow2_bits_high. lia.
Qed.

Lemma shifted_byte_testbit w s n :
  0 <= s ->
  Z.testbit (Z.shiftl (ror 8 w s) s) n
  = (s <=? n) && (n <? s + 8) && Z.testbit w n.
Proof.
  intros Hs.
  destruct (Z.leb_spec 0 n) as [Hn | Hn].
  - rewrite Z.shiftl_spec by lia. rewrite ror_testbit by lia.
    destruct (Z.leb_spec 0 (n - s)), (Z.leb_spec s n); try lia;
      destruct (Z.ltb_spec (n - s) 8), (Z.ltb_spec n (s + 8)); try lia; cbn [andb];
      try reflexivity.
    f_equal. lia.
  - rewrite Z.testbit_neg_r by lia.
    destruct (Z.leb_spec s n); [lia | reflexivity].
Qed.

Lemma small_cases (P : Z -> Prop) (k : nat) (n : Z) :
  0 <= n -> n < Z.of_nat k ->
  (forall i, (i < k)%nat -> P (Z.of_nat i)) -> P n.
Proof.
  intros Hn Hk H. rewrite <- (Z2Nat.id n) by lia. apply H. lia.
Qed.

(** Four bytes written by [toVector], put together again by [Loader]. *)
Lemma join32 w :
  0 <= w < 2 ^ 32 ->
  Z.lor (Z.lor (Z.lor (Z.shiftl (ror 8 w 0) 0) (Z.shiftl (ror 8 w 8) 8))
               (Z.shiftl (ror 8 w 16) 16))
        (Z.shiftl (ror 8 w 24) 24) = w.
Proof.
  intros Hw. apply Z.bits_inj'. intros n Hn.
  rewrite !Z.lor_spec, !shifted_byte_testbit by lia.
  destruct (Z.lt_ge_cases n 32) as [Hlt | Hge].
  - generalize (Z.testbit w n). pattern n.
    apply small_cases with (k := 32%nat); [lia | lia |]. intros i Hi b.
    do 32 (destruct i as [| i]; [destruct b; vm_compute; reflexivity |]). lia.
  - rewrite (testbit_above w 32 n) by lia. rewrite !andb_false_r. reflexivity.
Qed.

Lemma join64 w :
  0 <= w < 2 ^ 64 ->
  Z.lor (Z.lor (Z.lor (Z.lor (Z.lor (Z.lor (Z.lor (Z.lor 0
    (Z.shiftl (ror 8 w 0) 0)) (Z.shiftl (ror 8 w 8) 8)) (Z.shiftl (ror 8 w 16) 16))
    (Z.shiftl (ror 8 w 24) 24)) (Z.shiftl (ror 8 w 32) 32)) (Z.shiftl (ror 8 w 40) 40))
    (Z.shiftl (ror 8 w 48) 48)) (Z.shiftl (ror 8 w 56) 56) = w.
Proof.
  intros Hw. apply Z.bits_inj'. intros n Hn.
  rewrite !Z.lor_spec, !shifted_byte_testbit by lia. rewrite Z.bits_0. cbn [orb].
  destruct (Z.lt_ge_cases n 64) as [Hlt | Hge].
  - generalize (Z.testbit w n). pattern n.
    apply small_cases with (k := 64%nat); [lia | lia |]. intros i Hi b.
    do 64 (destruct i as [| i]; [destruct b; vm_compute; reflexivity |]). lia.
  - rewrite (testbit_above w 64 n) by lia. rewrite !andb_false_r. reflexivity.
Qed.

Lemma join64_rev w :
  0 <= w < 2 ^ 64 ->
  Z.lor (Z.lor (Z.lor (Z.lor (Z.lor (Z.lor (Z.lor (Z.lor 0
    (Z.shiftl (ror 8 w 56) 56)) (Z.shiftl (ror 8 w 48) 48)) (Z.shiftl (ror 8 w 40) 40))
    (Z.shiftl (ror 8 w 32) 32)) (Z.shiftl (ror 8 w 24) 24)) (Z.shiftl (ror 8 w 16) 16))
    (Z.shiftl (ror 8 w 8) 8)) (Z.shiftl (ror 8 w 0) 0) = w.
Proof.
  intros Hw. apply Z.bits_inj'. intros n Hn.
  rewrite !Z.lor_spec, !shifted_byte_testbit by lia. rewrite Z.bits_0. cbn [orb].
  destruct (Z.lt_ge_cases n 64) as [Hlt | Hge].
  - generalize (Z.testbit w n). pattern n.
    apply small_cases with (k := 64%nat); [lia | lia |]. intros i Hi b.
    do 64 (destruct i as [| i]; [destruct b; vm_compute; reflexivity |]). lia.
  - rewrite (testbit_above w 64 n) by lia. rewrite !andb_false_r. reflexivity.
Qed.

Lemma join32_rev w :
  0 <= w < 2 ^ 32 ->
  Z.lor (Z.lor (Z.lor (Z.shiftl (ror 8 w 24) 24) (Z.shiftl (ror 8 w 16) 16))
               (Z.shiftl (ror 8 w 8) 8))
        (Z.shiftl (ror 8 w 0) 0) = w.
Proof.
  intros Hw. apply Z.bits_inj'. intros n Hn.
  rewrite !Z.lor_spec, !shifted_byte_testbit by lia.
  destruct (Z.lt_ge_cases n 32) as [Hlt | Hge].
  - generalize (Z.testbit w n). pattern n.
    apply small_cases with (k := 32%nat); [lia | lia |]. intros i Hi b.
    do 32 (destruct i as [| i]; [destruct b; vm_compute; reflexivity |]). lia.
  - rewrite (testbit_above w 32 n) by lia. rewrite !andb_false_r. reflexivity.
Qed.

(** Element [k * i + j] of a serialised array is byte [j] of its word [i]. *)
Lemma flat_map_nth (f : Z -> list Z) (k : nat) (ws : list Z) :
  (forall x, length (f x) = k) ->
  forall i j, (i < length ws)%nat -> (j < k)%nat ->
    at_ (flat_map f ws) (k * i + j) = at_ (f (nth i ws 0)) j.
Proof.
  intros Hk. unfold at_. induction ws as [| w ws IH]; intros i j Hi Hj; [cbn in Hi; lia |].
  cbn [flat_map]. destruct i as [| i].
  - rewrite Nat.mul_0_r, Nat.add_0_l. rewrite app_nth1 by (rewrite Hk; lia). reflexivity.
  - rewrite app_nth2 by (rewrite Hk; nia). rewrite Hk.
    replace (k * S i + j - k)%nat with (k * i + j)%nat by nia.
    cbn [nth]. apply IH; [cbn in Hi; lia | lia].
Qed.

Lemma Forall_nth_range (P : Z -> Prop) ws i :
  Forall P ws -> (i < length ws)%nat -> P (nth i ws 0).
Proof.
  intros HF Hi. rewrite Forall_forall in HF. apply HF. apply nth_In. exact Hi.
Qed.

(** X1.  Loading word [i] of a serialised array of words gives back
    word [i]: each [Loader] inverts the byte order in which the
    [toVector] of the same header writes the state words. *)
Theorem X1_loader_inverts_toVector (ws : list Z) (i : nat) :
  (i < length ws)%nat ->
  (Forall (fun w => 0 <= w < 2 ^ 32) ws ->
     load32le (flat_map (bytes_le 4) ws) i = nth i ws 0
     /\ load32be (flat_map (bytes_be 4) ws) i = nth i ws 0)
  /\ (Forall (fun w => 0 <= w < 2 ^ 64) ws ->
     load64le (flat_map (bytes_le 8) ws) i = nth i ws 0
     /\ load64be (flat_map (bytes_be 8) ws) i = nth i ws 0).
Proof.
  intros Hi. split; intros HF.
  - pose proof (Forall_nth_range _ ws i HF Hi) as Hw. cbv beta in Hw.
    split.
    + unfold load32le.
      rewrite !(flat_map_nth (bytes_le 4) 4 ws (bytes_le_length 4)) by lia.
      cbn. apply join32. exact Hw.
    + unfold load32be.
      rewrite !(flat_map_nth (bytes_be 4) 4 ws (bytes_be_length 4)) by lia.
      cbn. apply join32_rev. exact Hw.
  - pose proof (Forall_nth_range _ ws i HF Hi) as Hw. cbv beta in Hw.
    split.
    + unfold load64le. cbn [fold_left seq].
      rewrite !(flat_map_nth (bytes_le 8) 8 ws (bytes_le_length 8)) by lia.
      cbn. apply join64. exact Hw.
    + unfold load64be. cbn [fold_left seq].
      rewrite !(flat_map_nth (bytes_be 8) 8 ws (bytes_be_length 8)) by lia.
      cbn. apply join64_rev. exact Hw.
Qed.

Lemma X1_loader_inverts_toVector_witness :
  load32le (flat_map (bytes_le 4) [0x67452301; 0xefcdab89]) 1 = 0xefcdab89
  /\ load64be (flat_map (bytes_be 8) [0x67452301; 0xefcdab89]) 1 = 0xefcdab89.
Proof.
  assert (Hi : (1 < length [0x67452301; 0xefcdab89]%Z)%nat) by (cbn; lia).
  split.
  - apply (proj1 (X1_loader_inverts_toVector [0x67452301; 0xefcdab89] 1 Hi)).
    repeat constructor; lia.
  - apply (proj2 (X1_loader_inverts_toVector [0x67452301; 0xefcdab89] 1 Hi)).
    repeat constructor; lia.
Defined.

(** ** Rotations and the boolean round functions *)

Lemma lor_range k a b :
  0 <= k -> 0 <= a < 2 ^ k -> 0 <= b < 2 ^ k -> 0 <= Z.lor a b < 2 ^ k.
Proof.
  intros Hk Ha Hb. apply range_of_bits; [lia | apply Z.lor_nonneg; lia |].
  intros n Hn. rewrite Z.lor_spec.
  rewrite (testbit_above a k n), (testbit_above b k n) by lia. reflexivity.
Qed.

Lemma shiftr_range k x s :
  0 <= s -> 0 <= x < 2 ^ k -> 0 <= Z.shiftr x s < 2 ^ k.
Proof.
  intros Hs Hx. rewrite Z.shiftr_div_pow2 by lia.
  assert (0 < 2 ^ s) by (apply Z.pow_pos_nonneg; lia).
  split; [apply Z.div_pos; lia |].
  apply Z.le_lt_trans with x; [| lia].
  apply Z.div_le_upper_bound; nia.
Qed.

Lemma rotl32_testbit x s i :
  0 <= x < 2 ^ 32 -> 0 <= s < 32 -> 0 <= i < 32 ->
  Z.testbit (rotl32 x s) i = Z.testbit x ((i - s) mod 32).
Proof.
  intros Hx Hs Hi. unfold rotl32.
  destruct (Z.eqb_spec s 0) as [-> | Hs0].
  - rewrite Z.sub_0_r, Z.mod_small by lia. reflexivity.
  - unfold shl32. rewrite Z.lor_spec, wrap_testbit, Z.shiftr_spec by lia.
    rewrite Z.shiftl_spec by lia.
    destruct (Z.ltb_spec i 32); [| lia]. cbn [andb].
    destruct (Z.lt_ge_cases i s) as [Hlt | Hge].
    + rewrite (Z.testbit_neg_r x (i - s)) by lia. cbn [orb].
      f_equal. replace (i - s) with ((i + (32 - s)) + (-1) * 32) by lia.
      rewrite Z.mod_add by lia. rewrite Z.mod_small by lia. reflexivity.
    + rewrite (testbit_above x 32 (i + (32 - s))) by lia. rewrite orb_false_r.
      f_equal. rewrite Z.mod_small by lia. reflexivity.
Qed.

Lemma rotr_testbit_gen k (shl : Z -> Z -> Z) x s i :
  0 < k ->
  (forall y t, shl y t = wrap k (Z.shiftl y t)) ->
  0 <= x < 2 ^ k -> 0 < s < k -> 0 <= i < k ->
  Z.testbit (Z.lor (Z.shiftr x s) (shl x (k - s))) i = Z.testbit x ((i + s) mod k).
Proof.
  intros Hk Hshl Hx Hs Hi.
  rewrite Hshl, Z.lor_spec, wrap_testbit, Z.shiftr_spec by lia.
  rewrite Z.shiftl_spec by lia.
  destruct (Z.ltb_spec i k); [| lia]. cbn [andb].
  destruct (Z.lt_ge_cases (i + s) k) as [Hlt | Hge].
  - rewrite (Z.testbit_neg_r x (i - (k - s))) by lia. rewrite orb_false_r.
    f_equal. rewrite Z.mod_small by lia. reflexivity.
  - rewrite (testbit_above x k (i + s)) by lia. cbn [orb].
    f_equal. replace (i + s) with ((i - (k - s)) + 1 * k) by lia.
    rewrite Z.mod_add by lia. rewrite Z.mod_small by lia. reflexivity.
Qed.

Lemma rotr32_testbit x s i :
  0 <= x < 2 ^ 32 -> 0 <= s < 32 -> 0 <= i < 32 ->
  Z.testbit (rotr32 x s) i = Z.testbit x ((i + s) mod 32).
Proof.
  intros Hx Hs Hi. unfold rotr32.
  destruct (Z.eqb_spec s 0) as [-> | Hs0].
  - rewrite Z.add_0_r, Z.mod_small by lia. reflexivity.
  - apply (rotr_testbit_gen 32 shl32); try lia. reflexivity.
Qed.

Lemma rotr64_testbit x s i :
  0 <= x < 2 ^ 64 -> 0 <= s < 64 -> 0 <= i < 64 ->
  Z.testbit (rotr64 x s) i = Z.testbit x ((i + s) mod 64).
Proof.
  intros Hx Hs Hi. unfold rotr64.
  destruct (Z.eqb_spec s 0) as [-> | Hs0].
  - rewrite Z.add_0_r, Z.mod_small by lia. reflexivity.
  - apply (rotr_testbit_gen 64 shl64); try lia. reflexivity.
Qed.

Lemma rotl32_range x s : 0 <= x < 2 ^ 32 -> 0 <= s < 32 -> 0 <= rotl32 x s < 2 ^ 32.
Proof.
  intros Hx Hs. unfold rotl32. destruct (Z.eqb_spec s 0); [exact Hx |].
  apply lor_range; [lia | apply wrap_range; lia | apply shiftr_range; lia].
Qed.

Lemma rotr32_range x s : 0 <= x < 2 ^ 32 -> 0 <= s < 32 -> 0 <= rotr32 x s < 2 ^ 32.
Proof.
  intros Hx Hs. unfold rotr32. destruct (Z.eqb_spec s 0); [exact Hx |].
  apply lor_range; [lia | apply shiftr_range; lia | apply wrap_range; lia].
Qed.

Lemma rotr64_range x s : 0 <= x < 2 ^ 64 -> 0 <= s < 64 -> 0 <= rotr64 x s < 2 ^ 64.
Proof.
  intros Hx Hs. unfold rotr64. destruct (Z.eqb_spec s 0); [exact Hx |].
  apply lor_range; [lia | apply shiftr_range; lia | apply wrap_range; lia].
Qed.

(** X2.  [rotl] and [rotr] are rotations of the word: the result is a
    word again, and bit [i] of it is bit [i - s] (for [rotl]) or bit
    [i + s] (for [rotr]) of the argument, the index taken modulo the
    width; this includes [s = 0], which the code guards. *)
Theorem X2_rotations (x s i : Z) :
  (0 <= x < 2 ^ 32 -> 0 <= s < 32 ->
     0 <= rotl32 x s < 2 ^ 32 /\ 0 <= rotr32 x s < 2 ^ 32
     /\ (0 <= i < 32 ->
         Z.testbit (rotl32 x s) i = Z.testbit x ((i - s) mod 32)
         /\ Z.testbit (rotr32 x s) i = Z.testbit x ((i + s) mod 32)))
  /\ (0 <= x < 2 ^ 64 -> 0 <= s < 64 ->
     0 <= rotr64 x s < 2 ^ 64
     /\ (0 <= i < 64 -> Z.testbit (rotr64 x s) i = Z.testbit x ((i + s) mod 64))).
Proof.
  split; intros Hx Hs.
  - split; [apply rotl32_range; assumption |].
    split; [apply rotr32_range; assumption |].
    intros Hi. split; [apply rotl32_testbit | apply rotr32_testbit]; assumption.
  - split; [apply rotr64_range; assumption |].
    intros Hi. apply rotr64_testbit; assumption.
Qed.

Lemma X2_rotations_witness :
  Z.testbit (rotl32 0x80000001 7) 6 = Z.testbit 0x80000001 ((6 - 7) mod 32)
  /\ Z.testbit (rotr64 0x8000000000000001 63) 0
     = Z.testbit 0x8000000000000001 ((0 + 63) mod 64).
Proof.
  split.
  - apply (proj1 (X2_rotations 0x80000001 7 6)); lia.
  - apply (proj2 (X2_rotations 0x8000000000000001 63 0)); lia.
Defined.

(** The body [(x & (y ^ z)) ^ z] picks, bit for bit, [y] where [x] is
    set and [z] where it is not. *)
Lemma select_bits x y z i :
  Z.testbit (Z.lxor (Z.land x (Z.lxor y z)) z) i
  = if Z.testbit x i then Z.testbit y i else Z.testbit z i.
Proof.
  rewrite Z.lxor_spec, Z.land_spec, Z.lxor_spec.
  destruct (Z.testbit x i), (Z.testbit y i), (Z.testbit z i); reflexivity.
Qed.

Lemma not32_testbit x i : 0 <= i < 32 -> Z.testbit (not32 x) i = negb (Z.testbit x i).
Proof.
  intros Hi. unfold not32. rewrite wrap_testbit by lia.
  destruct (Z.ltb_spec i 32); [| lia]. cbn [andb]. apply Z.lnot_spec. lia.
Qed.

Lemma select_or x y z :
  0 <= y < 2 ^ 32 -> 0 <= z < 2 ^ 32 ->
  Z.lxor (Z.land x (Z.lxor y z)) z = Z.lor (Z.land x y) (Z.land (not32 x) z).
Proof.
  intros Hy Hz. apply Z.bits_inj'. intros n Hn.
  rewrite select_bits, Z.lor_spec, !Z.land_spec.
  destruct (Z.lt_ge_cases n 32) as [Hlt | Hge].
  - rewrite not32_testbit by lia.
    destruct (Z.testbit x n), (Z.testbit y n), (Z.testbit z n); reflexivity.
  - rewrite (testbit_above y 32 n), (testbit_above z 32 n) by lia.
    rewrite !andb_false_r. destruct (Z.testbit x n); reflexivity.
Qed.

(** X3.  The round functions marked "alternative" in md5.h and
    ripemd_160.h are the bitwise selections of the standards: [f] is
    [(x & y) | (~x & z)] and [g] is [(x & z) | (y & ~z)] on 32-bit
    words, and bit by bit [f] picks [y] where [x] is set and [z]
    elsewhere, [g] picks [x] where [z] is set and [y] elsewhere. *)
Theorem X3_alternative_round_functions (x y z : Z) :
  (forall i,
     Z.testbit (MD5.f x y z) i = (if Z.testbit x i then Z.testbit y i else Z.testbit z i)
     /\ Z.testbit (MD5.g x y z) i = (if Z.testbit z i then Z.testbit x i else Z.testbit y i)
     /\ Z.testbit (RIPEMD_160.f2 x y z) i
        = (if Z.testbit x i then Z.testbit y i else Z.testbit z i)
     /\ Z.testbit (RIPEMD_160.f4 x y z) i
        = (if Z.testbit z i then Z.testbit x i else Z.testbit y i))
  /\ (0 <= x < 2 ^ 32 -> 0 <= y < 2 ^ 32 -> 0 <= z < 2 ^ 32 ->
      MD5.f x y z = Z.lor (Z.land x y) (Z.land (not32 x) z)
      /\ MD5.g x y z = Z.lor (Z.land x z) (Z.land y (not32 z))
      /\ RIPEMD_160.f2 x y z = Z.lor (Z.land x y) (Z.land (not32 x) z)
      /\ RIPEMD_160.f4 x y z = Z.lor (Z.land x z) (Z.land y (not32 z))).
Proof.
  assert (Hg : forall a b c, Z.lxor b (Z.land (Z.lxor a b) c)
                             = Z.lxor (Z.land c (Z.lxor a b)) b).
  { intros a b c. rewrite Z.lxor_comm. f_equal. apply Z.land_comm. }
  assert (H4 : forall a b c, Z.lxor (Z.land (Z.lxor a b) c) b
                             = Z.lxor (Z.land c (Z.lxor a b)) b).
  { intros a b c. f_equal. apply Z.land_comm. }
  split.
  - intros i. unfold MD5.f, MD5.g, RIPEMD_160.f2, RIPEMD_160.f4.
    rewrite Hg, H4, !select_bits. repeat split; reflexivity.
  - intros Hx Hy Hz. unfold MD5.f, MD5.g, RIPEMD_160.f2, RIPEMD_160.f4.
    rewrite Hg, H4.
    rewrite (select_or x y z), (select_or z x y) by assumption.
    rewrite (Z.land_comm z x), (Z.land_comm (not32 z) y), (Z.lor_comm (Z.land x z)).
    repeat split; try reflexivity; apply Z.lor_comm.
Qed.

Lemma X3_alternative_round_functions_witness :
  MD5.f 0xefcdab89 0x98badcfe 0x10325476
  = Z.lor (Z.land 0xefcdab89 0x98badcfe) (Z.land (not32 0xefcdab89) 0x10325476).
Proof.
  apply (proj2 (X3_alternative_round_functions 0xefcdab89 0x98badcfe 0x10325476)); lia.
Defined.

(** ** The constant tables *)

Lemma forallb_seq (p : nat -> bool) n :
  forallb p (seq 0 n) = true -> forall i, (i < n)%nat -> p i = true.
Proof.
  intros H i Hi. rewrite forallb_forall in H. apply H. apply in_seq. lia.
Qed.

Lemma whirlpool_roundConstant_check :
  forallb (fun r => Whirlpool_roundConstant_computed r =? at_ Whirlpool.roundConstant r)
          (seq 0 Whirlpool.ROUND) = true.
Proof. vm_compute. reflexivity. Qed.

(** X4.  The ten hard-coded round constants of Whirlpool are the values
    that the compiled-out branch computes from [cTable]: byte [i] of
    constant [r], counted from the most significant one, is that byte of
    [cTable[i][8 r + i]]. *)
Theorem X4_whirlpool_round_constants (round : nat) :
  (round < Whirlpool.ROUND)%nat ->
  at_ Whirlpool.roundConstant round = Whirlpool_roundConstant_computed round.
Proof.
  intros Hr. symmetry. apply Z.eqb_eq.
  apply (forallb_seq _ _ whirlpool_roundConstant_check round Hr).
Qed.

Lemma X4_whirlpool_round_constants_witness :
  at_ Whirlpool.roundConstant 9 = Whirlpool_roundConstant_computed 9.
Proof.
  apply (X4_whirlpool_round_constants 9). unfold Whirlpool.ROUND. lia.
Defined.

Lemma whirlpool_cTable_check :
  forallb (fun k =>
    forallb (fun x =>
      let c := Whirlpool.cT k (Z.of_nat x) in
      (0 <=? c) && (c <? 2 ^ 64)
      && (c =? rotr64 (Whirlpool.cT 0 (Z.of_nat x)) (8 * Z.of_nat k)))
      (seq 0 256))
    (seq 0 8) = true.
Proof. vm_compute. reflexivity. Qed.

(** X5.  The eight tables of Whirlpool are one table rotated: entry [x]
    of [cTable[k]] is entry [x] of [cTable[0]] rotated right by [k]
    bytes, and every entry is a 64-bit word. *)
Theorem X5_whirlpool_tables_rotated (k : nat) (x : Z) :
  (k < 8)%nat -> 0 <= x < 256 ->
  0 <= Whirlpool.cT k x < 2 ^ 64
  /\ Whirlpool.cT k x = rotr64 (Whirlpool.cT 0 x) (8 * Z.of_nat k).
Proof.
  intros Hk Hx.
  pose proof (forallb_seq _ _ whirlpool_cTable_check k Hk) as H. cbv beta in H.
  assert (Hn : (Z.to_nat x < 256)%nat) by lia.
  pose proof (forallb_seq _ _ H (Z.to_nat x) Hn) as H'. cbv beta zeta in H'.
  rewrite Z2Nat.id in H' by lia.
  apply andb_prop in H'. destruct H' as [H1 H3].
  apply andb_prop in H1. destruct H1 as [H1 H2].
  apply Z.leb_le in H1. apply Z.ltb_lt in H2. apply Z.eqb_eq in H3.
  split; [split |]; assumption.
Qed.

Lemma X5_whirlpool_tables_rotated_witness :
  Whirlpool.cT 3 0x61 = rotr64 (Whirlpool.cT 0 0x61) (8 * Z.of_nat 3).
Proof.
  apply (X5_whirlpool_tables_rotated 3 0x61); lia.
Defined.

(** ** The message schedules *)

Lemma list_eqb_nat_eq a : forall b, list_eqb_nat a b = true -> a = b.
Proof.
  induction a as [| x a IH]; intros [| y b] H; cbn in H; try discriminate; [reflexivity |].
  apply andb_prop in H. destruct H as [Hxy Hab].
  apply Nat.eqb_eq in Hxy. subst y. f_equal. apply IH. exact Hab.
Qed.

Lemma blake2_schedule_check :
  forallb (fun r =>
    Blake1_224.is_permutation16 (Blake2_msg_words r)
    && (length (Blake2_round_calls r) =? 8)%nat
    && list_eqb_nat (concat (map Blake2_written (Blake2_round_calls r)))
         [0; 4; 8; 12;  1; 5; 9; 13;  2; 6; 10; 14;  3; 7; 11; 15;
          0; 5; 10; 15; 1; 6; 11; 12; 2; 7; 8; 13;   3; 4; 9; 14]%nat)
    (seq 0 12) = true.
Proof. vm_compute. reflexivity. Qed.

Lemma blake2_fold_rounds m v :
  fold_left (Blake2.blakeMix m) Blake2.calls v
  = fold_left (fun v r => fold_left (Blake2.blakeMix m) (Blake2_round_calls r) v)
              (seq 0 12) v.
Proof.
  assert (E : Blake2.calls = concat (map Blake2_round_calls (seq 0 12)))
    by (vm_compute; reflexivity).
  rewrite E at 1. rewrite fold_left_concat, fold_left_map_arg. reflexivity.
Qed.

(** X6.  The BLAKE2b block function mixes in 12 rounds of 8 [blakeMix]
    calls, 96 calls in all: what [compress] makes of a block is what the
    block iteration written round by round makes of it.  Each round
    reads the 16 message words once each; its first four calls work on
    the columns and its last four on the diagonals of the 4x4 state [v],
    so each half writes every word of [v] exactly once; rounds 10 and 11
    read the message words in the order of rounds 0 and 1. *)
Theorem X6_blake2_schedule :
  (forall isFinal paddingLen s blk,
     Blake2.compress isFinal paddingLen s blk
     = Blake2_compress_rounds 12 isFinal paddingLen s blk)
  /\ length Blake2.calls = (12 * 8)%nat
  /\ Blake2.calls = concat (map Blake2_round_calls (seq 0 12))
  /\ (forall r, (r < 12)%nat ->
        length (Blake2_round_calls r) = 8%nat
        /\ Blake1_224.is_permutation16 (Blake2_msg_words r) = true
        /\ concat (map Blake2_written (Blake2_round_calls r))
           = [0; 4; 8; 12;  1; 5; 9; 13;  2; 6; 10; 14;  3; 7; 11; 15;
              0; 5; 10; 15; 1; 6; 11; 12; 2; 7; 8; 13;   3; 4; 9; 14]%nat)
  /\ Blake2_round_calls 10 = Blake2_round_calls 0
  /\ Blake2_round_calls 11 = Blake2_round_calls 1.
Proof.
  split.
  { intros isFinal paddingLen s blk.
    unfold Blake2.compress, Blake2_compress_rounds. cbv zeta.
    rewrite blake2_fold_rounds. reflexivity. }
  split; [reflexivity |]. split; [reflexivity |].
  split; [| split; reflexivity].
  intros r Hr.
  pose proof (forallb_seq _ _ blake2_schedule_check r Hr) as H. cbv beta in H.
  apply andb_prop in H. destruct H as [H H3].
  apply andb_prop in H. destruct H as [H1 H2].
  apply Nat.eqb_eq in H2. apply list_eqb_nat_eq in H3.
  repeat match goal with |- _ /\ _ => split end; assumption.
Qed.

Lemma X6_blake2_schedule_witness :
  Blake1_224.is_permutation16 (Blake2_msg_words 7) = true.
Proof.
  apply (proj1 (proj2 (proj1 (proj2 (proj2 (proj2 X6_blake2_schedule))) 7%nat ltac:(lia)))).
Defined.

Lemma has160_extend_from_message (x junk junk' : list Z) (round : nat) :
  length x = 16%nat -> length junk = 4%nat -> length junk' = 4%nat ->
  In round [0; 20; 40; 60]%nat ->
  HAS_160.extendXTable (x ++ junk) round = HAS_160.extendXTable (x ++ junk') round
  /\ firstn 16 (HAS_160.extendXTable (x ++ junk) round) = x.
Proof.
  intros Hx Hj Hj' Hr.
  do 17 (destruct x as [| ? x]; try discriminate Hx).
  do 5 (destruct junk as [| ? junk]; try discriminate Hj).
  do 5 (destruct junk' as [| ? junk']; try discriminate Hj').
  cbn [In] in Hr.
  destruct Hr as [<- | [<- | [<- | [<- | []]]]]; split; reflexivity.
Qed.

(** X7.  HAS-160 derives [xTable[16..19]] from the message alone: what
    [extendXTable] writes for a round does not depend on what these four
    entries held before (they are uninitialised at the first call), it
    leaves the sixteen message words in place, and each of the four
    rounds then reads each of the twenty entries exactly once. *)
Theorem X7_has160_word_schedule (x junk junk' : list Z) (round : nat) :
  (length x = 16%nat -> length junk = 4%nat -> length junk' = 4%nat ->
   In round [0; 20; 40; 60]%nat ->
   HAS_160.extendXTable (x ++ junk) round = HAS_160.extendXTable (x ++ junk') round
   /\ firstn 16 (HAS_160.extendXTable (x ++ junk) round) = x)
  /\ is_permutation_upto 20 (HAS_160_words_read HAS_160.calls1) = true
  /\ is_permutation_upto 20 (HAS_160_words_read HAS_160.calls2) = true
  /\ is_permutation_upto 20 (HAS_160_words_read HAS_160.calls3) = true
  /\ is_permutation_upto 20 (HAS_160_words_read HAS_160.calls4) = true.
Proof.
  split; [apply has160_extend_from_message |].
  repeat match goal with |- _ /\ _ => split end; vm_compute; reflexivity.
Qed.

Lemma X7_has160_word_schedule_witness :
  HAS_160.extendXTable (map Z.of_nat (seq 1 16) ++ [0; 0; 0; 0]) 20
  = HAS_160.extendXTable (map Z.of_nat (seq 1 16) ++ [7; 7; 7; 7]) 20.
Proof.
  apply (proj1 (X7_has160_word_schedule (map Z.of_nat (seq 1 16)) [0; 0; 0; 0]
                                         [7; 7; 7; 7] 20));
    [reflexivity | reflexivity | reflexivity | cbn; tauto].
Defined.

(** ** [addData] on any instance *)

Lemma acc_addData_nil {C} (B : nat) (impl : C -> list Z -> C) (st : sink C) :
  (0 < B)%nat -> (length (m_buffer st) < B)%nat ->
  Accumulator.addData B impl st [] = st.
Proof.
  intros HB Hb. destruct st as [buf c]. unfold Accumulator.addData.
  cbn [m_buffer m_core] in *. destruct buf as [| x buf].
  - unfold Accumulator.bulk. cbn [length m_core].
    destruct (Nat.ltb_spec 0 B); [reflexivity | lia].
  - cbn [length firstn]. rewrite Nat.min_0_r. cbn [firstn]. rewrite app_nil_r.
    cbn [m_buffer].
    destruct (Nat.ltb_spec (length (x :: buf)) B); [reflexivity | lia].
Qed.

Lemma acc_compose {C} (B : nat) (impl : C -> list Z -> C) (adm : list Z -> Prop)
    (processed : list Z -> C) (st : sink C) (a b : list Z) :
  (0 < B)%nat ->
  (forall d n, adm d -> adm (firstn n d)) ->
  (forall d n, adm d -> adm (skipn n d)) ->
  (forall a, length a = B -> adm a) ->
  processed [] = m_core st ->
  (forall p a, (length p mod B = 0)%nat -> adm a ->
               impl (processed p) a = processed (p ++ a)) ->
  (length (m_buffer st) < B)%nat -> adm a -> adm b -> adm (a ++ b) ->
  Accumulator.addData B impl (Accumulator.addData B impl st a) b
  = Accumulator.addData B impl st (a ++ b).
Proof.
  intros HB Hpre Hsuf Hblk Hnil Happ Hr Ha Hb Hab.
  destruct st as [r c]. cbn [m_buffer m_core] in *.
  assert (E : Sink r c = Accumulator.absorbed B processed r).
  { rewrite <- Hnil.
    rewrite <- (AccumulatorFacts.acc_absorbed_intro B processed HB [] r);
      [reflexivity | apply Nat.Div0.mod_0_l | exact Hr]. }
  rewrite E.
  rewrite !(AccumulatorFacts.acc_addData_absorbed B impl processed adm HB Hpre Hsuf Hblk Happ)
    by assumption.
  rewrite app_assoc. reflexivity.
Qed.

(** The size counters stay in the range of their type. *)
Lemma md5_counter_range st :
  reachable MD5.fresh MD5.addData MD5.finalize MD5.reset st ->
  0 <= MD5.m_sizeCounter (m_core st) < 2 ^ 64.
Proof.
  apply (reachable_ind_inv (fun st => 0 <= MD5.m_sizeCounter (m_core st) < 2 ^ 64)).
  - cbn. lia.
  - intros s d Hs.
    apply (addData_core_preserves (fun c => 0 <= MD5.m_sizeCounter c < 2 ^ 64));
      [| exact Hs].
    intros c d' _. apply wrap_range. lia.
  - intros s _. apply wrap_range. lia.
  - intros s _. cbn. lia.
Qed.

Lemma has160_counter_range st :
  reachable HAS_160.fresh HAS_160.addData HAS_160.finalize HAS_160.reset st ->
  0 <= HAS_160.m_sizeCounter (m_core st) < 2 ^ 64.
Proof.
  apply (reachable_ind_inv (fun st => 0 <= HAS_160.m_sizeCounter (m_core st) < 2 ^ 64)).
  - cbn. lia.
  - intros s d Hs.
    apply (addData_core_preserves (fun c => 0 <= HAS_160.m_sizeCounter c < 2 ^ 64));
      [| exact Hs].
    intros c d' _. apply wrap_range. lia.
  - intros s _. apply wrap_range. lia.
  - intros s _. cbn. lia.
Qed.

Lemma rmd160_counter_range st :
  reachable RIPEMD_160.fresh RIPEMD_160.addData RIPEMD_160.finalize RIPEMD_160.reset st ->
  0 <= RIPEMD_160.m_sizeCounter (m_core st) < 2 ^ 64.
Proof.
  apply (reachable_ind_inv (fun st => 0 <= RIPEMD_160.m_sizeCounter (m_core st) < 2 ^ 64)).
  - cbn. lia.
  - intros s d Hs.
    apply (addData_core_preserves (fun c => 0 <= RIPEMD_160.m_sizeCounter c < 2 ^ 64));
      [| exact Hs].
    intros c d' _. apply wrap_range. lia.
  - intros s _. apply wrap_range. lia.
  - intros s _. cbn. lia.
Qed.

Lemma whirlpool_counter_range st :
  reachable Whirlpool.fresh Whirlpool.addData Whirlpool.finalize Whirlpool.reset st ->
  Uint128.in_range (Whirlpool.m_sizeCounter (m_core st)).
Proof.
  assert (Himpl : forall c d, Uint128.in_range (Whirlpool.m_sizeCounter c) ->
                              Uint128.in_range
                                (Whirlpool.m_sizeCounter (Whirlpool.addDataImpl c d))).
  { intros c d Hc. unfold Whirlpool.addDataImpl. cbn [Whirlpool.m_sizeCounter].
    apply Uint128Facts.u128_add_assign_exact; [exact Hc | apply wrap_range; lia]. }
  apply (reachable_ind_inv
           (fun st => Uint128.in_range (Whirlpool.m_sizeCounter (m_core st)))).
  - cbn. unfold Uint128.in_range. cbn. lia.
  - intros s d Hs.
    apply (addData_core_preserves
             (fun c => Uint128.in_range (Whirlpool.m_sizeCounter c))); assumption.
  - intros s Hs. unfold Whirlpool.finalize, clear. cbn [m_core m_buffer].
    apply Himpl. unfold Whirlpool.pad. cbn [m_core Whirlpool.m_sizeCounter].
    apply Uint128Facts.u128_times8_exact.
    apply Uint128Facts.u128_add_assign_exact; [exact Hs | apply wrap_range; lia].
  - intros s _. cbn. unfold Uint128.in_range. cbn. lia.
Qed.

(** *** The six eager types, one at a time *)

Lemma md5_compose st a b :
  reachable MD5.fresh MD5.addData MD5.finalize MD5.reset st ->
  MD5.addData (MD5.addData st a) b = MD5.addData st (a ++ b).
Proof.
  intros Hst.
  apply (acc_compose MD5.BLOCK_SIZE MD5.addDataImpl (fun _ => True)
           (MD5.addDataImpl (m_core st))); auto.
  - unfold MD5.BLOCK_SIZE. lia.
  - pose proof (md5_counter_range st Hst) as Hc. destruct (m_core st) as [sc s].
    unfold MD5.addDataImpl. cbn [MD5.m_sizeCounter MD5.m_state length] in *.
    rewrite process_blocks_nil. f_equal. rewrite Z.add_0_r. apply wrap_small. exact Hc.
  - intros p x Hp _. unfold MD5.addDataImpl. cbn [MD5.m_sizeCounter MD5.m_state].
    f_equal; [rewrite wrap_add_l, length_app, Nat2Z.inj_add; f_equal; lia |].
    symmetry. apply process_blocks_app; [unfold MD5.BLOCK_SIZE; lia | exact Hp].
  - apply (proj1 buffer_below_block_size st Hst).
Qed.

Lemma has160_compose st a b :
  reachable HAS_160.fresh HAS_160.addData HAS_160.finalize HAS_160.reset st ->
  HAS_160.addData (HAS_160.addData st a) b = HAS_160.addData st (a ++ b).
Proof.
  intros Hst.
  apply (acc_compose HAS_160.BLOCK_SIZE HAS_160.addDataImpl (fun _ => True)
           (HAS_160.addDataImpl (m_core st))); auto.
  - unfold HAS_160.BLOCK_SIZE. lia.
  - pose proof (has160_counter_range st Hst) as Hc. destruct (m_core st) as [sc s].
    unfold HAS_160.addDataImpl. cbn [HAS_160.m_sizeCounter HAS_160.m_h length] in *.
    rewrite process_blocks_nil. f_equal. rewrite Z.add_0_r. apply wrap_small. exact Hc.
  - intros p x Hp _. unfold HAS_160.addDataImpl. cbn [HAS_160.m_sizeCounter HAS_160.m_h].
    f_equal; [rewrite wrap_add_l, length_app, Nat2Z.inj_add; f_equal; lia |].
    symmetry. apply process_blocks_app; [unfold HAS_160.BLOCK_SIZE; lia | exact Hp].
  - apply (proj1 (proj2 (proj2 buffer_below_block_size)) st Hst).
Qed.

Lemma rmd160_compose st a b :
  reachable RIPEMD_160.fresh RIPEMD_160.addData RIPEMD_160.finalize RIPEMD_160.reset st ->
  RIPEMD_160.addData (RIPEMD_160.addData st a) b = RIPEMD_160.addData st (a ++ b).
Proof.
  intros Hst.
  apply (acc_compose RIPEMD_160.BLOCK_SIZE RIPEMD_160.addDataImpl (fun _ => True)
           (RIPEMD_160.addDataImpl (m_core st))); auto.
  - unfold RIPEMD_160.BLOCK_SIZE. lia.
  - pose proof (rmd160_counter_range st Hst) as Hc. destruct (m_core st) as [sc s].
    unfold RIPEMD_160.addDataImpl.
    cbn [RIPEMD_160.m_sizeCounter RIPEMD_160.m_h length] in *.
    rewrite process_blocks_nil. f_equal. rewrite Z.add_0_r. apply wrap_small. exact Hc.
  - intros p x Hp _. unfold RIPEMD_160.addDataImpl.
    cbn [RIPEMD_160.m_sizeCounter RIPEMD_160.m_h].
    f_equal; [rewrite wrap_add_l, length_app, Nat2Z.inj_add; f_equal; lia |].
    symmetry. apply process_blocks_app; [unfold RIPEMD_160.BLOCK_SIZE; lia | exact Hp].
  - apply (proj1 (proj2 (proj2 (proj2 buffer_below_block_size))) st Hst).
Qed.

Lemma md2_compose st a b :
  reachable MD2.fresh MD2.addData MD2.finalize MD2.reset st ->
  MD2.addData (MD2.addData st a) b = MD2.addData st (a ++ b).
Proof.
  intros Hst.
  apply (acc_compose MD2.BLOCK_SIZE MD2.addDataImpl (fun _ => True)
           (MD2.addDataImpl (m_core st))); auto.
  - unfold MD2.BLOCK_SIZE. lia.
  - intros p x Hp _. unfold MD2.addDataImpl.
    symmetry. apply process_blocks_app; [unfold MD2.BLOCK_SIZE; lia | exact Hp].
  - apply (proj1 (proj2 buffer_below_block_size) st Hst).
Qed.

Lemma blake1_compose st a b :
  reachable Blake1_224.fresh Blake1_224.addData Blake1_224.finalize Blake1_224.reset st ->
  Blake1_224.addData (Blake1_224.addData st a) b = Blake1_224.addData st (a ++ b).
Proof.
  intros Hst.
  apply (acc_compose Blake1_224.BLOCK_SIZE (Blake1_224.addDataImpl 0) (fun _ => True)
           (Blake1_224.addDataImpl 0 (m_core st))); auto.
  - unfold Blake1_224.BLOCK_SIZE. lia.
  - intros p x Hp _. unfold Blake1_224.addDataImpl.
    symmetry. apply process_blocks_app; [unfold Blake1_224.BLOCK_SIZE; lia | exact Hp].
  - apply (proj1 (proj2 (proj2 (proj2 (proj2 buffer_below_block_size)))) st Hst).
Qed.

Lemma whirlpool_compose st a b :
  reachable Whirlpool.fresh Whirlpool.addData Whirlpool.finalize Whirlpool.reset st ->
  span_size_ok (a ++ b) ->
  Whirlpool.addData (Whirlpool.addData st a) b = Whirlpool.addData st (a ++ b).
Proof.
  intros Hst Hab.
  pose proof (whirlpool_counter_range st Hst) as [Hlo Hhi].
  set (V := Uint128.value (Whirlpool.m_sizeCounter (m_core st))).
  assert (HV : 0 <= V) by (unfold V, Uint128.value; nia).
  assert (Ha : span_size_ok a /\ span_size_ok b).
  { unfold span_size_ok in *. rewrite length_app in Hab. lia. }
  apply (acc_compose Whirlpool.BLOCK_SIZE Whirlpool.addDataImpl span_size_ok
           (fun p => Whirlpool.Members
                       (Uint128.Make (wrap 64 (V + Z.of_nat (length p)))
                                     (wrap 64 ((V + Z.of_nat (length p)) / 2 ^ 64)))
                       (process_blocks Whirlpool.BLOCK_SIZE Whirlpool.compress
                                       (Whirlpool.m_h (m_core st)) p)));
    try tauto;
    auto using WhirlpoolFacts.whirlpool_span_prefix, WhirlpoolFacts.whirlpool_span_suffix,
               WhirlpoolFacts.whirlpool_span_block.
  - unfold Whirlpool.BLOCK_SIZE. lia.
  - rewrite process_blocks_nil. cbn [length Z.of_nat]. rewrite Z.add_0_r.
    destruct (m_core st) as [[lo hi] h]. unfold V, Uint128.value in *.
    cbn [Whirlpool.m_sizeCounter Whirlpool.m_h Uint128.m_lo Uint128.m_hi] in *.
    f_equal. f_equal.
    + unfold wrap. change (2 ^ 64) with 18446744073709551616 in *.
      Z.to_euclidean_division_equations; nia.
    + unfold wrap. change (2 ^ 64) with 18446744073709551616 in *.
      Z.to_euclidean_division_equations; nia.
  - intros p x Hp Hx. unfold Whirlpool.addDataImpl.
    cbn [Whirlpool.m_sizeCounter Whirlpool.m_h]. f_equal.
    + rewrite counter_step; [| lia | unfold span_size_ok in Hx; lia].
      rewrite length_app, Nat2Z.inj_add, Z.add_assoc. reflexivity.
    + symmetry. apply process_blocks_app; [unfold Whirlpool.BLOCK_SIZE; lia | exact Hp].
  - apply (proj1 (proj2 (proj2 (proj2 (proj2 (proj2 buffer_below_block_size))))) st Hst).
Qed.

(** ** BLAKE2b: [addData] on any instance *)

Module Blake2From.
Import Blake2.
Section From.
Variable c : members.

Local Abbreviation processed := (Blake2_processed_from c).
Local Abbreviation absorbed := (Blake2_absorbed_from c).

Lemma blake2f_processed_app p a :
  (length p mod BLOCK_SIZE = 0)%nat ->
  addDataImpl false 0 (processed p) a = processed (p ++ a).
Proof.
  intros Hp. unfold Blake2_processed_from, addDataImpl.
  symmetry; apply process_blocks_app; [unfold BLOCK_SIZE; lia | exact Hp].
Qed.

Lemma blake2f_absorbed_intro p r :
  (length p mod BLOCK_SIZE = 0)%nat -> (1 <= length r <= BLOCK_SIZE)%nat ->
  absorbed (p ++ r) = Sink r (processed p).
Proof.
  intros Hp Hr. unfold Blake2_absorbed_from, lastn.
  rewrite (Blake2Facts.blake2_held_split p r Hp Hr).
  rewrite length_app.
  replace (length p + length r - length r)%nat with (length p) by lia.
  rewrite skipn_app, firstn_app, Nat.sub_diag, skipn_all, firstn_all. simpl.
  now rewrite app_nil_r.
Qed.

Lemma blake2f_absorbed_elim msg :
  msg <> [] ->
  exists p r, msg = p ++ r /\ (length p mod BLOCK_SIZE = 0)%nat /\
              (1 <= length r <= BLOCK_SIZE)%nat /\ absorbed msg = Sink r (processed p).
Proof.
  intros Hne. destruct (Blake2Facts.blake2_held_bounds msg Hne) as [Hb Hle].
  exists (firstn (length msg - held msg) msg), (skipn (length msg - held msg) msg).
  repeat split.
  - now rewrite firstn_skipn.
  - rewrite length_firstn, Nat.min_l by lia. apply Blake2Facts.blake2_held_aligned.
  - rewrite length_skipn. lia.
  - rewrite length_skipn. lia.
Qed.

Lemma blake2f_bulk_absorbed b p d :
  d <> [] -> (length p mod BLOCK_SIZE = 0)%nat ->
  bulk (Sink b (processed p)) d = absorbed (p ++ d).
Proof.
  intros Hne Hp. unfold bulk. cbn [m_core].
  set (remainder := if negb (length d mod BLOCK_SIZE =? 0)%nat
                    then (length d mod BLOCK_SIZE)%nat else BLOCK_SIZE).
  assert (Hlen : (0 < length d)%nat) by (destruct d; [congruence | simpl; lia]).
  assert (Hrem : (1 <= remainder <= BLOCK_SIZE)%nat /\ (remainder <= length d)%nat
                 /\ ((length d - remainder) mod BLOCK_SIZE = 0)%nat).
  { unfold remainder, BLOCK_SIZE in *.
    pose proof (Nat.div_mod_eq (length d) 128) as E.
    pose proof (Nat.mod_upper_bound (length d) 128).
    destruct (Nat.eqb_spec (length d mod 128) 0) as [H0|H0]; cbn [negb].
    - rewrite H0 in E. repeat split; try lia.
      replace (length d - 128)%nat with ((length d / 128 - 1) * 128)%nat by lia.
      apply multiple_mod_0.
    - repeat split; try lia.
      replace (length d - length d mod 128)%nat with (length d / 128 * 128)%nat by lia.
      apply multiple_mod_0. }
  destruct Hrem as (Hr1 & Hr2 & Hr3).
  rewrite blake2f_processed_app by exact Hp.
  replace (p ++ d) with ((p ++ firstn (length d - remainder) d)
                           ++ skipn (length d - remainder) d)
    by now rewrite <- app_assoc, firstn_skipn.
  rewrite blake2f_absorbed_intro; [reflexivity | | rewrite length_skipn; lia].
  rewrite length_app, length_firstn, Nat.min_l by lia.
  rewrite Nat.Div0.add_mod, Hp, Hr3. reflexivity.
Qed.

Lemma blake2f_addData_rec_absorbed fuel :
  forall p r d,
    (length p mod BLOCK_SIZE = 0)%nat -> (length r <= BLOCK_SIZE)%nat ->
    (r = [] -> p = []) -> (length d < fuel)%nat ->
    addData_rec fuel (Sink r (processed p)) d = Some (absorbed ((p ++ r) ++ d)).
Proof.
  induction fuel as [|fuel IH]; intros p r d Hp Hr Hnil Hfuel; [lia|].
  cbn [addData_rec]. destruct d as [|x d'].
  - rewrite app_nil_r. f_equal.
    destruct r as [|y r'].
    + rewrite (Hnil eq_refl). reflexivity.
    + symmetry. apply blake2f_absorbed_intro; [exact Hp | simpl in *; lia].
  - set (d := x :: d') in *. cbn [m_buffer m_core].
    destruct (Nat.eqb_spec (length r) BLOCK_SIZE) as [Hfull|Hnot].
    + f_equal. unfold clear. cbn [m_buffer m_core].
      rewrite blake2f_processed_app by exact Hp.
      apply blake2f_bulk_absorbed; [discriminate|].
      rewrite length_app, Nat.Div0.add_mod, Hp, Hfull. reflexivity.
    + destruct r as [|y r'].
      * rewrite (Hnil eq_refl). f_equal. simpl app.
        apply (blake2f_bulk_absorbed [] [] d); [discriminate | reflexivity].
      * set (r := y :: r') in *.
        set (len := Nat.min (BLOCK_SIZE - length r) (length d)).
        assert (Hlen : (1 <= len)%nat) by (unfold len, d; simpl length in *; lia).
        assert (Hlen' : (len <= length d)%nat) by (unfold len; lia).
        rewrite (IH p (r ++ firstn len d) (skipn len d)); try assumption.
        -- rewrite <- !app_assoc. now rewrite firstn_skipn.
        -- rewrite length_app, length_firstn. unfold len. lia.
        -- intros E. apply app_eq_nil in E. destruct E as [E _]. discriminate.
        -- rewrite length_skipn. lia.
Qed.

Lemma blake2f_addData_absorbed m d : addData (absorbed m) d = absorbed (m ++ d).
Proof.
  unfold addData.
  destruct m as [|x m'].
  - change (absorbed []) with (Sink [] (processed [])).
    rewrite (blake2f_addData_rec_absorbed (S (length d)) [] [] d); auto.
    unfold BLOCK_SIZE; simpl; lia.
  - destruct (blake2f_absorbed_elim (x :: m')) as (p & r & Hm & Hp & Hr & ->); [discriminate|].
    rewrite Hm.
    rewrite (blake2f_addData_rec_absorbed (S (length d)) p r d); auto; try lia.
    intros ->. simpl in Hr. lia.
Qed.
End From.

(** An instance is what its own members and waiting bytes make it. *)
Lemma blake2f_instance st :
  (length (m_buffer st) <= BLOCK_SIZE)%nat ->
  st = Blake2_absorbed_from (m_core st) (m_buffer st).
Proof.
  intros Hb. destruct st as [r c]. cbn [m_buffer m_core] in *.
  destruct r as [| x r]; [reflexivity |].
  symmetry. apply (blake2f_absorbed_intro c [] (x :: r)); [reflexivity |].
  cbn [length] in *. lia.
Qed.

Lemma blake2f_compose st a b :
  (length (m_buffer st) <= BLOCK_SIZE)%nat ->
  addData (addData st a) b = addData st (a ++ b).
Proof.
  intros Hb. pose proof (blake2f_instance st Hb) as E.
  destruct st as [r c]. cbn [m_buffer m_core] in E. rewrite E.
  rewrite !blake2f_addData_absorbed. rewrite app_assoc. reflexivity.
Qed.

Lemma blake2f_addData_rec_mono fuel :
  forall fuel' st d x,
    (fuel <= fuel')%nat -> addData_rec fuel st d = Some x ->
    addData_rec fuel' st d = Some x.
Proof.
  induction fuel as [| fuel IH]; intros fuel' st d x Hle H; [discriminate |].
  destruct fuel' as [| fuel']; [lia |].
  cbn [addData_rec] in *. destruct d as [| y d']; [exact H |].
  destruct (length (m_buffer st) =? BLOCK_SIZE)%nat; [exact H |].
  destruct (m_buffer st) as [| z buf]; [exact H |].
  apply IH; [lia | exact H].
Qed.

Lemma blake2f_depth_two st d :
  (length (m_buffer st) <= BLOCK_SIZE)%nat ->
  exists x, addData_rec 2 st d = Some x.
Proof.
  intros Hb. cbn [addData_rec]. destruct d as [| y d']; [eauto |].
  destruct (Nat.eqb_spec (length (m_buffer st)) BLOCK_SIZE) as [Hfull | Hnot]; [eauto |].
  destruct (m_buffer st) as [| z buf] eqn:Ebuf; [eauto |].
  set (d := y :: d') in *. set (r := z :: buf) in *.
  set (len := Nat.min (BLOCK_SIZE - length r) (length d)).
  destruct (skipn len d) as [| w rest] eqn:Erest; [eauto |].
  assert (Hlen : (len < length d)%nat).
  { assert (length (skipn len d) <> 0)%nat by (rewrite Erest; discriminate).
    rewrite length_skipn in *. lia. }
  cbn [m_buffer].
  assert (Hfull : length (r ++ firstn len d) = BLOCK_SIZE).
  { rewrite length_app, length_firstn. unfold len in *. lia. }
  rewrite Hfull, Nat.eqb_refl. eauto.
Qed.
End Blake2From.

(** ** The accumulator on every obtainable instance *)

Lemma obtainable_cases (P : forall H : hash_api, inst H -> Prop) :
  (forall st, reachable MD5.fresh MD5.addData MD5.finalize MD5.reset st -> P MD5_api st) ->
  (forall st, reachable MD2.fresh MD2.addData MD2.finalize MD2.reset st -> P MD2_api st) ->
  (forall st, reachable HAS_160.fresh HAS_160.addData HAS_160.finalize HAS_160.reset st ->
              P HAS_160_api st) ->
  (forall st, reachable RIPEMD_160.fresh RIPEMD_160.addData RIPEMD_160.finalize
                        RIPEMD_160.reset st -> P RIPEMD_160_api st) ->
  (forall st, reachable Blake1_224.fresh Blake1_224.addData Blake1_224.finalize
                        Blake1_224.reset st -> P Blake1_224_api st) ->
  (forall st, reachable Blake2.fresh Blake2.addData Blake2.finalize Blake2.reset st ->
              P Blake2_api st) ->
  (forall st, reachable Whirlpool.fresh Whirlpool.addData Whirlpool.finalize
                        Whirlpool.reset st -> P Whirlpool_api st) ->
  forall H, In H hash_types -> forall st, obtainable H st -> P H st.
Proof.
  intros H1 H2 H3 H4 H5 H6 H7 H HIn.
  unfold hash_types in HIn. cbn [In] in HIn.
  destruct HIn as [<- | [<- | [<- | [<- | [<- | [<- | [<- | []]]]]]]];
    intros st Hst; [apply H1 | apply H2 | apply H3 | apply H4 | apply H5 | apply H6
                    | apply H7]; exact Hst.
Qed.

(** X8.  An [addData] call with an empty span changes nothing, whatever
    the instance has been through: no member is written, nothing is
    compressed. *)
Theorem X8_addData_empty (H : hash_api) (st : inst H) :
  In H hash_types -> obtainable H st -> api_addData H st [] = st.
Proof.
  intros HIn Hst. revert H HIn st Hst.
  apply (obtainable_cases (fun H st => api_addData H st [] = st)); intros st Hst;
    cbn [api_addData MD5_api MD2_api HAS_160_api RIPEMD_160_api Blake1_224_api
         Blake2_api Whirlpool_api].
  - apply acc_addData_nil; [unfold MD5.BLOCK_SIZE; lia |].
    apply (proj1 buffer_below_block_size st Hst).
  - apply acc_addData_nil; [unfold MD2.BLOCK_SIZE; lia |].
    apply (proj1 (proj2 buffer_below_block_size) st Hst).
  - apply acc_addData_nil; [unfold HAS_160.BLOCK_SIZE; lia |].
    apply (proj1 (proj2 (proj2 buffer_below_block_size)) st Hst).
  - apply acc_addData_nil; [unfold RIPEMD_160.BLOCK_SIZE; lia |].
    apply (proj1 (proj2 (proj2 (proj2 buffer_below_block_size))) st Hst).
  - apply acc_addData_nil; [unfold Blake1_224.BLOCK_SIZE; lia |].
    apply (proj1 (proj2 (proj2 (proj2 (proj2 buffer_below_block_size)))) st Hst).
  - reflexivity.
  - apply acc_addData_nil; [unfold Whirlpool.BLOCK_SIZE; lia |].
    apply (proj1 (proj2 (proj2 (proj2 (proj2 (proj2 buffer_below_block_size))))) st Hst).
Qed.

Lemma X8_addData_empty_witness :
  api_addData MD5_api (api_addData MD5_api (api_fresh MD5_api) [1; 2; 3]) []
  = api_addData MD5_api (api_fresh MD5_api) [1; 2; 3].
Proof.
  apply (X8_addData_empty MD5_api).
  - unfold hash_types. cbn. tauto.
  - apply reach_addData. apply reach_fresh.
Defined.

(** X9.  Two [addData] calls in a row act as one call on the two spans
    joined, on every obtainable instance: one that holds a partial
    block, one that has been finalized, one that has been reset.  The
    joined span has to be a span (fewer than 2^64 bytes). *)
Theorem X9_addData_composes (H : hash_api) (st : inst H) (a b : list Z) :
  In H hash_types -> obtainable H st -> span_size_ok (a ++ b) ->
  api_addData H (api_addData H st a) b = api_addData H st (a ++ b).
Proof.
  intros HIn Hst Hab. revert H HIn st Hst.
  apply (obtainable_cases
           (fun H st => api_addData H (api_addData H st a) b = api_addData H st (a ++ b)));
    intros st Hst;
    cbn [api_addData MD5_api MD2_api HAS_160_api RIPEMD_160_api Blake1_224_api
         Blake2_api Whirlpool_api].
  - apply md5_compose. exact Hst.
  - apply md2_compose. exact Hst.
  - apply has160_compose. exact Hst.
  - apply rmd160_compose. exact Hst.
  - apply blake1_compose. exact Hst.
  - apply Blake2From.blake2f_compose.
    apply (proj2 (proj2 (proj2 (proj2 (proj2 (proj2 buffer_below_block_size))))) st Hst).
  - apply whirlpool_compose; assumption.
Qed.

Lemma X9_addData_composes_witness :
  api_addData Whirlpool_api
    (api_addData Whirlpool_api
       (api_finalize Whirlpool_api (api_addData Whirlpool_api (api_fresh Whirlpool_api) [9]))
       [1; 2])
    [3]
  = api_addData Whirlpool_api
      (api_finalize Whirlpool_api (api_addData Whirlpool_api (api_fresh Whirlpool_api) [9]))
      ([1; 2] ++ [3]).
Proof.
  apply (X9_addData_composes Whirlpool_api).
  - unfold hash_types. cbn. tauto.
  - apply reach_finalize. apply reach_addData. apply reach_fresh.
  - unfold span_size_ok. cbn. lia.
Defined.

(** X10.  The self-call of [Blake2::addData] is at most one level deep:
    on an instance whose accumulator holds at most one block, two levels
    of the recursion (the call and one self-call) always produce the
    result, which no deeper allowance changes. *)
Theorem X10_blake2_addData_depth (st : Blake2.t) (d : list Z) (fuel : nat) :
  (length (m_buffer st) <= Blake2.BLOCK_SIZE)%nat -> (2 <= fuel)%nat ->
  Blake2.addData_rec fuel st d = Some (Blake2.addData st d).
Proof.
  intros Hb Hfuel.
  destruct (Blake2From.blake2f_depth_two st d Hb) as [x Hx].
  rewrite (Blake2From.blake2f_addData_rec_mono 2 fuel st d x Hfuel Hx).
  f_equal. unfold Blake2.addData.
  destruct d as [| y d'].
  - cbn in Hx |- *. congruence.
  - rewrite (Blake2From.blake2f_addData_rec_mono 2 (S (length (y :: d'))) st (y :: d') x);
      [reflexivity | cbn [length]; lia | exact Hx].
Qed.

Lemma X10_blake2_addData_depth_witness :
  Blake2.addData_rec 2 (Blake2.addData Blake2.fresh [1; 2; 3]) (repeat 7 200)
  = Some (Blake2.addData (Blake2.addData Blake2.fresh [1; 2; 3]) (repeat 7 200)).
Proof.
  apply (X10_blake2_addData_depth (Blake2.addData Blake2.fresh [1; 2; 3]) (repeat 7 200) 2).
  - vm_compute. lia.
  - lia.
Defined.

(** X11.  The accumulator never holds a whole block between two calls,
    except in BLAKE2b, where it holds at most one: on every obtainable
    instance [m_buffer.size() < BLOCK_SIZE] for the six types that
    compress a full buffer at once and [m_buffer.size() <= BLOCK_SIZE]
    for BLAKE2b, so the [reserve] of the constructor is never outgrown
    by [addData]. *)
Theorem X11_accumulator_bound :
  (forall st, obtainable MD5_api st -> (length (m_buffer st) < MD5.BLOCK_SIZE)%nat)
  /\ (forall st, obtainable MD2_api st -> (length (m_buffer st) < MD2.BLOCK_SIZE)%nat)
  /\ (forall st, obtainable HAS_160_api st ->
                 (length (m_buffer st) < HAS_160.BLOCK_SIZE)%nat)
  /\ (forall st, obtainable RIPEMD_160_api st ->
                 (length (m_buffer st) < RIPEMD_160.BLOCK_SIZE)%nat)
  /\ (forall st, obtainable Blake1_224_api st ->
                 (length (m_buffer st) < Blake1_224.BLOCK_SIZE)%nat)
  /\ (forall st, obtainable Whirlpool_api st ->
                 (length (m_buffer st) < Whirlpool.BLOCK_SIZE)%nat)
  /\ (forall st, obtainable Blake2_api st ->
                 (length (m_buffer st) <= Blake2.BLOCK_SIZE)%nat).
Proof. exact buffer_below_block_size. Qed.

Lemma X11_accumulator_bound_witness :
  (length (m_buffer (Blake2.addData Blake2.fresh (repeat 1%Z 300))) <= Blake2.BLOCK_SIZE)%nat.
Proof.
  apply (proj2 (proj2 (proj2 (proj2 (proj2 (proj2 X11_accumulator_bound)))))).
  apply (reach_addData Blake2.fresh Blake2.addData Blake2.finalize Blake2.reset).
  apply reach_fresh.
Defined.

(** ** The padding that [finalize] appends *)

Lemma pad_layout (buf field : list Z) (len : nat) :
  let out := ((buf ++ [Z.shiftl 1 7]) ++ repeat 0 len) ++ field in
  length out = (length buf + 1 + len + length field)%nat
  /\ firstn (length buf) out = buf
  /\ nth (length buf) out 0 = 0x80
  /\ (forall i, (length buf < i < length buf + 1 + len)%nat -> nth i out 0 = 0).
Proof.
  cbv zeta. repeat match goal with |- _ /\ _ => split end.
  - rewrite !length_app, repeat_length. cbn [length]. lia.
  - rewrite <- !app_assoc. rewrite firstn_app, Nat.sub_diag, firstn_all. cbn [firstn].
    apply app_nil_r.
  - rewrite <- !app_assoc. rewrite app_nth2 by lia. rewrite Nat.sub_diag. reflexivity.
  - intros i Hi. rewrite app_nth1 by (rewrite !length_app, repeat_length; cbn [length]; lia).
    rewrite app_nth2 by (rewrite length_app; cbn [length]; lia).
    rewrite length_app. cbn [length]. apply nth_repeat.
Qed.

Lemma padded_as_intro (reserve field zeros : nat) (buf fld : list Z) :
  (length buf < 64)%nat -> (field <= reserve)%nat -> (reserve < 63)%nat ->
  length fld = field ->
  zeros = ((64 - ((length (buf ++ [Z.shiftl 1 7]) + reserve) mod 64))
           + (reserve - field))%nat ->
  padded_as reserve field buf (((buf ++ [Z.shiftl 1 7]) ++ repeat 0 zeros) ++ fld).
Proof.
  intros Hb Hfr Hres Hfld Hzeros.
  destruct (pad_layout buf fld zeros) as (Hlen & Hpre & H80 & Hz).
  assert (Elen : (length buf + 1 + zeros + field
                  = if (length buf + 1 + reserve <? 64)%nat then 64 else 128)%nat).
  { rewrite Hzeros. rewrite length_app. cbn [length].
    destruct (Nat.ltb_spec (length buf + 1 + reserve) 64) as [Hlt | Hge].
    - rewrite Nat.mod_small by lia. lia.
    - replace (length buf + 1 + reserve)%nat
        with ((length buf + 1 + reserve - 64) + 1 * 64)%nat by lia.
      rewrite Nat.Div0.mod_add. rewrite Nat.mod_small by lia. lia. }
  unfold padded_as. cbv zeta.
  repeat match goal with |- _ /\ _ => split end.
  - rewrite Hlen, Hfld, <- Elen. lia.
  - exact Hpre.
  - exact H80.
  - intros i Hi. apply Hz. rewrite Hlen, Hfld in Hi. lia.
Qed.

(** X12.  What [finalize] hands to the block processor is the buffer
    that its statements before the [addDataImpl] call have padded; it
    begins with the waiting bytes, goes on with the byte [0x80] and then
    holds zero bytes up to the length field.  It is one block when fewer
    than 55 bytes were waiting (fewer than 31 for Whirlpool, which keeps
    32 bytes for the length) and two blocks otherwise: with exactly 55
    (or 31) bytes waiting a second block is added. *)
Theorem X12_padding_layout :
  (forall st, (length (m_buffer st) < 64)%nat ->
              MD5.finalize st
              = Sink [] (MD5.addDataImpl (m_core (MD5.pad st)) (m_buffer (MD5.pad st)))
              /\ padded_as 8 8 (m_buffer st) (m_buffer (MD5.pad st)))
  /\ (forall st, (length (m_buffer st) < 64)%nat ->
                 HAS_160.finalize st
                 = Sink [] (HAS_160.addDataImpl (m_core (HAS_160.pad st))
                                                (m_buffer (HAS_160.pad st)))
                 /\ padded_as 8 8 (m_buffer st) (m_buffer (HAS_160.pad st)))
  /\ (forall st, (length (m_buffer st) < 64)%nat ->
                 RIPEMD_160.finalize st
                 = Sink [] (RIPEMD_160.addDataImpl (m_core (RIPEMD_160.pad st))
                                                   (m_buffer (RIPEMD_160.pad st)))
                 /\ padded_as 8 8 (m_buffer st) (m_buffer (RIPEMD_160.pad st)))
  /\ (forall st, (length (m_buffer st) < 64)%nat ->
                 Blake1_224.finalize st
                 = Sink [] (Blake1_224.addDataImpl (snd (Blake1_224.pad st))
                              (m_core (fst (Blake1_224.pad st)))
                              (m_buffer (fst (Blake1_224.pad st))))
                 /\ padded_as 8 8 (m_buffer st) (m_buffer (fst (Blake1_224.pad st))))
  /\ (forall st, (length (m_buffer st) < 64)%nat ->
                 Whirlpool.finalize st
                 = Sink [] (Whirlpool.addDataImpl (m_core (Whirlpool.pad st))
                                                  (m_buffer (Whirlpool.pad st)))
                 /\ padded_as 32 16 (m_buffer st) (m_buffer (Whirlpool.pad st))).
Proof.
  repeat match goal with |- _ /\ _ => split end; intros st Hb; split.
  - apply FinalizePad.md5_finalize_pad.
  - rewrite MD5Pad.md5_pad_buffer. cbv zeta.
    apply (padded_as_intro 8 8); try lia;
      try (rewrite length_app, !bytes_le_length; reflexivity);
      unfold MD5.BLOCK_SIZE; lia.
  - apply FinalizePad.has160_finalize_pad.
  - rewrite HAS_160Pad.has160_pad_buffer. cbv zeta.
    apply (padded_as_intro 8 8); try lia;
      try (rewrite length_app, !bytes_le_length; reflexivity);
      unfold HAS_160.BLOCK_SIZE; lia.
  - apply FinalizePad.rmd160_finalize_pad.
  - rewrite RIPEMD_160Pad.rmd160_pad_buffer. cbv zeta.
    apply (padded_as_intro 8 8); try lia;
      try (rewrite length_app, !bytes_le_length; reflexivity);
      unfold RIPEMD_160.BLOCK_SIZE; lia.
  - apply FinalizePad.blake1_finalize_pad.
  - rewrite Blake1_224Pad.blake1_pad_buffer. cbv zeta.
    apply (padded_as_intro 8 8); try lia;
      try (rewrite length_app, !bytes_be_length; reflexivity);
      unfold Blake1_224.BLOCK_SIZE; lia.
  - apply FinalizePad.whirlpool_finalize_pad.
  - rewrite WhirlpoolPad.whirlpool_pad_buffer. cbv zeta.
    apply (padded_as_intro 32 16); try lia;
      try (rewrite length_app, !bytes_be_length; reflexivity);
      unfold Whirlpool.BLOCK_SIZE; lia.
Qed.

Lemma X12_padding_layout_witness :
  MD5.finalize (MD5.addData MD5.fresh (repeat 97 55))
  = Sink [] (MD5.addDataImpl (m_core (MD5.pad (MD5.addData MD5.fresh (repeat 97 55))))
                             (m_buffer (MD5.pad (MD5.addData MD5.fresh (repeat 97 55)))))
  /\ padded_as 8 8 (m_buffer (MD5.addData MD5.fresh (repeat 97 55)))
                (m_buffer (MD5.pad (MD5.addData MD5.fresh (repeat 97 55)))).
Proof.
  apply (proj1 X12_padding_layout (MD5.addData MD5.fresh (repeat 97 55))).
  vm_compute. lia.
Defined.

(** ** [Blake1_224::finalize] and the bit counter *)

Module Blake1_224Final.
Import Blake1_224.

Lemma blake1_compress_counter pl s blk :
  m_sizeCounter (compress pl s blk)
  = wrap 64 (m_sizeCounter s + wrap 32 ((64 - pl) * 8)).
Proof. reflexivity. Qed.

Lemma blake1_pad_buffer_len st :
  length (m_buffer (fst (pad st)))
  = (length (m_buffer st) + 1 + (64 - (length (m_buffer st) + 1 + 8) mod 64) + 8)%nat.
Proof.
  pose proof (Blake1_224Pad.blake1_pad_buffer st) as E. cbv zeta in E. rewrite E.
  rewrite !length_app, !bytes_be_length, repeat_length. cbn [length].
  unfold BLOCK_SIZE. lia.
Qed.

Lemma blake1_pad_length st :
  (length (m_buffer st) < 64)%nat ->
  length (m_buffer (fst (pad st)))
  = (if (length (m_buffer st) <? 55)%nat then 64 else 128)%nat
  /\ snd (pad st)
     = Z.of_nat (if (length (m_buffer st) <? 55)%nat then 64 else 128)
       - Z.of_nat (length (m_buffer st)).
Proof.
  intros Hb. split.
  - pose proof (blake1_pad_buffer_len st) as E. rewrite E.
    destruct (Nat.ltb_spec (length (m_buffer st)) 55) as [Hlt | Hge].
    + rewrite Nat.mod_small by lia. lia.
    + replace (length (m_buffer st) + 1 + 8)%nat
        with ((length (m_buffer st) - 55) + 1 * 64)%nat by lia.
      rewrite Nat.Div0.mod_add. rewrite Nat.mod_small by lia. lia.
  - unfold pad. cbn [snd]. rewrite length_app. cbn [length]. unfold BLOCK_SIZE.
    destruct (Nat.ltb_spec (length (m_buffer st)) 55) as [Hlt | Hge].
    + rewrite Nat.mod_small by lia. rewrite wrap_small by lia. lia.
    + replace (length (m_buffer st) + 1 + 8)%nat
        with ((length (m_buffer st) - 55) + 1 * 64)%nat by lia.
      rewrite Nat.Div0.mod_add. rewrite Nat.mod_small by lia.
      rewrite wrap_small by lia. lia.
Qed.

Lemma blake1_two_blocks {H} (f : H -> list Z -> H) (h : H) (data : list Z) :
  length data = 128%nat ->
  process_blocks 64 f h data = f (f h (firstn 64 data)) (skipn 64 data).
Proof.
  intros Hlen. rewrite <- (firstn_skipn 64 data) at 1.
  rewrite process_blocks_app;
    [| lia | rewrite length_firstn, Hlen; reflexivity].
  rewrite !process_blocks_one; try lia; try reflexivity;
    rewrite ?length_firstn, ?length_skipn; lia.
Qed.

Lemma blake1_finalize_unfold st :
  finalize st
  = Sink [] (addDataImpl (snd (pad st)) (m_core st) (m_buffer (fst (pad st)))).
Proof.
  assert (Ecore : m_core (fst (pad st)) = m_core st) by (unfold pad; reflexivity).
  unfold finalize. rewrite <- Ecore. destruct (pad st) as [st' pl]. reflexivity.
Qed.

Lemma blake1_finalize_short st :
  (length (m_buffer st) < 55)%nat ->
  let r := Z.of_nat (length (m_buffer st)) in
  finalize st = Sink [] (compress (64 - r) (m_core st) (m_buffer (fst (pad st))))
  /\ m_sizeCounter (m_core (finalize st)) = wrap 64 (m_sizeCounter (m_core st) + 8 * r).
Proof.
  intros Hb r.
  destruct (blake1_pad_length st ltac:(lia)) as [Hlen Hpl]. revert Hlen Hpl.
  destruct (Nat.ltb_spec (length (m_buffer st)) 55) as [_ | ]; [| lia].
  change (Z.of_nat 64) with 64. intros Hlen Hpl.
  assert (E : finalize st
              = Sink [] (compress (64 - r) (m_core st) (m_buffer (fst (pad st))))).
  { rewrite blake1_finalize_unfold, Hpl. unfold addDataImpl.
    rewrite process_blocks_one by (unfold BLOCK_SIZE; lia). reflexivity. }
  split; [exact E |].
  rewrite E. cbn [m_core]. rewrite blake1_compress_counter.
  f_equal. f_equal. rewrite wrap_small by (unfold r; lia). lia.
Qed.

Lemma blake1_finalize_long st :
  (55 <= length (m_buffer st) < 64)%nat ->
  let r := Z.of_nat (length (m_buffer st)) in
  let padded := m_buffer (fst (pad st)) in
  finalize st
  = Sink [] (compress (128 - r) (compress (128 - r) (m_core st) (firstn 64 padded))
                      (skipn 64 padded))
  /\ wrap 32 ((64 - (128 - r)) * 8) = 2 ^ 32 - 8 * (64 - r)
  /\ m_sizeCounter (m_core (finalize st))
     = wrap 64 (m_sizeCounter (m_core st) + 2 * (2 ^ 32 - 8 * (64 - r))).
Proof.
  intros Hb r padded.
  destruct (blake1_pad_length st ltac:(lia)) as [Hlen Hpl]. revert Hlen Hpl.
  destruct (Nat.ltb_spec (length (m_buffer st)) 55) as [ | _]; [lia |].
  change (Z.of_nat 128) with 128. intros Hlen Hpl.
  assert (E : finalize st
              = Sink [] (compress (128 - r)
                           (compress (128 - r) (m_core st) (firstn 64 padded))
                           (skipn 64 padded))).
  { rewrite blake1_finalize_unfold, Hpl. unfold addDataImpl, BLOCK_SIZE, padded.
    rewrite blake1_two_blocks by exact Hlen. reflexivity. }
  assert (W : wrap 32 ((64 - (128 - r)) * 8) = 2 ^ 32 - 8 * (64 - r)).
  { unfold wrap, r. change (2 ^ 32) with 4294967296.
    replace ((64 - (128 - Z.of_nat (length (m_buffer st)))) * 8)
      with ((4294967296 - 8 * (64 - Z.of_nat (length (m_buffer st)))) + (-1) * 4294967296)
      by lia.
    rewrite Z.mod_add by lia. apply Z.mod_small. lia. }
  split; [exact E |]. split; [exact W |].
  rewrite E. cbn [m_core]. rewrite !blake1_compress_counter, W.
  rewrite wrap_add_l. f_equal. lia.
Qed.
End Blake1_224Final.

(** X13.  [Blake1_224::finalize] with fewer than 55 bytes waiting
    compresses one block with [paddingLen = 64 - r], which advances the
    bit counter by [8 r] (by nothing, and without mixing the counter
    into [v], when [r = 0]); after a message of [L] bytes fed to a fresh
    instance the counter is then [8 L] modulo 2^64.  With 55 to 63
    bytes waiting it compresses two blocks, both with [paddingLen =
    128 - r]; the [uint32_t] expression [(BLOCK_SIZE - paddingLen) * 8]
    then wraps to [2^32 - 8 (64 - r)], and the counter advances by that
    twice. *)
Theorem X13_blake1_finalize_counter (st : Blake1_224.t) (chunks : list (list Z)) :
  let r := Z.of_nat (length (m_buffer st)) in
  let c := Blake1_224.m_sizeCounter (m_core st) in
  let padded := m_buffer (fst (Blake1_224.pad st)) in
  ((length (m_buffer st) < 55)%nat ->
     Blake1_224.finalize st
     = Sink [] (Blake1_224.compress (64 - r) (m_core st) padded)
     /\ Blake1_224.m_sizeCounter (m_core (Blake1_224.finalize st)) = wrap 64 (c + 8 * r))
  /\ ((55 <= length (m_buffer st) < 64)%nat ->
     Blake1_224.finalize st
     = Sink [] (Blake1_224.compress (128 - r)
                  (Blake1_224.compress (128 - r) (m_core st) (firstn 64 padded))
                  (skipn 64 padded))
     /\ wrap 32 ((64 - (128 - r)) * 8) = 2 ^ 32 - 8 * (64 - r)
     /\ Blake1_224.m_sizeCounter (m_core (Blake1_224.finalize st))
        = wrap 64 (c + 2 * (2 ^ 32 - 8 * (64 - r))))
  /\ ((length (concat chunks) mod 64 < 55)%nat ->
     Blake1_224.m_sizeCounter
       (m_core (Blake1_224.finalize (feed Blake1_224.addData Blake1_224.fresh chunks)))
     = (8 * Z.of_nat (length (concat chunks))) mod 2 ^ 64).
Proof.
  cbv zeta. split; [| split].
  - apply Blake1_224Final.blake1_finalize_short.
  - apply Blake1_224Final.blake1_finalize_long.
  - intros Hr. rewrite Blake1_224Facts.blake1_feed_absorbed.
    set (msg := concat chunks) in *.
    pose proof (Blake1_224Facts.blake1_buffer_absorbed msg) as Hbuf.
    unfold Blake1_224.BLOCK_SIZE in Hbuf.
    destruct (Blake1_224Final.blake1_finalize_short (Blake1_224.absorbed msg)) as [_ Hc];
      [rewrite Hbuf; exact Hr |].
    rewrite Hc, Hbuf.
    unfold Blake1_224.absorbed, Accumulator.absorbed. cbn [m_core].
    rewrite Blake1_224Pad.blake1_counter_processed, wrap_add_l.
    rewrite length_firstn. unfold Accumulator.whole, Blake1_224.BLOCK_SIZE.
    pose proof (Nat.div_mod_eq (length msg) 64) as E.
    rewrite Nat.min_l by lia. rewrite Nat.div_mul by lia.
    unfold wrap. f_equal. lia.
Qed.

Lemma X13_blake1_finalize_counter_witness :
  Blake1_224.m_sizeCounter
    (m_core (Blake1_224.finalize (Blake1_224.addData Blake1_224.fresh (repeat 97 60))))
  = wrap 64 (Blake1_224.m_sizeCounter
               (m_core (Blake1_224.addData Blake1_224.fresh (repeat 97 60)))
             + 2 * (2 ^ 32 - 8 * (64 - Z.of_nat 60))).
Proof.
  apply (proj1 (proj2 (X13_blake1_finalize_counter
                         (Blake1_224.addData Blake1_224.fresh (repeat 97 60)) []))).
  vm_compute. lia.
Defined.

(** ** The digest as bytes and as text *)

Lemma string_length_append (s1 s2 : string) :
  String.length (String.append s1 s2) = (String.length s1 + String.length s2)%nat.
Proof. induction s1 as [| c s1 IH]; cbn; [reflexivity | now rewrite IH]. Qed.

Lemma string_forallb_append p (s1 s2 : string) :
  string_forallb p (String.append s1 s2) = string_forallb p s1 && string_forallb p s2.
Proof.
  induction s1 as [| c s1 IH]; cbn; [reflexivity |]. rewrite IH. apply andb_assoc.
Qed.

Lemma hex_digit_ok n : 0 <= n < 16 -> is_hex_char (hex_digit n) = true.
Proof.
  intros [Hn Hlt]. pattern n. apply small_cases with (k := 16%nat); [lia | lia |].
  intros i Hi. do 16 (destruct i as [| i]; [vm_compute; reflexivity |]). lia.
Qed.

Lemma hex2_ok b :
  is_byte b -> String.length (hex2 b) = 2%nat /\ string_forallb is_hex_char (hex2 b) = true.
Proof.
  intros Hb. unfold is_byte in Hb. split; [reflexivity |].
  unfold hex2. cbn [string_forallb].
  rewrite !hex_digit_ok; [reflexivity | |].
  - apply Z.mod_pos_bound. lia.
  - split; [apply Z.div_pos; lia | apply Z.div_lt_upper_bound; lia].
Qed.

Lemma hex_fold_ok v :
  Forall is_byte v ->
  forall acc,
    String.length (fold_left (fun ret i => String.append ret (hex2 i)) v acc)
    = (String.length acc + 2 * length v)%nat
    /\ (string_forallb is_hex_char acc = true ->
        string_forallb is_hex_char
          (fold_left (fun ret i => String.append ret (hex2 i)) v acc) = true).
Proof.
  induction 1 as [| b v Hb Hv IH]; intros acc; cbn [fold_left length].
  - split; [lia | auto].
  - destruct (hex2_ok b Hb) as [Hl Hc].
    destruct (IH (String.append acc (hex2 b))) as [IHl IHc]. split.
    + rewrite IHl, string_length_append, Hl. lia.
    + intros Hacc. apply IHc. rewrite string_forallb_append, Hacc, Hc. reflexivity.
Qed.

Lemma hex_of_bytes_ok v :
  Forall is_byte v ->
  String.length (hex_of_bytes v) = (2 * length v)%nat
  /\ string_forallb is_hex_char (hex_of_bytes v) = true.
Proof.
  intros Hv. unfold hex_of_bytes.
  destruct (hex_fold_ok v Hv EmptyString) as [Hl Hc]. split; [exact Hl | now apply Hc].
Qed.

Lemma bytes_le_bytes n w : Forall is_byte (bytes_le n w).
Proof.
  unfold bytes_le. apply Forall_forall. intros b Hb.
  apply in_map_iff in Hb. destruct Hb as (j & <- & _).
  apply (ror_range 8). lia.
Qed.

Lemma bytes_be_bytes n w : Forall is_byte (bytes_be n w).
Proof.
  unfold bytes_be. apply Forall_forall. intros b Hb.
  apply in_map_iff in Hb. destruct Hb as (j & <- & _).
  apply (ror_range 8). lia.
Qed.

Lemma flat_map_bytes (f : Z -> list Z) ws :
  (forall w, Forall is_byte (f w)) -> Forall is_byte (flat_map f ws).
Proof.
  intros Hf. induction ws as [| w ws IH]; cbn [flat_map]; [constructor |].
  apply Forall_app. split; [apply Hf | exact IH].
Qed.

(** *** MD2 works on bytes *)

Lemma Forall_upd {A} (P : A -> Prop) i v (l : list A) :
  Forall P l -> P v -> Forall P (upd i v l).
Proof.
  intros Hl Hv. revert i. induction Hl as [| x l Hx Hl IH]; intros i; cbn [upd].
  - destruct i; constructor.
  - destruct i as [| i]; constructor; auto.
Qed.

Lemma Forall_take {A} (P : A -> Prop) n (l : list A) : Forall P l -> Forall P (firstn n l).
Proof.
  intros Hl. rewrite Forall_forall in *. intros x Hx. apply Hl.
  rewrite <- (firstn_skipn n l). apply in_or_app. left. exact Hx.
Qed.

Lemma Forall_drop {A} (P : A -> Prop) n (l : list A) : Forall P l -> Forall P (skipn n l).
Proof.
  intros Hl. rewrite Forall_forall in *. intros x Hx. apply Hl.
  rewrite <- (firstn_skipn n l). apply in_or_app. right. exact Hx.
Qed.

Lemma at_byte l i : Forall is_byte l -> is_byte (at_ l i).
Proof.
  intros Hl. unfold at_. destruct (Nat.lt_ge_cases i (length l)) as [Hlt | Hge].
  - rewrite Forall_forall in Hl. apply Hl. apply nth_In. exact Hlt.
  - rewrite nth_overflow by exact Hge. unfold is_byte. lia.
Qed.

Lemma lxor_byte a b : is_byte a -> is_byte b -> is_byte (Z.lxor a b).
Proof.
  unfold is_byte. intros Ha Hb. change 256 with (2 ^ 8).
  apply range_of_bits; [lia | apply Z.lxor_nonneg; lia |].
  intros n Hn. rewrite Z.lxor_spec.
  rewrite (testbit_above a 8 n), (testbit_above b 8 n) by (change (2 ^ 8) with 256; lia).
  reflexivity.
Qed.

Lemma md2_piSubst_bytes : Forall is_byte MD2.piSubst.
Proof.
  apply Forall_forall. intros b Hb.
  assert (H : forallb (fun b => (0 <=? b) && (b <? 256)) MD2.piSubst = true)
    by (vm_compute; reflexivity).
  rewrite forallb_forall in H. specialize (H b Hb).
  apply andb_prop in H. destruct H as [H1 H2].
  apply Z.leb_le in H1. apply Z.ltb_lt in H2. split; assumption.
Qed.

Module MD2Bytes.
Import MD2.

Lemma md2_checksum_steps_bytes m l :
  Forall is_byte m ->
  forall cs, Forall is_byte (fst cs) -> is_byte (snd cs) ->
    Forall is_byte (fst (fold_left (checksum_step m) l cs))
    /\ is_byte (snd (fold_left (checksum_step m) l cs)).
Proof.
  intros Hm. induction l as [| j l IH]; intros [C L] HC HL; cbn [fold_left fst snd] in *.
  - split; assumption.
  - apply IH; unfold checksum_step; cbn [fst snd].
    + apply Forall_upd; [exact HC |].
      apply lxor_byte; [apply at_byte; exact HC | apply at_byte; exact md2_piSubst_bytes].
    + apply at_byte. apply Forall_upd; [exact HC |].
      apply lxor_byte; [apply at_byte; exact HC | apply at_byte; exact md2_piSubst_bytes].
Qed.

Lemma md2_load_steps_bytes m l :
  Forall is_byte m -> forall x, Forall is_byte x -> Forall is_byte (fold_left (load_step m) l x).
Proof.
  intros Hm. induction l as [| j l IH]; intros x Hx; cbn [fold_left]; [exact Hx |].
  apply IH. unfold load_step.
  assert (H1 : Forall is_byte (upd (j + 16) (at_ m j) x))
    by (apply Forall_upd; [exact Hx | apply at_byte; exact Hm]).
  apply Forall_upd; [exact H1 |].
  apply lxor_byte; apply at_byte; exact H1.
Qed.

Lemma md2_subst_steps_bytes l :
  forall xt, Forall is_byte (fst xt) -> Forall is_byte (fst (fold_left subst_step l xt)).
Proof.
  induction l as [| k l IH]; intros [x t] Hx; cbn [fold_left fst] in *; [exact Hx |].
  apply IH. unfold subst_step. cbn [fst].
  apply Forall_upd; [exact Hx |].
  apply lxor_byte; [apply at_byte; exact Hx | apply at_byte; exact md2_piSubst_bytes].
Qed.

Lemma md2_round_steps_bytes l :
  forall xt, Forall is_byte (fst xt) -> Forall is_byte (fst (fold_left round_step l xt)).
Proof.
  induction l as [| j l IH]; intros xt Hx; cbn [fold_left]; [exact Hx |].
  apply IH. unfold round_step.
  pose proof (md2_subst_steps_bytes (seq 0 48) xt Hx) as H.
  revert H. generalize (seq 0 48). intros l0 H.
  destruct (fold_left subst_step l0 xt) as [x t]. exact H.
Qed.

Lemma md2_compress_bytes c m :
  Forall is_byte m -> MD2_bytes_members c -> MD2_bytes_members (compress c m).
Proof.
  intros Hm (Hx & HC & HL). rewrite MD2Sizes.md2_compress_eq.
  unfold MD2_bytes_members. cbn [m_x m_checksum m_checksumL].
  destruct (md2_checksum_steps_bytes m (seq 0 16) Hm (m_checksum c, m_checksumL c) HC HL)
    as [H1 H2].
  repeat match goal with |- _ /\ _ => split end; try assumption.
  apply md2_round_steps_bytes. cbn [fst]. apply md2_load_steps_bytes; assumption.
Qed.

Lemma md2_impl_bytes c data :
  Forall is_byte data -> MD2_bytes_members c -> MD2_bytes_members (addDataImpl c data).
Proof.
  intros Hd Hc. unfold addDataImpl, process_blocks.
  apply fold_left_preserves; [| exact Hc].
  intros a i Ha. apply md2_compress_bytes; [| exact Ha].
  unfold block. apply Forall_take. apply Forall_drop. exact Hd.
Qed.

Lemma md2_finalize_bytes st :
  Forall is_byte (m_buffer st) -> MD2_bytes_members (m_core st) ->
  MD2_bytes_members (m_core (finalize st)).
Proof.
  intros Hb Hc. unfold finalize, clear, pad. cbn [m_core m_buffer].
  assert (H1 : MD2_bytes_members
                 (addDataImpl (m_core st)
                    (m_buffer st
                     ++ repeat (wrap 8 (Z.of_nat (BLOCK_SIZE
                                                  - length (m_buffer st) mod BLOCK_SIZE)))
                               (BLOCK_SIZE - length (m_buffer st) mod BLOCK_SIZE)))).
  { apply md2_impl_bytes; [| exact Hc]. apply Forall_app. split; [exact Hb |].
    apply Forall_forall. intros x Hx. apply repeat_spec in Hx. subst x.
    apply (wrap_range 8). lia. }
  apply md2_impl_bytes; [| exact H1]. apply H1.
Qed.

Lemma md2_digest_bytes chunks :
  Forall (Forall is_byte) chunks ->
  Forall is_byte (toVector (finalize (feed addData fresh chunks))).
Proof.
  intros Hch. unfold toVector. apply Forall_take.
  assert (Hmsg : Forall is_byte (concat chunks)).
  { induction Hch as [| c cs Hc Hcs IH]; cbn [concat]; [constructor |].
    apply Forall_app. split; assumption. }
  rewrite MD2Facts.md2_feed_absorbed.
  apply md2_finalize_bytes; unfold absorbed, Accumulator.absorbed; cbn [m_buffer m_core].
  - apply Forall_drop. exact Hmsg.
  - apply md2_impl_bytes; [apply Forall_take; exact Hmsg |].
    unfold init, fresh, reset, MD2_bytes_members. cbn [m_core m_x m_checksum m_checksumL].
    repeat match goal with |- _ /\ _ => split end;
      try (apply Forall_forall; intros x Hx; apply repeat_spec in Hx; subst x);
      unfold is_byte; lia.
Qed.
End MD2Bytes.

(** X14.  The digest of a message of bytes is a sequence of bytes, and
    the text [toString] returns has two characters for each byte of
    [toVector], every one of them a digit or a lower-case letter from
    [a] to [f]. *)
Theorem X14_digest_text (H : hash_api) (chunks : list (list Z)) :
  In H hash_types -> Forall (Forall is_byte) chunks ->
  let '(v, s) := digest_of H chunks in
  Forall is_byte v
  /\ String.length s = (2 * length v)%nat
  /\ string_forallb is_hex_char s = true.
Proof.
  intros HIn Hch. unfold digest_of.
  assert (G : forall v, Forall is_byte v ->
                        Forall is_byte v
                        /\ String.length (hex_of_bytes v) = (2 * length v)%nat
                        /\ string_forallb is_hex_char (hex_of_bytes v) = true).
  { intros v Hv. split; [exact Hv | apply hex_of_bytes_ok; exact Hv]. }
  unfold hash_types in HIn. cbn [In] in HIn.
  destruct HIn as [<- | [<- | [<- | [<- | [<- | [<- | [<- | []]]]]]]];
    cbn [inst api_fresh api_addData api_finalize api_toVector api_toString
         MD5_api MD2_api HAS_160_api RIPEMD_160_api Blake1_224_api Blake2_api
         Whirlpool_api].
  - apply G. apply flat_map_bytes. apply bytes_le_bytes.
  - apply G. apply MD2Bytes.md2_digest_bytes. exact Hch.
  - apply G. apply flat_map_bytes. apply bytes_le_bytes.
  - apply G. apply flat_map_bytes. apply bytes_le_bytes.
  - apply G. apply flat_map_bytes. apply bytes_be_bytes.
  - apply G. apply flat_map_bytes. apply bytes_le_bytes.
  - unfold Whirlpool.toString, Whirlpool.toVector.
    apply G. apply flat_map_bytes. apply bytes_be_bytes.
Qed.

Lemma X14_digest_text_witness :
  let '(v, s) := digest_of MD2_api [[97; 98]; [99]] in
  Forall is_byte v
  /\ String.length s = (2 * length v)%nat
  /\ string_forallb is_hex_char s = true.
Proof.
  apply (X14_digest_text MD2_api [[97; 98]; [99]]).
  - unfold hash_types. cbn. tauto.
  - repeat constructor; unfold is_byte; lia.
Defined.

(** ** The class [Buffer] *)

Lemma firstn_upd_end {A} (v : A) (l : list A) (e : nat) :
  (e < length l)%nat -> firstn (S e) (upd e v l) = firstn e l ++ [v].
Proof.
  revert l. induction e as [| e IH]; intros l He; destruct l as [| x l];
    cbn [length] in He; try lia.
  - reflexivity.
  - cbn [upd firstn app]. f_equal. apply IH. lia.
Qed.

Lemma firstn_upd {A} (v : A) (l : list A) (n i : nat) :
  firstn n (upd i v l) = upd i v (firstn n l).
Proof.
  revert l i. induction n as [| n IH]; intros l i.
  - destruct l, i; reflexivity.
  - destruct l as [| x l]; [destruct i; reflexivity |].
    destruct i as [| i]; cbn [upd firstn]; [reflexivity |]. f_equal. apply IH.
Qed.

Lemma at_upd_same (v : Z) (l : list Z) (i : nat) :
  (i < length l)%nat -> at_ (upd i v l) i = v.
Proof.
  unfold at_. revert l. induction i as [| i IH]; intros l Hi; destruct l as [| x l];
    cbn [length] in Hi; try lia.
  - reflexivity.
  - cbn [upd nth]. apply IH. lia.
Qed.

Module BufferFacts.
Import Buffer.
Section Facts.
Variable N : nat.
Hypothesis N_size_t : Z.of_nat N < 2 ^ 64.

Lemma buffer_content_length b : wf N b -> length (content b) = size b.
Proof.
  intros [Ha He]. unfold content, size. rewrite length_firstn. lia.
Qed.

Lemma buffer_put v b :
  wf N b -> (m_dataEndIdx b < N)%nat ->
  wf N (put v b) /\ content (put v b) = content b ++ [v]
  /\ size (put v b) = S (size b).
Proof.
  intros [Ha He] Hlt. unfold wf, content, size, put. cbn [m_array m_dataEndIdx].
  rewrite upd_length. repeat split; try lia.
  apply firstn_upd_end. lia.
Qed.

Lemma buffer_iter_put v count :
  forall b, wf N b -> (m_dataEndIdx b + count <= N)%nat ->
    wf N (Nat.iter count (put v) b)
    /\ content (Nat.iter count (put v) b) = content b ++ repeat v count
    /\ size (Nat.iter count (put v) b) = (size b + count)%nat.
Proof.
  induction count as [| n IH]; intros b Hwf Hle.
  - change (Nat.iter 0 (put v) b) with b. cbn [repeat].
    rewrite app_nil_r, Nat.add_0_r. auto.
  - change (Nat.iter (S n) (put v) b) with (put v (Nat.iter n (put v) b)).
    destruct (IH b Hwf ltac:(lia)) as (Hwf' & Hc & Hs).
    unfold size in Hs.
    destruct (buffer_put v (Nat.iter n (put v) b) Hwf' ltac:(lia)) as (Hwf'' & Hc' & Hs').
    split; [exact Hwf'' | split].
    + rewrite Hc', Hc, <- app_assoc. f_equal.
      change (v :: repeat v n) with (repeat v (S n)).
      rewrite <- repeat_cons. reflexivity.
    + rewrite Hs'. unfold size. lia.
Qed.

Lemma buffer_fill_ok b v count :
  wf N b -> (1 <= count)%nat -> (size b + count <= N)%nat ->
  exists b', fill N b v count = Some b' /\ wf N b'
             /\ content b' = content b ++ repeat v count
             /\ size b' = (size b + count)%nat.
Proof.
  intros Hwf Hc Hle. unfold size in Hle. unfold fill, at_ok.
  rewrite wrap_small by lia.
  destruct (Z.ltb_spec (Z.of_nat (m_dataEndIdx b) + Z.of_nat count - 1) (Z.of_nat N));
    [| lia].
  eexists. split; [reflexivity |]. apply buffer_iter_put; assumption.
Qed.

Lemma buffer_fill_overflow b v count :
  wf N b -> (1 <= count)%nat -> (N < size b + count)%nat ->
  Z.of_nat (size b) + Z.of_nat count <= 2 ^ 64 ->
  fill N b v count = None.
Proof.
  intros Hwf Hc Hgt Hsz. unfold size in *. unfold fill, at_ok.
  rewrite wrap_small by lia.
  destruct (Z.ltb_spec (Z.of_nat (m_dataEndIdx b) + Z.of_nat count - 1) (Z.of_nat N));
    [lia | reflexivity].
Qed.

Lemma buffer_fill_zero b v :
  wf N b -> fill N b v 0 = if empty b then None else Some b.
Proof.
  intros [Ha He]. unfold fill, at_ok, empty.
  change (Nat.iter 0 (put v) b) with b.
  destruct (Nat.eqb_spec (m_dataEndIdx b) 0) as [E | E].
  - rewrite E. change (wrap 64 (Z.of_nat 0 + Z.of_nat 0 - 1)) with (2 ^ 64 - 1).
    destruct (Z.ltb_spec (2 ^ 64 - 1) (Z.of_nat N)); [lia | reflexivity].
  - rewrite wrap_small by lia.
    destruct (Z.ltb_spec (Z.of_nat (m_dataEndIdx b) + Z.of_nat 0 - 1) (Z.of_nat N));
      [reflexivity | lia].
Qed.

Lemma buffer_push_back_none data :
  fold_left (fun ob x => match ob with Some b => fill N b x 1 | None => None end)
            data None = None.
Proof. induction data as [| x data IH]; [reflexivity | exact IH]. Qed.

Lemma buffer_push_back_ok data :
  forall b, wf N b -> (size b + length data <= N)%nat ->
    exists b', push_back N b data = Some b' /\ wf N b'
               /\ content b' = content b ++ data
               /\ size b' = (size b + length data)%nat.
Proof.
  induction data as [| x data IH]; intros b Hwf Hle.
  - exists b. cbn [push_back fold_left length]. rewrite app_nil_r, Nat.add_0_r. auto.
  - cbn [length] in Hle.
    destruct (buffer_fill_ok b x 1 Hwf ltac:(lia) ltac:(lia)) as (b1 & Hf & Hwf1 & Hc1 & Hs1).
    destruct (IH b1 Hwf1 ltac:(lia)) as (b' & Hp & Hwf' & Hc' & Hs').
    exists b'. unfold push_back in *. cbn [fold_left]. rewrite Hf.
    split; [exact Hp | split; [exact Hwf' | split]].
    + rewrite Hc', Hc1, <- app_assoc. reflexivity.
    + rewrite Hs', Hs1. cbn [length]. lia.
Qed.

Lemma buffer_push_back_overflow data :
  forall b, wf N b -> (N < size b + length data)%nat -> push_back N b data = None.
Proof.
  induction data as [| x data IH]; intros b Hwf Hgt.
  - cbn [length] in Hgt. destruct Hwf as [_ He]. unfold size in Hgt. lia.
  - unfold push_back. cbn [fold_left].
    destruct (Nat.eq_dec (size b) N) as [Hfull | Hroom].
    + rewrite (buffer_fill_overflow b x 1 Hwf); try lia.
      apply buffer_push_back_none.
    + assert (Hlt : (size b < N)%nat) by (destruct Hwf as [_ He]; unfold size in *; lia).
      destruct (buffer_fill_ok b x 1 Hwf ltac:(lia) ltac:(lia))
        as (b1 & Hf & Hwf1 & Hc1 & Hs1).
      rewrite Hf. apply (IH b1 Hwf1). cbn [length] in Hgt. lia.
Qed.

Lemma buffer_create_wf : wf N (create N) /\ content (create N) = [] /\ size (create N) = 0%nat.
Proof.
  unfold wf, content, size, create. cbn [m_array m_dataEndIdx].
  rewrite repeat_length. repeat split; lia.
Qed.

Lemma buffer_clear b :
  wf N (clear N b) /\ content (clear N b) = [] /\ size (clear N b) = 0%nat
  /\ empty (clear N b) = true.
Proof.
  unfold wf, content, size, clear, empty. cbn [m_array m_dataEndIdx].
  rewrite repeat_length. repeat split; lia.
Qed.

Lemma buffer_set b pos v :
  wf N b -> (pos < N)%nat ->
  exists b', set N b pos v = Some b' /\ wf N b'
             /\ content b' = upd pos v (content b)
             /\ size b' = size b
             /\ get N b' pos = Some v.
Proof.
  intros [Ha He] Hp. unfold set, get.
  destruct (Nat.ltb_spec pos N) as [_ | Hge]; [| lia].
  eexists. split; [reflexivity |].
  unfold wf, content, size. cbn [m_array m_dataEndIdx]. rewrite upd_length.
  split; [split; [exact Ha | exact He] |].
  split; [apply firstn_upd |]. split; [reflexivity |].
  f_equal. apply at_upd_same. lia.
Qed.


Lemma buffer_empty_content b : wf N b -> (empty b = true <-> content b = []).
Proof.
  intros Hwf. pose proof (buffer_content_length b Hwf) as Hl.
  unfold empty, size in *. split.
  - intros E. apply Nat.eqb_eq in E. apply length_zero_iff_nil. lia.
  - intros E. rewrite E in Hl. cbn [length] in Hl. apply Nat.eqb_eq. lia.
Qed.
End Facts.
End BufferFacts.



(** X16.  Built without [NDEBUG], [Buffer] refuses what does not fit:
    [fill] and [push_back] throw when the elements in use and the new
    ones exceed [N].  The check reads element [m_dataEndIdx + count - 1],
    so a [fill] of zero elements is harmless on a buffer in use but
    throws on an empty one, where the index wraps to the largest
    [size_t]; for the same reason the constructor from an empty
    initializer list throws. *)
Theorem X16_buffer_bounds_check (N : nat) (b : Buffer.t) (v : Z) (count : nat)
    (data : list Z) :
  Z.of_nat N < 2 ^ 64 -> Buffer.wf N b ->
  ((1 <= count)%nat -> (N < Buffer.size b + count)%nat ->
     Z.of_nat (Buffer.size b) + Z.of_nat count <= 2 ^ 64 ->
     Buffer.fill N b v count = None)
  /\ Buffer.fill N b v 0 = (if Buffer.empty b then None else Some b)
  /\ ((N < Buffer.size b + length data)%nat -> Buffer.push_back N b data = None)
  /\ ((N < length data)%nat -> Buffer.from_range N data = None)
  /\ Buffer.from_list N [] = None.
Proof.
  intros HN Hwf.
  split; [| split; [| split; [| split]]].
  - intros. apply BufferFacts.buffer_fill_overflow; assumption.
  - apply BufferFacts.buffer_fill_zero; assumption.
  - intros. apply BufferFacts.buffer_push_back_overflow; assumption.
  - intros Hgt. destruct (BufferFacts.buffer_create_wf N) as (Hwf0 & _ & Hs0).
    apply BufferFacts.buffer_push_back_overflow; [exact HN | exact Hwf0 |].
    rewrite Hs0. lia.
  - unfold Buffer.from_list, Buffer.at_ok. cbn [length].
    change (wrap 64 (0 + Z.of_nat 0 - 1)) with (2 ^ 64 - 1).
    destruct (Z.ltb_spec (2 ^ 64 - 1) (Z.of_nat N)); [lia | reflexivity].
Qed.

Lemma X16_buffer_bounds_check_witness :
  Buffer.push_back 2 (Buffer.create 2) [1; 2; 3] = None.
Proof.
  apply (proj1 (proj2 (proj2 (X16_buffer_bounds_check 2 (Buffer.create 2) 0 0 [1; 2; 3]
                                ltac:(lia) ltac:(vm_compute; lia))))).
  vm_compute. lia.
Defined.

(** ** Whirlpool on its [Buffer] *)

Module WhirlpoolBufferedFacts.

Lemma wb_N_size_t : Z.of_nat WhirlpoolBuffered.N < 2 ^ 64.
Proof. unfold WhirlpoolBuffered.N, Whirlpool.BLOCK_SIZE. cbn. lia. Qed.

Lemma wb_from_range data core :
  (length data < Whirlpool.BLOCK_SIZE)%nat ->
  exists buf, Buffer.from_range WhirlpoolBuffered.N data = Some buf
              /\ WhirlpoolBuffered.ready (WhirlpoolBuffered.Inst buf core) /\ WhirlpoolBuffered.view (WhirlpoolBuffered.Inst buf core) = Sink data core.
Proof.
  intros Hd. unfold Whirlpool.BLOCK_SIZE in Hd.
  destruct (BufferFacts.buffer_create_wf WhirlpoolBuffered.N) as (Hwf0 & Hc0 & Hs0).
  destruct (BufferFacts.buffer_push_back_ok WhirlpoolBuffered.N wb_N_size_t data (Buffer.create WhirlpoolBuffered.N) Hwf0)
    as (buf & Hp & Hwf & Hc & Hs); [rewrite Hs0; unfold WhirlpoolBuffered.N, Whirlpool.BLOCK_SIZE; lia |].
  exists buf. split; [exact Hp |]. split.
  - split; [exact Hwf |]. cbn [WhirlpoolBuffered.m_buffer]. rewrite Hs, Hs0. unfold Whirlpool.BLOCK_SIZE. lia.
  - unfold WhirlpoolBuffered.view. cbn [WhirlpoolBuffered.m_buffer WhirlpoolBuffered.m_core]. rewrite Hc, Hc0. reflexivity.
Qed.

Lemma wb_bulk st data :
  WhirlpoolBuffered.ready st ->
  exists st', WhirlpoolBuffered.bulk st data = Some st' /\ WhirlpoolBuffered.ready st'
              /\ WhirlpoolBuffered.view st' = Accumulator.bulk Whirlpool.BLOCK_SIZE Whirlpool.addDataImpl
                              (WhirlpoolBuffered.view st) data.
Proof.
  intros Hr. unfold WhirlpoolBuffered.bulk, Accumulator.bulk.
  destruct (Nat.ltb_spec (length data) Whirlpool.BLOCK_SIZE) as [Hlt | Hge].
  - destruct (wb_from_range data (WhirlpoolBuffered.m_core st) Hlt) as (buf & Hf & Hrd & Hv).
    rewrite Hf. eauto.
  - set (len := (length data - length data mod Whirlpool.BLOCK_SIZE)%nat).
    cbn [m_core m_buffer WhirlpoolBuffered.view].
    destruct (Nat.ltb_spec len (length data)) as [Hlt | Hall].
    + destruct (wb_from_range (skipn len data)
                  (Whirlpool.addDataImpl (WhirlpoolBuffered.m_core st) (firstn len data)))
        as (buf & Hf & Hrd & Hv).
      { rewrite length_skipn. unfold len, Whirlpool.BLOCK_SIZE in *.
        pose proof (Nat.mod_upper_bound (length data) 64). lia. }
      rewrite Hf. eauto.
    + eexists. split; [reflexivity |]. split; [exact Hr | reflexivity].
Qed.

Lemma wb_addData st data :
  WhirlpoolBuffered.ready st ->
  exists st', WhirlpoolBuffered.addData st data = Some st' /\ WhirlpoolBuffered.ready st'
              /\ WhirlpoolBuffered.view st' = Whirlpool.addData (WhirlpoolBuffered.view st) data.
Proof.
  intros Hr. pose proof Hr as [Hwf Hsz].
  pose proof (BufferFacts.buffer_content_length WhirlpoolBuffered.N (WhirlpoolBuffered.m_buffer st) Hwf) as Hlen.
  unfold WhirlpoolBuffered.addData, Whirlpool.addData, Accumulator.addData.
  change (m_buffer (WhirlpoolBuffered.view st)) with (Buffer.content (WhirlpoolBuffered.m_buffer st)).
  destruct (Buffer.empty (WhirlpoolBuffered.m_buffer st)) eqn:Eempty; cbn [negb].
  - apply (BufferFacts.buffer_empty_content WhirlpoolBuffered.N) in Eempty; [| exact Hwf].
    rewrite Eempty. apply wb_bulk. exact Hr.
  - destruct (Buffer.content (WhirlpoolBuffered.m_buffer st)) as [| x rest] eqn:Econt.
    { apply (BufferFacts.buffer_empty_content WhirlpoolBuffered.N) in Econt; [| exact Hwf]. congruence. }
    rewrite <- Econt in Hlen |- *. rewrite Hlen.
    set (len := Nat.min (Whirlpool.BLOCK_SIZE - Buffer.size (WhirlpoolBuffered.m_buffer st)) (length data)).
    destruct (BufferFacts.buffer_push_back_ok WhirlpoolBuffered.N wb_N_size_t (firstn len data)
                (WhirlpoolBuffered.m_buffer st) Hwf) as (buf & Hp & Hwf' & Hc & Hs).
    { rewrite length_firstn. unfold len, WhirlpoolBuffered.N, Whirlpool.BLOCK_SIZE in *. lia. }
    rewrite Hp. cbn [m_buffer m_core WhirlpoolBuffered.view].
    pose proof (BufferFacts.buffer_content_length WhirlpoolBuffered.N buf Hwf') as Hlen'.
    rewrite <- Hc, Hlen'.
    destruct (Nat.ltb_spec (Buffer.size buf) Whirlpool.BLOCK_SIZE) as [Hlt | Hfull].
    + eexists. split; [reflexivity |]. split; [split; assumption |].
      unfold WhirlpoolBuffered.view. cbn [WhirlpoolBuffered.m_buffer WhirlpoolBuffered.m_core]. reflexivity.
    + destruct (BufferFacts.buffer_clear WhirlpoolBuffered.N buf) as (Hwfc & Hcc & Hsc & _).
      destruct (wb_bulk (WhirlpoolBuffered.Inst (Buffer.clear WhirlpoolBuffered.N buf)
                              (Whirlpool.addDataImpl (WhirlpoolBuffered.m_core st) (Buffer.content buf)))
                        (skipn len data)) as (st' & Hb & Hrd & Hv).
      { split; [exact Hwfc |]. cbn [WhirlpoolBuffered.m_buffer]. rewrite Hsc. unfold Whirlpool.BLOCK_SIZE. lia. }
      exists st'. split; [exact Hb |]. split; [exact Hrd |].
      rewrite Hv. unfold WhirlpoolBuffered.view, clear. cbn [WhirlpoolBuffered.m_buffer WhirlpoolBuffered.m_core m_buffer m_core].
      rewrite Hcc. reflexivity.
Qed.

Lemma wb_field_writes (H L : Z) l :
  forall buf, Buffer.wf WhirlpoolBuffered.N buf -> (16 <= Buffer.size buf)%nat ->
    Forall (fun i => (i < 8)%nat) l ->
    let stepB := fun ob i =>
      match ob with
      | None => None
      | Some buf =>
          match Buffer.set WhirlpoolBuffered.N buf (Buffer.size buf - 16 + i)
                  (ror 8 H (8 * (7 - Z.of_nat i))) with
          | None => None
          | Some buf =>
              Buffer.set WhirlpoolBuffered.N buf (Buffer.size buf - 8 + i)
                (ror 8 L (8 * (7 - Z.of_nat i)))
          end
      end in
    let stepL := fun buffer i =>
      let buffer := upd (length buffer - 16 + i) (ror 8 H (8 * (7 - Z.of_nat i))) buffer in
      upd (length buffer - 8 + i) (ror 8 L (8 * (7 - Z.of_nat i))) buffer in
    exists buf', fold_left stepB l (Some buf) = Some buf'
                 /\ Buffer.wf WhirlpoolBuffered.N buf'
                 /\ Buffer.content buf' = fold_left stepL l (Buffer.content buf).
Proof.
  cbv zeta. induction l as [| i l IH]; intros buf Hwf Hsz Hl; cbn [fold_left].
  - exists buf. auto.
  - pose proof (BufferFacts.buffer_content_length WhirlpoolBuffered.N buf Hwf) as Hlen.
    pose proof Hwf as [_ Hend]. unfold Buffer.size in Hsz.
    assert (Hi : (i < 8)%nat) by (inversion Hl; assumption).
    assert (Hl' : Forall (fun i => (i < 8)%nat) l) by (inversion Hl; assumption).
    destruct (BufferFacts.buffer_set WhirlpoolBuffered.N buf (Buffer.size buf - 16 + i)
                (ror 8 H (8 * (7 - Z.of_nat i))) Hwf) as (b1 & E1 & Hwf1 & Hc1 & Hs1 & _);
      [unfold Buffer.size; lia |].
    rewrite E1.
    destruct (BufferFacts.buffer_set WhirlpoolBuffered.N b1 (Buffer.size b1 - 8 + i)
                (ror 8 L (8 * (7 - Z.of_nat i))) Hwf1) as (b2 & E2 & Hwf2 & Hc2 & Hs2 & _);
      [rewrite Hs1; unfold Buffer.size; lia |].
    rewrite E2.
    destruct (IH b2 Hwf2) as (b' & E & Hwf' & Hc'); [rewrite Hs2, Hs1; exact Hsz | exact Hl' |].
    exists b'. split; [exact E |]. split; [exact Hwf' |].
    rewrite Hc'. f_equal. rewrite Hc2, Hc1, Hs1, upd_length, Hlen. reflexivity.
Qed.

Lemma wb_finalize st :
  WhirlpoolBuffered.ready st ->
  exists st', WhirlpoolBuffered.finalize st = Some st' /\ WhirlpoolBuffered.ready st'
              /\ WhirlpoolBuffered.view st' = Whirlpool.finalize (WhirlpoolBuffered.view st).
Proof.
  intros [Hwf Hsz].
  pose proof (BufferFacts.buffer_content_length WhirlpoolBuffered.N (WhirlpoolBuffered.m_buffer st) Hwf) as Hlen.
  unfold WhirlpoolBuffered.finalize.
  destruct (BufferFacts.buffer_fill_ok WhirlpoolBuffered.N wb_N_size_t (WhirlpoolBuffered.m_buffer st) (Z.shiftl 1 7) 1 Hwf)
    as (b1 & Hf1 & Hwf1 & Hc1 & Hs1); [lia | unfold WhirlpoolBuffered.N, Whirlpool.BLOCK_SIZE in *; lia |].
  rewrite Hf1.
  set (len := (Whirlpool.BLOCK_SIZE - (Buffer.size b1 + 32) mod Whirlpool.BLOCK_SIZE)%nat).
  destruct (BufferFacts.buffer_fill_ok WhirlpoolBuffered.N wb_N_size_t b1 0 (len + 32) Hwf1)
    as (b2 & Hf2 & Hwf2 & Hc2 & Hs2); [lia | |].
  { unfold len, WhirlpoolBuffered.N, Whirlpool.BLOCK_SIZE in *. rewrite Hs1.
    set (n := Buffer.size (WhirlpoolBuffered.m_buffer st)) in *.
    destruct (Nat.lt_ge_cases (n + 1 + 32) 64) as [Hlt | Hge].
    - rewrite Nat.mod_small by lia. lia.
    - replace (n + 1 + 32)%nat with ((n + 1 + 32 - 64) + 1 * 64)%nat by lia.
      rewrite Nat.Div0.mod_add. rewrite Nat.mod_small by lia. lia. }
  rewrite Hf2.
  destruct (wb_field_writes
              (Uint128.high (Uint128.times8
                 (Uint128.add_assign (Whirlpool.m_sizeCounter (WhirlpoolBuffered.m_core st))
                    (wrap 64 (Z.of_nat (Buffer.size (WhirlpoolBuffered.m_buffer st)))))))
              (Uint128.low (Uint128.times8
                 (Uint128.add_assign (Whirlpool.m_sizeCounter (WhirlpoolBuffered.m_core st))
                    (wrap 64 (Z.of_nat (Buffer.size (WhirlpoolBuffered.m_buffer st)))))))
              (seq 0 8) b2 Hwf2) as (b3 & Hw & Hwf3 & Hc3).
  { rewrite Hs2. lia. }
  { repeat constructor. }
  cbv zeta in Hw, Hc3. cbv zeta.
  match goal with
  | |- context [fold_left ?f (seq 0 8) (Some b2)] =>
      replace (fold_left f (seq 0 8) (Some b2)) with (Some b3) by (symmetry; exact Hw)
  end.
  eexists. split; [reflexivity |].
  destruct (BufferFacts.buffer_clear WhirlpoolBuffered.N b3) as (Hwfc & Hcc & Hsc & _).
  split.
  - split; [exact Hwfc |]. cbn [WhirlpoolBuffered.m_buffer]. rewrite Hsc. unfold Whirlpool.BLOCK_SIZE. lia.
  - unfold WhirlpoolBuffered.view at 1. cbn [WhirlpoolBuffered.m_buffer WhirlpoolBuffered.m_core]. rewrite Hcc.
    unfold Whirlpool.finalize, Whirlpool.pad, clear, WhirlpoolBuffered.view.
    cbn [m_buffer m_core Whirlpool.m_sizeCounter Whirlpool.m_h].
    rewrite Hc3, Hc2, Hc1. unfold len. rewrite Hs1.
    rewrite !length_app. cbn [length repeat]. rewrite Hlen. reflexivity.
Qed.

Lemma wb_fresh : WhirlpoolBuffered.ready WhirlpoolBuffered.fresh /\ WhirlpoolBuffered.view WhirlpoolBuffered.fresh = Whirlpool.fresh.
Proof.
  split; [| reflexivity]. unfold WhirlpoolBuffered.ready, WhirlpoolBuffered.fresh, WhirlpoolBuffered.reset. cbn [WhirlpoolBuffered.m_buffer].
  destruct (BufferFacts.buffer_clear WhirlpoolBuffered.N (Buffer.create WhirlpoolBuffered.N)) as (Hwf & _ & Hs & _).
  split; [exact Hwf |]. rewrite Hs. unfold Whirlpool.BLOCK_SIZE. lia.
Qed.

Lemma wb_reset st : WhirlpoolBuffered.ready (WhirlpoolBuffered.reset st) /\ WhirlpoolBuffered.view (WhirlpoolBuffered.reset st) = Whirlpool.reset (WhirlpoolBuffered.view st).
Proof.
  split; [| reflexivity]. unfold WhirlpoolBuffered.ready, WhirlpoolBuffered.reset. cbn [WhirlpoolBuffered.m_buffer].
  destruct (BufferFacts.buffer_clear WhirlpoolBuffered.N (WhirlpoolBuffered.m_buffer st)) as (Hwf & _ & Hs & _).
  split; [exact Hwf |]. rewrite Hs. unfold Whirlpool.BLOCK_SIZE. lia.
Qed.
End WhirlpoolBufferedFacts.

(** X17.  The fixed-size [Buffer] of Whirlpool is never overrun: on an
    instance whose buffer holds less than one block -- a constructed
    one, and any instance [addData], [finalize] or [reset] returns --
    every [fill], [push_back] and range construction of [addData] and
    [finalize] passes its bounds check and every write through
    [operator[]] lands inside the array (the padded buffer of [finalize]
    is at most the 128 bytes of the array), and the bytes in use and
    the members evolve exactly as with a growing vector. *)
Theorem X17_whirlpool_buffer_never_overrun (st : WhirlpoolBuffered.t) (data : list Z) :
  (WhirlpoolBuffered.ready WhirlpoolBuffered.fresh
   /\ WhirlpoolBuffered.view WhirlpoolBuffered.fresh = Whirlpool.fresh)
  /\ (WhirlpoolBuffered.ready (WhirlpoolBuffered.reset st)
      /\ WhirlpoolBuffered.view (WhirlpoolBuffered.reset st)
         = Whirlpool.reset (WhirlpoolBuffered.view st))
  /\ (WhirlpoolBuffered.ready st ->
      (exists st', WhirlpoolBuffered.addData st data = Some st'
                   /\ WhirlpoolBuffered.ready st'
                   /\ WhirlpoolBuffered.view st'
                      = Whirlpool.addData (WhirlpoolBuffered.view st) data)
      /\ (exists st', WhirlpoolBuffered.finalize st = Some st'
                      /\ WhirlpoolBuffered.ready st'
                      /\ WhirlpoolBuffered.view st'
                         = Whirlpool.finalize (WhirlpoolBuffered.view st))).
Proof.
  split; [apply WhirlpoolBufferedFacts.wb_fresh |].
  split; [apply WhirlpoolBufferedFacts.wb_reset |].
  intros Hr. split.
  - apply WhirlpoolBufferedFacts.wb_addData. exact Hr.
  - apply WhirlpoolBufferedFacts.wb_finalize. exact Hr.
Qed.

Lemma X17_whirlpool_buffer_never_overrun_witness :
  exists st', WhirlpoolBuffered.finalize WhirlpoolBuffered.fresh = Some st'
              /\ WhirlpoolBuffered.ready st'
              /\ WhirlpoolBuffered.view st'
                 = Whirlpool.finalize (WhirlpoolBuffered.view WhirlpoolBuffered.fresh).
Proof.
  assert (Hr : WhirlpoolBuffered.ready WhirlpoolBuffered.fresh)
    by (unfold WhirlpoolBuffered.ready, Buffer.wf; vm_compute; lia).
  exact (proj2 (proj2 (proj2 (X17_whirlpool_buffer_never_overrun
                                WhirlpoolBuffered.fresh [])) Hr)).
Defined.

(** ** RIPEMD-160: the two lines do not meet before the end *)

Module RIPEMD_160Lines.
Import RIPEMD_160.

Lemma rmd_get_on right r v v' :
  RIPEMD_160_reg_on right r = true ->
  RIPEMD_160_part right v = RIPEMD_160_part right v' -> get r v = get r v'.
Proof.
  intros Hr Hp. destruct v, v'.
  destruct right, r; try discriminate Hr; cbn in Hp |- *; congruence.
Qed.

Lemma rmd_set_on right r x v v' :
  RIPEMD_160_reg_on right r = true ->
  RIPEMD_160_part right v = RIPEMD_160_part right v' ->
  RIPEMD_160_part right (set r x v) = RIPEMD_160_part right (set r x v').
Proof.
  intros Hr Hp. destruct v, v'.
  destruct right, r; try discriminate Hr; cbn in Hp |- *; congruence.
Qed.

Lemma rmd_set_off right r x v :
  RIPEMD_160_reg_on right r = true ->
  RIPEMD_160_part (negb right) (set r x v) = RIPEMD_160_part (negb right) v.
Proof.
  intros Hr. destruct v. destruct right, r; try discriminate Hr; reflexivity.
Qed.

Lemma rmd_call_regs right ra rb rc rd re f k r s :
  RIPEMD_160_call_on right (lineLeft ra rb rc rd re f k r s) = true ->
  RIPEMD_160_reg_on right ra = true /\ RIPEMD_160_reg_on right rb = true
  /\ RIPEMD_160_reg_on right rc = true /\ RIPEMD_160_reg_on right rd = true
  /\ RIPEMD_160_reg_on right re = true.
Proof.
  unfold RIPEMD_160_call_on. cbn [forallb]. intros H.
  repeat (apply andb_prop in H; destruct H as [? H]). tauto.
Qed.

Lemma rmd_line_on right x cl v v' :
  RIPEMD_160_call_on right cl = true ->
  RIPEMD_160_part right v = RIPEMD_160_part right v' ->
  RIPEMD_160_part right (line x v cl) = RIPEMD_160_part right (line x v' cl).
Proof.
  intros Hcl Hp. destruct cl as [ra rb rc rd re f k r s].
  destruct (rmd_call_regs _ _ _ _ _ _ _ _ _ _ Hcl) as (Ha & Hb & Hc & Hd & He).
  unfold line.
  rewrite (rmd_get_on right ra v v' Ha Hp), (rmd_get_on right rb v v' Hb Hp),
          (rmd_get_on right rc v v' Hc Hp), (rmd_get_on right rd v v' Hd Hp),
          (rmd_get_on right re v v' He Hp).
  match goal with
  | |- RIPEMD_160_part _ (set rc (rotl32 (get rc ?w) 10) ?w)
       = RIPEMD_160_part _ (set rc (rotl32 (get rc ?w') 10) ?w') =>
      assert (Hw : RIPEMD_160_part right w = RIPEMD_160_part right w')
        by (apply rmd_set_on; assumption);
      rewrite (rmd_get_on right rc w w' Hc Hw); apply rmd_set_on; assumption
  end.
Qed.

Lemma rmd_line_off right x cl v :
  RIPEMD_160_call_on right cl = true ->
  RIPEMD_160_part (negb right) (line x v cl) = RIPEMD_160_part (negb right) v.
Proof.
  intros Hcl. destruct cl as [ra rb rc rd re f k r s].
  destruct (rmd_call_regs _ _ _ _ _ _ _ _ _ _ Hcl) as (Ha & Hb & Hc & Hd & He).
  unfold line. rewrite !rmd_set_off by assumption. reflexivity.
Qed.

Lemma rmd_call_one_side cl :
  RIPEMD_160_call_on false cl = negb (RIPEMD_160_call_on true cl) ->
  forall right, RIPEMD_160_call_on right cl = false ->
                RIPEMD_160_call_on (negb right) cl = true.
Proof.
  intros H right Hr. destruct right; cbn [negb].
  - rewrite H, Hr. reflexivity.
  - rewrite Hr in H. destruct (RIPEMD_160_call_on true cl); [reflexivity | discriminate H].
Qed.

Lemma rmd_lines_apart x (l : list call) :
  forallb (fun cl => Bool.eqb (RIPEMD_160_call_on false cl)
                              (negb (RIPEMD_160_call_on true cl))) l = true ->
  forall right v w,
    RIPEMD_160_part right v = RIPEMD_160_part right w ->
    RIPEMD_160_part right (fold_left (line x) l v)
    = RIPEMD_160_part right (fold_left (line x) (filter (RIPEMD_160_call_on right) l) w).
Proof.
  induction l as [| cl l IH]; intros Hall right v w Hp; cbn [fold_left filter]; [exact Hp |].
  cbn [forallb] in Hall. apply andb_prop in Hall. destruct Hall as [Hcl Hall].
  apply Bool.eqb_prop in Hcl.
  destruct (RIPEMD_160_call_on right cl) eqn:Eon; cbn [fold_left].
  - apply IH; [exact Hall |]. apply rmd_line_on; assumption.
  - apply IH; [exact Hall |].
    pose proof (rmd_call_one_side cl Hcl right Eon) as Hoff.
    pose proof (rmd_line_off (negb right) x cl v Hoff) as E.
    rewrite Bool.negb_involutive in E. rewrite E. exact Hp.
Qed.

Lemma rmd_calls_sided :
  forallb (fun cl => Bool.eqb (RIPEMD_160_call_on false cl)
                              (negb (RIPEMD_160_call_on true cl))) calls = true.
Proof. vm_compute. reflexivity. Qed.
End RIPEMD_160Lines.

(** X18.  In RIPEMD-160 the interleaved calls of [lineLeft] and
    [lineRight] are two independent computations: after the 160 calls
    the locals [a .. e] hold what the 80 [lineLeft] calls alone give
    and [aa .. ee] what the 80 [lineRight] calls alone give, both from
    the same starting values.  Each line has five rounds of sixteen
    calls, and each round reads the sixteen message words once each. *)
Theorem X18_ripemd160_lines (x : nat -> Z) (v : RIPEMD_160.regs) (right : bool) (round : nat) :
  RIPEMD_160_part right (fold_left (RIPEMD_160.line x) RIPEMD_160.calls v)
  = RIPEMD_160_part right
      (fold_left (RIPEMD_160.line x) (RIPEMD_160_line_calls right) v)
  /\ length (RIPEMD_160_line_calls right) = 80%nat
  /\ ((round < 5)%nat ->
      is_permutation_upto 16 (RIPEMD_160_words_read right round) = true).
Proof.
  split; [| split].
  - apply RIPEMD_160Lines.rmd_lines_apart;
      [exact RIPEMD_160Lines.rmd_calls_sided | reflexivity].
  - destruct right; vm_compute; reflexivity.
  - intros Hr.
    assert (H : forallb (fun r => is_permutation_upto 16 (RIPEMD_160_words_read right r))
                        (seq 0 5) = true)
      by (destruct right; vm_compute; reflexivity).
    apply (forallb_seq _ _ H round Hr).
Qed.

Lemma X18_ripemd160_lines_witness :
  is_permutation_upto 16 (RIPEMD_160_words_read true 4) = true.
Proof.
  apply (proj2 (proj2 (X18_ripemd160_lines (fun _ => 0)
                         (RIPEMD_160.Regs 0 0 0 0 0 0 0 0 0 0) true 4))).
  lia.
Defined.

(** ** The schedule of MD5 and the table of MD2 *)

Lemma md5_schedule_check :
  forallb (fun r =>
    is_permutation_upto 16 (MD5_words_read r)
    && list_eqb_nat (MD5_written r) [0; 3; 2; 1; 0; 3; 2; 1; 0; 3; 2; 1; 0; 3; 2; 1]%nat)
    (seq 0 4) = true.
Proof. vm_compute. reflexivity. Qed.

Lemma md5_fold_rounds x v :
  fold_left (MD5.round x) MD5.calls v
  = fold_left (fun v r => fold_left (MD5.round x) (MD5_round_calls r) v) (seq 0 4) v.
Proof.
  assert (E : MD5.calls = concat (map MD5_round_calls (seq 0 4))) by reflexivity.
  rewrite E at 1. rewrite fold_left_concat, fold_left_map_arg. reflexivity.
Qed.

(** X19.  The MD5 block function works in four rounds of sixteen
    [round] calls, 64 calls in all: what [compress] makes of a block is
    what the block iteration written round by round makes of it.  Each
    round reads the sixteen message words once each, and its calls write
    the registers [a], [d], [c], [b] in turn, so every register is
    written four times a round. *)
Theorem X19_md5_schedule (r : nat) :
  (forall st blk, MD5.compress st blk = MD5_compress_rounds 4 st blk)
  /\ length MD5.calls = (4 * 16)%nat
  /\ ((r < 4)%nat ->
      length (MD5_round_calls r) = 16%nat
      /\ is_permutation_upto 16 (MD5_words_read r) = true
      /\ MD5_written r = [0; 3; 2; 1; 0; 3; 2; 1; 0; 3; 2; 1; 0; 3; 2; 1]%nat).
Proof.
  split.
  { intros st blk. unfold MD5.compress, MD5_compress_rounds. cbv zeta.
    rewrite md5_fold_rounds. reflexivity. }
  split; [reflexivity |]. intros Hr.
  pose proof (forallb_seq _ _ md5_schedule_check r Hr) as H. cbv beta in H.
  apply andb_prop in H. destruct H as [H1 H2]. apply list_eqb_nat_eq in H2.
  split; [| split; assumption].
  rewrite <- (length_map (fun cl => let '(MD5.Round ra _ _ _ _ _ _ _) := cl in
                                     MD5_reg_index ra)).
  fold (MD5_written r). rewrite H2. reflexivity.
Qed.

Lemma X19_md5_schedule_witness :
  is_permutation_upto 16 (MD5_words_read 2) = true.
Proof.
  apply (proj1 (proj2 (proj2 (proj2 (X19_md5_schedule 2)) ltac:(lia)))).
Defined.

Lemma md2_piSubst_check :
  (length MD2.piSubst =? 256)%nat
  && is_permutation_upto 256 (map Z.to_nat MD2.piSubst) = true.
Proof. vm_compute. reflexivity. Qed.

(** X20.  The substitution table of MD2 has 256 entries, each one a
    byte, and every byte value occurs in it; an index computed as the
    exclusive or of two bytes, as in [piSubst[m[j] ^ m_checksumL]] and
    [piSubst[t]], is therefore inside the table and reads a byte. *)
Theorem X20_md2_table (a b : Z) :
  length MD2.piSubst = 256%nat
  /\ is_permutation_upto 256 (map Z.to_nat MD2.piSubst) = true
  /\ (is_byte a -> is_byte b ->
      (Z.to_nat (Z.lxor a b) < length MD2.piSubst)%nat
      /\ is_byte (at_ MD2.piSubst (Z.to_nat (Z.lxor a b)))).
Proof.
  pose proof md2_piSubst_check as H. apply andb_prop in H. destruct H as [H1 H2].
  apply Nat.eqb_eq in H1.
  split; [exact H1 |]. split; [exact H2 |].
  intros Ha Hb. pose proof (lxor_byte a b Ha Hb) as Hx. unfold is_byte in Hx.
  split; [rewrite H1; lia |].
  apply at_byte. exact md2_piSubst_bytes.
Qed.

Lemma X20_md2_table_witness :
  (Z.to_nat (Z.lxor 0xa5 0x3c) < length MD2.piSubst)%nat
  /\ is_byte (at_ MD2.piSubst (Z.to_nat (Z.lxor 0xa5 0x3c))).
Proof.
  apply (proj2 (proj2 (X20_md2_table 0xa5 0x3c))); unfold is_byte; lia.
Defined.
